(* ===== verification/_CoqProject ===== *)
-Q . S2P
Prelude.v
CxxString.v
Config.v
Getopt.v
OrderedSet.v
FrequencySmoother.v
Cache.v
EvictedItems.v
Values.v
KeyMaster.v
RunningKeys.v
Storage.v
Encryption.v
Proxy.v
ProxyBatch.v
BatchPhases.v
BatchCorrect.v
ProxyInit.v
ProxyRegister.v
ProxySystem.v
Server.v
ProxyExample.v
ServerExample.v
Thrift.v
WaffleThrift.v
ThriftRpc.v
ConcurrentClient.v
ThriftExample.v
ConcurrentExample.v
WaffleThriftResponse.v
ThriftClasses.v
Queue.v
Frontend.v
Threads.v
Handler.v
HandlerFactory.v
AsyncClient.v
Benchmark.v
BenchmarkMain.v
BenchmarkExample.v
ServiceExample.v
EndToEnd.v
Deployment.v
ServerMain.v
EndToEndExample.v
DeploymentExample.v
ServerMainExample.v
