(* ===== verification/Prelude.v ===== *)
(** * TS-Waffle: a development for the time-series proxy of src/waffle

    Waffle is a proxy between clients and an untrusted key-value server.  A
    key is a bucket [item@timestamp]; a GET asks for the sum of the buckets of
    an item over a range of time, a PUT adds a bucket and displaces the oldest
    one of the item.  The proxy gathers R operations, then reads exactly B
    names from the server and stores exactly B others (real keys and fake
    ones), so that the server sees no name twice.  Requests come in over
    Thrift; asynchronous ones are answered by a thread of their own.

    ** Parts

    Code runs in the monad [M] below: a state that survives, and a result that
    is a value or a way to stop (an exception, undefined behaviour, the end of
    the process, a wait, an exhausted fuel).  Each file models one part:

    - CxxString: [std::to_string], [std::stol], [std::getline] and other
      string functions of the C++ library; OrderedSet: [std::set].
    - FrequencySmoother (proxy/src/FrequencySmoother.cpp): the index of keys by
      frequency and of items by time stamp.
    - Cache (proxy/src/Cache.cpp), EvictedItems (proxy/src/evictedItems.cpp).
    - Values (utils/utils.h, utils/TS_value_master.h): data types of buckets
      and their binary form.
    - KeyMaster (utils/TS_key_master.h, TS_value_master.h, TS_get_oldest_key.h,
      TS_search_master.h): the names, keys and values of test data, over the
      random distributions as a parameter.
    - RunningKeys (proxy/src/ThreadSafeUnorderedMap.h): the promises of the
      GETs and the buckets they wait for.
    - Storage (libstorage/src): the interface [storage_interface], and redis
      over the client library cpp_redis as a parameter.
    - Encryption (proxy/src/encryption_engine.cpp, util.cpp): the interface
      [crypter], and the engine over OpenSSL as a parameter.
    - Proxy, ProxyBatch, ProxyInit (proxy/src/waffle_proxy.cpp): registering
      operations, [execute_batch], [init].  ProxyRegister, BatchPhases,
      BatchCorrect prove what they do; ProxySystem puts them together as a
      transition system of the consumer thread and the clear thread.
    - Threads (waffle_proxy.cpp): the loops of [consumer_thread],
      [responder_thread] and [clearThread] with their conditions, step by step,
      and [close], which joins the threads that [init] has started.
    - Config (config/tsconfig.cpp), Getopt (the C library), Server
      (server/src/proxy_server.cpp up to the end of [init]): options,
      parameters and the data to start with; ServerMain ([main] and
      service/src/thrift_server.cpp): the server that is set up over the proxy.
    - Queue (proxy/src/queue.h) and Frontend (waffle_proxy.cpp, from [get] to
      [put_future], and [responder_thread]): the calls of the service, with a
      queue id or with a random one.  The asynchronous batch calls come from
      many threads at once, and are programs of atomic actions ([prog]): one
      for each push to a queue, which the threads interleave.
    - Thrift (service/src/proxy_types.cpp): [sequence_id] and the shape that
      the generated structs share; WaffleThrift (waffle_thrift.cpp, .h): the
      structs, client and processor; ThriftRpc: calls through both;
      ConcurrentClient ([waffle_thriftConcurrentClient]): threads that share
      one connection, over the locks of the Thrift library as a parameter;
      WaffleThriftResponse (waffle_thrift_response.cpp and
      libclient/src/command_response_reader.cpp): answers; ThriftClasses
      (the headers of the three): constructors and comparisons of the structs,
      what == says of the bytes that are written.
    - Handler (service/src/thrift_handler.cpp, thrift_response_client_map.cpp):
      the handler of a connection, the map of clients; HandlerFactory
      (thrift_handler_factory.cpp, [waffle_thriftProcessorFactory]): the
      handlers of all the connections and what they share.
    - AsyncClient (libclient/src): the clients.
    - Benchmark (benchmark/src/TS_proxy_benchmark.cpp, the trace files of
      utils/TS_value_master.h): the queries of a trace, their batches, and a
      client that sends them; BenchmarkMain ([main] of
      utils/generate_TS_tracefile.cpp and of the benchmark): the two programs.
    - EndToEnd: Frontend and ProxySystem together, with one table of promises
      and the actions of the threads in batch calls in any order.  Deployment: HandlerFactory in front of it, so that calls come in and
      answers go out as messages on the connections of clients.
    - ProxyExample, ServerExample, ThriftExample, ConcurrentExample,
      ServiceExample, BenchmarkExample, EndToEndExample, DeploymentExample,
      ServerMainExample: parameters made concrete, runs computed to the end, and the witnesses of
      the theorems.

    The proxy is proved against [storage_interface] and [crypter] with their
    specifications, the service against [TProtocol], [cuckoohash_map] and
    [TConcurrentClientSyncInfo].  Server instantiates what ProxyInit and
    ProxySystem ask of the data by what KeyMaster makes.

    ** Theorems

    - Of the whole proxy (ProxySystem): in every run, names are used once and
      each batch reads and stores B of them; every stored bucket keeps its
      value; every registered GET is answered with its sum by the next batch;
      allowed operations run to their end, as long as the [int] counters of the
      consumer thread have room.
    - Of its operations: what GET selects, what PUT displaces, what a batch
      changes, what [init] establishes and how soon it ends when draws are
      fair, when loops never end.
    - Of the components: an invariant and the behaviour of each operation, a
      refinement where there is a simple specification (the cache is an LRU
      list, redis with one server a map, a queue first in first out), round
      trips (serializer, encryption, messages).
    - Of the start (Server, ServerMain): with a file of names that the
      generator wrote, [main] sets up a server and a proxy in the states from
      which the theorems on runs hold; what is loaded has keys of a known type,
      and why the [int] buckets among it cannot be added up.
    - Of the test data (KeyMaster, Benchmark): names are made in bounded time,
      distinct, and fit for the proxy, and so are the buckets made for them;
      the file of queries comes back as whole batches of one kind, and the
      benchmark, started on it, registers its client and sends them in order.
    - Of the service: a call through client and processor is a call of the
      handler; the responder thread answers batches in order under their own
      ids, when batch calls come one at a time, and the answer reaches the
      client; two calls that race can be answered under each other's id.  Answers
      stay with the connection that registered the id, whatever connections
      come and go.  Threads that share the concurrent client each get their
      own answer, and one of them can go on as long as an answer is there; a
      whole call returns what the handler did.
    - Of the whole (EndToEnd, Deployment): the service refines the proxy behind
      it; a batch of GETs that a client sends is put into the queues under its
      id; calls that do not overlap keep their order; the batches that wait, if
      no other has overtaken them between its two pushes, are all answered after
      the next batch of the proxy, each on the connection of its client and no
      other, GETs with the sums of their buckets; a GET that selects nothing
      is never answered, and stops the responder thread for ever.
    - Of the threads (Threads): the steps of the consumer loop are the turns of
      ProxySystem; a consumer thread ends after [close]; [close] never returns,
      since the condition of the responder's loop does not look at [finished_].
    - Errors: undefined behaviour, exceptions and endless loops that the code
      has, each with the inputs that lead to it.

    ** Bounds and fuel

    Integers have their width: [wrap32], [wrap64], [wrap_u64] and the tests [in_int],
    [in_long] where overflow is undefined.  Fuel bounds the loops whose number
    of turns is not that of a list: the loop over fake keys of a batch (one
    turn per fake key and running key), the loops of [init] over random picks
    (when every outcome comes up within K draws, K turns per key to cache and
    per fake key, [Init.starved]; endless when more keys are to be cached than
    there are),
    the loop over the fields of a message (one turn per field and one for the
    stop; more than three suffices for the structs of the service), the loop
    that makes item names (one turn per name), the loop that makes queries
    (one turn per row is enough).  Theorems say how much is enough, or that
    none is.

    ** Not modelled

    Mutexes and atomics: each call on a component (a push to a queue, a serve
    or a batch of the consumer thread, a turn of the responder) is one step, and
    threads interleave between steps.  Logs, latency files, prints, timings and
    throughput.  The server of the Thrift library that service/src/thrift_server.cpp
    sets up, and the end of main: what connections and calls it may hand on is
    [deploy_step].  The sample of the time range of a GET query,
    which is computed in floating point, is a parameter; the archive format of
    the trace files is that of Boost.  The older benchmark
    (benchmark/src/proxy_benchmark.cpp) is not built.  Of the generated
    service code: event handlers, which the program does not set, and the
    singleton factories; the setters, copies and the operator < of the structs
    are declared and nowhere defined. *)
From Stdlib Require Export ZArith Lia Bool Ascii.
From stdpp Require Export base tactics numbers list option gmap fin_maps strings.

Set Default Proof Using "Type".

(** * Outcomes of C++ code

    A run of a function either returns a value or stops.  The ways it can
    stop are those the sources exhibit: an exception leaves the function,
    the behaviour is undefined (an out-of-range [operator[]], the
    dereference of [end()], a null [shared_ptr]...), [exit] or [assert]
    ends the process, or the thread waits for ever. *)
Inductive exn :=
  | invalid_argument
  | out_of_range
  | length_error
  | promise_already_satisfied
  | runtime_error (msg : string)
  | TProtocolException (type : Z)
  | TApplicationException (type : Z) (message : string)
  | TTransportException.

Inductive stop :=
  | Throw (e : exn)
  | Undefined
  | Exit (code : Z)
  | AssertFail
  | Aborted
  | Blocked
  | OutOfFuel.

Inductive result (A : Type) :=
  | Done (a : A)
  | Stop (why : stop).
Arguments Done {A} a.
Arguments Stop {A} why.

#[export] Instance exn_eq_dec : EqDecision exn.
Proof. solve_decision. Defined.
#[export] Instance stop_eq_dec : EqDecision stop.
Proof. solve_decision. Defined.
#[export] Instance result_eq_dec `{EqDecision A} : EqDecision (result A).
Proof. solve_decision. Defined.

#[export] Instance result_ret : MRet result := λ A a, Done a.
#[export] Instance result_bind : MBind result := λ A B f m,
  match m with Done a => f a | Stop e => Stop e end.

(** [M S A]: code that reads and writes a state [S].  The state survives a
    [Stop]: an exception does not undo the writes made before it. *)
Definition M (S A : Type) : Type := S → result A * S.

#[export] Instance M_ret S : MRet (M S) := λ A a s, (Done a, s).
#[export] Instance M_bind S : MBind (M S) := λ A B f m s,
  match m s with
  | (Done a, s') => f a s'
  | (Stop e, s') => (Stop e, s')
  end.

Definition fail {S A} (e : stop) : M S A := λ s, (Stop e, s).
Definition get {S} : M S S := λ s, (Done s, s).
Definition put {S} (s' : S) : M S () := λ _, (Done (), s').
Definition gets {S A} (f : S → A) : M S A := λ s, (Done (f s), s).
Definition modify {S} (f : S → S) : M S () := λ s, (Done (), f s).
Definition lift_result {S A} (r : result A) : M S A := λ s, (r, s).

(** Run code written for a part [T] of the state [S]. *)
Definition zoom {S T A} (view : S → T) (set : T → S → S) (m : M T A) : M S A :=
  λ s, let '(r, t) := m (view s) in (r, set t s).

(** [try { ... } catch (const std::exception& e) { ... }] *)
Definition try_catch {S A} (m : M S A) (catch : exn → M S A) : M S A :=
  λ s, match m s with (Stop (Throw e), s') => catch e s' | r => r end.

(** [for (x : l) body(x)] *)
Fixpoint for_each {S A} (l : list A) (body : A → M S ()) : M S () :=
  match l with
  | [] => mret ()
  | x :: l => body x ;; for_each l body
  end.

Create HintDb waffle.

(** [run]: compute through the monad and the primitive actions. *)
Ltac run :=
  unfold mbind, M_bind, mret, M_ret, result_bind, result_ret, modify, get, put, gets, fail,
    lift_result, zoom in *; cbn beta iota zeta in *.

Lemma mbind_run {S A B} (m : M S A) (k : A → M S B) s a s' :
  m s = (Done a, s') → (m ≫= k) s = k a s'.
Proof. intros Hm. unfold mbind, M_bind. by rewrite Hm. Qed.

Lemma mbind_run_to {S A B} (m : M S A) (k : A → M S B) s a s' r :
  m s = (Done a, s') → k a s' = r → (m ≫= k) s = r.
Proof. intros Hm. by rewrite (mbind_run _ _ _ _ _ Hm). Qed.

Lemma mbind_stop {S A B} (m : M S A) (k : A → M S B) s e s' :
  m s = (Stop e, s') → (m ≫= k) s = (Stop e, s').
Proof. intros Hm. unfold mbind, M_bind. by rewrite Hm. Qed.

Lemma mbind_assoc {S A B C} (m : M S A) (f : A → M S B) (g : B → M S C) s :
  ((m ≫= f) ≫= g) s = (m ≫= λ x, f x ≫= g) s.
Proof. unfold mbind, M_bind. by destruct (m s) as [[?|?] ?]. Qed.

Lemma mbind_ext {S A B} (m : M S A) (k k' : A → M S B) s : (∀ a s, k a s = k' a s) → (m ≫= k) s = (m ≫= k') s.
Proof. intros Hk. unfold mbind, M_bind. by destruct (m s) as [[?|?] ?]. Qed.

Lemma mbind_stops {S A B} (m : M S A) (k : A → M S B) s e : (m s).1 = Stop e → ((m ≫= k) s).1 = Stop e.
Proof. intros Hm. unfold mbind, M_bind. destruct (m s) as [[?|?] ?]; [done|]. simpl in *. congruence. Qed.

Lemma bind_inv {S A B} (m : M S A) (k : A → M S B) s r s' :
  (m ≫= k) s = (Done r, s') → ∃ a s1, m s = (Done a, s1) ∧ k a s1 = (Done r, s').
Proof. unfold mbind, M_bind. destruct (m s) as [[a|e] s1]; [|done]. eauto. Qed.

(** * Integers at their width *)
Definition wrap32 (z : Z) : Z := ((z + 2^31) `mod` 2^32 - 2^31)%Z.
Definition wrap64 (z : Z) : Z := ((z + 2^63) `mod` 2^64 - 2^63)%Z.
Definition wrap_u64 (z : Z) : Z := (z `mod` 2^64)%Z.
Definition wrap_u32 (z : Z) : Z := (z `mod` 2^32)%Z.
Definition long_min : Z := (- 2^63)%Z.
Definition long_max : Z := (2^63 - 1)%Z.
Definition in_long (z : Z) : bool := ((long_min <=? z) && (z <=? long_max))%Z.
Definition in_int (z : Z) : bool := ((- 2^31 <=? z) && (z <? 2^31))%Z.

Lemma wrap32_in_range z : (- 2^31 <= z < 2^31)%Z → wrap32 z = z.
Proof. intros Hz. unfold wrap32. rewrite Z.mod_small by lia. lia. Qed.

Lemma wrap64_add a b : wrap64 (wrap64 a + b) = wrap64 (a + b).
Proof.
  unfold wrap64. f_equal.
  replace ((a + 2 ^ 63) `mod` 2 ^ 64 - 2 ^ 63 + b + 2 ^ 63)%Z with ((a + 2 ^ 63) `mod` 2 ^ 64 + b)%Z by lia.
  rewrite Zplus_mod_idemp_l. f_equal. lia.
Qed.
Lemma wrap64_in_range z : in_long z = true → wrap64 z = z.
Proof. unfold in_long, long_min, long_max, wrap64. intros Hz. rewrite Z.mod_small by lia. lia. Qed.
Lemma wrap64_range z : in_long (wrap64 z) = true.
Proof.
  unfold in_long, long_min, long_max, wrap64. pose proof (Z.mod_pos_bound (z + 2^63) (2^64) ltac:(lia)).
  apply andb_true_iff. split; apply Z.leb_le; lia.
Qed.
Lemma wrap64_inj g i j :
  (0 ≤ i < 2^64)%Z → (0 ≤ j < 2^64)%Z → wrap64 (g + i) = wrap64 (g + j) → i = j.
Proof.
  unfold wrap64. intros Hi Hj Heq. assert ((g + i + 2^63) `mod` 2^64 = (g + j + 2^63) `mod` 2^64)%Z as Hmod by lia.
  assert (i `mod` 2^64 = j `mod` 2^64)%Z as Hij; [|by rewrite !Z.mod_small in Hij].
  replace i with ((g + i + 2^63) - (g + 2^63))%Z by lia. replace j with ((g + j + 2^63) - (g + 2^63))%Z by lia.
  by rewrite (Zminus_mod (g + i + 2^63)), Hmod, <- Zminus_mod.
Qed.

(** * Sums *)
Abbreviation sum := (foldr Z.add 0%Z).

Lemma sum_app l1 l2 : sum (l1 ++ l2) = (sum l1 + sum l2)%Z.
Proof. induction l1 as [|x l1 IH]; simpl; [done|]. rewrite IH. lia. Qed.

Lemma sum_nonneg l : Forall (λ z, 0 ≤ z)%Z l → (0 ≤ sum l)%Z.
Proof. induction 1; simpl; lia. Qed.

(** * Lists *)
Lemma cons_nonempty {A} (x : A) (l : list A) : x :: l ≠ [].
Proof. done. Qed.

Lemma sublist_fmap_mono {A B} (f : A → B) (l k : list A) :
  l `sublist_of` k → f <$> l `sublist_of` f <$> k.
Proof. induction 1; simpl; by constructor. Qed.

Lemma list_filter_all {A} (P : A → Prop) `{∀ x, Decision (P x)} (l : list A) :
  (∀ x, x ∈ l → P x) → filter P l = l.
Proof.
  induction l as [|x l IH]; intros HP; [done|]. rewrite filter_cons_True by (apply HP; by left).
  f_equal. apply IH. intros y Hy. apply HP. by right.
Qed.

Lemma list_filter_ext_in {A} (P Q : A → Prop) `{∀ x, Decision (P x), ∀ x, Decision (Q x)} (l : list A) :
  (∀ x, x ∈ l → P x ↔ Q x) → filter P l = filter Q l.
Proof.
  induction l as [|x l IH]; intros HPQ; [done|]. rewrite !filter_cons.
  rewrite IH by (intros y Hy; apply HPQ; by right). pose proof (HPQ x ltac:(by left)).
  destruct (decide (P x)), (decide (Q x)); tauto.
Qed.

Lemma elem_of_take_in {A} (x : A) n l : x ∈ take n l → x ∈ l.
Proof. intros Hx. rewrite <- (take_drop n l). apply elem_of_app. by left. Qed.

Lemma NoDup_fmap_filter {A B} (f : A → B) (P : A → Prop) `{∀ x, Decision (P x)} (l : list A) :
  NoDup (f <$> l) → NoDup (f <$> filter P l).
Proof. intros Hn. eapply sublist_NoDup; [done|]. apply sublist_fmap_mono, sublist_filter. Qed.
