(* ===== verification/CxxString.v ===== *)
(** The operations of [std::string] and [<string>] that the sources use:
    [find], [rfind], [substr], [std::getline] with a delimiter, [std::stol]
    and [std::to_string].  These are models of the C++ standard library, not
    of code of the repository. *)
From S2P Require Import Prelude.

Local Open Scope Z_scope.

(** * Definitions *)

(** [s.find(c)]: position of the first [c], [None] for [npos]. *)
Fixpoint find_char (c : ascii) (s : string) : option nat :=
  match s with
  | EmptyString => None
  | String a s => if decide (a = c) then Some 0%nat else S <$> find_char c s
  end.

Fixpoint str_drop (n : nat) (s : string) : string :=
  match n, s with
  | O, _ => s
  | S n, EmptyString => EmptyString
  | S n, String _ s => str_drop n s
  end.

Fixpoint str_take (n : nat) (s : string) : string :=
  match n, s with
  | S n, String a s => String a (str_take n s)
  | _, _ => EmptyString
  end.

(** [s.find(c, pos)]: first [c] at or after [pos]. *)
Definition find_char_from (c : ascii) (pos : nat) (s : string) : option nat :=
  if decide (pos ≤ String.length s)%nat
  then (λ i, pos + i)%nat <$> find_char c (str_drop pos s)
  else None.

(** [s.rfind(c)]: position of the last [c]. *)
Fixpoint rfind_char (c : ascii) (s : string) : option nat :=
  match s with
  | EmptyString => None
  | String a s =>
      match rfind_char c s with
      | Some i => Some (S i)
      | None => if decide (a = c) then Some 0%nat else None
      end
  end.

(** [s.substr(pos, n)]; [None] is the default count [npos]. *)
Definition substr (s : string) (pos : nat) (n : option nat) : result string :=
  if decide (pos ≤ String.length s)%nat
  then Done (match n with
             | Some n => str_take n (str_drop pos s)
             | None => str_drop pos s
             end)
  else Stop (Throw out_of_range).

Fixpoint has_char (c : ascii) (s : string) : bool :=
  match s with
  | EmptyString => false
  | String a s => bool_decide (a = c) || has_char c s
  end.

(** [while (std::getline(ss, part, c)) parts.push_back(part)]: a trailing
    empty token is not produced, inner empty tokens are.  [cur] holds the
    characters of the current token. *)
Fixpoint getline_go (c : ascii) (cur : string) (s : string) : list string :=
  match s with
  | EmptyString => match cur with EmptyString => [] | _ => [cur] end
  | String a s =>
      if decide (a = c) then cur :: getline_go c EmptyString s
      else getline_go c (cur +:+ String a EmptyString) s
  end.
Definition getline_all (c : ascii) (s : string) : list string :=
  getline_go c EmptyString s.

(** [n] times a character; [std::string(n, a)] throws when [n] is above
    [max_size()]. *)
Fixpoint rep (a : ascii) (n : nat) : string :=
  match n with O => EmptyString | S n => String a (rep a n) end.
Definition string_of_size (n : Z) (a : ascii) : result string :=
  if n <=? 2^63 - 1 then Done (rep a (Z.to_nat n)) else Stop (Throw length_error).

(** ** Decimal numbers *)
Definition is_digit (a : ascii) : bool :=
  (48 <=? Z.of_N (N_of_ascii a)) && (Z.of_N (N_of_ascii a) <=? 57).
Definition digit_val (a : ascii) : Z := Z.of_N (N_of_ascii a) - 48.
Definition digit_char (d : Z) : ascii := ascii_of_N (Z.to_N (d + 48)).

(** The value of the leading digits, continuing from [acc]. *)
Fixpoint digits_val (acc : Z) (s : string) : Z :=
  match s with
  | String a s' => if is_digit a then digits_val (10 * acc + digit_val a) s' else acc
  | EmptyString => acc
  end.

(** [isspace] of the C locale. *)
Definition is_space (a : ascii) : bool :=
  let n := Z.of_N (N_of_ascii a) in (n =? 32) || ((9 <=? n) && (n <=? 13)).

Fixpoint skip_space (s : string) : string :=
  match s with
  | String a s' => if is_space a then skip_space s' else s
  | EmptyString => EmptyString
  end.

Definition strip_sign (s : string) : bool * string :=
  match s with
  | String a s' =>
      if decide (a = "-"%char) then (true, s')
      else if decide (a = "+"%char) then (false, s') else (false, s)
  | EmptyString => (false, s)
  end.

(** [std::stol(s)]: white space, sign and digits, the rest ignored;
    [invalid_argument] when there is no digit, [out_of_range] when the value
    does not fit in a [long]. *)
Definition stol (s : string) : result Z :=
  let '(neg, ds) := strip_sign (skip_space s) in
  match ds with
  | String a _ =>
      if is_digit a then
        let v := if neg then - digits_val 0 ds else digits_val 0 ds in
        if in_long v then Done v else Stop (Throw out_of_range)
      else Stop (Throw invalid_argument)
  | EmptyString => Stop (Throw invalid_argument)
  end.

(** [std::atoi(s)]: 0 when there is no digit; a value that does not fit is
    undefined. *)
Definition atoi (s : string) : result Z :=
  let '(neg, ds) := strip_sign (skip_space s) in
  let v := if (neg : bool) then - digits_val 0 ds else digits_val 0 ds in
  if in_int v then Done v else Stop Undefined.

Fixpoint dec_go (fuel : nat) (n : Z) (acc : string) : string :=
  match fuel with
  | O => acc
  | S fuel =>
      let acc' := String (digit_char (n `mod` 10)) acc in
      if n <? 10 then acc' else dec_go fuel (n / 10) acc'
  end.

(** [std::to_string] of an [int] or a [long]. *)
Definition to_string (z : Z) : string :=
  if z <? 0 then String "-" (dec_go (S (Z.to_nat (Z.log2 (- z)))) (- z) "")
  else dec_go (S (Z.to_nat (Z.log2 z))) z "".

(** [operator<] of [std::string]: lexicographic on unsigned bytes. *)
Fixpoint string_ltb (s t : string) : bool :=
  match s, t with
  | _, EmptyString => false
  | EmptyString, String _ _ => true
  | String a s, String b t =>
      if (N_of_ascii a <? N_of_ascii b)%N then true
      else if (N_of_ascii b <? N_of_ascii a)%N then false
      else string_ltb s t
  end.

(** * Searching and cutting *)

Lemma str_app_nil_r s : s +:+ "" = s.
Proof. induction s as [|a s IH]; [done|]. change (String a (s +:+ "") = String a s). by rewrite IH. Qed.

Lemma str_app_assoc s t u : (s +:+ t) +:+ u = s +:+ (t +:+ u).
Proof.
  induction s as [|a s IH]; [done|].
  change (String a ((s +:+ t) +:+ u) = String a (s +:+ (t +:+ u))). by rewrite IH.
Qed.

Lemma str_length_app s t : String.length (s +:+ t) = (String.length s + String.length t)%nat.
Proof.
  induction s as [|a s IH]; [done|].
  change (S (String.length (s +:+ t)) = S (String.length s + String.length t)%nat). by rewrite IH.
Qed.

Lemma str_app_cons a s t : String a s +:+ t = String a (s +:+ t).
Proof. done. Qed.

Lemma find_char_None c s : find_char c s = None ↔ has_char c s = false.
Proof.
  induction s as [|a s IH]; simpl; [done|].
  case_decide as Ha; rewrite ?(bool_decide_true _ Ha), ?(bool_decide_false _ Ha); simpl; [done|].
  rewrite fmap_None. apply IH.
Qed.

Lemma find_char_app c s t :
  has_char c s = false → find_char c (s +:+ String c t) = Some (String.length s).
Proof.
  induction s as [|a s IH]; intros H.
  - simpl. by rewrite decide_True.
  - simpl in H. apply orb_false_iff in H as [H1 H2]. apply bool_decide_eq_false in H1.
    rewrite str_app_cons. simpl. rewrite decide_False by done. by rewrite IH.
Qed.

Lemma rfind_char_None c s : rfind_char c s = None ↔ has_char c s = false.
Proof.
  induction s as [|a s IH]; simpl; [done|].
  destruct (rfind_char c s) as [i|]; split; intros H.
  - done.
  - apply orb_false_iff in H as [_ H]. by apply IH in H.
  - case_decide as Ha; [done|]. rewrite (bool_decide_false _ Ha). by apply IH.
  - apply orb_false_iff in H as [H _]. by rewrite decide_False by (by apply bool_decide_eq_false in H).
Qed.

Lemma rfind_char_app c s t :
  has_char c t = false → rfind_char c (s +:+ String c t) = Some (String.length s).
Proof.
  intros Ht. induction s as [|a s IH].
  - change ((match rfind_char c t with Some i => Some (S i) | None => if decide (c = c) then Some 0%nat else None end) = Some 0%nat).
    rewrite (proj2 (rfind_char_None c t) Ht). by rewrite decide_True.
  - rewrite str_app_cons. simpl. by rewrite IH.
Qed.

Lemma str_take_app s t : str_take (String.length s) (s +:+ t) = s.
Proof. induction s as [|a s IH]; [by destruct t|]. rewrite str_app_cons. simpl. by rewrite IH. Qed.

Lemma str_drop_app s t : str_drop (String.length s) (s +:+ t) = t.
Proof. induction s as [|a s IH]; [by destruct t|]. rewrite str_app_cons. simpl. by rewrite IH. Qed.

Lemma str_drop_app_S s a t : str_drop (S (String.length s)) (s +:+ String a t) = t.
Proof. induction s as [|b s IH]; [done|]. rewrite str_app_cons. simpl. by apply IH. Qed.

Lemma has_char_app c s t : has_char c (s +:+ t) = has_char c s || has_char c t.
Proof. induction s as [|a s IH]; [done|]. rewrite str_app_cons. simpl. by rewrite IH, orb_assoc. Qed.

(** Cutting at the last separator is injective. *)
Lemma str_take_exact n s : (n ≤ String.length s)%nat → String.length (str_take n s) = n.
Proof. revert s. induction n as [|n IH]; intros [|a s] Hn; simpl in *; try done; [lia|]. rewrite IH; lia. Qed.

Lemma str_take_no_char c n s : has_char c s = false → has_char c (str_take n s) = false.
Proof.
  revert s. induction n as [|n IH]; intros [|a s]; simpl; try done. intros [H1 H2]%orb_false_iff. rewrite H1. by apply IH.
Qed.

Lemma str_take_app_more s t n : str_take (String.length s + n) (s +:+ t) = s +:+ str_take n t.
Proof. induction s as [|a s IH]; [done|]. rewrite str_app_cons. simpl. by rewrite IH. Qed.

Lemma str_app_inj_l s a b : s +:+ a = s +:+ b → a = b.
Proof. induction s as [|c s IH]; [done|]. rewrite !str_app_cons. intros [= Heq]. by apply IH. Qed.

Lemma str_app_sep_inj c s1 t1 s2 t2 :
  has_char c t1 = false → has_char c t2 = false →
  s1 +:+ String c t1 = s2 +:+ String c t2 → s1 = s2 ∧ t1 = t2.
Proof.
  intros H1 H2 Heq.
  pose proof (rfind_char_app c s1 t1 H1) as R1. rewrite Heq, rfind_char_app in R1 by done.
  injection R1 as Hlen.
  assert (str_take (String.length s1) (s1 +:+ String c t1) = s1) as Ht by apply str_take_app.
  rewrite Heq, <- Hlen, str_take_app in Ht. subst s2. split; [done|].
  pose proof (str_drop_app s1 (String c t1)) as Hd. rewrite Heq, str_drop_app in Hd. congruence.
Qed.

(** * Decimal round trip *)

Lemma N_digit_char d : 0 <= d <= 9 → N_of_ascii (digit_char d) = Z.to_N (d + 48).
Proof. intros Hd. unfold digit_char. apply N_ascii_embedding. lia. Qed.

Lemma digit_val_char d : 0 <= d <= 9 → digit_val (digit_char d) = d.
Proof. intros Hd. unfold digit_val. rewrite N_digit_char by done. lia. Qed.

Lemma is_digit_char d : 0 <= d <= 9 → is_digit (digit_char d) = true.
Proof.
  intros Hd. unfold is_digit. rewrite N_digit_char by done.
  apply andb_true_iff; split; apply Z.leb_le; lia.
Qed.

Lemma digits_val_dec_go fuel n acc :
  0 <= n < 2 ^ Z.of_nat fuel → digits_val 0 (dec_go fuel n acc) = digits_val n acc.
Proof.
  revert n acc. induction fuel as [|fuel IH]; intros n acc Hn.
  { assert (n = 0) as -> by (simpl in Hn; lia). done. }
  simpl dec_go. pose proof (Z.mod_pos_bound n 10 ltac:(lia)) as Hm.
  destruct (Z.ltb_spec n 10) as [Hlt|Hge].
  - cbn [digits_val]. rewrite is_digit_char by lia.
    rewrite digit_val_char by lia. f_equal. rewrite Z.mod_small; lia.
  - rewrite IH.
    + cbn [digits_val]. rewrite is_digit_char by lia. rewrite digit_val_char by lia.
      f_equal. pose proof (Z.div_mod n 10). lia.
    + split; [apply Z.div_pos; lia|]. rewrite Nat2Z.inj_succ, Z.pow_succ_r in Hn by lia.
      apply Z.div_lt_upper_bound; lia.
Qed.

(** Every character is a [P]. *)
Fixpoint str_all (P : ascii → bool) (s : string) : bool :=
  match s with EmptyString => true | String a s => P a && str_all P s end.
Abbreviation all_digits := (str_all is_digit).

Lemma str_all_app P s t : str_all P (s +:+ t) = str_all P s && str_all P t.
Proof. induction s as [|a s IH]; [done|]. rewrite str_app_cons. simpl. by rewrite IH, andb_assoc. Qed.

Lemma str_all_weaken (P Q : ascii → bool) s : (∀ a, P a = true → Q a = true) → str_all P s = true → str_all Q s = true.
Proof. intros HPQ. induction s as [|a s IH]; [done|]. simpl. rewrite !andb_true_iff. naive_solver. Qed.

Lemma str_all_no_char c s : str_all (λ a, negb (bool_decide (a = c))) s = negb (has_char c s).
Proof. induction s as [|a s IH]; [done|]. simpl. by rewrite IH, negb_orb. Qed.

Lemma str_all_rep P a n : P a = true → str_all P (rep a n) = true.
Proof. intros Ha. induction n as [|n IH]; [done|]. simpl. by rewrite Ha. Qed.

(** The text written is one digit followed by something, all digits. *)
Lemma all_digits_dec_go fuel n acc :
  0 <= n → all_digits acc = true → all_digits (dec_go fuel n acc) = true.
Proof.
  revert n acc. induction fuel as [|fuel IH]; intros n acc Hn Ha; simpl; [done|].
  pose proof (Z.mod_pos_bound n 10 ltac:(lia)) as Hm.
  assert (all_digits (String (digit_char (n `mod` 10)) acc) = true) as Ha'.
  { cbn [str_all]. rewrite is_digit_char by lia. by rewrite Ha. }
  destruct (n <? 10); [done|]. apply IH; [apply Z.div_pos; lia|done].
Qed.

Lemma dec_go_cons fuel n acc :
  (0 < fuel)%nat → ∃ a s, dec_go fuel n acc = String a s.
Proof.
  destruct fuel as [|fuel]; [lia|]. intros _. revert n acc. induction fuel as [|fuel IH]; intros n acc.
  - simpl. destruct (n <? 10); eauto.
  - change (∃ a s, (if n <? 10 then String (digit_char (n `mod` 10)) acc
      else dec_go (S fuel) (n / 10) (String (digit_char (n `mod` 10)) acc)) = String a s).
    destruct (n <? 10); eauto.
Qed.

Definition dec (z : Z) : string := dec_go (S (Z.to_nat (Z.log2 z))) z "".

Lemma dec_fuel z : 0 <= z → 0 <= z < 2 ^ Z.of_nat (S (Z.to_nat (Z.log2 z))).
Proof.
  intros Hz. split; [done|]. rewrite Nat2Z.inj_succ, Z2Nat.id by apply Z.log2_nonneg.
  destruct (decide (z = 0)) as [->|]; [done|]. apply Z.log2_spec; lia.
Qed.

Lemma dec_spec z :
  0 <= z → ∃ a s, dec z = String a s ∧ is_digit a = true ∧ all_digits s = true
                  ∧ digits_val 0 (dec z) = z.
Proof.
  intros Hz. destruct (dec_go_cons (S (Z.to_nat (Z.log2 z))) z "" ltac:(lia)) as (a & s & Heq).
  fold (dec z) in Heq. exists a, s. split; [done|].
  assert (all_digits (dec z) = true) as Had by (apply all_digits_dec_go; done).
  rewrite Heq in Had. simpl in Had. apply andb_true_iff in Had as [??].
  repeat split; [done..|]. unfold dec. by rewrite digits_val_dec_go by (by apply dec_fuel).
Qed.

Lemma is_digit_facts a :
  is_digit a = true → is_space a = false ∧ a ≠ "-"%char ∧ a ≠ "+"%char ∧ a ≠ "@"%char ∧ a ≠ "#"%char.
Proof.
  intros H. repeat split; [|by intros ->..].
  unfold is_digit in H. apply andb_true_iff in H as [H1 H2]. apply Z.leb_le in H1, H2.
  unfold is_space. apply orb_false_iff. split; [apply Z.eqb_neq; lia|].
  apply andb_false_iff. right. apply Z.leb_gt. lia.
Qed.

Lemma to_string_nonneg z : 0 <= z → to_string z = dec z.
Proof. intros Hz. unfold to_string. by rewrite (proj2 (Z.ltb_ge z 0)) by lia. Qed.

Lemma to_string_neg z : z < 0 → to_string z = String "-" (dec (- z)).
Proof. intros Hz. unfold to_string. by rewrite (proj2 (Z.ltb_lt z 0)) by lia. Qed.

(** A printed number is digits, with a minus sign perhaps. *)
Lemma to_string_all P z : (∀ a, is_digit a = true → P a = true) → P "-"%char = true → str_all P (to_string z) = true.
Proof.
  intros Hd Hm. destruct (decide (0 <= z)) as [Hz|Hz].
  - rewrite to_string_nonneg by done. apply (str_all_weaken is_digit); [done|]. by apply all_digits_dec_go.
  - rewrite to_string_neg by lia. simpl. rewrite Hm. apply (str_all_weaken is_digit); [done|]. apply all_digits_dec_go; [lia|done].
Qed.

Lemma to_string_no_char c z : is_digit c = false → c ≠ "-"%char → has_char c (to_string z) = false.
Proof.
  intros Hc Hm. apply negb_true_iff. rewrite <- str_all_no_char. apply to_string_all.
  - intros a Ha. apply negb_true_iff, bool_decide_eq_false. congruence.
  - by apply negb_true_iff, bool_decide_eq_false.
Qed.

(** [stol] on a text that starts with a digit, or with a minus sign. *)
Lemma stol_digits a s :
  is_digit a = true →
  stol (String a s) =
    (let v := digits_val 0 (String a s) in
     if in_long v then Done v else Stop (Throw out_of_range)).
Proof.
  intros Ha. destruct (is_digit_facts a Ha) as (Hsp & Hm & Hp & _).
  unfold stol, skip_space. rewrite Hsp. unfold strip_sign. rewrite !decide_False by done.
  cbv iota beta. by rewrite Ha.
Qed.

Lemma stol_minus a s :
  is_digit a = true →
  stol (String "-" (String a s)) =
    (let v := - digits_val 0 (String a s) in
     if in_long v then Done v else Stop (Throw out_of_range)).
Proof.
  intros Ha. unfold stol. cbn [skip_space]. change (is_space "-") with false. cbv iota.
  unfold strip_sign. rewrite decide_True by done. cbv iota beta. by rewrite Ha.
Qed.

Lemma stol_to_string z : in_long z = true → stol (to_string z) = Done z.
Proof.
  intros Hl. destruct (decide (0 <= z)) as [Hz|Hz].
  - rewrite to_string_nonneg by done.
    destruct (dec_spec z Hz) as (a & s & Heq & Ha & _ & Hv).
    rewrite Heq in *. rewrite stol_digits by done. cbv zeta. by rewrite Hv, Hl.
  - rewrite to_string_neg by lia.
    destruct (dec_spec (- z) ltac:(lia)) as (a & s & Heq & Ha & _ & Hv).
    rewrite Heq in *. rewrite stol_minus by done. cbv zeta. by rewrite Hv, Z.opp_involutive, Hl.
Qed.

Lemma to_string_inj z1 z2 : to_string z1 = to_string z2 → z1 = z2.
Proof.
  assert (∀ z, ∃ a s, to_string z = String a s ∧
    z = if decide (a = "-"%char) then - digits_val 0 s else digits_val 0 (String a s)) as Hinv.
  { intros z. destruct (decide (0 <= z)) as [Hz|Hz].
    - rewrite to_string_nonneg by done. destruct (dec_spec z Hz) as (a & s & Heq & Ha & _ & Hv).
      exists a, s. split; [done|]. destruct (is_digit_facts a Ha) as (_ & Hm & _).
      rewrite decide_False by done. congruence.
    - rewrite to_string_neg by lia. destruct (dec_spec (- z) ltac:(lia)) as (a & s & Heq & Ha & _ & Hv).
      exists "-"%char, (dec (- z)). split; [done|]. rewrite decide_True by done. lia. }
  intros Heq. destruct (Hinv z1) as (a1 & s1 & H1 & ->), (Hinv z2) as (a2 & s2 & H2 & ->).
  rewrite H1, H2 in Heq. by injection Heq as -> ->.
Qed.

(** ** Lengths *)
Lemma rep_length a n : String.length (rep a n) = n.
Proof. induction n as [|n IH]; simpl; congruence. Qed.

Lemma has_char_rep c a n : c ≠ a → has_char c (rep a n) = false.
Proof. intros Hc. induction n as [|n IH]; [done|]. simpl. rewrite IH, orb_false_r. by apply bool_decide_eq_false. Qed.

Lemma dec_go_length fuel n acc : (String.length (dec_go fuel n acc) ≤ fuel + String.length acc)%nat.
Proof.
  revert n acc. induction fuel as [|fuel IH]; intros n acc; [done|]. cbn [dec_go].
  destruct (n <? 10); [simpl; lia|]. etrans; [apply IH|]. simpl. lia.
Qed.

Lemma dec_length z n : 0 <= z < 2^n → 0 < n → (String.length (dec z) ≤ Z.to_nat n)%nat.
Proof.
  intros Hz Hn. etrans; [apply dec_go_length|]. cbn [String.length]. pose proof (Z.log2_nonneg z).
  assert (Z.log2 z < n); [|lia]. destruct (decide (z = 0)) as [->|]; [done|]. apply Z.log2_lt_pow2; lia.
Qed.
Lemma to_string_length z : 0 <= z < 2^31 → (String.length (to_string z) ≤ 31)%nat.
Proof. intros Hz. rewrite to_string_nonneg by lia. by apply (dec_length z 31). Qed.
Lemma to_string_length_long z : in_long z = true → (String.length (to_string z) ≤ 65)%nat.
Proof.
  unfold in_long, long_min, long_max. rewrite andb_true_iff, !Z.leb_le. intros [Hmin Hmax]. destruct (decide (0 <= z)) as [Hz|Hz].
  - rewrite to_string_nonneg by done. pose proof (dec_length z 63 ltac:(lia) ltac:(lia)). lia.
  - rewrite to_string_neg by lia. pose proof (dec_length (- z) 64 ltac:(lia) ltac:(lia)). cbn [String.length]. lia.
Qed.

(** * Lines *)
Lemma getline_token c cur s t :
  has_char c s = false → getline_go c cur (s +:+ String c t) = (cur +:+ s) :: getline_go c "" t.
Proof.
  revert cur. induction s as [|a s IH]; intros cur Hc.
  - change ("" +:+ String c t) with (String c t). simpl. rewrite decide_True by done. by rewrite str_app_nil_r.
  - rewrite str_app_cons. simpl in *. apply orb_false_iff in Hc as [Ha Hc]. apply bool_decide_eq_false in Ha.
    rewrite decide_False by done. rewrite IH by done. by rewrite str_app_assoc.
Qed.

Lemma getline_last c cur s :
  has_char c s = false → cur +:+ s ≠ "" → getline_go c cur s = [cur +:+ s].
Proof.
  revert cur. induction s as [|a s IH]; intros cur Hc Hne.
  - rewrite str_app_nil_r in *. simpl. by destruct cur.
  - simpl in *. apply orb_false_iff in Hc as [Ha Hc]. apply bool_decide_eq_false in Ha.
    rewrite decide_False by done. rewrite IH; rewrite ?str_app_assoc; done.
Qed.

Lemma getline_lines c (l : list string) :
  (∀ s, s ∈ l → has_char c s = false) →
  getline_all c (foldr (λ s t, s +:+ String c t) "" l) = l.
Proof.
  unfold getline_all. induction l as [|s l IH]; intros Hl; [done|]. cbn [foldr].
  rewrite getline_token by (apply Hl; by left). f_equal. apply IH. intros t Ht. apply Hl. by right.
Qed.

(** * The order on strings *)
Lemma string_ltb_irrefl s : string_ltb s s = false.
Proof. induction s as [|a s IH]; [done|]. simpl. by rewrite N.ltb_irrefl. Qed.

Lemma string_ltb_trans s t u :
  string_ltb s t = true → string_ltb t u = true → string_ltb s u = true.
Proof.
  revert t u. induction s as [|a s IH]; intros [|b t] [|c u]; simpl; try done.
  destruct (N.ltb_spec (N_of_ascii a) (N_of_ascii b)), (N.ltb_spec (N_of_ascii b) (N_of_ascii a)),
    (N.ltb_spec (N_of_ascii b) (N_of_ascii c)), (N.ltb_spec (N_of_ascii c) (N_of_ascii b)),
    (N.ltb_spec (N_of_ascii a) (N_of_ascii c)), (N.ltb_spec (N_of_ascii c) (N_of_ascii a));
    try done; try lia. apply IH.
Qed.

Lemma string_ltb_total s t : string_ltb s t = false → string_ltb t s = false → s = t.
Proof.
  revert t. induction s as [|a s IH]; intros [|b t]; simpl; try done.
  destruct (N.ltb_spec (N_of_ascii a) (N_of_ascii b)), (N.ltb_spec (N_of_ascii b) (N_of_ascii a)); try done.
  intros H1 H2. f_equal; [|by apply IH].
  rewrite <- (ascii_N_embedding a), <- (ascii_N_embedding b). f_equal. lia.
Qed.
