(* ===== verification/Config.v ===== *)
(** The constants of config/tsconfig.cpp, which the server, the benchmark and
    the generator of trace files share. *)
From S2P Require Import Prelude.

Local Open Scope Z_scope.

Module benchmarkConfig.
Definition object_size : Z := 1024.
Definition no_items : Z := 1000.
Definition client_batch_size : Z := 50.
Definition num_clients : Z := 1.
Definition trace_location : string := "tracefiles/TS_data_binary.bin".
End benchmarkConfig.

Module waffleConfig.
Definition num_cores : Z := 1.
Definition cacheBatches : Z := 2.
Definition security_batch_size : Z := 3.
Definition p_threads : Z := 32.
Definition output_location : string := "log".
Definition trace_location : string := "".
Definition latency : bool := true.
Definition B : Z := 1200.
Definition R : Z := 800.
Definition F : Z := 100.
Definition N : Z := 100000.
Definition D : Z := 100000.
Definition object_size : Z := 1024.
End waffleConfig.
