(* ===== verification/Getopt.v ===== *)
(** [getopt] of the C library, which reads the options of a command line. *)
From S2P Require Import Prelude.

(** Is [c] an option, and does it take an argument? *)
Fixpoint option_kind (c : ascii) (options : string) : option bool :=
  match options with
  | EmptyString => None
  | String a rest =>
      if decide (a = c ∧ c ≠ ":"%char) then Some (match rest with String ":" _ => true | _ => false end)
      else option_kind c rest
  end.

(** The options in one word, and one that takes the next word as argument *)
Fixpoint options_of_word (optstring s : string) : list (ascii * string) * option ascii :=
  match s with
  | EmptyString => ([], None)
  | String c rest =>
      match option_kind c optstring with
      | None => let '(l, last) := options_of_word optstring rest in (("?"%char, "") :: l, last)
      | Some false => let '(l, last) := options_of_word optstring rest in ((c, "") :: l, last)
      | Some true => if decide (rest = EmptyString) then ([], Some c) else ([(c, rest)], None)
      end
  end.

(** [getopt] of the C library: what the calls return, with [optarg].  Words
    that are not options are passed over. *)
Fixpoint getopt (optstring : string) (args : list string) : list (ascii * string) :=
  match args with
  | [] => []
  | String "-" (String _ _ as s) :: args =>
      if decide (s = "-") then []
      else
        match options_of_word optstring s with
        | (l, None) => l ++ getopt optstring args
        | (l, Some c) =>
            match args with
            | [] => l ++ [("?"%char, "")]
            | optarg :: args => l ++ (c, optarg) :: getopt optstring args
            end
        end
  | _ :: args => getopt optstring args
  end.
