(* ===== verification/OrderedSet.v ===== *)
(** [std::set<A, Cmp>]: the elements in increasing order of [Cmp], as a list.
    This is a model of the standard container, shared by [accessTree], the
    sets of time stamps and the sets of request ids.  [begin()] is the head
    of the list, [rbegin()] its last element, iteration walks it. *)
From S2P Require Import Prelude.
From S2P Require Import CxxString.
From stdpp Require Import sorting.

(** A comparator is a strict total order. *)
Class StrictTotal {A} (ltb : A → A → bool) : Prop := {
  ltb_irrefl x : ltb x x = false;
  ltb_trans x y z : ltb x y = true → ltb y z = true → ltb x z = true;
  ltb_total x y : ltb x y = false → ltb y x = false → x = y;
}.

(** * Definitions *)
Section operations.
Context {A : Type} (ltb : A → A → bool).

Fixpoint oset_insert (x : A) (l : list A) : list A :=
  match l with
  | [] => [x]
  | y :: l' => if ltb x y then x :: l else if ltb y x then y :: oset_insert x l' else l
  end.

Fixpoint oset_erase (x : A) (l : list A) : list A :=
  match l with
  | [] => []
  | y :: l' => if ltb x y then l else if ltb y x then y :: oset_erase x l' else l'
  end.

Definition oset_sorted : list A → Prop := StronglySorted (λ x y, ltb x y = true).

(** [std::lower_bound], [std::upper_bound] on a sorted range, as indices. *)
Fixpoint lower_bound (x : A) (l : list A) : nat :=
  match l with
  | y :: l' => if ltb y x then S (lower_bound x l') else 0
  | [] => 0
  end.

Fixpoint upper_bound (x : A) (l : list A) : nat :=
  match l with
  | y :: l' => if ltb x y then 0 else S (upper_bound x l')
  | [] => 0
  end.

End operations.

(** * Lemmas *)
Section lemmas.
Context {A : Type} {ltb : A → A → bool} `{!StrictTotal ltb}.
Implicit Types (l : list A) (x y : A).

Lemma ltb_asym x y : ltb x y = true → ltb y x = false.
Proof.
  intros H1. destruct (ltb y x) eqn:H2; [|done].
  assert (ltb x x = true) as Hx by eauto using ltb_trans. by rewrite ltb_irrefl in Hx.
Qed.

Lemma ltb_ne x y : ltb x y = true → x ≠ y.
Proof. intros H ->. by rewrite ltb_irrefl in H. Qed.

Lemma elem_of_oset_insert x y l : y ∈ oset_insert ltb x l ↔ y = x ∨ y ∈ l.
Proof.
  induction l as [|z l IH]; simpl; [set_solver|].
  destruct (ltb x z) eqn:H1; [set_solver|].
  destruct (ltb z x) eqn:H2; [set_solver|].
  assert (x = z) as -> by eauto using ltb_total. set_solver.
Qed.

Lemma oset_insert_sorted x l : oset_sorted ltb l → oset_sorted ltb (oset_insert ltb x l).
Proof.
  intros Hs. induction Hs as [|z l Hs IH Hall]; simpl; [repeat constructor|].
  destruct (ltb x z) eqn:H1.
  - constructor; [by constructor|]. constructor; [done|].
    eapply Forall_impl; [exact Hall|]. simpl. eauto using ltb_trans.
  - destruct (ltb z x) eqn:H2; [|by constructor].
    constructor; [done|]. apply Forall_forall. intros y [->|Hy]%elem_of_oset_insert; [done|].
    by eapply Forall_forall in Hall.
Qed.

Lemma elem_of_oset_erase x y l :
  oset_sorted ltb l → y ∈ oset_erase ltb x l ↔ y ≠ x ∧ y ∈ l.
Proof.
  intros Hs. induction Hs as [|z l Hs IH Hall]; simpl; [set_solver|].
  rewrite Forall_forall in Hall. destruct (ltb x z) eqn:H1.
  - split; [|tauto]. intros Hy. split; [|done]. intros ->.
    apply elem_of_cons in Hy as [->|Hy]; [by rewrite ltb_irrefl in H1|].
    apply Hall, ltb_asym in Hy. congruence.
  - destruct (ltb z x) eqn:H2.
    + rewrite !elem_of_cons, IH. split; [|tauto].
      intros [->|?]; [|tauto]. split; [by apply ltb_ne|by left].
    + assert (x = z) as -> by eauto using ltb_total.
      rewrite elem_of_cons. split; [|naive_solver].
      intros Hy. split; [|by right]. intros ->. apply Hall in Hy. by rewrite ltb_irrefl in Hy.
Qed.

Lemma oset_erase_sorted x l : oset_sorted ltb l → oset_sorted ltb (oset_erase ltb x l).
Proof.
  intros Hs. induction Hs as [|z l Hs IH Hall]; simpl; [constructor|].
  destruct (ltb x z); [by constructor|]. destruct (ltb z x); [|done].
  constructor; [done|]. apply Forall_forall. intros y [_ Hy]%elem_of_oset_erase; [|done].
  by eapply Forall_forall in Hall.
Qed.

Lemma oset_sorted_NoDup l : oset_sorted ltb l → NoDup l.
Proof.
  intros Hs. induction Hs as [|z l Hs IH Hall]; constructor; [|done].
  intros Hz. eapply Forall_forall in Hall; [|done]. by rewrite ltb_irrefl in Hall.
Qed.

(** Two sorted lists with the same elements are equal: the list is a
    canonical form of the set. *)
Lemma oset_ext l1 l2 :
  oset_sorted ltb l1 → oset_sorted ltb l2 → (∀ x, x ∈ l1 ↔ x ∈ l2) → l1 = l2.
Proof.
  intros Hs1. revert l2. induction Hs1 as [|x l1 Hs1 IH Hall1]; intros l2 Hs2 Heq.
  - destruct l2 as [|y l2]; [done|]. exfalso. destruct (Heq y) as [_ H]. set_solver.
  - destruct Hs2 as [|y l2 Hs2 Hall2].
    { exfalso. destruct (Heq x) as [H _]. set_solver. }
    rewrite Forall_forall in Hall1, Hall2.
    assert (x = y) as ->.
    { pose proof (proj1 (Heq x) ltac:(by left)) as [?|?]%elem_of_cons; [done|].
      pose proof (proj2 (Heq y) ltac:(by left)) as [?|?]%elem_of_cons; [done|].
      assert (ltb x y = false) by eauto using ltb_asym.
      assert (ltb x y = true) by eauto. congruence. }
    f_equal. apply IH; [done|]. intros z. split; intros Hz.
    + pose proof (proj1 (Heq z) ltac:(by right)) as [->|?]%elem_of_cons; [|done].
      apply Hall1 in Hz. by rewrite ltb_irrefl in Hz.
    + pose proof (proj2 (Heq z) ltac:(by right)) as [->|?]%elem_of_cons; [|done].
      apply Hall2 in Hz. by rewrite ltb_irrefl in Hz.
Qed.

Lemma oset_head_min x l y : oset_sorted ltb (x :: l) → y ∈ x :: l → y = x ∨ ltb x y = true.
Proof.
  intros Hs [->|Hy]%elem_of_cons; [by left|]. right.
  apply StronglySorted_inv in Hs as [_ Hall]. by eapply Forall_forall in Hall.
Qed.

(** [lower_bound] splits a sorted list at the first element not below [x]. *)
Lemma lower_bound_spec x l :
  oset_sorted ltb l →
  (∀ y, y ∈ take (lower_bound ltb x l) l ↔ y ∈ l ∧ ltb y x = true).
Proof.
  intros Hs. induction Hs as [|z l Hs IH Hall]; intros y; simpl; [set_solver|].
  rewrite Forall_forall in Hall. destruct (ltb z x) eqn:Hz; simpl.
  - rewrite !elem_of_cons, IH. naive_solver.
  - split; [set_solver|]. intros [[->|Hy]%elem_of_cons Hyx]; [congruence|].
    assert (ltb z x = true) by eauto using ltb_trans. congruence.
Qed.

Lemma upper_bound_spec x l :
  oset_sorted ltb l →
  (∀ y, y ∈ take (upper_bound ltb x l) l ↔ y ∈ l ∧ ltb x y = false).
Proof.
  intros Hs. induction Hs as [|z l Hs IH Hall]; intros y; simpl; [set_solver|].
  rewrite Forall_forall in Hall. destruct (ltb x z) eqn:Hz; simpl.
  - split; [set_solver|]. intros [[->|Hy]%elem_of_cons Hyx]; [congruence|].
    assert (ltb x y = true) by eauto using ltb_trans. congruence.
  - rewrite !elem_of_cons, IH. naive_solver.
Qed.

Lemma lower_bound_le x l : lower_bound ltb x l ≤ length l.
Proof. induction l as [|z l IH]; simpl; [done|]. destruct (ltb z x); lia. Qed.

Lemma upper_bound_le x l : upper_bound ltb x l ≤ length l.
Proof. induction l as [|z l IH]; simpl; [done|]. destruct (ltb x z); lia. Qed.

Lemma oset_sorted_sublist l l' : l' `sublist_of` l → oset_sorted ltb l → oset_sorted ltb l'.
Proof.
  induction 1 as [|x l1 l2 Hsub IH|x l1 l2 Hsub IH]; intros Hs; [constructor|..].
  - apply StronglySorted_inv in Hs as [Hs Hall]. constructor; [by apply IH|].
    apply Forall_forall. intros y Hy. eapply Forall_forall in Hall; [done|].
    by eapply elem_of_submseteq; [|apply sublist_submseteq].
  - apply StronglySorted_inv in Hs as [Hs _]. by apply IH.
Qed.

(** The positions of a sorted list follow the order. *)
Lemma oset_sorted_lookup_lt l i j x y :
  oset_sorted ltb l → l !! i = Some x → l !! j = Some y → i < j → ltb x y = true.
Proof.
  intros Hs. revert i j. induction Hs as [|z l Hs IH Hall]; intros [|i] [|j] Hi Hj Hij;
    simpl in *; try lia; try done.
  - simplify_eq. apply list_elem_of_lookup_2 in Hj. by eapply Forall_forall in Hall.
  - eapply IH; [done..|lia].
Qed.

Lemma oset_erase_head x l : oset_erase ltb x (x :: l) = l.
Proof. simpl. by rewrite ltb_irrefl. Qed.

(** An inserted element that [P] rejects is not seen by [filter P]. *)
Lemma filter_oset_insert (P : A → Prop) `{∀ x, Decision (P x)} x l :
  ¬ P x → filter P (oset_insert ltb x l) = filter P l.
Proof.
  intros Hx. induction l as [|y l IH]; simpl; [by rewrite filter_cons_False|].
  destruct (ltb x y); [by rewrite filter_cons_False|]. destruct (ltb y x); [|done].
  rewrite !filter_cons. by rewrite IH.
Qed.

End lemmas.

(** * Comparators *)
#[export] Instance Z_ltb_strict_total : StrictTotal Z.ltb.
Proof.
  split; intros.
  - apply Z.ltb_irrefl.
  - rewrite Z.ltb_lt in *. lia.
  - rewrite Z.ltb_ge in *. lia.
Qed.

#[export] Instance string_ltb_strict_total : StrictTotal string_ltb.
Proof. split; eauto using string_ltb_irrefl, string_ltb_trans, string_ltb_total. Qed.

#[export] Hint Resolve oset_insert_sorted oset_erase_sorted : waffle.
