(* ===== verification/FrequencySmoother.v ===== *)
(** [FrequencySmoother] (proxy/src/FrequencySmoother.{hpp,cpp}): the index that
    orders the stored keys by the time of their last access, and that keeps,
    for every item, the set of the time stamps stored for it.

    [accessTree] is a [std::set] of (key, frequency) pairs under [freqCmp],
    [accessFreqs] and [uniqueItemWithTimeStamp] are [unordered_map]s.  The
    [operator[]] of an [unordered_map] inserts a default value for a missing
    key: [touch] and [touch_item] are that effect. *)
From S2P Require Import Prelude.
From S2P Require Import CxxString.
From S2P Require Import OrderedSet.

Local Open Scope Z_scope.

Module Smoother.

(** * Data *)

Definition freqCmp (a b : string * Z) : bool :=
  if a.2 =? b.2 then string_ltb a.1 b.1 else a.2 <? b.2.

Record FrequencySmoother := {
  accessFreqs : gmap string Z;
  overall_oldest_timestamp : Z;
  accessTree : list (string * Z);
  uniqueItemWithTimeStamp : gmap string (list Z);
  needTimeStamp : bool;
}.

Definition with_accessFreqs (g : gmap string Z → gmap string Z) (s : FrequencySmoother) : FrequencySmoother :=
  {| accessFreqs := g (accessFreqs s); overall_oldest_timestamp := overall_oldest_timestamp s;
     accessTree := accessTree s; uniqueItemWithTimeStamp := uniqueItemWithTimeStamp s;
     needTimeStamp := needTimeStamp s |}.
Definition with_accessTree (g : list (string * Z) → list (string * Z)) (s : FrequencySmoother) : FrequencySmoother :=
  {| accessFreqs := accessFreqs s; overall_oldest_timestamp := overall_oldest_timestamp s;
     accessTree := g (accessTree s); uniqueItemWithTimeStamp := uniqueItemWithTimeStamp s;
     needTimeStamp := needTimeStamp s |}.
Definition with_items (g : gmap string (list Z) → gmap string (list Z)) (s : FrequencySmoother) : FrequencySmoother :=
  {| accessFreqs := accessFreqs s; overall_oldest_timestamp := overall_oldest_timestamp s;
     accessTree := accessTree s; uniqueItemWithTimeStamp := g (uniqueItemWithTimeStamp s);
     needTimeStamp := needTimeStamp s |}.

Definition with_needTimeStamp (b : bool) (s : FrequencySmoother) : FrequencySmoother :=
  {| accessFreqs := accessFreqs s; overall_oldest_timestamp := overall_oldest_timestamp s;
     accessTree := accessTree s; uniqueItemWithTimeStamp := uniqueItemWithTimeStamp s;
     needTimeStamp := b |}.

(** * Construction, move construction and move assignment *)

Definition new_smoother (b : bool) : FrequencySmoother :=
  {| accessFreqs := ∅; overall_oldest_timestamp := 0; accessTree := [];
     uniqueItemWithTimeStamp := ∅; needTimeStamp := b |}.

(** [FrequencySmoother(FrequencySmoother&&)] initialises the tree and the
    frequencies only: the time-stamp sets are empty, the oldest time stamp is
    its default 0 and [needTimeStamp] has the indeterminate value [garbage]. *)
Definition move_construct (garbage : bool) (other : FrequencySmoother) : FrequencySmoother :=
  {| accessFreqs := accessFreqs other; overall_oldest_timestamp := 0; accessTree := accessTree other;
     uniqueItemWithTimeStamp := ∅; needTimeStamp := garbage |}.

(** [operator=(FrequencySmoother&&)]: only the tree and the frequencies move.
    The address comparison [this != &other] is the flag [same_object]. *)
Definition move_assign (same_object : bool) (this other : FrequencySmoother) : FrequencySmoother :=
  if same_object then this
  else with_accessFreqs (λ _, accessFreqs other) (with_accessTree (λ _, accessTree other) this).

(** * Effects of [operator[]] *)

Definition freq_at (key : string) (s : FrequencySmoother) : Z := default 0 (accessFreqs s !! key).
Definition touch (key : string) (s : FrequencySmoother) : FrequencySmoother :=
  with_accessFreqs (λ m, <[key := default 0 (m !! key)]> m) s.
Definition times (item : string) (s : FrequencySmoother) : list Z :=
  default [] (uniqueItemWithTimeStamp s !! item).
Definition touch_item (item : string) (s : FrequencySmoother) : FrequencySmoother :=
  with_items (λ m, <[item := default [] (m !! item)]> m) s.

(** * Operations *)

(** The exception of [std::stol] is caught and rethrown as
    [std::invalid_argument]. *)
Definition get_key_timestamp_split (key : string) : result (string * Z) :=
  match find_char "@" key with
  | None => Stop (Throw invalid_argument)
  | Some at_pos =>
      if bool_decide (at_pos = 0%nat) || bool_decide (at_pos = (String.length key - 1)%nat)
      then Stop (Throw invalid_argument)
      else
        key_part ← substr key 0 (Some at_pos);
        timestamp_part ← substr key (S at_pos) None;
        match stol timestamp_part with
        | Done timestamp => Done (key_part, timestamp)
        | Stop (Throw _) => Stop (Throw invalid_argument)
        | Stop e => Stop e
        end
  end.

Definition insert (key : string) : M FrequencySmoother () :=
  modify (with_accessFreqs (λ m, <[key := 0]> m)) ;;
  modify (with_accessTree (oset_insert freqCmp (key, 0))) ;;
  s ← get;
  if needTimeStamp s then
    split1 ← lift_result (get_key_timestamp_split key);
    modify (with_items (λ m, match m !! split1.1 with None => <[split1.1 := []]> m | Some _ => m end)) ;;
    split2 ← lift_result (get_key_timestamp_split key);
    modify (with_items (λ m, <[split1.1 := oset_insert Z.ltb split2.2 (default [] (m !! split1.1))]> m))
  else mret ().

Definition getMinFrequency (s : FrequencySmoother) : result Z :=
  match accessTree s with [] => Stop Undefined | kf :: _ => Done kf.2 end.

Definition getRUKey (s : FrequencySmoother) : result string :=
  match last (accessTree s) with None => Stop Undefined | Some kf => Done kf.1 end.

Definition getKeyWithMinFrequency (s : FrequencySmoother) : result string :=
  match accessTree s with [] => Stop Undefined | kf :: _ => Done kf.1 end.

Definition getKeyWithMinFrequencyRecordingAlpha (s : FrequencySmoother) : result Z :=
  match accessTree s with [] => Stop Undefined | kf :: _ => Done kf.2 end.

(** [accessFreqs[key]++] overflows the [int] at [INT_MAX]. *)
Definition incrementFrequency (key : string) : M FrequencySmoother () :=
  modify (touch key) ;;
  s ← get;
  modify (with_accessTree (oset_erase freqCmp (key, freq_at key s))) ;;
  (if freq_at key s <? 2^31 - 1 then mret () else fail Undefined) ;;
  modify (with_accessFreqs (λ m, <[key := freq_at key s + 1]> m)) ;;
  modify (with_accessTree (oset_insert freqCmp (key, freq_at key s + 1))).

Definition setFrequency (key : string) (value : Z) (s : FrequencySmoother) : FrequencySmoother :=
  let s := touch key s in
  let s := with_accessTree (oset_erase freqCmp (key, freq_at key s)) s in
  let s := with_accessFreqs (λ m, <[key := value]> m) s in
  with_accessTree (oset_insert freqCmp (key, freq_at key s)) s.

(** The block that [removeKey] and [removeKey_without_mutex] share: the
    caller holds the mutex in the second. *)
Definition removeKey_without_mutex (key : string) : M FrequencySmoother () :=
  modify (touch key) ;;
  s ← get;
  modify (with_accessTree (oset_erase freqCmp (key, freq_at key s))) ;;
  modify (with_accessFreqs (λ m, delete key m)) ;;
  if needTimeStamp s then
    split ← lift_result (get_key_timestamp_split key);
    s ← get;
    match uniqueItemWithTimeStamp s !! split.1 with
    | None => mret ()
    | Some ts =>
        modify (with_items (λ m, <[split.1 := oset_erase Z.ltb split.2 ts]> m)) ;;
        s ← get;
        match times split.1 s with
        | [] => modify (with_items (λ m, delete split.1 m))
        | _ => mret ()
        end
    end
  else mret ().

Definition removeKey (key : string) : M FrequencySmoother () := removeKey_without_mutex key.

Definition addKey (key : string) (s : FrequencySmoother) : FrequencySmoother :=
  let s := touch key s in with_accessTree (oset_insert freqCmp (key, freq_at key s)) s.

Definition getFrequency (key : string) : M FrequencySmoother Z :=
  modify (touch key) ;; gets (freq_at key).

Definition size (s : FrequencySmoother) : nat := base.size (accessFreqs s).

Definition getIterator (s : FrequencySmoother) : list (string * Z) := accessTree s.

(** The order of [unordered_map] iteration is not specified; [map_to_list]
    is one of the orders. *)
Definition fetchUniqueItemIDs (results : list string) (s : FrequencySmoother) : list string :=
  results ++ (map_to_list (uniqueItemWithTimeStamp s)).*1.

Definition search (pattern : string) (results : list string) (s : FrequencySmoother) : list string :=
  if decide (pattern = EmptyString) then fetchUniqueItemIDs results s
  else match uniqueItemWithTimeStamp s !! pattern with
       | Some timeStamp => results ++ ((λ t, pattern +:+ "@" +:+ to_string t) <$> timeStamp)
       | None => results ++ ["SEARCH FAILURE"]
       end.

Definition checkIfUniqueItemWithTimeStampExists (key : string) (s : FrequencySmoother) : bool :=
  match accessFreqs s !! key with Some _ => true | None => false end.

(** The parameter [keys_to_be_deleted] is not used. *)
Definition getOldestKey (keys_to_be_deleted : list string) (currentKey : string) : M FrequencySmoother string :=
  split ← lift_result (get_key_timestamp_split currentKey);
  modify (touch_item split.1) ;;
  s ← get;
  match times split.1 s with
  | [] => fail Undefined
  | oldestTimestamp :: _ => mret (split.1 +:+ "@" +:+ to_string oldestTimestamp)
  end.

Definition get_timestamp_for_key (key : string) : M FrequencySmoother (list Z) :=
  modify (touch_item key) ;; gets (times key).

(** * The order *)

#[export] Instance freqCmp_strict_total : StrictTotal freqCmp.
Proof.
  unfold freqCmp. split.
  - intros [k f]. simpl. by rewrite Z.eqb_refl, string_ltb_irrefl.
  - intros [k1 f1] [k2 f2] [k3 f3]; simpl.
    destruct (Z.eqb_spec f1 f2), (Z.eqb_spec f2 f3), (Z.eqb_spec f1 f3);
      rewrite ?Z.ltb_lt; intros; try lia. eauto using string_ltb_trans.
  - intros [k1 f1] [k2 f2]; simpl.
    destruct (Z.eqb_spec f1 f2), (Z.eqb_spec f2 f1); rewrite ?Z.ltb_ge; intros; try lia.
    f_equal; [|done]. by apply string_ltb_total.
Qed.

Lemma freqCmp_le k1 f1 k2 f2 : freqCmp (k1, f1) (k2, f2) = true → f1 <= f2.
Proof. unfold freqCmp; simpl. destruct (Z.eqb_spec f1 f2); [lia|]. rewrite Z.ltb_lt. lia. Qed.

(** * Time-stamped keys *)

(** An item name the system can store: not empty, without ['@']. *)
Definition valid_item (item : string) : bool :=
  negb (has_char "@" item) && negb (bool_decide (item = EmptyString)).

Definition ts_key (item : string) (t : Z) : string := item +:+ "@" +:+ to_string t.

Definition canonical (key : string) : Prop :=
  ∃ item t, valid_item item = true ∧ in_long t = true ∧ key = ts_key item t.

Lemma valid_item_spec item : valid_item item = true ↔ has_char "@" item = false ∧ item ≠ EmptyString.
Proof.
  unfold valid_item. rewrite andb_true_iff, !negb_true_iff, bool_decide_eq_false. done.
Qed.

Lemma split_ts_key item t :
  valid_item item = true → in_long t = true →
  get_key_timestamp_split (ts_key item t) = Done (item, t).
Proof.
  intros [Hat Hne]%valid_item_spec Ht. unfold get_key_timestamp_split, ts_key.
  change ("@" +:+ to_string t) with (String "@" (to_string t)).
  rewrite find_char_app by done.
  assert (String.length (to_string t) ≠ 0)%nat as Hlt.
  { destruct (to_string t) eqn:E; [|done]. pose proof (stol_to_string t Ht) as H. by rewrite E in H. }
  rewrite bool_decide_false by (by destruct item). rewrite str_length_app. simpl String.length.
  rewrite bool_decide_false by lia. simpl orb. cbv iota. unfold substr.
  rewrite !decide_True by (rewrite ?str_length_app; simpl; lia).
  change (str_drop 0 ?s) with s. rewrite str_take_app.
  replace (S (String.length item)) with (String.length item + 1)%nat by lia.
  simpl mbind. rewrite Nat.add_1_r, str_drop_app_S. by rewrite stol_to_string.
Qed.

Lemma ts_key_inj i1 t1 i2 t2 : ts_key i1 t1 = ts_key i2 t2 → i1 = i2 ∧ t1 = t2.
Proof.
  unfold ts_key. intros [-> Heq]%(str_app_sep_inj "@").
  - split; [done|]. by apply to_string_inj.
  - by apply to_string_no_char.
  - by apply to_string_no_char.
Qed.

(** * The invariant of the index

    [wf_tree]: the tree is the set of the pairs of [accessFreqs].
    [wf_items]: every stored key is a time-stamped key, and the sets of time
    stamps list exactly the stored keys. *)
Record wf_tree (s : FrequencySmoother) : Prop := {
  tree_sorted : oset_sorted freqCmp (accessTree s);
  tree_agree k f : (k, f) ∈ accessTree s ↔ accessFreqs s !! k = Some f;
}.

Record wf_items (s : FrequencySmoother) : Prop := {
  items_canonical k : is_Some (accessFreqs s !! k) → canonical k;
  items_sorted item : oset_sorted Z.ltb (times item s);
  items_valid item t : t ∈ times item s → valid_item item = true ∧ in_long t = true;
  items_agree item t : valid_item item = true → in_long t = true →
    t ∈ times item s ↔ is_Some (accessFreqs s !! ts_key item t);
}.

Definition wf (s : FrequencySmoother) : Prop :=
  wf_tree s ∧ (needTimeStamp s = true → wf_items s).

Lemma setFrequency_freqs key v s :
  accessFreqs (setFrequency key v s) = <[key := v]> (accessFreqs s).
Proof. unfold setFrequency, touch; simpl. by rewrite insert_insert_eq. Qed.

Lemma setFrequency_tree key v s :
  accessTree (setFrequency key v s)
  = oset_insert freqCmp (key, v) (oset_erase freqCmp (key, freq_at key s) (accessTree s)).
Proof.
  unfold setFrequency, touch, freq_at; simpl. by rewrite !lookup_insert_eq.
Qed.

Lemma setFrequency_items key v s :
  uniqueItemWithTimeStamp (setFrequency key v s) = uniqueItemWithTimeStamp s
  ∧ needTimeStamp (setFrequency key v s) = needTimeStamp s.
Proof. done. Qed.

Lemma times_setFrequency item key v s : times item (setFrequency key v s) = times item s.
Proof. unfold times. by rewrite (proj1 (setFrequency_items key v s)). Qed.

Lemma wf_tree_setFrequency key v s : wf_tree s → wf_tree (setFrequency key v s).
Proof.
  intros [Hs Hag]. split.
  - rewrite setFrequency_tree. by apply oset_insert_sorted, oset_erase_sorted.
  - intros k f. rewrite setFrequency_tree, setFrequency_freqs, elem_of_oset_insert,
      elem_of_oset_erase, Hag by done.
    unfold freq_at. destruct (decide (k = key)) as [->|Hne].
    + rewrite lookup_insert_eq. destruct (accessFreqs s !! key); simpl; naive_solver.
    + rewrite lookup_insert_ne by done. naive_solver.
Qed.

Lemma wf_setFrequency key v s :
  wf s → is_Some (accessFreqs s !! key) → wf (setFrequency key v s).
Proof.
  intros [Ht Hi] Hk. split; [by apply wf_tree_setFrequency|]. intros Hn.
  destruct (Hi Hn) as [Hc Hs Hv Ha]. assert (∀ k, is_Some (<[key:=v]> (accessFreqs s) !! k) ↔ is_Some (accessFreqs s !! k)) as Hdom.
  { intros k. destruct (decide (key = k)) as [->|Hne];
      [rewrite lookup_insert_eq|rewrite lookup_insert_ne by done]; [|done].
    split; [done|by eexists]. }
  split.
  - intros k. rewrite setFrequency_freqs, Hdom. apply Hc.
  - intros item. rewrite times_setFrequency. apply Hs.
  - intros item t. rewrite times_setFrequency. apply Hv.
  - intros item t Hit Htt. rewrite times_setFrequency, setFrequency_freqs, Hdom. by apply Ha.
Qed.

Lemma touch_present key s : is_Some (accessFreqs s !! key) → touch key s = s.
Proof.
  intros [f Hf]. unfold touch, with_accessFreqs. rewrite Hf. simpl. rewrite insert_id by done.
  by destruct s.
Qed.

Lemma getFrequency_present key f s :
  accessFreqs s !! key = Some f → getFrequency key s = (Done f, s).
Proof.
  intros Hf. unfold getFrequency. run. rewrite touch_present by eauto.
  unfold freq_at. by rewrite Hf.
Qed.

(** A pure account of [insert] on a time-stamped key. *)
Definition insert_state (item : string) (t : Z) (s : FrequencySmoother) : FrequencySmoother :=
  let k := ts_key item t in
  with_items (λ m, <[item := oset_insert Z.ltb t (times item s)]> m)
    (with_accessTree (oset_insert freqCmp (k, 0)) (with_accessFreqs (λ m, <[k := 0]> m) s)).

Lemma insert_run item t s :
  valid_item item = true → in_long t = true → needTimeStamp s = true →
  insert (ts_key item t) s = (Done (), insert_state item t s).
Proof.
  intros Hi Ht Hn. unfold insert. run. simpl. rewrite Hn. rewrite !split_ts_key by done. simpl.
  f_equal. unfold insert_state, with_items, with_accessTree, with_accessFreqs, times; simpl. f_equal.
  destruct (uniqueItemWithTimeStamp s !! item) eqn:E.
  - by rewrite E.
  - by rewrite lookup_insert_eq, insert_insert_eq.
Qed.

Lemma insert_run_fake key s :
  needTimeStamp s = false →
  insert key s = (Done (), with_accessTree (oset_insert freqCmp (key, 0)) (with_accessFreqs (λ m, <[key := 0]> m) s)).
Proof. intros Hn. unfold insert. run. simpl. by rewrite Hn. Qed.

Lemma wf_tree_insert key s :
  wf_tree s → (accessFreqs s !! key = None ∨ accessFreqs s !! key = Some 0) →
  wf_tree (with_accessTree (oset_insert freqCmp (key, 0)) (with_accessFreqs (λ m, <[key := 0]> m) s)).
Proof.
  intros [Hs Hag] Hk. split; simpl; [by apply oset_insert_sorted|].
  intros k f. rewrite elem_of_oset_insert, Hag. destruct (decide (k = key)) as [->|Hne].
  - rewrite lookup_insert_eq. destruct Hk as [->| ->]; naive_solver.
  - rewrite lookup_insert_ne by done. naive_solver.
Qed.

Lemma wf_items_insert item t s :
  valid_item item = true → in_long t = true → wf_items s → wf_items (insert_state item t s).
Proof.
  intros Hi Ht [Hc Hs Hv Ha].
  assert (∀ it, times it (insert_state item t s)
    = if decide (item = it) then oset_insert Z.ltb t (times item s) else times it s) as Htimes.
  { intros it. unfold insert_state, times; simpl. rewrite lookup_insert. by case_decide. }
  split; simpl.
  - intros k' [<-|[_ ?]]%lookup_insert_is_Some; [|by apply Hc].
    exists item, t. done.
  - intros it. rewrite Htimes. case_decide; [by apply oset_insert_sorted|done].
  - intros it t'. rewrite Htimes. case_decide as Hd; [|apply Hv].
    subst it. rewrite elem_of_oset_insert. intros [->|H]; [done|by apply Hv].
  - intros it t' Hit Htt. rewrite Htimes, lookup_insert_is_Some.
    case_decide as Hd.
    + subst it. rewrite elem_of_oset_insert, Ha by done. split.
      * intros [->|H]; [by left|].
        destruct (decide (t' = t)) as [->|Hne]; [by left|]. right. split; [|done].
        intros [_ ?]%ts_key_inj. congruence.
      * intros [[_ ?]%ts_key_inj|[_ ?]]; [by left|by right].
    + rewrite Ha by done. split.
      * intros H. right. split; [|done]. by intros [? _]%ts_key_inj.
      * intros [[? _]%ts_key_inj|[_ ?]]; [done|done].
Qed.

Lemma wf_insert item t s :
  wf s → valid_item item = true → in_long t = true → needTimeStamp s = true →
  accessFreqs s !! ts_key item t = None → wf (insert_state item t s).
Proof.
  intros [Ht Hi] Hit Htt Hn Hfresh. split; [|intros; by apply wf_items_insert; auto].
  pose proof (wf_tree_insert (ts_key item t) s Ht (or_introl Hfresh)) as [H1 H2]. by split.
Qed.

(** A pure account of [removeKey] on a stored time-stamped key. *)
Definition remove_state (item : string) (t : Z) (s : FrequencySmoother) : FrequencySmoother :=
  let k := ts_key item t in
  let ts := oset_erase Z.ltb t (times item s) in
  with_items (λ m, match ts with [] => delete item m | _ => <[item := ts]> m end)
    (with_accessTree (oset_erase freqCmp (k, freq_at k s)) (with_accessFreqs (λ m, delete k m) s)).

Lemma removeKey_run item t s :
  wf s → valid_item item = true → in_long t = true → needTimeStamp s = true →
  is_Some (accessFreqs s !! ts_key item t) →
  removeKey (ts_key item t) s = (Done (), remove_state item t s).
Proof.
  intros [Ht Hi] Hit Htt Hn Hin.
  assert (t ∈ times item s) as Hmem by (by apply (items_agree s (Hi Hn))).
  unfold removeKey, removeKey_without_mutex. run. rewrite touch_present by done.
  simpl. rewrite Hn. rewrite split_ts_key by done. simpl.
  unfold remove_state. set (k := ts_key item t).
  unfold times in Hmem. destruct (uniqueItemWithTimeStamp s !! item) as [ts|] eqn:E; [|by set_solver].
  unfold times. rewrite E. simpl. rewrite lookup_insert_eq. simpl.
  destruct (oset_erase Z.ltb t ts) as [|t1 ts1]; [|done].
  unfold with_items; simpl. by rewrite delete_insert_eq.
Qed.

Lemma times_remove_state item t s it :
  times it (remove_state item t s)
  = if decide (item = it) then oset_erase Z.ltb t (times item s) else times it s.
Proof.
  unfold remove_state, times; simpl.
  destruct (oset_erase _ _ _) as [|t1 ts1] eqn:E.
  - rewrite lookup_delete. case_decide; [|done]. by subst.
  - rewrite lookup_insert. case_decide; [|done]. by subst.
Qed.

Lemma wf_remove item t s :
  wf s → valid_item item = true → in_long t = true → needTimeStamp s = true →
  is_Some (accessFreqs s !! ts_key item t) → wf (remove_state item t s).
Proof.
  intros [[Hs Hag] Hi] Hit Htt Hn [f Hf]. destruct (Hi Hn) as [Hc Hss Hv Ha]. split; [split|intros _; split].
  - by apply oset_erase_sorted.
  - intros k g. simpl. rewrite elem_of_oset_erase, Hag by done. unfold freq_at. rewrite Hf. simpl.
    destruct (decide (k = ts_key item t)) as [->|Hne].
    + rewrite lookup_delete_eq. naive_solver.
    + rewrite lookup_delete_ne by done. naive_solver.
  - intros k. simpl. intros [_ ?]%lookup_delete_is_Some. auto.
  - intros it. rewrite times_remove_state. case_decide; [by apply oset_erase_sorted|done].
  - intros it t'. rewrite times_remove_state. case_decide; [|apply Hv]. subst.
    rewrite elem_of_oset_erase by done. intros [_ ?]. by apply Hv.
  - intros it t' Hit' Htt'. rewrite times_remove_state. simpl. rewrite lookup_delete_is_Some.
    case_decide as Hd.
    + subst it. rewrite elem_of_oset_erase, Ha by done. split.
      * intros [Hne ?]. split; [|done]. intros [_ ?]%ts_key_inj. congruence.
      * intros [Hne ?]. split; [|done]. intros ->. done.
    + rewrite Ha by done. split; [|tauto]. intros H. split; [|done]. by intros [? _]%ts_key_inj.
Qed.


(** A pure account of [incrementFrequency] and of the plain [removeKey]. *)
Lemma incrementFrequency_run key f s :
  accessFreqs s !! key = Some f → f < 2^31 - 1 →
  incrementFrequency key s = (Done (), setFrequency key (f + 1) s).
Proof.
  intros Hf Hlt. unfold incrementFrequency. run. rewrite touch_present by eauto.
  assert (freq_at key s = f) as Hfa by (unfold freq_at; by rewrite Hf).
  unfold setFrequency. rewrite touch_present by eauto. rewrite Hfa.
  rewrite (proj2 (Z.ltb_lt _ _) Hlt). unfold freq_at; simpl. by rewrite lookup_insert_eq.
Qed.

Lemma incrementFrequency_overflow key s :
  freq_at key s = 2^31 - 1 → fst (incrementFrequency key s) = Stop Undefined.
Proof.
  intros Hf. unfold incrementFrequency. run.
  assert (freq_at key (touch key s) = freq_at key s) as ->.
  { unfold freq_at, touch; simpl. by rewrite lookup_insert_eq. }
  by rewrite Hf.
Qed.

Definition remove_plain_state (key : string) (s : FrequencySmoother) : FrequencySmoother :=
  with_accessFreqs (λ m, delete key m) (with_accessTree (oset_erase freqCmp (key, freq_at key s)) s).

Lemma removeKey_run_plain key s :
  needTimeStamp s = false → is_Some (accessFreqs s !! key) →
  removeKey key s = (Done (), remove_plain_state key s).
Proof.
  intros Hn Hin. unfold removeKey, removeKey_without_mutex. run.
  rewrite touch_present by done. simpl. by rewrite Hn.
Qed.

Lemma wf_tree_remove_plain key s :
  wf_tree s → is_Some (accessFreqs s !! key) → wf_tree (remove_plain_state key s).
Proof.
  intros [Hs Hag] [f Hf]. split; simpl; [by apply oset_erase_sorted|].
  intros k g. rewrite elem_of_oset_erase, Hag by done. unfold freq_at. rewrite Hf. simpl.
  destruct (decide (k = key)) as [->|Hne].
  - rewrite lookup_delete_eq. naive_solver.
  - rewrite lookup_delete_ne by done. naive_solver.
Qed.

(** Whatever the key, and even when the split throws, the tree and the
    frequencies have already lost it. *)
Lemma removeKey_effect key s :
  accessTree (snd (removeKey key s)) = oset_erase freqCmp (key, freq_at key s) (accessTree s)
  ∧ accessFreqs (snd (removeKey key s)) = delete key (accessFreqs s).
Proof.
  assert (freq_at key (touch key s) = freq_at key s) as Hfa
    by (unfold freq_at, touch; simpl; by rewrite lookup_insert_eq).
  unfold removeKey, removeKey_without_mutex. run. rewrite Hfa.
  assert (delete key (accessFreqs (touch key s)) = delete key (accessFreqs s)) as Hd
    by (unfold touch; simpl; by rewrite delete_insert_eq).
  simpl. destruct (needTimeStamp s); [|done].
  destruct (get_key_timestamp_split key) as [split|]; [|done]. simpl.
  destruct (uniqueItemWithTimeStamp s !! split.1) as [ts|]; [|done]. simpl.
  by destruct (times _ _).
Qed.

Lemma wf_new b : wf (new_smoother b).
Proof.
  split; [split|intros _; split]; simpl.
  - constructor.
  - intros k f. rewrite lookup_empty. set_solver.
  - intros k. rewrite lookup_empty. by intros [??].
  - intros item. unfold times; simpl. rewrite lookup_empty. constructor.
  - intros item t. unfold times; simpl. rewrite lookup_empty. set_solver.
  - intros item t _ _. unfold times; simpl. rewrite !lookup_empty. split; [set_solver|by intros [??]].
Qed.

Lemma times_touch_item item it s : times it (touch_item item s) = times it s.
Proof.
  unfold times, touch_item, with_items. simpl. rewrite lookup_insert. case_decide; [by subst|done].
Qed.

Lemma touch_item_present item s : times item s ≠ [] → touch_item item s = s.
Proof.
  intros Hne. unfold touch_item, with_items, times in *. destruct s; simpl in *. f_equal.
  destruct (uniqueItemWithTimeStamp0 !! item) eqn:E; [|done]. simpl in *. by rewrite insert_id.
Qed.

Lemma wf_touch_item item s : wf s → wf (touch_item item s).
Proof.
  intros [[Ht1 Ht2] Hi]. split; [by split|]. intros Hn. destruct (Hi Hn) as [Hc Hs Hv Ha].
  split; [done|..]; intros it; rewrite times_touch_item; auto.
Qed.

(** * Histories

    A history is any sequence of calls of the public members: the keys may
    be stored or not, time-stamped or not.  An exception leaves the state of
    its call and the history goes on; undefined behaviour ends it. *)
Inductive member_call :=
  | Call_insert (key : string)
  | Call_getMinFrequency
  | Call_getRUKey
  | Call_getKeyWithMinFrequency
  | Call_getKeyWithMinFrequencyRecordingAlpha
  | Call_incrementFrequency (key : string)
  | Call_setFrequency (key : string) (value : Z)
  | Call_removeKey (key : string)
  | Call_removeKey_without_mutex (key : string)
  | Call_addKey (key : string)
  | Call_getFrequency (key : string)
  | Call_size
  | Call_getIterator
  | Call_search (pattern : string) (results : list string)
  | Call_fetchUniqueItemIDs (results : list string)
  | Call_checkIfUniqueItemWithTimeStampExists (key : string)
  | Call_getOldestKey (keys_to_be_deleted : list string) (currentKey : string)
  | Call_get_timestamp_for_key (key : string).

Definition reads {A} (f : FrequencySmoother → result A) : M FrequencySmoother () :=
  s ← get; _ ← lift_result (f s); mret ().

Definition perform (c : member_call) : M FrequencySmoother () :=
  match c with
  | Call_insert key => insert key
  | Call_getMinFrequency => reads getMinFrequency
  | Call_getRUKey => reads getRUKey
  | Call_getKeyWithMinFrequency => reads getKeyWithMinFrequency
  | Call_getKeyWithMinFrequencyRecordingAlpha => reads getKeyWithMinFrequencyRecordingAlpha
  | Call_incrementFrequency key => incrementFrequency key
  | Call_setFrequency key value => modify (setFrequency key value)
  | Call_removeKey key => removeKey key
  | Call_removeKey_without_mutex key => removeKey_without_mutex key
  | Call_addKey key => modify (addKey key)
  | Call_getFrequency key => _ ← getFrequency key; mret ()
  | Call_size => reads (λ s, Done (size s))
  | Call_getIterator => reads (λ s, Done (getIterator s))
  | Call_search pattern results => reads (λ s, Done (search pattern results s))
  | Call_fetchUniqueItemIDs results => reads (λ s, Done (fetchUniqueItemIDs results s))
  | Call_checkIfUniqueItemWithTimeStampExists key =>
      reads (λ s, Done (checkIfUniqueItemWithTimeStampExists key s))
  | Call_getOldestKey keys_to_be_deleted currentKey =>
      _ ← getOldestKey keys_to_be_deleted currentKey; mret ()
  | Call_get_timestamp_for_key key => _ ← get_timestamp_for_key key; mret ()
  end.

Fixpoint run_calls (calls : list member_call) (s : FrequencySmoother) : option FrequencySmoother :=
  match calls with
  | [] => Some s
  | c :: calls =>
      match perform c s with
      | (Done _, s') | (Stop (Throw _), s') => run_calls calls s'
      | _ => None
      end
  end.

(** The calls that keep the whole index consistent: an inserted key is a
    time-stamped one (where the index keeps time stamps) and is not stored
    with a frequency other than 0; the other updates are of stored keys. *)
Definition canonicalb (key : string) : bool :=
  match get_key_timestamp_split key with
  | Done (item, t) => valid_item item && in_long t && bool_decide (key = ts_key item t)
  | _ => false
  end.

Definition managed (c : member_call) (s : FrequencySmoother) : bool :=
  match c with
  | Call_insert key => (negb (needTimeStamp s) || canonicalb key) && (freq_at key s =? 0)
  | Call_incrementFrequency key | Call_setFrequency key _ | Call_removeKey key
  | Call_removeKey_without_mutex key | Call_addKey key | Call_getFrequency key =>
      checkIfUniqueItemWithTimeStampExists key s
  | _ => true
  end.

Fixpoint all_managed (calls : list member_call) (s : FrequencySmoother) : bool :=
  match calls with
  | [] => true
  | c :: calls => managed c s && all_managed calls (snd (perform c s))
  end.

(** What holds after every history.  [entries]: the tree is sorted and has
    the current pair of every key whose frequency is not 0.  [stamps]: the
    sets of time stamps are sorted, are empty where the index does not keep
    them, and each stamp is that of some stored key. *)
Record entries (s : FrequencySmoother) : Prop := {
  entries_sorted : oset_sorted freqCmp (accessTree s);
  entries_current k f : accessFreqs s !! k = Some f → f ≠ 0 → (k, f) ∈ accessTree s;
}.

Record stamps (s : FrequencySmoother) : Prop := {
  stamps_sorted item : oset_sorted Z.ltb (times item s);
  stamps_plain item : needTimeStamp s = false → times item s = [];
  stamps_stored item t : t ∈ times item s →
    ∃ k, is_Some (accessFreqs s !! k) ∧ get_key_timestamp_split k = Done (item, t);
}.

Definition sound (s : FrequencySmoother) : Prop := entries s ∧ stamps s.

Lemma entries_ext s s' :
  accessTree s' = accessTree s → accessFreqs s' = accessFreqs s → entries s → entries s'.
Proof. intros Ht Hf [H1 H2]. by split; rewrite ?Ht, ?Hf. Qed.

(** A new pair for [key], after the old one has been erased or not. *)
Lemma entries_write key v (tree : list (string * Z)) s s' :
  accessFreqs s' = <[key := v]> (accessFreqs s) → accessTree s' = oset_insert freqCmp (key, v) tree →
  oset_sorted freqCmp tree →
  (∀ k f, k ≠ key → (k, f) ∈ accessTree s → (k, f) ∈ tree) → entries s → entries s'.
Proof.
  intros Hf Ht Hs Hkeep [_ He]. split; rewrite ?Ht; [by apply oset_insert_sorted|].
  intros k f. rewrite Hf, elem_of_oset_insert. destruct (decide (k = key)) as [->|Hne].
  - rewrite lookup_insert_eq. intros [= ->]. by left.
  - rewrite lookup_insert_ne by done. intros. right. by apply Hkeep, He.
Qed.

Lemma erase_keeps key g s k f :
  entries s → k ≠ key → (k, f) ∈ accessTree s → (k, f) ∈ oset_erase freqCmp (key, g) (accessTree s).
Proof. intros [Hs _] Hne Hin. rewrite elem_of_oset_erase by done. split; [congruence|done]. Qed.

Lemma entries_touch key s : entries s → entries (touch key s).
Proof.
  intros [Hs He]. split; [done|]. intros k f. unfold touch; simpl. destruct (decide (k = key)) as [->|Hne].
  - rewrite lookup_insert_eq. intros [= <-]. destruct (accessFreqs s !! key) eqn:E; [by apply He|done].
  - rewrite lookup_insert_ne by done. apply He.
Qed.

Lemma entries_setFrequency key v s : entries s → entries (setFrequency key v s).
Proof.
  intros He. apply (entries_write key v (oset_erase freqCmp (key, freq_at key s) (accessTree s)) s);
    [by rewrite setFrequency_freqs|by rewrite setFrequency_tree|by apply oset_erase_sorted, He| |done].
  intros k f. by apply erase_keeps.
Qed.

Lemma entries_addKey key s : entries s → entries (addKey key s).
Proof.
  intros He. apply (entries_write key (freq_at key s) (accessTree s) s);
    [done| |apply He|done|done].
  unfold addKey, freq_at; simpl. by rewrite lookup_insert_eq.
Qed.

Lemma entries_removeKey key s : entries s → entries (snd (removeKey key s)).
Proof.
  intros He. destruct (removeKey_effect key s) as [Ht Hf]. split.
  - rewrite Ht. by apply oset_erase_sorted, He.
  - intros k f. rewrite Ht, Hf. destruct (decide (k = key)) as [->|Hne]; [by rewrite lookup_delete_eq|].
    rewrite lookup_delete_ne by done. intros. apply erase_keeps; [done..|]. by apply He.
Qed.

(** Calls that keep the sets of time stamps only have to keep the stored
    keys. *)
Lemma stamps_frame s s' :
  (∀ item, times item s' = times item s) → needTimeStamp s' = needTimeStamp s →
  (∀ k, is_Some (accessFreqs s !! k) → is_Some (accessFreqs s' !! k)) → stamps s → stamps s'.
Proof.
  intros Ht Hn Hf [H1 H2 H3]. split; intros item; rewrite ?Ht, ?Hn; [done|apply H2|].
  intros t (k & Hk & Hs)%H3. eauto.
Qed.

Lemma stored_insert (m : gmap string Z) key v k : is_Some (m !! k) → is_Some (<[key := v]> m !! k).
Proof. rewrite lookup_insert_is_Some. destruct (decide (key = k)); auto. Qed.

(** The time stamps after [insert] and after [removeKey]. *)
Definition keeps_stamp (key : string) (s : FrequencySmoother) : option (string * Z) :=
  if needTimeStamp s then
    match get_key_timestamp_split key with Done split => Some split | Stop _ => None end
  else None.

Lemma insert_effect key s :
  let s' := snd (insert key s) in
  accessTree s' = oset_insert freqCmp (key, 0) (accessTree s)
  ∧ accessFreqs s' = <[key := 0]> (accessFreqs s) ∧ needTimeStamp s' = needTimeStamp s
  ∧ ∀ it, times it s' = match keeps_stamp key s with
      | Some (item, t) => if decide (item = it) then oset_insert Z.ltb t (times item s) else times it s
      | None => times it s
      end.
Proof.
  unfold insert, keeps_stamp. run. simpl. destruct (needTimeStamp s) eqn:Hn; [|done].
  destruct (get_key_timestamp_split key) as [[item t]|]; simpl; [|done].
  split_and!; [done..|]. intros it. unfold times; simpl. rewrite lookup_insert.
  destruct (uniqueItemWithTimeStamp s !! item) eqn:E; case_decide as Hd; simpl; subst; try done.
  - by rewrite E.
  - by rewrite lookup_insert_eq.
  - by rewrite lookup_insert_ne.
Qed.

Lemma removeKey_times key s :
  let s' := snd (removeKey key s) in
  needTimeStamp s' = needTimeStamp s
  ∧ ∀ it, times it s' = match keeps_stamp key s with
      | Some (item, t) => if decide (item = it) then oset_erase Z.ltb t (times item s) else times it s
      | None => times it s
      end.
Proof.
  unfold removeKey, removeKey_without_mutex, keeps_stamp. run. simpl.
  destruct (needTimeStamp s) eqn:Hn; [|done].
  destruct (get_key_timestamp_split key) as [[item t]|]; simpl; [|done].
  destruct (uniqueItemWithTimeStamp s !! item) as [ts|] eqn:E; simpl.
  - unfold times. simpl. rewrite lookup_insert_eq. simpl.
    destruct (oset_erase Z.ltb t ts) as [|t1 ts1] eqn:Ee; simpl; (split; [done|]); intros it; case_decide as Hd; subst;
      rewrite ?E, ?lookup_delete_eq, ?lookup_insert_eq; simpl; rewrite ?Ee; try done.
    + by rewrite lookup_delete_ne, lookup_insert_ne.
    + by rewrite lookup_insert_ne.
  - split; [done|]. intros it. unfold times. simpl. case_decide as Hd; [|done]. subst. by rewrite E.
Qed.

Lemma stamps_insert key s : stamps s → stamps (snd (insert key s)).
Proof.
  intros [H1 H2 H3]. destruct (insert_effect key s) as (_ & Hf & Hn & Ht). unfold keeps_stamp in Ht.
  split; intros it; rewrite Ht, ?Hn.
  - destruct (needTimeStamp s); [|done]. destruct (get_key_timestamp_split key) as [[item t]|]; [|done].
    case_decide; [by apply oset_insert_sorted|done].
  - intros Hp. rewrite Hp. by apply H2.
  - rewrite Hf. intros t0 Hin.
    assert (t0 ∈ times it s ∨ get_key_timestamp_split key = Done (it, t0)) as [(k & Hk & Hs)%H3|Hs].
    { destruct (needTimeStamp s); [|by left]. destruct (get_key_timestamp_split key) as [[item t]|]; [|by left].
      case_decide as Hd; [subst|by left]. rewrite elem_of_oset_insert in Hin. naive_solver. }
    + exists k. split; [by apply stored_insert|done].
    + exists key. rewrite lookup_insert_eq. eauto.
Qed.

Lemma stamps_removeKey key s : stamps s → stamps (snd (removeKey key s)).
Proof.
  intros [H1 H2 H3]. destruct (removeKey_times key s) as [Hn Ht].
  destruct (removeKey_effect key s) as [_ Hf]. unfold keeps_stamp in Ht.
  split; intros it; rewrite Ht, ?Hn.
  - destruct (needTimeStamp s); [|done]. destruct (get_key_timestamp_split key) as [[item t]|]; [|done].
    case_decide; [by apply oset_erase_sorted|done].
  - intros Hp. rewrite Hp. by apply H2.
  - rewrite Hf. intros t0 Hin.
    assert (t0 ∈ times it s ∧ get_key_timestamp_split key ≠ Done (it, t0)) as [(k & Hk & Hs)%H3 Hne].
    { destruct (needTimeStamp s) eqn:Hp; [|by rewrite H2 in Hin; [set_solver|]].
      destruct (get_key_timestamp_split key) as [[item t]|]; [|done].
      case_decide as Hd; [subst|naive_solver]. rewrite elem_of_oset_erase in Hin by done. naive_solver. }
    exists k. split; [|done]. rewrite lookup_delete_ne by congruence. done.
Qed.

Lemma incrementFrequency_inv key s s' :
  incrementFrequency key s = (Done (), s') → s' = setFrequency key (freq_at key s + 1) s.
Proof.
  assert (freq_at key (touch key s) = freq_at key s) as Hfa
    by (unfold freq_at, touch; simpl; by rewrite lookup_insert_eq).
  unfold incrementFrequency. run. rewrite Hfa. destruct (freq_at key s <? 2 ^ 31 - 1); [|done].
  intros [= <-]. unfold setFrequency. rewrite Hfa. unfold freq_at; simpl. by rewrite lookup_insert_eq.
Qed.

(** A call that comes back, with a value or with an exception. *)
Definition comes_back {A} (r : result A) : Prop := match r with Done _ | Stop (Throw _) => True | _ => False end.

Lemma reads_frame {A} (f : FrequencySmoother → result A) s : snd (reads f s) = s.
Proof. unfold reads. run. by destruct (f s). Qed.

Lemma getOldestKey_effect l key s :
  snd (getOldestKey l key s) = s
  ∨ ∃ item, snd (getOldestKey l key s) = touch_item item s.
Proof.
  unfold getOldestKey. run. destruct (get_key_timestamp_split key) as [[item t]|]; simpl; [|by left].
  right. exists item. by destruct (times item (touch_item item s)).
Qed.

Lemma incrementFrequency_only key s :
  comes_back (fst (incrementFrequency key s)) →
  snd (incrementFrequency key s) = setFrequency key (freq_at key s + 1) s.
Proof.
  intros Hb. apply incrementFrequency_inv. revert Hb. unfold incrementFrequency. run.
  by destruct (_ <? _).
Qed.

Lemma perform_split {A} (m : M FrequencySmoother A) s :
  snd ((_ ← m; mret ()) s) = snd (m s).
Proof. run. by destruct (m s) as [[]]. Qed.

Lemma sound_perform c s : comes_back (fst (perform c s)) → sound s → sound (snd (perform c s)).
Proof.
  intros Hb [He Hs]. destruct c as [key| | | | |key|key v|key|key|key|key| | |p l|l|key|l key|key];
    simpl; rewrite ?reads_frame, ?perform_split; try done.
  - destruct (insert_effect key s) as (Ht & Hf & _). split; [|by apply stamps_insert].
    by apply (entries_write key 0 (accessTree s) s); [..|apply He| |].
  - rewrite incrementFrequency_only by done. split; [by apply entries_setFrequency|].
    apply (stamps_frame s); [done..| |done]. intros k. rewrite setFrequency_freqs. apply stored_insert.
  - split; [by apply entries_setFrequency|]. apply (stamps_frame s); [done..| |done].
    intros k. rewrite setFrequency_freqs. apply stored_insert.
  - split; [by apply entries_removeKey|by apply stamps_removeKey].
  - split; [by apply entries_removeKey|by apply stamps_removeKey].
  - split; [by apply entries_addKey|]. apply (stamps_frame s); [done..| |done]. intros k. apply stored_insert.
  - split; [by apply entries_touch|]. apply (stamps_frame s); [done..| |done]. intros k. apply stored_insert.
  - destruct (getOldestKey_effect l key s) as [->|[item ->]]; [done|]. split; [by apply (entries_ext s)|].
    apply (stamps_frame s); [|done..]. intros it. apply times_touch_item.
  - split; [by apply (entries_ext s)|]. apply (stamps_frame s); [|done..]. intros it. apply times_touch_item.
Qed.

(** * Managed histories *)

Lemma canonicalb_spec key : canonicalb key = true → canonical key.
Proof.
  unfold canonicalb, canonical. destruct (get_key_timestamp_split key) as [[item t]|]; [|done].
  rewrite !andb_true_iff, bool_decide_eq_true. naive_solver.
Qed.

Lemma stored_spec key s : checkIfUniqueItemWithTimeStampExists key s = true → is_Some (accessFreqs s !! key).
Proof. unfold checkIfUniqueItemWithTimeStampExists. destruct (accessFreqs s !! key); [eauto|done]. Qed.

Lemma wf_insert_managed key s :
  managed (Call_insert key) s = true → wf s → wf (snd (insert key s)).
Proof.
  intros [Hc Hz]%andb_true_iff [Ht Hi]. apply Z.eqb_eq in Hz.
  assert (accessFreqs s !! key = None ∨ accessFreqs s !! key = Some 0) as Hk.
  { unfold freq_at in Hz. destruct (accessFreqs s !! key); simpl in Hz; [right; congruence|by left]. }
  pose proof (wf_tree_insert key s Ht Hk) as Hw. destruct (needTimeStamp s) eqn:Hn; simpl in Hc.
  - apply canonicalb_spec in Hc as (item & t & Hit & Htt & ->). rewrite insert_run by done.
    split; [by destruct Hw|]. intros _. by apply wf_items_insert; auto.
  - rewrite insert_run_fake by done. split; [done|simpl; congruence].
Qed.

Lemma wf_removeKey_stored key s : is_Some (accessFreqs s !! key) → wf s → wf (snd (removeKey key s)).
Proof.
  intros Hk Hwf. destruct (needTimeStamp s) eqn:Hn.
  - destruct (items_canonical s (proj2 Hwf Hn) key Hk) as (item & t & Hit & Htt & ->).
    rewrite removeKey_run by done. by apply wf_remove.
  - rewrite removeKey_run_plain by done.
    split; [apply wf_tree_remove_plain; [apply Hwf|done]|]. simpl. congruence.
Qed.

Lemma addKey_stored key s : is_Some (accessFreqs s !! key) → wf s → wf (addKey key s).
Proof.
  intros Hk [[Hs Ha] Hi]. unfold addKey. rewrite touch_present by done. split.
  - split; simpl; [by apply oset_insert_sorted|]. intros k f. rewrite elem_of_oset_insert, Ha.
    unfold freq_at. destruct Hk as [g Hg]. rewrite Hg. naive_solver.
  - intros Hn. destruct (Hi Hn). by split.
Qed.

Lemma wf_perform c s :
  managed c s = true → comes_back (fst (perform c s)) → wf s → wf (snd (perform c s)).
Proof.
  intros Hm Hb Hwf. destruct c as [key| | | | |key|key v|key|key|key|key| | |p l|l|key|l key|key];
    simpl; rewrite ?reads_frame, ?perform_split; try done; try apply stored_spec in Hm.
  - by apply wf_insert_managed.
  - rewrite incrementFrequency_only by done. by apply wf_setFrequency.
  - by apply wf_setFrequency.
  - by apply wf_removeKey_stored.
  - by apply wf_removeKey_stored.
  - by apply addKey_stored.
  - change (wf (touch key s)). by rewrite touch_present.
  - destruct (getOldestKey_effect l key s) as [->|[item ->]]; [done|]. by apply wf_touch_item.
  - by apply wf_touch_item.
Qed.

Lemma sound_new b : sound (new_smoother b).
Proof.
  split; split; [constructor|done|constructor|done|]. intros item t.
  change (times item (new_smoother b)) with (@nil Z). set_solver.
Qed.

(** A step of a history, for invariants that hold under a condition on the
    calls. *)
Lemma run_calls_ind (ok : member_call → FrequencySmoother → bool) (P : FrequencySmoother → Prop) calls s s' :
  (∀ c s, ok c s = true → comes_back (fst (perform c s)) → P s → P (snd (perform c s))) →
  (fix all calls s := match calls with [] => true | c :: calls => ok c s && all calls (snd (perform c s)) end) calls s = true →
  run_calls calls s = Some s' → P s → P s'.
Proof.
  intros Hstep. revert s. induction calls as [|c calls IH]; intros s Hok Hrun Hs; simpl in *; [by simplify_eq|].
  apply andb_true_iff in Hok as [Hc Hok]. specialize (Hstep c s Hc). specialize (IH (snd (perform c s)) Hok).
  destruct (perform c s) as [[u|[]] s1]; simpl in *; try done; auto.
Qed.

(** * Properties *)

(** C21: after any history of calls of the public members on a new index,
    whatever the keys, as long as no call is undefined behaviour: the tree
    is sorted by [freqCmp] and has the pair of every key whose frequency is
    not 0, the per-item sets of time stamps are sorted and each stamp is that
    of some stored key.  When moreover every inserted key is well formed and
    not stored with another frequency, and the other updates are of stored
    keys, the index is consistent: the tree holds exactly one pair per stored
    key and the time stamps are exactly those of the stored keys. *)
Theorem smoother_reachable_wf b calls s :
  run_calls calls (new_smoother b) = Some s →
  sound s ∧ (all_managed calls (new_smoother b) = true → wf s).
Proof.
  intros Hrun. split.
  - eapply (run_calls_ind (λ _ _, true) sound); [intros; by apply sound_perform| |exact Hrun|apply sound_new].
    generalize (new_smoother b). clear. induction calls; intros; simpl; auto.
  - intros Hm. eapply (run_calls_ind managed wf); [apply wf_perform|exact Hm|exact Hrun|apply wf_new].
Qed.

Lemma smoother_reachable_wf_witness :
  let stale := [Call_insert "a@7"; Call_setFrequency "a@7" 5; Call_insert "a@7"; Call_addKey "b";
                Call_insert "@"; Call_getFrequency "c@1"] in
  let calls := [Call_insert "a@7"; Call_insert "a@8"; Call_getOldestKey [] "a@9"; Call_setFrequency "a@7" 5;
                Call_addKey "a@7"; Call_get_timestamp_for_key "q"; Call_removeKey "a@8"] in
  (∃ s, run_calls stale (new_smoother true) = Some s ∧ sound s
     ∧ accessTree s = [("@", 0); ("a@7", 0); ("b", 0); ("a@7", 5)] ∧ accessFreqs s !! "a@7" = Some 0)
  ∧ run_calls [Call_getOldestKey [] "z@1"] (new_smoother true) = None
  ∧ ∃ s, run_calls calls (new_smoother true) = Some s ∧ wf s ∧ accessTree s = [("a@7", 5)].
Proof.
  intros stale calls. split; [|split; [reflexivity|]].
  - eexists. split; [vm_compute; reflexivity|]. split; [|split; reflexivity].
    refine (proj1 (smoother_reachable_wf true stale _ _)). vm_compute. reflexivity.
  - eexists. split; [vm_compute; reflexivity|]. split; [|reflexivity].
    refine (proj2 (smoother_reachable_wf true calls _ _) _); vm_compute; reflexivity.
Defined.

(** C24: [getKeyWithMinFrequency] returns a stored key whose frequency is the
    least of all stored keys, the lexicographically first of them on a tie,
    and [getMinFrequency] returns that frequency. *)
Theorem getKeyWithMinFrequency_least s :
  wf_tree s → accessFreqs s ≠ ∅ →
  ∃ k f, getKeyWithMinFrequency s = Done k ∧ getMinFrequency s = Done f
    ∧ accessFreqs s !! k = Some f
    ∧ ∀ k' f', accessFreqs s !! k' = Some f' →
        f <= f' ∧ (f' = f → k' = k ∨ string_ltb k k' = true).
Proof.
  intros [Hs Hag] Hne. apply map_choose in Hne as (k0 & f0 & Hk0). apply Hag in Hk0.
  unfold getKeyWithMinFrequency, getMinFrequency.
  destruct (accessTree s) as [|[k f] tree]; [set_solver|]. exists k, f.
  repeat split; [apply Hag; by left|..].
  - apply Hag in H as Hin. destruct (oset_head_min _ _ _ Hs Hin) as [[= -> ->]|Hlt]; [lia|].
    by apply freqCmp_le in Hlt.
  - apply Hag in H as Hin. intros ->. destruct (oset_head_min _ _ _ Hs Hin) as [[= ->]|Hlt]; [by left|].
    right. unfold freqCmp in Hlt. simpl in Hlt. by rewrite Z.eqb_refl in Hlt.
Qed.

Lemma getKeyWithMinFrequency_least_witness :
  let s := setFrequency "a@7" 5 (snd (insert "b@8" (snd (insert "a@7" (new_smoother true))))) in
  getKeyWithMinFrequency s = Done "b@8" ∧
  ∃ k f, getKeyWithMinFrequency s = Done k ∧ getMinFrequency s = Done f
    ∧ accessFreqs s !! k = Some f
    ∧ ∀ k' f', accessFreqs s !! k' = Some f' →
        f <= f' ∧ (f' = f → k' = k ∨ string_ltb k k' = true).
Proof.
  cbv zeta. split; [reflexivity|]. apply getKeyWithMinFrequency_least; [|done].
  apply wf_tree_setFrequency.
  apply (wf_perform (Call_insert "b@8")); [done..|]. apply (wf_perform (Call_insert "a@7")); [done..|].
  apply wf_new.
Defined.

(** The oldest time stamp of an item that has some. *)
Lemma getOldestKey_run s item tc t0 ts keys_to_be_deleted :
  valid_item item = true → in_long tc = true → times item s = t0 :: ts →
  getOldestKey keys_to_be_deleted (ts_key item tc) s = (Done (ts_key item t0), s).
Proof.
  intros Hi Ht Hts. unfold getOldestKey. run. rewrite split_ts_key by done. simpl.
  rewrite touch_item_present by (by rewrite Hts). by rewrite Hts.
Qed.

(** C25: [getOldestKey] on a well-formed index, whatever list of keys to be
    deleted it is given: when the item of the current key has stored keys,
    it returns the stored one with the least time stamp and changes nothing;
    when the item has none, it dereferences the [end()] of an empty set. *)
Theorem getOldestKey_oldest s item tc keys_to_be_deleted :
  wf s → needTimeStamp s = true → valid_item item = true → in_long tc = true →
  (∀ t, in_long t = true → is_Some (accessFreqs s !! ts_key item t) →
    ∃ t0, getOldestKey keys_to_be_deleted (ts_key item tc) s = (Done (ts_key item t0), s)
      ∧ is_Some (accessFreqs s !! ts_key item t0) ∧ t0 <= t)
  ∧ ((∀ t, in_long t = true → accessFreqs s !! ts_key item t = None) →
    fst (getOldestKey keys_to_be_deleted (ts_key item tc) s) = Stop Undefined).
Proof.
  intros [Ht Hi] Hn Hit Htc. destruct (Hi Hn) as [Hc Hs Hv Ha]. split.
  - intros t Htt Hin. apply Ha in Hin; [|done..]. unfold getOldestKey. run.
    rewrite split_ts_key by done. simpl. unfold touch_item, times, with_items in *. simpl.
    rewrite lookup_insert_eq. simpl. specialize (Hs item). specialize (Hv item). specialize (Ha item).
    destruct (uniqueItemWithTimeStamp s !! item) as [[|t0 ts]|] eqn:E; simpl in *; [set_solver| |set_solver].
    exists t0. split; [|split].
    + f_equal. destruct s; simpl in *. f_equal. by rewrite insert_id.
    + destruct (Hv t0 ltac:(by left)) as [_ Ht0]. apply Ha; [done..|]. by left.
    + destruct (oset_head_min _ _ _ Hs Hin) as [->|Hlt]; [lia|]. apply Z.ltb_lt in Hlt. lia.
  - intros Hnone. unfold getOldestKey. run. rewrite split_ts_key by done. simpl.
    unfold touch_item, times, with_items in *. simpl. rewrite lookup_insert_eq. simpl.
    specialize (Hv item). specialize (Ha item).
    destruct (default [] (uniqueItemWithTimeStamp s !! item)) as [|t0 ts] eqn:E; [done|].
    exfalso. destruct (Hv t0) as [_ Ht0]; [by left|].
    destruct (proj1 (Ha t0 Hit Ht0) ltac:(by left)) as [? H]. by rewrite Hnone in H.
Qed.

Lemma getOldestKey_oldest_witness :
  let s := snd (insert "a@8" (snd (insert "a@7" (new_smoother true)))) in
  ∃ t0, getOldestKey ["a@7"] "a@9" s = (Done (ts_key "a" t0), s)
      ∧ is_Some (accessFreqs s !! ts_key "a" t0) ∧ t0 <= 8.
Proof.
  cbv zeta. apply (getOldestKey_oldest _ "a" 9 ["a@7"]); [|done..|by eexists].
  apply (wf_perform (Call_insert "a@8")); [done..|]. apply (wf_perform (Call_insert "a@7")); [done..|].
  apply wf_new.
Defined.

(** [insert] of a key that is already stored with a frequency other than
    0 resets [accessFreqs] but leaves the old pair in [accessTree]: the tree
    then has two entries for the key, and the later [setFrequency] and
    [removeKey] never take the stale one out. *)
Theorem insert_again_leaves_stale_entry s item t f v :
  wf s → needTimeStamp s = true → valid_item item = true → in_long t = true →
  accessFreqs s !! ts_key item t = Some f → f ≠ 0 → f ≠ v →
  let s1 := setFrequency (ts_key item t) v (snd (insert (ts_key item t) s)) in
  accessFreqs s1 !! ts_key item t = Some v
  ∧ (ts_key item t, f) ∈ accessTree s1 ∧ (ts_key item t, v) ∈ accessTree s1
  ∧ accessFreqs (snd (removeKey (ts_key item t) s1)) !! ts_key item t = None
  ∧ (ts_key item t, f) ∈ accessTree (snd (removeKey (ts_key item t) s1)).
Proof.
  intros [[Hs Hag] Hi] Hn Hit Htt Hf Hf0 Hfv s1. set (k := ts_key item t) in *.
  assert (accessTree s1 = oset_insert freqCmp (k, v) (oset_erase freqCmp (k, 0) (oset_insert freqCmp (k, 0) (accessTree s)))) as Htree.
  { unfold s1. rewrite setFrequency_tree. unfold k. rewrite insert_run by done. simpl.
    unfold freq_at, insert_state; simpl. by rewrite lookup_insert_eq. }
  assert (accessFreqs s1 !! k = Some v) as Hfr by (unfold s1; by rewrite setFrequency_freqs, lookup_insert_eq).
  assert (oset_sorted freqCmp (accessTree s1)) as Hs1.
  { rewrite Htree. by apply oset_insert_sorted, oset_erase_sorted, oset_insert_sorted. }
  assert ((k, f) ∈ accessTree s1) as Hin.
  { rewrite Htree, elem_of_oset_insert, elem_of_oset_erase, elem_of_oset_insert, Hag by (by apply oset_insert_sorted).
    right. split; [congruence|by right]. }
  destruct (removeKey_effect k s1) as [Hrt Hrf]. unfold freq_at in Hrt. rewrite Hfr in Hrt. simpl in Hrt.
  repeat split; [done..| | |].
  - rewrite Htree, elem_of_oset_insert. by left.
  - by rewrite Hrf, lookup_delete_eq.
  - rewrite Hrt, elem_of_oset_erase by done. split; [congruence|done].
Qed.

Lemma insert_again_leaves_stale_entry_witness :
  let s := setFrequency "a@7" 3 (snd (insert "a@7" (new_smoother true))) in
  let s1 := setFrequency "a@7" 4 (snd (insert "a@7" s)) in
  accessTree s1 = [("a@7", 3); ("a@7", 4)]
  ∧ ("a@7", 3) ∈ accessTree (snd (removeKey "a@7" s1)).
Proof.
  cbv zeta. split; [reflexivity|].
  apply (insert_again_leaves_stale_entry _ "a" 7 3 4); try done.
  apply wf_setFrequency; [|by eexists].
  apply (wf_perform (Call_insert "a@7")); [done..|]. apply wf_new.
Defined.

(** Move assignment takes the tree and the frequencies of the other
    index and keeps the [needTimeStamp] flag and the time-stamp sets of the
    target: [fakeBst = FrequencySmoother(false)] leaves the flag of
    [fakeBst] as it was. *)
Theorem move_assign_keeps_flag this other :
  let s := move_assign false this other in
  accessTree s = accessTree other ∧ accessFreqs s = accessFreqs other
  ∧ needTimeStamp s = needTimeStamp this
  ∧ uniqueItemWithTimeStamp s = uniqueItemWithTimeStamp this.
Proof. done. Qed.

End Smoother.
