(* ===== verification/Cache.v ===== *)
(** [Cache] (proxy/src/Cache.{hpp,cpp}): the proxy's cache in order of last
    insertion.  [accessList] is a [std::list] of (key, value) nodes and
    [cacheMap] maps a key to an iterator into that list.  A node has an
    identity of its own (here a number given at [push_front]), an iterator is
    that identity, and using an iterator whose node was erased is undefined.

    The detailed operations refine [Lru], the specification of the cache as
    a list of (key, value) pairs, most recent first, one per key. *)
From S2P Require Import Prelude.

(** * Specification *)
Module Lru.

Fixpoint lookup (k : string) (l : list (string * string)) : option string :=
  match l with
  | [] => None
  | p :: l => if decide (p.1 = k) then Some p.2 else lookup k l
  end.
Definition insert (k v : string) (l : list (string * string)) : list (string * string) :=
  (k, v) :: filter (λ p : string * string, p.1 ≠ k) l.
Definition remove (k : string) (l : list (string * string)) : list (string * string) :=
  filter (λ p : string * string, p.1 ≠ k) l.
Definition evict (l : list (string * string)) : list string * list (string * string) :=
  match last l with
  | None => ([""; ""], [])
  | Some (k, v) => ([k; v], take (length l - 1) l)
  end.

Lemma lookup_Some k v (l : list (string * string)) : NoDup l.*1 → lookup k l = Some v ↔ (k, v) ∈ l.
Proof.
  induction l as [|[k' v'] l IH]; simpl; [set_solver|].
  intros [Hk Hn]%NoDup_cons. case_decide as Hd; simpl in *.
  - subst. rewrite elem_of_cons. split; [intros [= ->]; by left|].
    intros [[= ->]|Hin]; [done|]. apply (list_elem_of_fmap_2 fst) in Hin. done.
  - rewrite IH, elem_of_cons by done. naive_solver.
Qed.

Lemma lookup_None k (l : list (string * string)) : lookup k l = None ↔ k ∉ l.*1.
Proof.
  induction l as [|[k' v'] l IH]; simpl; [set_solver|].
  rewrite not_elem_of_cons. case_decide; naive_solver.
Qed.

Lemma lookup_insert k v (l : list (string * string)) : lookup k (insert k v l) = Some v.
Proof. simpl. by rewrite decide_True. Qed.

Lemma lookup_filter_ne k k' (l : list (string * string)) : k ≠ k' → lookup k' (filter (λ p : string * string, p.1 ≠ k) l) = lookup k' l.
Proof.
  intros Hne. induction l as [|[k1 v1] l IH]; simpl; [done|].
  rewrite filter_cons. simpl. destruct (decide (k1 ≠ k)) as [H1|H1]; simpl.
  - by rewrite IH.
  - rewrite IH. rewrite decide_False; [done|]. intros ->. by destruct H1.
Qed.

Lemma lookup_insert_ne k k' v (l : list (string * string)) : k ≠ k' → lookup k' (insert k v l) = lookup k' l.
Proof. intros Hne. simpl. rewrite decide_False by done. by apply lookup_filter_ne. Qed.

Lemma NoDup_filter_keys k (l : list (string * string)) : NoDup l.*1 → NoDup (filter (λ p : string * string, p.1 ≠ k) l).*1.
Proof.
  apply NoDup_fmap_filter.
Qed.

Lemma NoDup_insert k v (l : list (string * string)) : NoDup l.*1 → NoDup (insert k v l).*1.
Proof.
  intros Hn. simpl. constructor; [|by apply NoDup_filter_keys].
  intros ([k' v'] & -> & Hin)%list_elem_of_fmap. apply list_elem_of_filter in Hin as [? _]. done.
Qed.

End Lru.

Module Cache.

(** * Data *)
Abbreviation node := (nat * (string * string))%type.

Record Cache := {
  cacheMap : gmap string nat;
  accessList : list node;
  m_capacity : Z;
  next_node : nat;  (** the allocator of list nodes *)
}.

Definition new_cache : Cache :=
  {| cacheMap := ∅; accessList := []; m_capacity := 0; next_node := 0 |}.

(** [it->...] *)
Fixpoint deref (it : nat) (l : list node) : option (string * string) :=
  match l with
  | [] => None
  | n :: l => if decide (n.1 = it) then Some n.2 else deref it l
  end.

Definition erase_node (it : nat) (l : list node) : list node := filter (λ n, n.1 ≠ it) l.

(** [accessList.erase(it)] *)
Definition list_erase (it : nat) : M Cache () :=
  c ← get;
  match deref it (accessList c) with
  | None => fail Undefined
  | Some _ => put {| cacheMap := cacheMap c; accessList := erase_node it (accessList c);
                     m_capacity := m_capacity c; next_node := next_node c |}
  end.

(** [accessList.push_front(kv); cacheMap[key] = accessList.begin();] *)
Definition push_front_and_point (key value : string) : M Cache () :=
  modify (λ c, {| cacheMap := <[key := next_node c]> (cacheMap c);
                  accessList := (next_node c, (key, value)) :: accessList c;
                  m_capacity := m_capacity c; next_node := S (next_node c) |}).

(** * Operations *)

Definition checkIfKeyExists (key : string) (c : Cache) : bool :=
  match cacheMap c !! key with Some _ => true | None => false end.

(** The test is inverted: a key that is present yields the empty string, and
    for one that is absent [cacheMap[key]] is a singular iterator. *)
Definition getValue (key : string) : M Cache string :=
  c ← get;
  match cacheMap c !! key with
  | Some _ => mret ""
  | None => fail Undefined
  end.

Definition getValueWithoutPositionChange (key : string) (c : Cache) : result string :=
  match cacheMap c !! key with
  | None => Done ""
  | Some it => match deref it (accessList c) with Some kv => Done kv.2 | None => Stop Undefined end
  end.

Definition insertIntoCache (key value : string) : M Cache () :=
  c ← get;
  match cacheMap c !! key with
  | None => mret ()
  | Some it => list_erase it
  end ;;
  push_front_and_point key value.

Definition evictLRElementFromCache : M Cache (list string) :=
  c ← get;
  match last (accessList c) with
  | None => mret [""; ""]
  | Some n =>
      put {| cacheMap := delete n.2.1 (cacheMap c);
             accessList := take (length (accessList c) - 1) (accessList c);
             m_capacity := m_capacity c; next_node := next_node c |} ;;
      mret [n.2.1; n.2.2]
  end.

Definition removeKey (key : string) : M Cache bool :=
  c ← get;
  match cacheMap c !! key with
  | None => mret false
  | Some it =>
      list_erase it ;;
      modify (λ c, {| cacheMap := delete key (cacheMap c); accessList := accessList c;
                      m_capacity := m_capacity c; next_node := next_node c |}) ;;
      mret true
  end.

Definition size (c : Cache) : nat := base.size (cacheMap c).

(** The value and the output parameter [isPresent]. *)
Definition getValueWithoutPositionChangeNew (key : string) (c : Cache) : result (string * bool) :=
  match cacheMap c !! key with
  | None => Done ("", false)
  | Some it => match deref it (accessList c) with Some kv => Done (kv.2, true) | None => Stop Undefined end
  end.

(** The two vectors are walked together when their sizes agree. *)
Definition make_cache (keys values : list string) (cacheCapacity : Z) : result () * Cache :=
  let c := {| cacheMap := ∅; accessList := []; m_capacity := cacheCapacity; next_node := 0 |} in
  if decide (length keys = length values)
  then for_each (zip keys values) (λ kv, insertIntoCache kv.1 kv.2) c
  else (Done (), c).

(** [Cache(Cache&&)] and [operator=(Cache&&)]: the nodes move with the list,
    so the iterators of the map stay valid. *)
Definition move_assign (same_object : bool) (this other : Cache) : Cache :=
  if same_object then this
  else {| cacheMap := cacheMap other; accessList := accessList other;
          m_capacity := m_capacity other; next_node := next_node other |}.

(** * The invariant and the abstraction *)

Definition abs (c : Cache) : list (string * string) := (accessList c).*2.

Record wf (c : Cache) : Prop := {
  wf_ids : NoDup (accessList c).*1;
  wf_fresh : ∀ n, n ∈ accessList c → (n.1 < next_node c)%nat;
  wf_map : ∀ k it, cacheMap c !! k = Some it ↔ ∃ v, (it, (k, v)) ∈ accessList c;
}.

Lemma deref_elem it l kv : NoDup l.*1 → deref it l = Some kv ↔ (it, kv) ∈ l.
Proof.
  induction l as [|[i kv'] l IH]; simpl; [set_solver|].
  intros [Hi Hnd]%NoDup_cons. case_decide as Hd; simpl in *.
  - subst. rewrite elem_of_cons. split; [intros [= ->]; by left|].
    intros [[= ->]|Hin]; [done|]. apply (list_elem_of_fmap_2 fst) in Hin. simpl in Hin. done.
  - rewrite IH, elem_of_cons by done. naive_solver.
Qed.

Lemma wf_deref c k it : wf c → cacheMap c !! k = Some it → ∃ v, deref it (accessList c) = Some (k, v).
Proof. intros [Hn _ Hm] [v Hin]%Hm. exists v. by apply deref_elem. Qed.

Lemma wf_keys_NoDup c : wf c → NoDup (abs c).*1.
Proof.
  intros [Hn _ Hm]. unfold abs. rewrite <- list_fmap_compose.
  assert (∀ n, n ∈ accessList c → cacheMap c !! n.2.1 = Some n.1) as Hk.
  { intros [i [k v]] Hin. apply Hm. by exists v. }
  clear Hm. induction (accessList c) as [|n l IH]; simpl in *; [constructor|].
  apply NoDup_cons in Hn as [Hni Hn]. constructor; [|apply IH; [done|]; intros; apply Hk; by right].
  intros (n' & Heq & Hin)%list_elem_of_fmap. simpl in Heq. apply Hni.
  assert (n.1 = n'.1) as ->.
  { assert (Some n.1 = Some n'.1) by (rewrite <- !Hk by (by (left || right)); by rewrite Heq). congruence. }
  by apply list_elem_of_fmap_2.
Qed.

(** * Each operation refines its specification *)

Lemma elem_of_erase_node it l n : n ∈ erase_node it l ↔ n.1 ≠ it ∧ n ∈ l.
Proof. unfold erase_node. by rewrite list_elem_of_filter. Qed.

Lemma wf_id_key c it k n :
  wf c → cacheMap c !! k = Some it → n ∈ accessList c → n.1 = it ↔ n.2.1 = k.
Proof.
  intros [Hn _ Hm] Hk Hin. destruct n as [i [k' v']]; simpl. split.
  - intros ->. apply Hm in Hk as [v Hv].
    apply (deref_elem _ _ _ Hn) in Hv, Hin. rewrite Hv in Hin. by simplify_eq.
  - intros ->. assert (cacheMap c !! k = Some i) by (apply Hm; by exists v'). congruence.
Qed.

Lemma abs_erase c it k :
  wf c → cacheMap c !! k = Some it → (erase_node it (accessList c)).*2 = Lru.remove k (abs c).
Proof.
  intros Hwf Hk. unfold abs, erase_node, Lru.remove.
  assert (∀ n, n ∈ accessList c → n.1 = it ↔ n.2.1 = k) as Heq by (intros; by eapply wf_id_key).
  induction (accessList c) as [|n l IH]; [done|].
  rewrite fmap_cons, !filter_cons. specialize (Heq n ltac:(by left)) as Hn.
  destruct (decide (n.1 ≠ it)), (decide (n.2.1 ≠ k)); try tauto;
    rewrite ?fmap_cons, IH; try done; intros; apply Heq; by right.
Qed.

Lemma lookup_abs c k :
  wf c →
  Lru.lookup k (abs c) = match cacheMap c !! k with
                         | None => None
                         | Some it => snd <$> deref it (accessList c)
                         end.
Proof.
  intros Hwf. destruct (cacheMap c !! k) as [it|] eqn:Hk.
  - destruct (wf_deref c k it Hwf Hk) as [v Hv]. rewrite Hv. simpl.
    apply Lru.lookup_Some; [by apply wf_keys_NoDup|]. apply deref_elem in Hv; [|apply Hwf].
    by apply (list_elem_of_fmap_2 snd) in Hv.
  - apply Lru.lookup_None. unfold abs. rewrite <- list_fmap_compose.
    intros ([i [k' v]] & -> & Hin)%list_elem_of_fmap. simpl in *.
    assert (cacheMap c !! k' = Some i) by (apply Hwf; by exists v). congruence.
Qed.

Lemma checkIfKeyExists_abs c k :
  wf c → checkIfKeyExists k c = bool_decide (is_Some (Lru.lookup k (abs c))).
Proof.
  intros Hwf. unfold checkIfKeyExists. rewrite lookup_abs by done.
  destruct (cacheMap c !! k) as [it|] eqn:Hk; [|by rewrite bool_decide_false by (by intros [??])].
  destruct (wf_deref c k it Hwf Hk) as [v ->]. by rewrite bool_decide_true.
Qed.

Lemma getValueNew_abs c k :
  wf c → getValueWithoutPositionChangeNew k c
         = Done (default "" (Lru.lookup k (abs c)), bool_decide (is_Some (Lru.lookup k (abs c)))).
Proof.
  intros Hwf. unfold getValueWithoutPositionChangeNew. rewrite lookup_abs by done.
  destruct (cacheMap c !! k) as [it|] eqn:Hk; [|by rewrite bool_decide_false by (by intros [??])].
  destruct (wf_deref c k it Hwf Hk) as [v ->]. by rewrite bool_decide_true.
Qed.

Lemma getValue_pos_abs c k :
  wf c → getValueWithoutPositionChange k c = Done (default "" (Lru.lookup k (abs c))).
Proof.
  intros Hwf. unfold getValueWithoutPositionChange. rewrite lookup_abs by done.
  destruct (cacheMap c !! k) as [it|] eqn:Hk; [|done].
  by destruct (wf_deref c k it Hwf Hk) as [v ->].
Qed.

Lemma wf_push c l k v :
  NoDup l.*1 → (∀ n, n ∈ l → (n.1 < next_node c)%nat) →
  (∀ k' it, k' ≠ k → cacheMap c !! k' = Some it ↔ ∃ w, (it, (k', w)) ∈ l) →
  (∀ it w, (it, (k, w)) ∉ l) →
  wf {| cacheMap := <[k := next_node c]> (cacheMap c); accessList := (next_node c, (k, v)) :: l;
        m_capacity := m_capacity c; next_node := S (next_node c) |}.
Proof.
  intros Hn Hlt Hm Hk. split; simpl.
  - constructor; [|done]. intros (n & Heq & Hin)%list_elem_of_fmap. apply Hlt in Hin. lia.
  - intros n [->|Hin]%elem_of_cons; simpl; [lia|]. apply Hlt in Hin. lia.
  - intros k' it. destruct (decide (k' = k)) as [->|Hne].
    + rewrite lookup_insert_eq. split; [intros [= <-]; exists v; by left|].
      intros (w & [[= -> ->]|Hin]%elem_of_cons); [done|]. by apply Hk in Hin.
    + rewrite lookup_insert_ne by done. rewrite Hm by done. split.
      * intros [w Hw]. exists w. by right.
      * intros (w & [[= -> ->]|Hin]%elem_of_cons); [done|]. by exists w.
Qed.

Lemma insertIntoCache_refines c k v :
  wf c → ∃ c', insertIntoCache k v c = (Done (), c') ∧ wf c'
               ∧ abs c' = Lru.insert k v (abs c) ∧ m_capacity c' = m_capacity c.
Proof.
  intros Hwf. unfold insertIntoCache, list_erase, push_front_and_point. run.
  destruct (cacheMap c !! k) as [it|] eqn:Hk.
  - destruct (wf_deref c k it Hwf Hk) as [w Hw]. rewrite Hw. eexists. split; [done|].
    split; [|split; [|done]].
    + apply (wf_push c (erase_node it (accessList c))).
      * apply NoDup_fmap_filter, (wf_ids c Hwf).
      * intros n [_ Hin]%elem_of_erase_node. by apply Hwf.
      * intros k' it' Hne. rewrite (wf_map c Hwf). split; intros [w' Hw']; exists w'.
        -- apply elem_of_erase_node. split; [|done]. simpl. intros ->.
           by apply (wf_id_key c it k _ Hwf Hk) in Hw' as [Hw' _]; apply Hne, Hw'.
        -- by apply elem_of_erase_node in Hw' as [_ ?].
      * intros it' w' [Hne Hin]%elem_of_erase_node. simpl in Hne.
        by apply Hne, (wf_id_key c it k _ Hwf Hk Hin).
    + unfold Lru.insert. fold (Lru.remove k (abs c)). by rewrite <- (abs_erase c it k Hwf Hk).
  - eexists. split; [done|]. split; [|split; [|done]].
    + apply (wf_push c (accessList c)); [apply Hwf..| |].
      * intros k' it' _. apply Hwf.
      * intros it' w Hin. assert (cacheMap c !! k = Some it') by (apply Hwf; by exists w). congruence.
    + unfold abs, Lru.insert. simpl. f_equal. symmetry. apply list_filter_all.
      intros [k' v'] ([i [k1 v1]] & [= -> ->] & Hin)%list_elem_of_fmap. simpl. intros ->.
      assert (cacheMap c !! k = Some i) by (apply Hwf; by exists v1). congruence.
Qed.

Lemma removeKey_refines c k :
  wf c → ∃ c', removeKey k c = (Done (bool_decide (is_Some (Lru.lookup k (abs c)))), c')
               ∧ wf c' ∧ abs c' = Lru.remove k (abs c).
Proof.
  intros Hwf. rewrite <- checkIfKeyExists_abs by done.
  unfold removeKey, list_erase, checkIfKeyExists. run.
  destruct (cacheMap c !! k) as [it|] eqn:Hk.
  - destruct (wf_deref c k it Hwf Hk) as [w Hw]. rewrite Hw. eexists. split; [done|]. split.
    + split; simpl.
      * apply NoDup_fmap_filter, (wf_ids c Hwf).
      * intros n [_ Hin]%elem_of_erase_node. by apply Hwf.
      * intros k' it'. destruct (decide (k' = k)) as [->|Hne].
        -- rewrite lookup_delete_eq. split; [done|]. intros [w' [Hne Hin]%elem_of_erase_node].
           exfalso. by apply Hne, (wf_id_key c it k _ Hwf Hk Hin).
        -- rewrite lookup_delete_ne by done. rewrite (wf_map c Hwf).
           split; intros [w' Hw']; exists w'.
           ++ apply elem_of_erase_node. split; [|done]. simpl. intros ->.
              by apply (wf_id_key c it k _ Hwf Hk) in Hw' as [Hw' _]; apply Hne, Hw'.
           ++ by apply elem_of_erase_node in Hw' as [_ ?].
    + unfold abs. simpl. by apply abs_erase.
  - exists c. split; [done|]. split; [done|]. symmetry. apply list_filter_all.
    intros [k' v'] ([i [k1 v1]] & [= -> ->] & Hin)%list_elem_of_fmap. simpl. intros ->.
    assert (cacheMap c !! k = Some i) by (apply Hwf; by exists v1). congruence.
Qed.

Lemma evict_refines c :
  wf c → ∃ c', evictLRElementFromCache c = (Done (fst (Lru.evict (abs c))), c')
               ∧ wf c' ∧ abs c' = snd (Lru.evict (abs c)).
Proof.
  intros Hwf. unfold evictLRElementFromCache, Lru.evict. run.
  unfold abs. rewrite fmap_last, length_fmap.
  destruct (last (accessList c)) as [[i [k v]]|] eqn:Hl; simpl.
  - eexists. split; [done|]. split; [|simpl; by rewrite fmap_take].
    apply last_Some in Hl as [l Hl]. destruct Hwf as [Hn Hf Hm]. rewrite Hl in *.
    rewrite length_app in *. simpl in *. rewrite Nat.add_sub, take_app_length.
    rewrite fmap_app in Hn. apply NoDup_app in Hn as (Hn & Hd & _). split; simpl.
    + done.
    + intros n Hin. apply Hf. set_solver.
    + intros k' it'. destruct (decide (k' = k)) as [->|Hne].
      * rewrite lookup_delete_eq. split; [done|]. intros [w Hw]. exfalso.
        assert (cacheMap c !! k = Some it') by (apply Hm; exists w; set_solver).
        assert (cacheMap c !! k = Some i) by (apply Hm; exists v; set_solver).
        simplify_eq. apply (Hd it'); [by apply (list_elem_of_fmap_2 fst) in Hw|by left].
      * rewrite lookup_delete_ne by done. rewrite Hm. split; intros [w Hw]; exists w; set_solver.
  - apply last_None in Hl. eexists. split; [done|]. split; [done|]. by rewrite Hl.
Qed.

Lemma size_abs c : wf c → size c = length (abs c).
Proof.
  intros Hwf. unfold size, abs. rewrite length_fmap.
  pose proof (size_list_to_set (C := gset string) _ (wf_keys_NoDup c Hwf)) as Hsz.
  unfold abs in Hsz. rewrite !length_fmap in Hsz. rewrite <- Hsz, <- size_dom. f_equal. apply set_eq. intros k. rewrite elem_of_dom, elem_of_list_to_set.
  split.
  - intros [it [v Hin]%(wf_map c Hwf)]. apply list_elem_of_fmap. exists (k, v). split; [done|].
    by apply (list_elem_of_fmap_2 snd) in Hin.
  - intros ([k' v] & -> & ([i [k1 v1]] & [= -> ->] & Hin)%list_elem_of_fmap)%list_elem_of_fmap.
    exists i. apply (wf_map c Hwf). by exists v1.
Qed.


(** * Refinement over histories

    The calls the proxy makes on its cache.  [run_call] is the code,
    [spec_call] the specification. *)
Inductive call :=
  | CheckIfKeyExists (key : string)
  | GetValueWithoutPositionChange (key : string)
  | GetValueWithoutPositionChangeNew (key : string)
  | InsertIntoCache (key value : string)
  | EvictLRElementFromCache
  | RemoveKey (key : string)
  | Size.

Inductive answer :=
  | ABool (b : bool)
  | AString (s : string)
  | AStringBool (s : string) (b : bool)
  | AUnit
  | AStrings (l : list string)
  | ANat (n : nat).

Definition run_call (o : call) : M Cache answer :=
  match o with
  | CheckIfKeyExists k => gets (λ c, ABool (checkIfKeyExists k c))
  | GetValueWithoutPositionChange k =>
      c ← get; v ← lift_result (getValueWithoutPositionChange k c); mret (AString v)
  | GetValueWithoutPositionChangeNew k =>
      c ← get; v ← lift_result (getValueWithoutPositionChangeNew k c); mret (AStringBool v.1 v.2)
  | InsertIntoCache k v => insertIntoCache k v ;; mret AUnit
  | EvictLRElementFromCache => l ← evictLRElementFromCache; mret (AStrings l)
  | RemoveKey k => b ← removeKey k; mret (ABool b)
  | Size => gets (λ c, ANat (size c))
  end.

Definition spec_call (o : call) (l : list (string * string)) : answer * list (string * string) :=
  match o with
  | CheckIfKeyExists k => (ABool (bool_decide (is_Some (Lru.lookup k l))), l)
  | GetValueWithoutPositionChange k => (AString (default "" (Lru.lookup k l)), l)
  | GetValueWithoutPositionChangeNew k =>
      (AStringBool (default "" (Lru.lookup k l)) (bool_decide (is_Some (Lru.lookup k l))), l)
  | InsertIntoCache k v => (AUnit, Lru.insert k v l)
  | EvictLRElementFromCache => (AStrings (fst (Lru.evict l)), snd (Lru.evict l))
  | RemoveKey k => (ABool (bool_decide (is_Some (Lru.lookup k l))), Lru.remove k l)
  | Size => (ANat (length l), l)
  end.

Fixpoint run_calls (os : list call) : M Cache (list answer) :=
  match os with
  | [] => mret []
  | o :: os => a ← run_call o; r ← run_calls os; mret (a :: r)
  end.

Fixpoint spec_calls (os : list call) (l : list (string * string)) : list answer * list (string * string) :=
  match os with
  | [] => ([], l)
  | o :: os => let '(a, l1) := spec_call o l in let '(r, l2) := spec_calls os l1 in (a :: r, l2)
  end.

Lemma run_call_refines o c :
  wf c → ∃ c', run_call o c = (Done (fst (spec_call o (abs c))), c')
               ∧ wf c' ∧ abs c' = snd (spec_call o (abs c)).
Proof.
  intros Hwf. destruct o as [k|k|k|k v| |k|]; simpl; run.
  - rewrite checkIfKeyExists_abs by done. eauto.
  - rewrite getValue_pos_abs by done. eauto.
  - rewrite getValueNew_abs by done. eauto.
  - destruct (insertIntoCache_refines c k v Hwf) as (c' & -> & Hw & Ha & _). eauto.
  - destruct (evict_refines c Hwf) as (c' & -> & Hw & Ha). eauto.
  - destruct (removeKey_refines c k Hwf) as (c' & -> & Hw & Ha). eauto.
  - rewrite size_abs by done. eauto.
Qed.

Lemma run_calls_refines os c :
  wf c → ∃ c', run_calls os c = (Done (fst (spec_calls os (abs c))), c')
               ∧ wf c' ∧ abs c' = snd (spec_calls os (abs c)).
Proof.
  revert c. induction os as [|o os IH]; intros c Hwf; simpl; run; [eauto|].
  destruct (run_call_refines o c Hwf) as (c1 & -> & Hw1 & Ha1).
  destruct (spec_call o (abs c)) as [a l1]; simpl in *; subst l1.
  destruct (IH c1 Hw1) as (c2 & -> & Hw2 & Ha2).
  destruct (spec_calls os (abs c1)) as [r l2]; simpl in *. eauto.
Qed.

Lemma wf_empty cap : wf {| cacheMap := ∅; accessList := []; m_capacity := cap; next_node := 0 |}.
Proof.
  split; simpl; [constructor|set_solver|]. intros k it. rewrite lookup_empty. set_solver.
Qed.

Lemma make_cache_inserts keys values cap :
  length keys = length values →
  ∃ c, make_cache keys values cap = (Done (), c) ∧ wf c ∧ m_capacity c = cap
    ∧ abs c = fold_left (λ l kv, Lru.insert kv.1 kv.2 l) (zip keys values) [].
Proof.
  intros Hlen. unfold make_cache. rewrite decide_True by done.
  set (c0 := {| cacheMap := ∅; accessList := []; m_capacity := cap; next_node := 0 |}).
  assert (∀ l c, wf c → m_capacity c = cap → ∃ c', for_each l (λ kv, insertIntoCache kv.1 kv.2) c = (Done (), c')
    ∧ wf c' ∧ m_capacity c' = cap ∧ abs c' = fold_left (λ l kv, Lru.insert kv.1 kv.2 l) l (abs c)) as Hloop.
  { induction l as [|[k v] l IH]; intros c Hwf Hcap; simpl; [by exists c|]. run.
    destruct (insertIntoCache_refines c k v Hwf) as (c1 & -> & Hw1 & Ha1 & Hc1).
    destruct (IH c1 Hw1) as (c2 & -> & Hw2 & Hc2 & Ha2); [congruence|].
    exists c2. by rewrite Ha2, Ha1. }
  destruct (Hloop (zip keys values) c0 (wf_empty cap) eq_refl) as (c & Hr & Hw & Hc & Ha). by exists c.
Qed.

(** * Properties *)

(** C20: whatever sequence of calls the proxy makes on a cache built from a
    vector of keys and a vector of values, no iterator is used after its node
    was erased, and the answers are those of a list of pairs, most recently
    inserted first and one per key: insertion moves a key to the front,
    [evictLRElementFromCache] takes the pair inserted longest ago. *)
Theorem cache_refines_lru keys values cap os :
  length keys = length values →
  let l0 := fold_left (λ l kv, Lru.insert kv.1 kv.2 l) (zip keys values) [] in
  ∃ c c', make_cache keys values cap = (Done (), c)
    ∧ run_calls os c = (Done (fst (spec_calls os l0)), c')
    ∧ abs c' = snd (spec_calls os l0) ∧ NoDup (abs c').*1.
Proof.
  intros Hlen l0. destruct (make_cache_inserts keys values cap Hlen) as (c & Hc & Hw & _ & Ha).
  destruct (run_calls_refines os c Hw) as (c' & Hr & Hw' & Ha'). rewrite Ha in *.
  exists c, c'. repeat split; [done..|]. by apply wf_keys_NoDup.
Qed.

Lemma cache_refines_lru_witness :
  let os := [InsertIntoCache "a" "3"; EvictLRElementFromCache; RemoveKey "z"; Size] in
  let l0 := fold_left (λ l kv, Lru.insert kv.1 kv.2 l) (zip ["a"; "b"] ["1"; "2"]) [] in
  fst (spec_calls os l0) = [AUnit; AStrings ["b"; "2"]; ABool false; ANat 1] ∧
  ∃ c c', make_cache ["a"; "b"] ["1"; "2"] 10 = (Done (), c)
    ∧ run_calls os c = (Done (fst (spec_calls os l0)), c')
    ∧ abs c' = snd (spec_calls os l0) ∧ NoDup (abs c').*1.
Proof. cbv zeta. split; [reflexivity|]. apply cache_refines_lru. reflexivity. Defined.

(** [getValue] never returns a cached value: on a key that is in the
    cache it returns the empty string and does not move it to the front, and
    on a key that is not it dereferences a singular iterator. *)
Theorem getValue_never_returns_the_value c k :
  (is_Some (cacheMap c !! k) → getValue k c = (Done "", c))
  ∧ (cacheMap c !! k = None → fst (getValue k c) = Stop Undefined).
Proof. unfold getValue. run. split; [intros [it ->]|intros ->]; done. Qed.

End Cache.
