(* ===== verification/EvictedItems.v ===== *)
(** [evictedItems] (proxy/src/evictedItems.{h,cpp}): the pairs that left the
    cache and are not yet written to the storage server. *)
From S2P Require Import Prelude.

Module EvictedItems.

Record evictedItems := {
  cacheMap : gmap string string;
  m_capacity : Z;
}.

Definition new_evictedItems : evictedItems := {| cacheMap := ∅; m_capacity := 0 |}.
Definition make_evictedItems (cacheCapacity : Z) : evictedItems :=
  {| cacheMap := ∅; m_capacity := cacheCapacity |}.

Definition move_assign (same_object : bool) (this other : evictedItems) : evictedItems :=
  if same_object then this
  else {| cacheMap := cacheMap other; m_capacity := m_capacity other |}.

(** A missing key and a key stored with the empty value look the same. *)
Definition getValue (key : string) (e : evictedItems) : string := default "" (cacheMap e !! key).

Definition insert (key value : string) (e : evictedItems) : evictedItems :=
  {| cacheMap := <[key := value]> (cacheMap e); m_capacity := m_capacity e |}.

Definition erase (key : string) (e : evictedItems) : evictedItems :=
  {| cacheMap := delete key (cacheMap e); m_capacity := m_capacity e |}.

Definition size (e : evictedItems) : nat := base.size (cacheMap e).

Definition checkIfKeyExists (key : string) (e : evictedItems) : bool :=
  match cacheMap e !! key with Some _ => true | None => false end.

(** [erase] of every key of a list, in any order, empties a map whose keys
    are in the list. *)
Lemma erase_all_dom (ks : list string) e k :
  cacheMap (fold_left (λ e k, erase k e) ks e) !! k
  = if decide (k ∈ ks) then None else cacheMap e !! k.
Proof.
  revert e. induction ks as [|k1 ks IH]; intros e; simpl; [done|]. rewrite IH. simpl.
  destruct (decide (k ∈ ks)) as [Hin|Hni].
  - by rewrite decide_True by (by right).
  - destruct (decide (k = k1)) as [->|Hne].
    + rewrite lookup_delete_eq. by rewrite decide_True by (by left).
    + rewrite lookup_delete_ne by done. rewrite decide_False; [done|].
      by intros [?|?]%elem_of_cons.
Qed.

End EvictedItems.
