(* ===== verification/Values.v ===== *)
(** The buckets of time-series data (utils/TS_value_master.h, utils/utils.h):
    the data type written in a key, [BinarySerializer], and the sums that the
    proxy takes over deserialized buckets.  A [std::string] of bytes is a
    [string]; a [float] is its 32-bit pattern, its arithmetic the binary32
    arithmetic of [SpecFloat] (rounding to nearest even). *)
From S2P Require Import Prelude.
From S2P Require Import CxxString.
From Stdlib Require Import SpecFloat.

Local Open Scope Z_scope.

(** * [DataType] *)
Module DataType.

Definition type2size : gmap string Z := list_to_map [("int", 4); ("float", 4); ("bool", 1)].

Definition get_data_type (checking_key : string) : result string :=
  match find_char "&" checking_key with
  | None => Done "string"
  | Some firstAmp =>
      match find_char_from "&" (S firstAmp) checking_key with
      | None => Done "string"
      | Some secondAmp => substr checking_key (S firstAmp) (Some (secondAmp - firstAmp - 1)%nat)
      end
  end.

Definition get_data_type_size (key : string) : result Z :=
  data_type ← get_data_type key;
  match type2size !! data_type with
  | None => Stop (Throw invalid_argument)
  | Some n => Done n
  end.

(** A key of the form [prefix&type&rest] has the type between the ['&']s. *)
Lemma get_data_type_spec prefix ty rest :
  has_char "&" prefix = false → has_char "&" ty = false →
  get_data_type (prefix +:+ "&" +:+ ty +:+ "&" +:+ rest) = Done ty.
Proof.
  intros Hp Ht. unfold get_data_type.
  change ("&" +:+ ty +:+ "&" +:+ rest) with (String "&" (ty +:+ String "&" rest)).
  rewrite find_char_app by done. unfold find_char_from.
  rewrite decide_True by (rewrite str_length_app; simpl; lia).
  rewrite str_drop_app_S, find_char_app by done. simpl.
  unfold substr. rewrite decide_True by (rewrite str_length_app; simpl; lia).
  rewrite str_drop_app_S.
  replace (S (String.length prefix + String.length ty) - String.length prefix - 1)%nat
    with (String.length ty) by lia.
  by rewrite str_take_app.
Qed.

Lemma get_data_type_total key : ∃ ty, get_data_type key = Done ty.
Proof.
  unfold get_data_type. destruct (find_char "&" key) as [i|]; [|eauto].
  unfold find_char_from. case_decide; [|eauto].
  destruct (find_char "&" (str_drop (S i) key)) as [j|]; simpl; [|eauto].
  unfold substr. rewrite decide_True by done. eauto.
Qed.

End DataType.

(** * [BinarySerializer] *)
Module BinarySerializer.

Definition bytes_of (s : string) : list Z :=
  (λ a, Z.of_N (N_of_ascii a)) <$> String.list_ascii_of_string s.
Definition of_bytes (l : list Z) : string :=
  String.string_of_list_ascii ((λ z, ascii_of_N (Z.to_N z)) <$> l).

(** The object representation of a 32-bit word, least significant byte
    first. *)
Definition word_bytes (w : Z) : list Z :=
  [w `mod` 256; (w / 256) `mod` 256; (w / 65536) `mod` 256; (w / 16777216) `mod` 256].
Definition bytes_word (b0 b1 b2 b3 : Z) : Z := b0 + 256 * b1 + 65536 * b2 + 16777216 * b3.

Definition serialize_words (data : list Z) : string := of_bytes (data ≫= word_bytes).

(** [serialize<int>] and [serialize<float>]: [memcpy] of the elements. *)
Definition serialize_int (data : list Z) : string := serialize_words data.
Definition serialize_float (data : list Z) : string := serialize_words data.
Definition serialize_bool (data : list bool) : string :=
  of_bytes ((λ b : bool, if b then 1 else 0) <$> data).

(** The words of a buffer of [4 * n] bytes. *)
Fixpoint words_of (l : list Z) : list Z :=
  match l with
  | b0 :: b1 :: b2 :: b3 :: l => bytes_word b0 b1 b2 b3 :: words_of l
  | _ => []
  end.

(** A zeroed buffer of [size / 4 + 1] words receives the bytes, and the last
    word, which holds what does not fill a word, is dropped. *)
Definition deserialize_words (binaryData : string) : list Z :=
  let bytes := bytes_of binaryData in
  let n := (length bytes / 4 + 1)%nat in
  let buffer := bytes ++ replicate (4 * n - length bytes) 0 in
  take (n - 1) (words_of buffer).

Definition deserialize_int (binaryData : string) : list Z := wrap32 <$> deserialize_words binaryData.
Definition deserialize_float (binaryData : string) : list Z := deserialize_words binaryData.
Definition deserialize_bool (binaryData : string) : list bool :=
  (λ b, negb (b =? 0)) <$> bytes_of binaryData.

Definition byte (z : Z) : Prop := 0 <= z < 256.

Lemma bytes_of_of_bytes l : Forall byte l → bytes_of (of_bytes l) = l.
Proof.
  unfold bytes_of, of_bytes. rewrite String.list_ascii_of_string_of_list_ascii.
  induction 1 as [|z l Hz Hl IH]; [done|]. rewrite !fmap_cons, IH. f_equal.
  unfold byte in Hz. rewrite N_ascii_embedding by lia. lia.
Qed.

Lemma word_bytes_byte w : Forall byte (word_bytes w).
Proof. unfold word_bytes, byte. repeat constructor; try apply Z.mod_pos_bound; lia. Qed.

Lemma bytes_word_bytes w :
  bytes_word (w `mod` 256) ((w / 256) `mod` 256) ((w / 65536) `mod` 256) ((w / 16777216) `mod` 256)
  = w `mod` 2^32.
Proof.
  unfold bytes_word. change (2^32) with 4294967296. Z.to_euclidean_division_equations. lia.
Qed.

Lemma words_of_bind data l :
  words_of ((data ≫= word_bytes) ++ l) = ((λ w, w `mod` 2^32) <$> data) ++ words_of l.
Proof.
  induction data as [|w data IH]; [done|]. rewrite bind_cons, fmap_cons.
  change (bytes_word (w `mod` 256) ((w / 256) `mod` 256) ((w / 65536) `mod` 256) ((w / 16777216) `mod` 256)
    :: words_of ((data ≫= word_bytes) ++ l) = ((w `mod` 2^32) :: ((λ w, w `mod` 2^32) <$> data)) ++ words_of l).
  by rewrite bytes_word_bytes, IH.
Qed.

Lemma length_bind_word_bytes data : length (data ≫= word_bytes) = (4 * length data)%nat.
Proof. induction data as [|w data IH]; [done|]. rewrite bind_cons, length_app, IH. simpl. lia. Qed.

Lemma of_bytes_length l : String.length (of_bytes l) = length l.
Proof. unfold of_bytes. induction l as [|z l IH]; [done|]. rewrite fmap_cons. simpl. by rewrite IH. Qed.

Lemma serialize_words_length data : String.length (serialize_words data) = (4 * length data)%nat.
Proof. unfold serialize_words. by rewrite of_bytes_length, length_bind_word_bytes. Qed.

Lemma serialize_bool_length data : String.length (serialize_bool data) = length data.
Proof. unfold serialize_bool. by rewrite of_bytes_length, length_fmap. Qed.

Lemma deserialize_serialize_words data :
  deserialize_words (serialize_words data) = (λ w, w `mod` 2^32) <$> data.
Proof.
  unfold deserialize_words, serialize_words.
  assert (Forall byte (data ≫= word_bytes)) as Hb.
  { induction data as [|w data IH]; [constructor|]. rewrite bind_cons. apply Forall_app. split; [apply word_bytes_byte|done]. }
  rewrite bytes_of_of_bytes by done. rewrite length_bind_word_bytes.
  replace (4 * length data / 4)%nat with (length data) by (symmetry; rewrite Nat.mul_comm; apply Nat.div_mul; lia).
  replace (length data + 1 - 1)%nat with (length data) by lia.
  rewrite words_of_bind, take_app_le by (by rewrite length_fmap).
  rewrite take_ge; [done|by rewrite length_fmap].
Qed.

Lemma wrap32_mod w : wrap32 (w `mod` 2^32) = wrap32 w.
Proof. unfold wrap32. f_equal. rewrite Z.add_mod_idemp_l by lia. done. Qed.

Lemma wrap32_in_int z : in_int z = true → wrap32 z = z.
Proof.
  unfold in_int, wrap32. rewrite andb_true_iff, Z.leb_le, Z.ltb_lt. intros [H1 H2].
  rewrite Z.mod_small by lia. lia.
Qed.

Lemma length_words_of l n : (4 * n ≤ length l)%nat → (n ≤ length (words_of l))%nat.
Proof.
  revert l. induction n as [|n IH]; intros l Hl; [lia|].
  destruct l as [|b0 [|b1 [|b2 [|b3 l]]]]; simpl in Hl; try lia. simpl.
  specialize (IH l). lia.
Qed.

Lemma length_deserialize_words b :
  length (deserialize_words b) = (length (bytes_of b) / 4)%nat.
Proof.
  unfold deserialize_words. set (n := (length (bytes_of b) / 4 + 1)%nat).
  assert (length (bytes_of b) < 4 * n)%nat as Hlt.
  { unfold n. pose proof (Nat.div_mod_eq (length (bytes_of b)) 4).
    pose proof (Nat.mod_upper_bound (length (bytes_of b)) 4). lia. }
  rewrite length_take, Nat.min_l; [unfold n; lia|].
  pose proof (length_words_of (bytes_of b ++ replicate (4 * n - length (bytes_of b)) 0) n) as H.
  rewrite length_app, length_replicate in H. lia.
Qed.

(** ** Text read as words *)
Definition text : ascii → bool := λ a, (N_of_ascii a <? 128)%N.
Abbreviation text_byte := (λ b, 0 ≤ b < 128).

Lemma bytes_of_cons a s : bytes_of (String a s) = Z.of_N (N_of_ascii a) :: bytes_of s.
Proof. done. Qed.

Lemma bytes_of_app s t : bytes_of (s +:+ t) = bytes_of s ++ bytes_of t.
Proof. induction s as [|a s IH]; [done|]. by rewrite str_app_cons, !bytes_of_cons, IH. Qed.

Lemma bytes_of_rep a n : bytes_of (rep a n) = replicate n (Z.of_N (N_of_ascii a)).
Proof. induction n as [|n IH]; [done|]. cbn [rep]. by rewrite bytes_of_cons, IH. Qed.

Lemma bytes_of_text s : str_all text s = true → Forall text_byte (bytes_of s).
Proof.
  unfold text. induction s as [|a s IH]; [constructor|]. rewrite bytes_of_cons. simpl. intros [Ha Hs]%andb_true_iff.
  constructor; [|by apply IH]. apply N.ltb_lt in Ha. lia.
Qed.

Lemma length_bytes_of s : length (bytes_of s) = String.length s.
Proof. induction s as [|a s IH]; [done|]. rewrite bytes_of_cons. simpl. by rewrite IH. Qed.

(** Four bytes at a time *)
Lemma four_ind (P : list Z → Prop) :
  (∀ l, (length l < 4)%nat → P l) → (∀ b0 b1 b2 b3 l, P l → P (b0 :: b1 :: b2 :: b3 :: l)) → ∀ l, P l.
Proof.
  intros Hs Hc l. remember (length l) as n eqn:Hn. revert l Hn.
  induction n as [n IH] using lt_wf_ind. intros l ->.
  destruct l as [|b0 [|b1 [|b2 [|b3 l]]]]; [apply Hs; simpl; lia..|]. apply Hc. eapply IH; [|done]. simpl. lia.
Qed.

Lemma words_of_app n l1 l2 : length l1 = (4 * n)%nat → words_of (l1 ++ l2) = words_of l1 ++ words_of l2.
Proof.
  revert l1. induction n as [|n IH]; intros l1 Hl; [by destruct l1|].
  destruct l1 as [|b0 [|b1 [|b2 [|b3 l1]]]]; simpl in Hl; try lia. simpl. rewrite IH by lia. done.
Qed.

Lemma words_of_text l : Forall text_byte l → Forall (λ w, 0 ≤ w < 2^31) (words_of l).
Proof.
  induction l as [l Hl|b0 b1 b2 b3 l IH] using four_ind; intros H.
  - destruct l as [|b0 [|b1 [|b2 [|b3 l]]]]; simpl in *; try lia; constructor.
  - apply Forall_cons in H as [H0 H], H as [H1 H], H as [H2 H], H as [H3 H]. simpl.
    constructor; [unfold bytes_word; lia|by apply IH].
Qed.

Lemma length_words_of_aligned n l : length l = (4 * n)%nat → length (words_of l) = n.
Proof.
  revert l. induction n as [|n IH]; intros l Hl; [by destruct l|].
  destruct l as [|b0 [|b1 [|b2 [|b3 l]]]]; simpl in Hl; try lia. simpl. rewrite IH; lia.
Qed.

Lemma deserialize_words_aligned n s :
  String.length s = (4 * n)%nat → deserialize_words s = words_of (bytes_of s).
Proof.
  intros Hl. unfold deserialize_words. rewrite length_bytes_of, Hl, Nat.mul_comm, Nat.div_mul, Nat.mul_comm by lia.
  rewrite (words_of_app n) by (by rewrite length_bytes_of). rewrite Nat.add_sub. apply take_app_length'.
  by rewrite (length_words_of_aligned n) by (by rewrite length_bytes_of).
Qed.

(** * Properties *)

(** C33: [BinarySerializer]: deserializing what was serialized gives back the
    vector, for every vector of [int]s, of [float] bit patterns and of
    [bool]s; and any byte string, whatever its length, deserializes to
    [size / 4] words, the trailing bytes being dropped. *)
Theorem serializer_round_trip :
  (∀ data, Forall (λ z, in_int z = true) data → deserialize_int (serialize_int data) = data)
  ∧ (∀ data, Forall (λ z, 0 <= z < 2^32) data → deserialize_float (serialize_float data) = data)
  ∧ (∀ data, deserialize_bool (serialize_bool data) = data)
  ∧ (∀ b, length (deserialize_int b) = (length (bytes_of b) / 4)%nat).
Proof.
  split; [|split; [|split]].
  - intros data Hd. unfold deserialize_int, serialize_int. rewrite deserialize_serialize_words.
    induction Hd as [|z data Hz Hd IH]; [done|]. rewrite !fmap_cons, IH.
    by rewrite wrap32_mod, wrap32_in_int.
  - intros data Hd. unfold deserialize_float, serialize_float. rewrite deserialize_serialize_words.
    induction Hd as [|z data Hz Hd IH]; [done|]. rewrite !fmap_cons, IH. by rewrite Z.mod_small.
  - intros data. unfold deserialize_bool, serialize_bool. rewrite bytes_of_of_bytes.
    + induction data as [|b data IH]; [done|]. rewrite !fmap_cons, IH. by destruct b.
    + induction data as [|b data IH]; [constructor|]. rewrite fmap_cons. constructor; [|done].
      unfold byte. destruct b; lia.
  - intros b. unfold deserialize_int. by rewrite length_fmap, length_deserialize_words.
Qed.

End BinarySerializer.

(** * Sums over buckets *)
Module Sums.

(** [total += dp] on [int]: signed overflow is undefined. *)
Fixpoint sum_ints (total : Z) (l : list Z) : result Z :=
  match l with
  | [] => Done total
  | dp :: l => if in_int (total + dp) then sum_ints (total + dp) l else Stop Undefined
  end.

(** The binary32 value of a bit pattern. *)
Definition float_of_bits (w : Z) : spec_float :=
  let s := Z.testbit w 31 in
  let e := (w / 2^23) `mod` 2^8 in
  let m := w `mod` 2^23 in
  if e =? 255 then (if m =? 0 then S754_infinity s else S754_nan)
  else if e =? 0 then (match m with Z.pos p => S754_finite s p (-149) | _ => S754_zero s end)
  else match m + 2^23 with Z.pos p => S754_finite s p (e - 150) | _ => S754_zero s end.

Definition sum_floats (total : spec_float) (l : list Z) : spec_float :=
  fold_left (λ t w, SFadd 24 128 t (float_of_bits w)) l total.

(** [total += dp] for [bool]s counts the true ones in an [int]. *)
Definition sum_bools (total : Z) (l : list bool) : result Z :=
  sum_ints total ((λ b : bool, if b then 1 else 0) <$> l).

(** [n / d] rounded to nearest, ties to even, for [0 <= n], [0 < d]. *)
Definition div_round_even (n d : Z) : Z :=
  let q := n / d in
  match Z.compare (2 * (n `mod` d)) d with
  | Lt => q
  | Gt => q + 1
  | Eq => if Z.even q then q else q + 1
  end.

Definition pad6 (s : string) : string := rep "0" (6 - String.length s) +:+ s.

(** [std::to_string(float)] is ["%f"]: six decimals of the exact value.  A NaN
    prints as [nan] (its sign is not kept). *)
Definition to_string_float (f : spec_float) : string :=
  let sign (s : bool) := if s then "-" else "" in
  match f with
  | S754_nan => "nan"
  | S754_infinity s => sign s +:+ "inf"
  | S754_zero s => sign s +:+ "0.000000"
  | S754_finite s m e =>
      let n := if 0 <=? e then Z.pos m * 2^e * 1000000
               else div_round_even (Z.pos m * 1000000) (2^(- e)) in
      sign s +:+ to_string (n / 1000000) +:+ "." +:+ pad6 (to_string (n `mod` 1000000))
  end.

Example float_sum_example :
  to_string_float (sum_floats (S754_zero false) (BinarySerializer.deserialize_float
    (BinarySerializer.serialize_float [0x3FC00000; 0xBE800000]))) = "1.250000".
Proof. reflexivity. Qed.

(** [sum_ints] gives the mathematical sum when every partial sum fits. *)
Lemma sum_ints_exact total l r : sum_ints total l = Done r → r = total + sum l.
Proof.
  revert total. induction l as [|dp l IH]; intros total; simpl; [intros [= ->]; lia|].
  destruct (in_int (total + dp)); [|done]. intros ->%IH. lia.
Qed.

(** Numbers that are not negative overflow when their sum does not fit. *)
Lemma sum_ints_overflow total l :
  0 ≤ total < 2^31 → Forall (λ z, 0 ≤ z) l → 2^31 ≤ total + sum l → sum_ints total l = Stop Undefined.
Proof.
  intros Ht Hl. revert total Ht. induction Hl as [|z l Hz Hl IH]; intros total Ht Hs; simpl in *; [lia|].
  destruct (in_int (total + z)) eqn:Hin; [|done]. apply IH; [|lia]. unfold in_int in Hin.
  rewrite andb_true_iff, Z.leb_le, Z.ltb_lt in Hin. lia.
Qed.

Lemma sum_ints_app total l1 l2 :
  sum_ints total (l1 ++ l2) = (t ← sum_ints total l1; sum_ints t l2).
Proof.
  revert total. induction l1 as [|dp l1 IH]; intros total; simpl; [done|].
  by destruct (in_int (total + dp)).
Qed.

End Sums.
