(* ===== verification/KeyMaster.v ===== *)
(** The names and values of test data (utils/TS_key_master.h, the generators of
    utils/TS_value_master.h, utils/TS_get_oldest_key.h and
    utils/TS_search_master.h).  The random distributions of the standard
    library are a parameter, [RandomSource]: a generator of state [G], seeded
    elsewhere; [RandomSpec] says that they stay in their range.  A [float] is
    its 32-bit pattern. *)
From S2P Require Import Prelude.
From S2P Require Import CxxString.
From S2P Require Import Values.
From S2P Require Import FrequencySmoother.

Local Open Scope Z_scope.

(** * The source of random numbers *)

(** [std::uniform_int_distribution<int>(a, b)] and
    [std::uniform_real_distribution<float>(-1000, 1000)], called on a generator *)
Class RandomSource (G : Type) := {
  uniform_int : Z → Z → G → Z * G;
  uniform_real : G → Z * G;
}.
Class RandomSpec (G : Type) `{RandomSource G} := {
  uniform_int_range a b g : a <= b → a <= (uniform_int a b g).1 <= b;
  uniform_real_range g : 0 <= (uniform_real g).1 < 2^32;
}.

(** * [ItemIdGenerator] *)
Module ItemIdGenerator.

Definition data_types : list string := ["int"; "float"; "bool"].

Definition categories : list string :=
  ["CPU"; "GPU"; "DISK"; "MEM"; "NET"; "IO"; "SENSOR"; "POWER"; "BATTERY"; "TEMP"; "STORAGE"; "DATABASE"; "THREAD";
    "PROCESS"; "FILESYSTEM"; "SECURITY"; "APPLICATION"; "OS"; "VIRTUALIZATION"; "CLOUD"; "CONTAINER"; "NETWORK";
    "SESSION"; "USER"; "DEVICE"; "ENVIRONMENT"; "LOG"; "EVENT"; "ALERT"; "PERIPHERAL"; "AUDIO"; "VIDEO"; "GRAPHICS";
    "FRAMEWORK"; "LIBRARY"; "API"; "QUEUE"; "CACHE"; "POOL"; "ALLOCATOR"; "HANDLER"; "REQUEST"; "RESPONSE";
    "TRANSACTION"; "CONNECTION"; "PROTOCOL"; "SERVICE"; "DAEMON"; "MODULE"; "PLUGIN"; "EXTENSION"; "INTERFACE";
    "HARDWARE"; "SOFTWARE"; "FIRMWARE"; "DRIVER"; "KERNEL"; "SYSTEM"; "CONFIGURATION"; "OPTIMIZATION"; "PERFORMANCE";
    "DIAGNOSTIC"; "MONITORING"; "LOGGING"; "DEBUGGING"; "TESTING"; "DEPLOYMENT"; "OPERATION"; "MAINTENANCE";
    "UPGRADE"; "PATCH"; "RELEASE"; "VERSION"; "BUILD"; "INSTALLATION"; "ACTIVATION"; "REGISTRATION"; "LICENSE";
    "CERTIFICATE"; "ENCRYPTION"; "AUTHENTICATION"; "AUTHORIZATION"; "COMPLIANCE"; "AUDIT"; "POLICY"; "STANDARD";
    "GUIDELINE"; "PROCEDURE"; "WORKFLOW"; "TASK"; "JOB"; "PROJECT"; "CAMPAIGN"; "STRATEGY"; "PLAN"; "GOAL";
    "OBJECTIVE"; "METRIC"; "INDICATOR"; "MEASUREMENT"; "ANALYSIS"; "REPORT"; "DASHBOARD"; "VISUALIZATION";
    "PREDICTION"; "FORECAST"; "SIMULATION"; "MODELING"; "OPTIMIZATION"; "AUTOMATION"; "INTEGRATION";
    "SYNCHRONIZATION"; "COLLABORATION"; "COMMUNICATION"; "SOCIAL"; "MOBILE"; "WEB"; "CLOUD"; "ENTERPRISE"; "CONSUMER";
    "INDUSTRIAL"; "IOT"; "AI"; "ML"; "DATA"; "ANALYTICS"; "BLOCKCHAIN"; "CRYPTO"; "VIRTUAL"; "AUGMENTED"; "REALITY";
    "GAMING"; "STREAMING"; "BROADCASTING"; "PUBLISHING"; "CONTENT"; "MEDIA"; "ADVERTISING"; "MARKETING"; "SALES";
    "COMMERCE"; "FINANCE"; "BANKING"; "INSURANCE"; "INVESTMENT"; "TRADING"; "ACCOUNTING"; "TAXATION"; "LEGAL";
    "REGULATION"; "GOVERNANCE"; "RISK"; "SECURITY"; "SAFETY"; "HEALTH"; "WELLNESS"; "MEDICAL"; "PHARMACEUTICAL";
    "BIOTECH"; "RESEARCH"; "DEVELOPMENT"; "EDUCATION"; "TRAINING"; "SKILLS"; "CAREER"; "EMPLOYMENT"; "RECRUITMENT";
    "HR"; "MANAGEMENT"; "LEADERSHIP"; "ORGANIZATION"; "CULTURE"; "DIVERSITY"; "EQUITY"; "INCLUSION"; "SUSTAINABILITY";
    "ENVIRONMENTAL"; "SOCIAL"; "GOVERNANCE"; "ETHICS"; "PHILANTHROPY"; "VOLUNTEERING"; "COMMUNITY"; "EVENTS";
    "WORKSHOPS"; "SEMINARS"; "CONFERENCES"; "EXHIBITIONS"; "FAIRS"; "SHOWS"; "PERFORMANCES"; "ART"; "DESIGN";
    "ARCHITECTURE"; "ENGINEERING"; "CONSTRUCTION"; "MANUFACTURING"; "PRODUCTION"; "LOGISTICS"; "SUPPLY"; "CHAIN";
    "TRANSPORTATION"; "DELIVERY"; "WAREHOUSING"; "INVENTORY"; "PROCUREMENT"; "PURCHASING"; "VENDING"; "RETAIL";
    "WHOLESALE"; "E-COMMERCE"; "CUSTOMER"; "SERVICE"; "SUPPORT"; "EXPERIENCE"; "SATISFACTION"; "LOYALTY";
    "ENGAGEMENT"; "FEEDBACK"; "REVIEW"; "RATING"; "SURVEY"; "QUESTIONNAIRE"; "INTERVIEW"; "FOCUS"; "GROUP"; "STUDY";
    "RESEARCH"; "INSIGHT"; "INNOVATION"; "CREATIVITY"; "IDEATION"; "PROTOTYPING"; "TESTING"; "LAUNCH"; "SCALE";
    "GROWTH"; "EXPANSION"; "DIVERSIFICATION"; "ADAPTATION"; "TRANSFORMATION"; "TURNAROUND"; "RECOVERY"; "CRISIS";
    "MANAGEMENT"; "CONTINUITY"; "RESILIENCE"; "RELIABILITY"; "QUALITY"; "EXCELLENCE"; "EFFICIENCY"; "PRODUCTIVITY";
    "EFFECTIVENESS"; "VALUE"; "IMPACT"; "CONTRIBUTION"; "SUCCESS"; "ACHIEVEMENT"; "RECOGNITION"; "AWARD"; "HONOR";
    "PRESTIGE"; "REPUTATION"; "BRAND"; "IMAGE"; "IDENTITY"; "AWARENESS"; "PERCEPTION"; "POSITIONING";
    "DIFFERENTIATION"; "COMPETITIVE"; "ADVANTAGE"; "MARKET"; "SHARE"; "GROWTH"; "PROFITABILITY"; "REVENUE"; "INCOME";
    "EARNINGS"; "MARGIN"; "COST"; "EXPENSE"; "INVESTMENT"; "CAPITAL"; "FUNDING"; "FINANCING"; "LENDING"; "BORROWING";
    "CREDIT"; "DEBT"; "EQUITY"; "ASSET"; "LIABILITY"; "VALUATION"; "PRICING"; "BUDGET"; "FORECAST"; "ALLOCATION";
    "RESOURCE"; "MANAGEMENT"; "PLANNING"; "STRATEGY"; "TACTIC"; "OPERATION"; "EXECUTION"; "CONTROL"; "MONITORING";
    "EVALUATION"; "ASSESSMENT"; "AUDIT"; "REVIEW"; "ANALYSIS"; "DIAGNOSIS"; "SOLUTION"; "IMPROVEMENT"; "OPTIMIZATION";
    "INNOVATION"; "CHANGE"; "DEVELOPMENT"; "GROWTH"; "LEARNING"; "ADAPTATION"; "EVOLUTION"; "TRANSFORMATION";
    "REVOLUTION"; "DISRUPTION"; "BREAKTHROUGH"; "ACHIEVEMENT"; "SUCCESS"; "EXCELLENCE"; "LEADERSHIP"; "VISION";
    "MISSION"; "PURPOSE"; "VALUE"; "CULTURE"; "ETHICS"; "INTEGRITY"; "TRANSPARENCY"; "ACCOUNTABILITY";
    "RESPONSIBILITY"; "COMMITMENT"; "DEDICATION"; "PASSION"; "DRIVE"; "MOTIVATION"; "AMBITION"; "ASPIRATION";
    "INSPIRATION"; "CREATIVITY"; "INNOVATION"; "CURIOSITY"; "INQUIRY"; "EXPLORATION"; "DISCOVERY"; "LEARNING";
    "KNOWLEDGE"; "WISDOM"; "INSIGHT"; "UNDERSTANDING"; "AWARENESS"; "PERCEPTION"; "JUDGMENT"; "DECISION"; "CHOICE";
    "OPTION"; "ALTERNATIVE"; "OPPORTUNITY"; "CHALLENGE"; "PROBLEM"; "ISSUE"; "OBSTACLE"; "BARRIER"; "RISK"; "THREAT";
    "VULNERABILITY"; "WEAKNESS"; "LIMITATION"; "CONSTRAINT"; "RESTRICTION"; "COMPROMISE"; "TRADE-OFF"; "BALANCE";
    "EQUILIBRIUM"; "HARMONY"; "SYNERGY"; "ALIGNMENT"; "INTEGRATION"; "COORDINATION"; "COOPERATION"; "COLLABORATION";
    "PARTNERSHIP"; "ALLIANCE"; "NETWORK"; "COMMUNITY"; "ECOSYSTEM"; "ENVIRONMENT"; "MARKET"; "INDUSTRY"; "SECTOR";
    "DOMAIN"; "FIELD"; "AREA"; "NICHE"; "SEGMENT"; "CATEGORY"; "CLASS"; "TYPE"; "KIND"; "NATURE"; "CHARACTER";
    "FEATURE"; "ATTRIBUTE"; "QUALITY"; "PROPERTY"; "ASPECT"; "FACTOR"; "ELEMENT"; "COMPONENT"; "PART"; "PIECE";
    "UNIT"; "MODULE"; "SYSTEM"; "STRUCTURE"; "FRAMEWORK"; "MODEL"; "SCHEMA"; "TEMPLATE"; "PATTERN"; "FORMULA";
    "RECIPE"; "METHOD"; "TECHNIQUE"; "APPROACH"; "STRATEGY"; "TACTIC"; "PLAN"; "PROGRAM"; "PROJECT"; "CAMPAIGN";
    "INITIATIVE"; "ACTION"; "ACTIVITY"; "TASK"; "OPERATION"; "PROCESS"; "PROCEDURE"; "PRACTICE"; "ROUTINE"; "HABIT";
    "CUSTOM"; "TRADITION"; "CONVENTION"; "NORM"; "STANDARD"; "GUIDELINE"; "POLICY"; "REGULATION"; "RULE"; "LAW";
    "MANDATE"; "ORDER"; "DIRECTIVE"; "INSTRUCTION"; "REQUIREMENT"; "SPECIFICATION"; "CRITERION"; "MEASURE";
    "INDICATOR"; "METRIC"; "PARAMETER"; "VARIABLE"; "CONSTANT"; "FACTOR"; "ELEMENT"; "AGENT"; "ACTOR"; "PLAYER";
    "PARTICIPANT"; "STAKEHOLDER"; "INTEREST"; "MOTIVE"; "REASON"; "CAUSE"; "SOURCE"; "ORIGIN"; "ROOT"; "BASIS";
    "FOUNDATION"; "GROUND"; "PRINCIPLE"; "CONCEPT"; "IDEA"; "THOUGHT"; "NOTION"; "BELIEF"; "OPINION"; "VIEW";
    "PERSPECTIVE"; "ANGLE"; "POSITION"; "STANDPOINT"; "APPROACH"; "METHOD"; "MODE"; "MEANS"; "MEDIUM"; "CHANNEL";
    "VEHICLE"; "INSTRUMENT"; "TOOL"; "DEVICE"; "APPLIANCE"; "EQUIPMENT"; "MACHINERY"; "HARDWARE"; "SOFTWARE";
    "TECHNOLOGY"; "SYSTEM"; "INFRASTRUCTURE"; "FACILITY"; "RESOURCE"; "MATERIAL"; "SUBSTANCE"; "PRODUCT"; "GOOD";
    "SERVICE"; "SOLUTION"; "OFFERING"; "PROPOSITION"; "VALUE"; "BENEFIT"; "ADVANTAGE"; "FEATURE"; "FUNCTION";
    "UTILITY"; "USEFULNESS"; "APPLICABILITY"; "RELEVANCE"; "SIGNIFICANCE"; "IMPORTANCE"; "IMPACT"; "EFFECT";
    "INFLUENCE"; "CONSEQUENCE"; "OUTCOME"; "RESULT"; "ACHIEVEMENT"; "SUCCESS"; "ACCOMPLISHMENT"; "ATTAINMENT";
    "REALIZATION"; "FULFILLMENT"; "SATISFACTION"; "PLEASURE"; "ENJOYMENT"; "HAPPINESS"; "JOY"; "DELIGHT"; "BLISS";
    "ECSTASY"; "EUPHORIA"; "CONTENTMENT"; "COMFORT"; "RELIEF"; "EASE"; "PEACE"; "TRANQUILITY"; "SERENITY"; "CALM";
    "REST"; "RELAXATION"; "REPOSE"; "LEISURE"; "FREEDOM"; "LIBERTY"; "INDEPENDENCE"; "AUTONOMY"; "SELF-DETERMINATION";
    "CHOICE"; "OPTION"; "ALTERNATIVE"; "POSSIBILITY"; "OPPORTUNITY"; "PROSPECT"; "POTENTIAL"; "CAPABILITY";
    "CAPACITY"; "POWER"; "STRENGTH"; "FORCE"; "ENERGY"; "VIGOR"; "VITALITY"; "LIFE"; "SPIRIT"; "SOUL"; "HEART";
    "MIND"; "INTELLECT"; "REASON"; "LOGIC"; "SENSE"; "WISDOM"; "KNOWLEDGE"; "UNDERSTANDING"; "INSIGHT"; "AWARENESS";
    "CONSCIOUSNESS"; "PERCEPTION"; "INTUITION"; "INSTINCT"; "FEELING"; "EMOTION"; "PASSION"; "DESIRE"; "APPETITE";
    "HUNGER"; "THIRST"; "CRAVING"; "URGE"; "IMPULSE"; "DRIVE"; "MOTIVATION"; "AMBITION"; "ASPIRATION"; "GOAL";
    "OBJECTIVE"; "TARGET"; "AIM"; "PURPOSE"; "INTENTION"; "PLAN"; "DESIGN"; "SCHEME"; "STRATEGY"; "TACTIC"; "METHOD";
    "APPROACH"; "TECHNIQUE"; "PROCEDURE"; "PROCESS"; "OPERATION"; "ACTION"; "ACTIVITY"; "PRACTICE"; "EXERCISE";
    "EFFORT"; "ENDEAVOR"; "UNDERTAKING"; "PROJECT"; "VENTURE"; "ENTERPRISE"; "BUSINESS"; "COMPANY"; "ORGANIZATION";
    "INSTITUTION"; "AGENCY"; "AUTHORITY"; "ADMINISTRATION"; "GOVERNMENT"; "STATE"; "NATION"; "COUNTRY"; "LAND";
    "REGION"; "TERRITORY"; "DOMAIN"; "REALM"; "WORLD"; "UNIVERSE"; "COSMOS"; "NATURE"; "ENVIRONMENT"; "EARTH";
    "PLANET"; "GLOBE"; "WORLD"; "UNIVERSE"; "COSMOS"; "SPACE"; "GALAXY"; "STAR"; "SUN"; "MOON"; "PLANET"; "COMET";
    "ASTEROID"; "METEOR"; "SATELLITE"; "ORBIT"; "GRAVITY"; "FORCE"; "ENERGY"; "MATTER"; "PARTICLE"; "ATOM";
    "MOLECULE"; "COMPOUND"; "ELEMENT"; "MINERAL"; "ROCK"; "STONE"; "CRYSTAL"; "GEM"; "METAL"; "ALLOY"; "ORE"; "SOIL";
    "SAND"; "CLAY"; "MUD"; "DIRT"; "DUST"; "ASH"; "SMOKE"; "STEAM"; "VAPOR"; "MIST"; "FOG"; "CLOUD"; "RAIN"; "SNOW";
    "ICE"; "HAIL"; "SLEET"; "DEW"; "FROST"; "GLACIER"; "AVALANCHE"; "LANDSLIDE"; "EARTHQUAKE"; "VOLCANO"; "ERUPTION";
    "TSUNAMI"; "FLOOD"; "STORM"; "HURRICANE"; "TYPHOON"; "CYCLONE"; "TORNADO"; "TWISTER"; "WHIRLWIND"; "BLIZZARD";
    "SNOWSTORM"; "THUNDERSTORM"; "LIGHTNING"; "THUNDER"; "RAINBOW"; "AURORA"; "ECLIPSE"; "SOLSTICE"; "EQUINOX";
    "SEASON"; "SPRING"; "SUMMER"; "AUTUMN"; "WINTER"; "CLIMATE"; "WEATHER"; "TEMPERATURE"; "HEAT"; "COLD"; "WARMTH";
    "COOLNESS"; "HUMIDITY"; "DRYNESS"; "WIND"; "BREEZE"; "GUST"; "BLAST"; "STORM"; "GALE"; "HURRICANE"; "TYPHOON";
    "CYCLONE"; "TORNADO"; "TWISTER"; "WHIRLWIND"; "BLIZZARD"; "SNOWSTORM"; "THUNDERSTORM"; "LIGHTNING"; "THUNDER";
    "RAINBOW"; "AURORA"; "ECLIPSE"; "SOLSTICE"; "EQUINOX"; "SEASON"; "SPRING"; "SUMMER"; "AUTUMN"; "WINTER";
    "CLIMATE"; "WEATHER"; "TEMPERATURE"; "HEAT"; "COLD"; "WARMTH"; "COOLNESS"; "HUMIDITY"; "DRYNESS"; "WIND";
    "BREEZE"; "GUST"; "BLAST"; "STORM"; "GALE"; "FIRE"; "FLAME"; "BLAZE"; "INFERNO"; "CONFLAGRATION"; "EXPLOSION";
    "DETONATION"; "BLAST"; "BOOM"; "BANG"; "CRASH"; "COLLISION"; "IMPACT"; "HIT"; "STRIKE"; "BLOW"; "PUNCH"; "KICK";
    "SLAP"; "SMACK"; "BASH"; "BANG"; "THUMP"; "THUD"; "CLAP"; "SLAM"; "SMASH"; "CRUSH"; "SQUASH"; "STOMP"; "TRAMPLE";
    "TREAD"; "WALK"; "RUN"; "JUMP"; "LEAP"; "HOP"; "SKIP"; "BOUNCE"; "FLY"; "SOAR"; "GLIDE"; "FLOAT"; "DRIFT"; "SAIL";
    "SWIM"; "DIVE"; "PLUNGE"; "SINK"; "SUBMERGE"; "EMERGE"; "SURFACE"; "RISE"; "ASCEND"; "CLIMB"; "SCALE"; "MOUNT";
    "DESCEND"; "FALL"; "DROP"; "PLUMMET"; "TUMBLE"; "ROLL"; "SLIDE"; "SLIP"; "SKID"; "GLIDE"; "SWERVE"; "VEER";
    "TURN"; "TWIST"; "BEND"; "FLEX"; "STRETCH"; "REACH"; "GRASP"; "GRAB"; "HOLD"; "CLUTCH"; "CLING"; "HUG"; "EMBRACE";
    "KISS"; "TOUCH"; "FEEL"].

Definition subcategories : list string :=
  ["USAGE"; "TEMP"; "ERROR"; "LOAD"; "CAPACITY"; "THROUGHPUT"; "LATENCY"; "BANDWIDTH"; "EFFICIENCY"; "DENSITY";
    "VOLATILITY"; "DURATION"; "FREQUENCY"; "INTENSITY"; "MAGNITUDE"; "VARIANCE"; "DEVIATION"; "PRECISION"; "ACCURACY";
    "RELIABILITY"; "AVAILABILITY"; "SUSTAINABILITY"; "PERFORMANCE"; "SPEED"; "VELOCITY"; "ACCELERATION"; "FORCE";
    "POWER"; "ENERGY"; "WORK"; "PRESSURE"; "VOLUME"; "DENSITY"; "MASS"; "WEIGHT"; "GRAVITY"; "TEMPERATURE"; "HEAT";
    "LIGHT"; "COLOR"; "BRIGHTNESS"; "LUMINANCE"; "ILLUMINATION"; "SOUND"; "VOLUME"; "PITCH"; "TONE"; "FREQUENCY";
    "RHYTHM"; "MELODY"; "HARMONY"; "NOISE"; "SIGNAL"; "WAVE"; "VIBRATION"; "PULSE"; "FLUX"; "FLOW"; "CURRENT";
    "STREAM"; "WIND"; "WAVE"; "TIDE"; "MOISTURE"; "HUMIDITY"; "DRYNESS"; "WETNESS"; "LIQUID"; "SOLID"; "GAS";
    "PLASMA"; "CHEMISTRY"; "COMPOSITION"; "MIXTURE"; "SOLUTION"; "REACTION"; "OXIDATION"; "REDUCTION"; "PH";
    "CONCENTRATION"; "PURITY"; "TOXICITY"; "POLLUTION"; "CONTAMINATION"; "RADIATION"; "IONIZATION"; "CONDUCTIVITY";
    "RESISTIVITY"; "CAPACITANCE"; "INDUCTANCE"; "MAGNETISM"; "ELECTROMAGNETISM"; "CHARGE"; "VOLTAGE"; "CURRENT";
    "RESISTANCE"; "IMPEDANCE"; "ADMITTANCE"; "REACTANCE"; "POLARIZATION"; "OPTICS"; "REFLECTION"; "REFRACTION";
    "DIFFRACTION"; "INTERFERENCE"; "ABSORPTION"; "TRANSMISSION"; "EMISSION"; "LUMINESCENCE"; "FLUORESCENCE";
    "PHOSPHORESCENCE"; "LASER"; "FIBER"; "OPTICS"; "IMAGE"; "PICTURE"; "PHOTO"; "GRAPHIC"; "DESIGN"; "PATTERN";
    "TEXTURE"; "SHAPE"; "SIZE"; "DIMENSION"; "ANGLE"; "POSITION"; "ORIENTATION"; "DIRECTION"; "LOCATION"; "DISTANCE";
    "RANGE"; "DEPTH"; "HEIGHT"; "WIDTH"; "LENGTH"; "AREA"; "VOLUME"; "DENSITY"; "MASS"; "WEIGHT"; "FORCE"; "TORQUE";
    "MOMENTUM"; "IMPULSE"; "ENERGY"; "POWER"; "WORK"; "HEAT"; "TEMPERATURE"; "PRESSURE"; "VIBRATION"; "SHOCK";
    "STRESS"; "STRAIN"; "FATIGUE"; "FAILURE"; "BREAKAGE"; "CRACK"; "LEAK"; "WEAR"; "CORROSION"; "EROSION"; "FRICTION";
    "LUBRICATION"; "COOLING"; "HEATING"; "VENTILATION"; "FILTRATION"; "SEPARATION"; "PURIFICATION"; "STERILIZATION";
    "DISINFECTION"; "CLEANING"; "WASHING"; "DRAINING"; "DRYING"; "COATING"; "PAINTING"; "PLATING"; "POLISHING";
    "GRINDING"; "CUTTING"; "DRILLING"; "MILLING"; "TURNING"; "WELDING"; "SOLDERING"; "BONDING"; "FASTENING";
    "JOINING"; "ASSEMBLY"; "DISASSEMBLY"; "INSTALLATION"; "REMOVAL"; "REPLACEMENT"; "REPAIR"; "MAINTENANCE";
    "SERVICE"; "INSPECTION"; "TESTING"; "CALIBRATION"; "ADJUSTMENT"; "ALIGNMENT"; "BALANCING"; "TUNING";
    "PROGRAMMING"; "CONFIGURATION"; "SETUP"; "INITIALIZATION"; "STARTUP"; "SHUTDOWN"; "RESET"; "ENABLE"; "DISABLE";
    "ACTIVATE"; "DEACTIVATE"; "OPEN"; "CLOSE"; "LOCK"; "UNLOCK"; "SWITCH"; "SELECT"; "CHANGE"; "CONVERT"; "TRANSFORM";
    "TRANSLATE"; "ROTATE"; "SCALE"; "MIRROR"; "COPY"; "PASTE"; "CUT"; "DELETE"; "INSERT"; "REMOVE"; "ADD"; "SUBTRACT";
    "MULTIPLY"; "DIVIDE"; "INCREASE"; "DECREASE"; "EXPAND"; "CONTRACT"; "STRETCH"; "COMPRESS"; "INFLATE"; "DEFLATE";
    "FILL"; "EMPTY"; "LOAD"; "UNLOAD"; "CHARGE"; "DISCHARGE"; "FUEL"; "REFUEL"; "PUMP"; "SIPHON"; "FLOW"; "STREAM";
    "SPRAY"; "SPREAD"; "DISPERSE"; "DISSIPATE"; "EVAPORATE"; "CONDENSE"; "FREEZE"; "MELT"; "SOLIDIFY"; "LIQUEFY";
    "GASIFY"; "CRYSTALLIZE"; "PRECIPITATE"; "DEPOSIT"; "SEDIMENT"; "COAGULATE"; "FLOCCULATE"; "EMULSIFY";
    "HOMOGENIZE"; "AGITATE"; "STIR"; "SHAKE"; "MIX"; "BLEND"; "COMBINE"; "SEPARATE"; "SORT"; "FILTER"; "SIEVE";
    "SCREEN"; "DISTILL"; "EXTRACT"; "ABSORB"; "ADSORB"; "IONIZE"; "ELECTRIFY"; "MAGNETIZE"; "POLARIZE"; "CHARGE";
    "DISCHARGE"; "ENERGIZE"; "DE-ENERGIZE"; "ILLUMINATE"; "LIGHT"; "BRIGHTEN"; "DIM"; "SHADE"; "COLOR"; "TINT";
    "TONE"; "SHADE"; "HUE"; "SATURATE"; "DESATURATE"; "FADE"; "BLEACH"; "DYE"; "PAINT"; "COAT"; "COVER"; "WRAP";
    "ENCLOSE"; "PROTECT"; "GUARD"; "SHIELD"; "DEFEND"; "SECURE"; "SAFEGUARD"; "PRESERVE"; "CONSERVE"; "SAVE";
    "RESCUE"; "RECOVER"; "RETRIEVE"; "RECLAIM"; "RECYCLE"; "REUSE"; "REDUCE"; "ELIMINATE"; "ERADICATE"; "DESTROY";
    "DEMOLISH"; "RUIN"; "DAMAGE"; "HARM"; "INJURE"; "HURT"; "WOUND"; "KILL"; "SLAY"; "ASSASSINATE"; "EXECUTE";
    "ELIMINATE"; "ERADICATE"; "EXTINGUISH"; "ANNIHILATE"; "OBLITERATE"; "DECIMATE"; "RAVAGE"; "DEVASTATE"; "DESOLATE";
    "WASTE"; "SQUANDER"; "DEPLETE"; "EXHAUST"; "DRAIN"; "EXPEND"; "CONSUME"; "USE"; "UTILIZE"; "EMPLOY"; "OPERATE";
    "MANAGE"; "CONTROL"; "COMMAND"; "DIRECT"; "GUIDE"; "LEAD"; "GOVERN"; "RULE"; "ADMINISTER"; "SUPERVISE"; "OVERSEE";
    "INSPECT"; "MONITOR"; "WATCH"; "OBSERVE"; "SURVEY"; "SCAN"; "SEARCH"; "EXPLORE"; "INVESTIGATE"; "EXAMINE";
    "STUDY"; "RESEARCH"; "ANALYZE"; "ASSESS"; "EVALUATE"; "APPRAISE"; "REVIEW"; "AUDIT"; "CHECK"; "TEST"; "PROVE";
    "DEMONSTRATE"; "EXHIBIT"; "DISPLAY"; "SHOW"; "PRESENT"; "ILLUSTRATE"; "DEPICT"; "PORTRAY"; "REPRESENT";
    "SIMULATE"; "IMITATE"; "MIMIC"; "REPLICATE"; "REPRODUCE"; "COPY"; "DUPLICATE"; "CLONE"; "EMULATE"; "MATCH";
    "EQUAL"; "RIVAL"; "COMPETE"; "OPPOSE"; "RESIST"; "DEFY"; "CONFRONT"; "CHALLENGE"; "CONTEND"; "DISPUTE"; "ARGUE";
    "DEBATE"; "DISCUSS"; "TALK"; "SPEND"; "CONVERSE"; "COMMUNICATE"; "SHARE"; "EXCHANGE"; "TRANSMIT"; "TRANSFER";
    "TRANSPORT"; "CARRY"; "MOVE"; "SHIFT"; "RELOCATE"; "DISPLACE"; "REMOVE"; "DISPOSE"; "DISCARD"; "ABANDON";
    "FORSAKE"; "NEGLECT"; "IGNORE"; "NEGLECT"; "IGNORE"; "NEGLECT"].

Section generator.
Context {G : Type} `{RandomSource G}.

Definition generate_random_int (min max : Z) : M G Z :=
  λ g, let '(x, g) := uniform_int min max g in (Done x, g).

(** [v[i]] of a [std::vector] *)
Definition vec_at {A} (v : list A) (i : nat) : M G A :=
  match v !! i with Some x => mret x | None => fail Undefined end.

Definition generate_single_id (categoryIndex subcategoryIndex : nat) (index : Z) : M G string :=
  randomSuffix ← generate_random_int 100 999;
  category ← vec_at categories categoryIndex;
  subcategory ← vec_at subcategories subcategoryIndex;
  d ← generate_random_int 0 (Z.of_nat (length data_types) - 1);
  data_type ← vec_at data_types (Z.to_nat d);
  mret (category +:+ "_" +:+ subcategory +:+ "_" +:+ to_string index +:+ "_" +:+ to_string randomSuffix
        +:+ "&" +:+ data_type +:+ "&").

(** The loop of [generate_item_ids]: the count is compared as a [size_t], and
    [index] is an [int]. *)
Fixpoint generate_go (fuel : nat) (no_item_ids : Z) (unique_ids : gset string) (item_ids : list string)
    (categoryIndex subcategoryIndex : nat) (index : Z) : M G (list string) :=
  if Z.of_nat (size unique_ids) <? wrap_u64 no_item_ids then
    match fuel with
    | O => fail OutOfFuel
    | S fuel =>
        (if in_int (index + 1) then mret () else fail Undefined) ;;
        id ← generate_single_id categoryIndex subcategoryIndex index;
        let fresh := bool_decide (id ∉ unique_ids) in
        let unique_ids := if fresh then {[id]} ∪ unique_ids else unique_ids in
        let item_ids := if fresh then item_ids ++ [id] else item_ids in
        let subcategoryIndex := S subcategoryIndex in
        if bool_decide (length subcategories ≤ subcategoryIndex)%nat then
          let categoryIndex := S categoryIndex in
          generate_go fuel no_item_ids unique_ids item_ids
            (if bool_decide (length categories ≤ categoryIndex)%nat then 0 else categoryIndex)%nat 0 (index + 1)
        else generate_go fuel no_item_ids unique_ids item_ids categoryIndex subcategoryIndex (index + 1)
    end
  else mret item_ids.

Definition generate_item_ids (fuel : nat) (no_item_ids : Z) : M G (list string) :=
  generate_go fuel no_item_ids ∅ [] 0 0 0.

End generator.

(** The lines of a file, of which the first [no_item_ids] are read *)
Definition read_item_ids (item_ids : list string) (file : string) (no_item_ids : Z) : list string :=
  item_ids ++ take (Z.to_nat no_item_ids) (getline_all "010"%char file).

(** The file that generate_TS_ItemID writes: a name on each line *)
Definition write_item_ids (item_ids : list string) : string :=
  foldr (λ item file, item +:+ String "010" file) "" item_ids.

(** [main] of generate_TS_ItemID, which makes [num_items] names: the file it
    writes, and what it writes there. *)
Definition num_items : Z := 1000000.
Definition generate_TS_ItemID {G} `{RandomSource G} (fuel : nat) : M G (string * string) :=
  let relative_tracefile_location := "tracefiles/TS_ItemID_" +:+ to_string num_items +:+ ".txt" in
  items ← generate_item_ids fuel num_items;
  mret (relative_tracefile_location, write_item_ids items).

(** ** The names *)

(** No ['_'], ['&'] or ['@'], and not empty *)
Definition plain_word (s : string) : bool :=
  negb (has_char "_" s) && negb (has_char "&" s) && negb (has_char "@" s) && negb (bool_decide (s = EmptyString)).

Lemma plain_word_spec s :
  plain_word s = true ↔ has_char "_" s = false ∧ has_char "&" s = false ∧ has_char "@" s = false ∧ s ≠ EmptyString.
Proof. unfold plain_word. rewrite !andb_true_iff, !negb_true_iff, bool_decide_eq_false. tauto. Qed.

Lemma words_plain (l : list string) s : forallb plain_word l = true → s ∈ l → plain_word s = true.
Proof. intros Hl Hs. rewrite forallb_forall in Hl. apply Hl. by apply list_elem_of_In. Qed.

(** A name made with the number [index] *)
Definition item_name (index : Z) (id : string) : Prop :=
  ∃ category subcategory suffix data_type,
    category ∈ categories ∧ subcategory ∈ subcategories ∧ 100 <= suffix <= 999 ∧ data_type ∈ data_types
    ∧ id = category +:+ "_" +:+ subcategory +:+ "_" +:+ to_string index +:+ "_" +:+ to_string suffix
           +:+ "&" +:+ data_type +:+ "&".

Lemma categories_plain s : s ∈ categories → plain_word s = true.
Proof. apply words_plain. vm_compute. reflexivity. Qed.
Lemma subcategories_plain s : s ∈ subcategories → plain_word s = true.
Proof. apply words_plain. vm_compute. reflexivity. Qed.
Lemma data_types_plain s : s ∈ data_types → plain_word s = true.
Proof. apply words_plain. vm_compute. reflexivity. Qed.

(** Two names with one number are possible, one name with two numbers is not. *)
Lemma item_name_index i j id : item_name i id → item_name j id → i = j.
Proof.
  intros (c1 & s1 & r1 & t1 & _ & _ & _ & Ht1%data_types_plain & ->) (c2 & s2 & r2 & t2 & _ & _ & _ & Ht2%data_types_plain & Heq).
  apply plain_word_spec in Ht1 as (Ht1 & _), Ht2 as (Ht2 & _).
  assert (∀ (c s : string) (n r t : string),
    c +:+ "_" +:+ s +:+ "_" +:+ n +:+ "_" +:+ r +:+ "&" +:+ t +:+ "&"
    = (((c +:+ "_" +:+ s) +:+ String "_" n) +:+ String "_" (r +:+ "&" +:+ t +:+ "&"))) as Hassoc
    by (intros; rewrite !str_app_assoc; reflexivity).
  rewrite !Hassoc in Heq.
  apply str_app_sep_inj in Heq as [Heq _]; [|rewrite !has_char_app, to_string_no_char, ?Ht1, ?Ht2; done..].
  apply str_app_sep_inj in Heq as [_ Heq]; [|by apply to_string_no_char..]. by apply to_string_inj.
Qed.

Lemma item_name_valid i id : item_name i id → Smoother.valid_item id = true.
Proof.
  intros (c & s & r & t & Hc%categories_plain & Hs%subcategories_plain & _ & Ht%data_types_plain & ->).
  apply plain_word_spec in Hc as (_ & _ & Hc & Hne), Hs as (_ & _ & Hs & _), Ht as (_ & _ & Ht & _).
  apply Smoother.valid_item_spec. split; [|by destruct c].
  rewrite !has_char_app, Hc, Hs, Ht, !to_string_no_char by done. reflexivity.
Qed.

(** The data type of every key of the item is the one in its name. *)
Lemma item_name_type i id :
  item_name i id → ∃ ty, ty ∈ data_types ∧ ∀ rest, DataType.get_data_type (id +:+ rest) = Done ty.
Proof.
  intros (c & s & r & t & Hc%categories_plain & Hs%subcategories_plain & _ & Hin & ->). exists t. split; [done|]. intros rest.
  apply data_types_plain in Hin.
  apply plain_word_spec in Hc as (_ & Hc & _), Hs as (_ & Hs & _), Hin as (_ & Ht & _).
  rewrite <- (DataType.get_data_type_spec (c +:+ "_" +:+ s +:+ "_" +:+ to_string i +:+ "_" +:+ to_string r) t rest);
    [by rewrite !str_app_assoc| |done].
  rewrite !has_char_app, Hc, Hs, !to_string_no_char by done. reflexivity.
Qed.

(** The words are short, and made of letters and ['-']. *)
Definition short_words (l : list string) : bool := forallb (λ w, (String.length w <=? 20)%nat) l.
Lemma short_words_spec l w : short_words l = true → w ∈ l → (String.length w ≤ 20)%nat.
Proof. intros Hl Hw. unfold short_words in Hl. rewrite forallb_forall in Hl. apply Nat.leb_le, Hl. by apply list_elem_of_In. Qed.

Lemma item_name_length i id : item_name i id → 0 <= i < 2^31 → (String.length id ≤ 130)%nat.
Proof.
  intros (c & s & r & t & Hc & Hs & Hr & Ht & ->) Hi.
  apply short_words_spec in Hc, Hs, Ht; [|vm_compute; reflexivity..].
  pose proof (to_string_length i Hi). pose proof (to_string_length r ltac:(lia)).
  rewrite !str_length_app. cbn [String.length]. lia.
Qed.

Definition words_all (P : ascii → bool) : bool := forallb (str_all P) (categories ++ subcategories ++ data_types).
Lemma words_all_spec P w :
  words_all P = true → w ∈ categories ∨ w ∈ subcategories ∨ w ∈ data_types → str_all P w = true.
Proof.
  intros Hc Hw. unfold words_all in Hc. rewrite forallb_forall in Hc. apply Hc, list_elem_of_In.
  rewrite !elem_of_app. tauto.
Qed.

Lemma item_name_all P i id :
  item_name i id → words_all P = true → (∀ a, is_digit a = true → P a = true) → str_all P "-_&" = true →
  str_all P id = true.
Proof.
  intros (c & s & r & t & Hc & Hs & _ & Ht & ->) Hw Hd Hm. cbn [str_all] in Hm. rewrite !andb_true_iff in Hm.
  destruct Hm as (Hm1 & Hm2 & Hm3 & _).
  rewrite !str_all_app, (words_all_spec P c), (words_all_spec P s), (words_all_spec P t), !to_string_all by tauto.
  cbn [str_all]. by rewrite Hm2, Hm3.
Qed.

(** A character that is in no word, no digit and no mark *)
Lemma item_name_no_char x i id :
  item_name i id → words_all (λ a, negb (bool_decide (a = x))) = true → is_digit x = false →
  has_char x "-_&" = false → has_char x id = false.
Proof.
  intros Hid Hw Hd Hm. apply negb_true_iff. rewrite <- str_all_no_char. apply (item_name_all _ _ _ Hid Hw).
  - intros a Ha. apply negb_true_iff, bool_decide_eq_false. congruence.
  - by rewrite str_all_no_char, Hm.
Qed.

(** What is written is read again, as far as it is asked for. *)
Lemma read_written_ids ids n :
  (∀ id, id ∈ ids → ∃ i, item_name i id) → read_item_ids [] (write_item_ids ids) n = take (Z.to_nat n) ids.
Proof.
  intros Hids. unfold read_item_ids, write_item_ids. rewrite getline_lines; [done|].
  intros id (i & Hid)%Hids. apply (item_name_no_char _ _ _ Hid); vm_compute; reflexivity.
Qed.

(** ** The loop *)
Section correct.
Context {G : Type} `{RandomSpec G}.

Lemma random_int_run min max g :
  min <= max → ∃ x g', generate_random_int min max g = (Done x, g') ∧ min <= x <= max.
Proof.
  intros Hle. unfold generate_random_int. pose proof (uniform_int_range min max g Hle).
  destruct (uniform_int min max g) as [x g']. by exists x, g'.
Qed.

Lemma vec_at_run {A} (v : list A) i (g : G) : (i < length v)%nat → ∃ x, vec_at v i g = (Done x, g) ∧ x ∈ v.
Proof.
  intros [x Hx]%lookup_lt_is_Some_2. exists x. unfold vec_at. rewrite Hx. split; [done|]. by eapply list_elem_of_lookup_2.
Qed.

Lemma generate_single_id_run ci si index g :
  (ci < length categories)%nat → (si < length subcategories)%nat →
  ∃ id g', generate_single_id ci si index g = (Done id, g') ∧ item_name index id.
Proof.
  intros Hci Hsi. unfold generate_single_id.
  destruct (random_int_run 100 999 g) as (r & g1 & H1 & Hr); [lia|]. rewrite (mbind_run _ _ _ _ _ H1).
  destruct (vec_at_run categories ci g1 Hci) as (c & H2 & Hc). rewrite (mbind_run _ _ _ _ _ H2).
  destruct (vec_at_run subcategories si g1 Hsi) as (s & H3 & Hs). rewrite (mbind_run _ _ _ _ _ H3).
  destruct (random_int_run 0 (Z.of_nat (length data_types) - 1) g1) as (d & g2 & H4 & Hd); [simpl; lia|].
  rewrite (mbind_run _ _ _ _ _ H4).
  destruct (vec_at_run data_types (Z.to_nat d) g2) as (t & H5 & Ht); [simpl in *; lia|]. rewrite (mbind_run _ _ _ _ _ H5).
  eexists _, g2. split; [reflexivity|]. by exists c, s, r, t.
Qed.

(** The names made so far are distinct, and have the numbers below [index]. *)
Record made (index : Z) (unique_ids : gset string) (item_ids : list string) : Prop := {
  made_set : unique_ids = list_to_set item_ids;
  made_nodup : NoDup item_ids;
  made_length : Z.of_nat (length item_ids) = index;
  made_names id : id ∈ item_ids → ∃ i, 0 <= i < index ∧ item_name i id;
}.

Lemma made_size index unique_ids item_ids : made index unique_ids item_ids → Z.of_nat (size unique_ids) = index.
Proof. intros [-> Hnd Hl _]. by rewrite size_list_to_set. Qed.

Lemma made_fresh index unique_ids item_ids id : made index unique_ids item_ids → item_name index id → id ∉ unique_ids.
Proof.
  intros Hm Hid. rewrite (made_set _ _ _ Hm), elem_of_list_to_set. intros (i & Hi & Hid')%(made_names _ _ _ Hm).
  pose proof (item_name_index _ _ _ Hid Hid'). lia.
Qed.

Lemma made_next index unique_ids item_ids id :
  made index unique_ids item_ids → item_name index id → made (index + 1) ({[id]} ∪ unique_ids) (item_ids ++ [id]).
Proof.
  intros Hm Hid. pose proof (made_fresh _ _ _ _ Hm Hid) as Hf. destruct Hm as [-> Hnd Hl Hn]. split.
  - rewrite list_to_set_app_L. set_solver.
  - apply NoDup_app. split; [done|]. split; [|apply NoDup_singleton].
    intros x Hx ->%list_elem_of_singleton. apply Hf. by apply elem_of_list_to_set.
  - rewrite length_app. simpl. lia.
  - intros x [(i & Hi & Hx)%Hn| ->%list_elem_of_singleton]%elem_of_app; [exists i; split; [lia|done]|].
    exists index. split; [lia|done].
Qed.

(** One turn makes a new name, whatever is drawn. *)
Lemma generate_turn fuel n unique_ids item_ids ci si index g :
  made index unique_ids item_ids → index < wrap_u64 n → index < 2^31 - 1 →
  (ci < length categories)%nat → (si < length subcategories)%nat →
  ∃ id ci' si' g', generate_go (S fuel) n unique_ids item_ids ci si index g
      = generate_go fuel n ({[id]} ∪ unique_ids) (item_ids ++ [id]) ci' si' (index + 1) g'
    ∧ item_name index id ∧ (ci' < length categories)%nat ∧ (si' < length subcategories)%nat.
Proof.
  intros Hm Hn Hi Hci Hsi. cbn [generate_go]. rewrite (made_size _ _ _ Hm), (proj2 (Z.ltb_lt _ _) Hn).
  pose proof (made_length _ _ _ Hm).
  assert (in_int (index + 1) = true) as -> by (unfold in_int; rewrite andb_true_iff, Z.leb_le, Z.ltb_lt; lia).
  rewrite (mbind_run (mret ()) _ g () g eq_refl).
  destruct (generate_single_id_run ci si index g Hci Hsi) as (id & g' & Hrun & Hid).
  rewrite (mbind_run _ _ _ _ _ Hrun), (bool_decide_eq_true_2 (id ∉ unique_ids)) by (by eapply made_fresh).
  cbv zeta. case_bool_decide as Hs; [|exists id, ci, (S si), g'; split; [done|split; [done|split; [done|lia]]]].
  eexists id, _, 0%nat, g'. split; [reflexivity|]. split; [done|]. split; [|vm_compute; lia].
  case_bool_decide; [vm_compute; lia|lia].
Qed.

Lemma generate_go_run fuel n unique_ids item_ids ci si index g :
  made index unique_ids item_ids → index <= n < 2^31 → (Z.to_nat (n - index) ≤ fuel)%nat →
  (ci < length categories)%nat → (si < length subcategories)%nat →
  ∃ ids g', generate_go fuel n unique_ids item_ids ci si index g = (Done ids, g') ∧ made n (list_to_set ids) ids.
Proof.
  revert unique_ids item_ids ci si index g.
  induction fuel as [|fuel IH]; intros unique_ids item_ids ci si index g Hm Hn Hfuel Hci Hsi;
    pose proof (made_length _ _ _ Hm); assert (wrap_u64 n = n) as Hw by (apply Z.mod_small; lia);
    (destruct (Z.ltb_spec index n) as [Hlt|Hge];
      [|exists item_ids, g; replace index with n in * by lia; cbn [generate_go];
        rewrite (made_size _ _ _ Hm), Hw, Z.ltb_irrefl; split; [done|by rewrite <- (made_set _ _ _ Hm)]]); [lia|].
  destruct (generate_turn fuel n unique_ids item_ids ci si index g) as (id & ci' & si' & g' & -> & Hid & Hci' & Hsi');
    [done|lia|lia|done|done|].
  apply IH; [by apply made_next|lia|lia|done|done].
Qed.

(** A negative count is a huge [size_t]. *)
Lemma generate_go_negative fuel n unique_ids item_ids ci si index g :
  made index unique_ids item_ids → - 2^31 <= n < 0 → index < 2^31 →
  (ci < length categories)%nat → (si < length subcategories)%nat →
  (generate_go fuel n unique_ids item_ids ci si index g).1 = Stop OutOfFuel
  ∨ (generate_go fuel n unique_ids item_ids ci si index g).1 = Stop Undefined.
Proof.
  revert unique_ids item_ids ci si index g.
  induction fuel as [|fuel IH]; intros unique_ids item_ids ci si index g Hm Hn Hi Hci Hsi;
    pose proof (made_length _ _ _ Hm);
    assert (wrap_u64 n = n + 2^64) as Hw by (unfold wrap_u64; symmetry; apply (Z.mod_unique _ _ (-1)); lia).
  - left. cbn [generate_go]. by rewrite (made_size _ _ _ Hm), Hw, (proj2 (Z.ltb_lt _ _)) by lia.
  - destruct (decide (index = 2^31 - 1)) as [->|Hne].
    + right. cbn [generate_go]. by rewrite (made_size _ _ _ Hm), Hw, (proj2 (Z.ltb_lt _ _)) by lia.
    + destruct (generate_turn fuel n unique_ids item_ids ci si index g) as (id & ci' & si' & g' & -> & Hid & Hci' & Hsi');
        [done|lia|lia|done|done|]. apply IH; [by apply made_next|lia|lia|done|done].
Qed.

(** The names that come back *)
Lemma generate_item_ids_made n fuel ids g g' :
  0 <= n < 2^31 → (Z.to_nat n ≤ fuel)%nat → generate_item_ids fuel n g = (Done ids, g') → made n (list_to_set ids) ids.
Proof.
  intros Hn Hfuel Hrun.
  destruct (generate_go_run fuel n ∅ [] 0 0 0 g) as (ids' & g1 & Hrun' & Hm); [|lia|lia|vm_compute; lia..|].
  { split; [done|constructor|done|]. intros id Hid. by apply not_elem_of_nil in Hid. }
  unfold generate_item_ids in Hrun. rewrite Hrun' in Hrun. by injection Hrun as -> _.
Qed.

Lemma made_nothing : made 0 ∅ [].
Proof. split; [done|constructor|done|]. intros id Hid. by apply not_elem_of_nil in Hid. Qed.

End correct.
End ItemIdGenerator.

(** * [TimeSeriesDataGenerator] and [TimeSeriesDataMap] *)
Module TimeSeriesData.
Import ItemIdGenerator.

Section generator.
Context {G : Type} `{RandomSource G}.

(** [n] draws *)
Fixpoint draws {A} (n : nat) (d : M G A) : M G (list A) :=
  match n with
  | O => mret []
  | S n => x ← d; l ← draws n d; mret (x :: l)
  end.

(** [generateData<T>]: the number of elements of [T] that fill [object_size] *)
Definition generateData {A} (size_of : Z) (d : M G A) (object_size : Z) : M G (list A) :=
  if decide (object_size `mod` size_of ≠ 0) then fail (Throw invalid_argument)
  else draws (Z.to_nat (object_size / size_of)) d.

Definition draw_float : M G Z := λ g, let '(x, g) := uniform_real g in (Done x, g).
Definition draw_int : M G Z := generate_random_int (- 2^31) (2^31 - 1).
Definition draw_bool : M G bool := x ← generate_random_int 0 1; mret (negb (x =? 0)).

Definition generateDataForKey (object_size : Z) (key : string) : M G string :=
  dataType ← lift_result (DataType.get_data_type key);
  if decide (dataType = "float") then
    data ← generateData 4 draw_float object_size; mret (BinarySerializer.serialize_float data)
  else if decide (dataType = "int") then
    data ← generateData 4 draw_int object_size; mret (BinarySerializer.serialize_int data)
  else if decide (dataType = "bool") then
    data ← generateData 1 draw_bool object_size; mret (BinarySerializer.serialize_bool data)
  else fail (Throw invalid_argument).

(** [start_timestamp] is an [int]: a [long] that is passed is narrowed. *)
Definition generate_TS_tracefile_put_query (object_size : Z) (key : string) (start_timestamp : Z) : M G (string * string) :=
  value ← generateDataForKey object_size key;
  mret (key +:+ "@" +:+ to_string (wrap32 start_timestamp), value).

End generator.

Section correct.
Context {G : Type} `{RandomSpec G}.

Lemma draws_run {A} n (d : M G A) g :
  (∀ g, ∃ x g', d g = (Done x, g')) → ∃ l g', draws n d g = (Done l, g') ∧ length l = n.
Proof.
  intros Hd. revert g. induction n as [|n IH]; intros g; cbn [draws]; [by eexists [], g|].
  destruct (Hd g) as (x & g1 & Hx). rewrite (mbind_run _ _ _ _ _ Hx).
  destruct (IH g1) as (l & g2 & Hl & Hn). rewrite (mbind_run _ _ _ _ _ Hl). eexists (x :: l), g2. split; [done|]. simpl. by rewrite Hn.
Qed.

Lemma generateData_run {A} size_of (d : M G A) object_size g :
  (∀ g, ∃ x g', d g = (Done x, g')) → object_size `mod` size_of = 0 →
  ∃ l g', generateData size_of d object_size g = (Done l, g') ∧ length l = Z.to_nat (object_size / size_of).
Proof.
  intros Hd Hs. unfold generateData. rewrite decide_False by (by intros ?). by apply draws_run.
Qed.

Lemma draw_float_run (g : G) : ∃ x g', draw_float g = (Done x, g').
Proof. unfold draw_float. destruct (uniform_real g). by eexists _, _. Qed.

Lemma draw_int_run (g : G) : ∃ x g', draw_int g = (Done x, g').
Proof. destruct (random_int_run (- 2^31) (2^31 - 1) g) as (x & g' & Hx & _); [lia|]. by exists x, g'. Qed.

Lemma draw_bool_run (g : G) : ∃ x g', draw_bool g = (Done x, g').
Proof.
  destruct (random_int_run 0 1 g) as (x & g' & Hx & _); [lia|]. unfold draw_bool. rewrite (mbind_run _ _ _ _ _ Hx). by eexists _, _.
Qed.

(** A value of [object_size] bytes for a key of a known type *)
Lemma generateDataForKey_run object_size key ty g :
  0 <= object_size → object_size `mod` 4 = 0 → DataType.get_data_type key = Done ty → ty ∈ data_types →
  ∃ v g', generateDataForKey object_size key g = (Done v, g') ∧ Z.of_nat (String.length v) = object_size.
Proof.
  intros Ho Hm Hty Hin. unfold generateDataForKey. rewrite Hty, (mbind_run (lift_result (Done ty)) _ g ty g eq_refl).
  pose proof (Z.div_mod object_size 4 ltac:(lia)).
  assert (ty = "int" ∨ ty = "float" ∨ ty = "bool") as [-> | [-> | ->]]
    by (unfold data_types in Hin; rewrite !elem_of_cons, elem_of_nil in Hin; tauto); cbn [decide_rel].
  - destruct (generateData_run 4 draw_int object_size g draw_int_run Hm) as (l & g' & Hl & Hlen).
    rewrite decide_False, decide_True, (mbind_run _ _ _ _ _ Hl) by done. eexists _, g'. split; [done|].
    unfold BinarySerializer.serialize_int. rewrite BinarySerializer.serialize_words_length, Hlen. lia.
  - destruct (generateData_run 4 draw_float object_size g draw_float_run Hm) as (l & g' & Hl & Hlen).
    rewrite decide_True, (mbind_run _ _ _ _ _ Hl) by done. eexists _, g'. split; [done|].
    unfold BinarySerializer.serialize_float. rewrite BinarySerializer.serialize_words_length, Hlen. lia.
  - destruct (generateData_run 1 draw_bool object_size g draw_bool_run) as (l & g' & Hl & Hlen); [by rewrite Z.mod_1_r|].
    rewrite !decide_False, decide_True, (mbind_run _ _ _ _ _ Hl) by done. eexists _, g'. split; [done|].
    rewrite BinarySerializer.serialize_bool_length, Hlen, Z.div_1_r. lia.
Qed.

End correct.
End TimeSeriesData.

(** * [KeyGenerationDecomposition] *)
Module KeyGenerationDecomposition.

Definition USER_ID_LENGTH : nat := 16.

Record KeyGenerationDecomposition := { item_id : string; user_id : string; timestamp : string; key : string }.

Definition set_user_id (new_user_id : string) : string :=
  if decide (USER_ID_LENGTH < String.length new_user_id)%nat then str_take USER_ID_LENGTH new_user_id
  else rep "0" (USER_ID_LENGTH - String.length new_user_id) +:+ new_user_id.

(** The constructor from an item, a user and a time stamp *)
Definition of_parts (item_id new_user_id timestamp : string) : KeyGenerationDecomposition :=
  let user_id := set_user_id new_user_id in
  {| item_id := item_id; user_id := user_id; timestamp := timestamp;
     key := item_id +:+ "@" +:+ user_id +:+ "@" +:+ timestamp |}.

(** [s.find("@", pos)] and [s.substr(pos, n)] on [size_t]: [npos] is the
    greatest, and [npos + 1] is 0. *)
Definition npos : Z := 2^64 - 1.
Definition find_at (pos : Z) (s : string) : Z :=
  match find_char_from "@" (Z.to_nat pos) s with Some i => Z.of_nat i | None => npos end.
Definition cut (s : string) (pos n : Z) : result string :=
  substr s (Z.to_nat pos) (if n =? npos then None else Some (Z.to_nat n)).

(** The constructor from a key: the second argument of the second [substr] is
    the position of the second ['@'], not a length. *)
Definition of_key (key : string) : result KeyGenerationDecomposition :=
  item_id ← cut key 0 (find_at 0 key);
  let second := find_at (wrap_u64 (find_at 0 key + 1)) key in
  user_id ← cut key (wrap_u64 (find_at 0 key + 1)) second;
  timestamp ← cut key (wrap_u64 (second + 1)) npos;
  mret {| item_id := item_id; user_id := user_id; timestamp := timestamp; key := key |}.

(** The constructor without a time stamp: [now] is [current_time()], and the
    key does not hold it. *)
Definition of_now (now : Z) (item_id new_user_id : string) : KeyGenerationDecomposition :=
  let user_id := set_user_id new_user_id in
  {| item_id := item_id; user_id := user_id; timestamp := to_string now; key := item_id +:+ "@" +:+ user_id |}.

Lemma set_user_id_spec u :
  has_char "@" u = false → String.length (set_user_id u) = USER_ID_LENGTH ∧ has_char "@" (set_user_id u) = false.
Proof.
  intros Hu. unfold set_user_id. case_decide.
  - split; [apply str_take_exact; lia|by apply str_take_no_char].
  - rewrite str_length_app, rep_length, has_char_app, Hu, has_char_rep by done. split; [lia|done].
Qed.

(** Taken apart again, a key gives its item and its time stamp, but the user
    runs on into the ['@'] and the time stamp. *)
Lemma of_key_of_parts item user ts :
  has_char "@" item = false → has_char "@" user = false → Z.of_nat (String.length item) < 2^63 →
  ∃ d, of_key (key (of_parts item user ts)) = Done d ∧ item_id d = item ∧ timestamp d = ts
    ∧ user_id d = set_user_id user +:+ String "@" (str_take (String.length item) ts).
Proof.
  intros Hi [Hul Hu]%set_user_id_spec Hlen. unfold of_parts, of_key. cbn [key]. set (u := set_user_id user) in *.
  change ("@" +:+ u +:+ "@" +:+ ts) with (String "@" (u +:+ String "@" ts)). set (k := item +:+ _).
  assert (String.length k = String.length item + S (16 + S (String.length ts)))%nat as Hk
    by (unfold k; rewrite str_length_app; simpl; rewrite str_length_app, Hul; reflexivity).
  assert (find_at 0 k = Z.of_nat (String.length item)) as H1.
  { unfold find_at, find_char_from. change (Z.to_nat 0) with 0%nat. rewrite decide_True by lia. cbn [str_drop]. unfold k.
    by rewrite find_char_app by done. }
  assert (wrap_u64 (find_at 0 k + 1) = Z.of_nat (S (String.length item))) as H2
    by (rewrite H1; unfold wrap_u64; rewrite Z.mod_small; lia).
  assert (find_at (Z.of_nat (S (String.length item))) k = Z.of_nat (String.length item + 17)) as H3.
  { unfold find_at, find_char_from. rewrite Nat2Z.id, decide_True by lia. unfold k.
    rewrite str_drop_app_S, find_char_app by done. cbn [fmap option_fmap option_map]. rewrite Hul. unfold USER_ID_LENGTH. lia. }
  rewrite H2, H3, H1.
  assert (wrap_u64 (Z.of_nat (String.length item + 17) + 1) = Z.of_nat (String.length item + 18)) as H4
    by (unfold wrap_u64; rewrite Z.mod_small; lia).
  rewrite H4. unfold cut, substr, npos. rewrite !Nat2Z.id.
  rewrite Z.eqb_refl, !(proj2 (Z.eqb_neq _ _)) by lia. rewrite !decide_True by lia. cbn [mbind result_bind].
  eexists. split; [reflexivity|]. cbn [item_id timestamp user_id]. unfold k.
  split; [apply str_take_app|]. rewrite str_drop_app_S. split.
  - replace (String.length item + 18)%nat with (String.length (item +:+ String "@" u) + 1)%nat
      by (rewrite str_length_app; simpl; rewrite Hul; unfold USER_ID_LENGTH; lia).
    change (item +:+ String "@" (u +:+ String "@" ts)) with (item +:+ (String "@" u +:+ String "@" ts)).
    rewrite <- str_app_assoc, Nat.add_1_r. apply str_drop_app_S.
  - replace (String.length item + 17)%nat with (String.length u + S (String.length item))%nat
      by (rewrite Hul; unfold USER_ID_LENGTH; lia).
    by rewrite str_take_app_more.
Qed.

End KeyGenerationDecomposition.

(** * [TS_get_oldest_key] and [TS_search_master] *)
Module KeySearch.

Definition get_timestamp (key : string) : result Z :=
  tail ← substr key (match rfind_char "@" key with Some pos => S pos | None => 0%nat end) None;
  stol tail.

(** The loop over the tree; the [long] is returned as an [int]. *)
Fixpoint oldest_go (keys_to_be_deleted : list string) (tree : list (string * Z)) (oldest_key : string)
    (oldest_timestamp : Z) : result (string * Z) :=
  match tree with
  | [] => mret (oldest_key, wrap32 oldest_timestamp)
  | (k, _) :: tree =>
      if decide (k ∈ keys_to_be_deleted) then oldest_go keys_to_be_deleted tree oldest_key oldest_timestamp
      else
        t ← get_timestamp k;
        if t <? oldest_timestamp then oldest_go keys_to_be_deleted tree k t
        else oldest_go keys_to_be_deleted tree oldest_key oldest_timestamp
  end.

Definition get_oldest_key (frequencySmoother : Smoother.FrequencySmoother) (keys_to_be_deleted : list string)
    : result (string * Z) :=
  oldest_go keys_to_be_deleted (Smoother.getIterator frequencySmoother) EmptyString long_max.

(** The keys that start with [key] *)
Definition search (key : string) (accessFreqs : gmap string Z) : list string :=
  filter (λ x, String.prefix key x = true) (map_to_list accessFreqs).*1.

(** The selection is made and never returned: the function has no [return]. *)
Fixpoint filter_by_time_range (keys : list string) (start finish : Z) (returnKeys : list string) : result (list string) :=
  match keys with
  | [] => Stop Undefined
  | key :: keys =>
      timestamp ← get_timestamp key;
      filter_by_time_range keys start finish
        (if (start <=? timestamp) && (timestamp <=? finish) then returnKeys ++ [key] else returnKeys)
  end.

Lemma get_timestamp_ts_key item t : in_long t = true → get_timestamp (Smoother.ts_key item t) = Done t.
Proof.
  intros Ht. unfold get_timestamp, Smoother.ts_key. change ("@" +:+ to_string t) with (String "@" (to_string t)).
  rewrite rfind_char_app by (by apply to_string_no_char). unfold substr.
  rewrite decide_True by (rewrite str_length_app; simpl; lia). rewrite str_drop_app_S. by apply stol_to_string.
Qed.

Lemma oldest_go_spec del tree k0 t0 :
  (∀ k f, (k, f) ∈ tree → Smoother.canonical k) →
  ∃ k t, oldest_go del tree k0 t0 = Done (k, wrap32 t) ∧ t <= t0
    ∧ ((k, t) = (k0, t0) ∨ (k ∈ tree.*1 ∧ k ∉ del ∧ get_timestamp k = Done t))
    ∧ ∀ k' t', k' ∈ tree.*1 → k' ∉ del → get_timestamp k' = Done t' → t <= t'.
Proof.
  revert k0 t0. induction tree as [|[k f] tree IH]; intros k0 t0 Hc.
  { exists k0, t0. split; [done|]. split; [lia|]. split; [by left|]. intros k' t' Hk. by apply not_elem_of_nil in Hk. }
  destruct (Hc k f) as (item & t & _ & Ht & Hk); [by left|].
  pose proof (get_timestamp_ts_key item t Ht) as Hts. rewrite <- Hk in Hts.
  assert (∀ k1 t1, ∃ k2 t2, oldest_go del tree k1 t1 = Done (k2, wrap32 t2) ∧ t2 <= t1
    ∧ ((k2, t2) = (k1, t1) ∨ (k2 ∈ tree.*1 ∧ k2 ∉ del ∧ get_timestamp k2 = Done t2))
    ∧ ∀ k' t', k' ∈ tree.*1 → k' ∉ del → get_timestamp k' = Done t' → t2 <= t') as IH'
    by (intros k1 t1; apply IH; intros k' f' Hin; apply (Hc k' f'); by right).
  cbn [oldest_go]. rewrite fmap_cons. case_decide as Hd; [|rewrite Hts; cbn [mbind result_bind]; destruct (Z.ltb_spec t t0)].
  - destruct (IH' k0 t0) as (k2 & t2 & Hr & Hle & Hor & Hmin). exists k2, t2. split; [done|]. split; [done|]. split.
    + destruct Hor as [|(? & ? & ?)]; [by left|right]. split; [by right|done].
    + intros k' t' [->|Hk']%elem_of_cons; [done|]. by apply Hmin.
  - destruct (IH' k t) as (k2 & t2 & Hr & Hle & Hor & Hmin). exists k2, t2. split; [done|]. split; [lia|]. split.
    + right. destruct Hor as [[= -> ->]|(? & ? & ?)]; [split; [by left|done]|]. split; [by right|done].
    + intros k' t' [->|Hk']%elem_of_cons; [|by apply Hmin]. cbn. rewrite Hts. by intros _ [= <-].
  - destruct (IH' k0 t0) as (k2 & t2 & Hr & Hle & Hor & Hmin). exists k2, t2. split; [done|]. split; [done|]. split.
    + destruct Hor as [|(? & ? & ?)]; [by left|right]. split; [by right|done].
    + intros k' t' [->|Hk']%elem_of_cons; [|by apply Hmin]. cbn. rewrite Hts. intros _ [= <-]. lia.
Qed.

(** On a well-formed index, a bucket that is not to be deleted and starts
    first; the empty name if there is none. *)
Lemma get_oldest_key_least s del :
  Smoother.wf s → Smoother.needTimeStamp s = true →
  ∃ k t, get_oldest_key s del = Done (k, wrap32 t)
    ∧ ((k, t) = (EmptyString, long_max)
       ∨ (is_Some (Smoother.accessFreqs s !! k) ∧ k ∉ del ∧ get_timestamp k = Done t))
    ∧ ∀ k' t', is_Some (Smoother.accessFreqs s !! k') → k' ∉ del → get_timestamp k' = Done t' → t <= t'.
Proof.
  intros [Hwf Hitems] Hn. unfold get_oldest_key, Smoother.getIterator.
  assert (∀ k, k ∈ (Smoother.accessTree s).*1 ↔ is_Some (Smoother.accessFreqs s !! k)) as Hkeys.
  { intros k. rewrite list_elem_of_fmap. split.
    - intros ([k' f] & -> & Hin). apply (Smoother.tree_agree _ Hwf) in Hin. by eexists.
    - intros [f Hf]. exists (k, f). split; [done|]. by apply (Smoother.tree_agree _ Hwf). }
  destruct (oldest_go_spec del (Smoother.accessTree s) EmptyString long_max) as (k & t & Hr & _ & Hor & Hmin).
  { intros k f Hin. apply (Smoother.items_canonical _ (Hitems Hn)), Hkeys. by apply (list_elem_of_fmap_2 fst) in Hin. }
  exists k, t. split; [done|]. split.
  - destruct Hor as [|(Hk & ? & ?)]; [by left|right]. split; [by apply Hkeys|done].
  - intros k' t' Hk'. apply Hmin. by apply Hkeys.
Qed.

Lemma filter_by_time_range_undefined keys start finish l :
  (∀ k, k ∈ keys → Smoother.canonical k) → filter_by_time_range keys start finish l = Stop Undefined.
Proof.
  revert l. induction keys as [|k keys IH]; intros l Hc; [done|]. cbn [filter_by_time_range].
  destruct (Hc k) as (item & t & _ & Ht & ->); [by left|]. rewrite get_timestamp_ts_key by done. cbn [mbind result_bind].
  apply IH. intros k' Hk'. apply Hc. by right.
Qed.

End KeySearch.

(** * Properties *)
Section properties.
Import ItemIdGenerator TimeSeriesData.
Context {G : Type} `{RandomSpec G}.

(** C40: [generate_item_ids] ends after one turn per item, whatever is drawn,
    with as many names as asked for.  They are distinct, and each is an item
    that the proxy can store, the data type of whose keys is one that the
    proxy can add up.  A negative count never returns: it is compared as a
    [size_t], and [index] overflows first. *)
Theorem generate_item_ids_valid n fuel (g : G) :
  - 2^31 <= n < 2^31 → (Z.to_nat n ≤ fuel)%nat →
  if n <? 0 then
    (generate_item_ids fuel n g).1 = Stop OutOfFuel ∨ (generate_item_ids fuel n g).1 = Stop Undefined
  else
    ∃ ids g', generate_item_ids fuel n g = (Done ids, g') ∧ Z.of_nat (length ids) = n ∧ NoDup ids
      ∧ ∀ id, id ∈ ids → Smoother.valid_item id = true
          ∧ ∃ ty, ty ∈ data_types ∧ ∀ t, DataType.get_data_type (Smoother.ts_key id t) = Done ty.
Proof.
  intros Hn Hfuel. destruct (Z.ltb_spec n 0).
  - apply (generate_go_negative _ _ _ _ _ _ 0); [apply made_nothing|lia|lia|vm_compute; lia..].
  - destruct (generate_go_run fuel n ∅ [] 0 0 0 g made_nothing) as (ids & g' & Hrun & Hm); [lia|lia|vm_compute; lia..|].
    exists ids, g'. split; [done|]. split; [apply Hm|]. split; [apply Hm|].
    intros id (i & _ & Hid)%(made_names _ _ _ Hm). split; [by eapply item_name_valid|].
    destruct (item_name_type _ _ Hid) as (ty & Hty & Hk). exists ty. split; [done|]. intros t. apply Hk.
Qed.

(** A PUT query that is made for a generated item, when [object_size] is a
    multiple of 4, is a bucket of that item with [object_size] bytes of data:
    it does not throw, and the key is the one the proxy's index takes apart. *)
Theorem put_query_is_a_bucket i id object_size start (g : G) :
  item_name i id → 0 <= object_size → object_size `mod` 4 = 0 → in_int start = true →
  ∃ v g', generate_TS_tracefile_put_query object_size id start g = (Done (Smoother.ts_key id start, v), g')
    ∧ Z.of_nat (String.length v) = object_size
    ∧ Smoother.get_key_timestamp_split (Smoother.ts_key id start) = Done (id, start).
Proof.
  intros Hid Ho Hm Hs. destruct (item_name_type _ _ Hid) as (ty & Hty & Hk).
  destruct (generateDataForKey_run object_size id ty g Ho Hm) as (v & g' & Hrun & Hlen); [by rewrite <- (Hk ""), str_app_nil_r|done|].
  exists v, g'. unfold generate_TS_tracefile_put_query. rewrite (mbind_run _ _ _ _ _ Hrun), BinarySerializer.wrap32_in_int by done.
  split; [done|]. split; [done|]. apply Smoother.split_ts_key; [by eapply item_name_valid|].
  unfold in_int, in_long, long_min, long_max in *. rewrite andb_true_iff, !Z.leb_le in *. rewrite Z.ltb_lt in Hs. lia.
Qed.

End properties.

(** * A generator *)

(** It counts, and folds the count into the range. *)
#[export] Instance counter : RandomSource Z := {
  uniform_int a b g := (a + g `mod` (b - a + 1), g + 1);
  uniform_real g := (g `mod` 2^32, g + 1);
}.

#[export] Instance counter_spec : RandomSpec Z.
Proof.
  split; intros; cbn [uniform_int uniform_real counter fst]; [|apply Z.mod_pos_bound; lia].
  pose proof (Z.mod_pos_bound g (b - a + 1)). lia.
Qed.

Lemma generate_item_ids_valid_witness :
  (∃ ids g', ItemIdGenerator.generate_item_ids 460 460 0 = (Done ids, g') ∧ Z.of_nat (length ids) = 460 ∧ NoDup ids
     ∧ ∀ id, id ∈ ids → Smoother.valid_item id = true
         ∧ ∃ ty, ty ∈ ItemIdGenerator.data_types ∧ ∀ t, DataType.get_data_type (Smoother.ts_key id t) = Done ty)
  ∧ ((ItemIdGenerator.generate_item_ids 5 (-1) 0).1 = Stop OutOfFuel
     ∨ (ItemIdGenerator.generate_item_ids 5 (-1) 0).1 = Stop Undefined).
Proof.
  split.
  - apply (generate_item_ids_valid 460 460 0); lia.
  - apply (generate_item_ids_valid (-1) 5 0); lia.
Defined.

Example generated_names :
  ItemIdGenerator.generate_item_ids 2 2 7
  = (Done ["CPU_USAGE_0_107&bool&"; "CPU_TEMP_1_109&float&"], 11).
Proof. vm_compute. reflexivity. Qed.

Lemma put_query_is_a_bucket_witness :
  ∃ v g', TimeSeriesData.generate_TS_tracefile_put_query 8 "CPU_USAGE_0_107&bool&" 1700000000 0
      = (Done (Smoother.ts_key "CPU_USAGE_0_107&bool&" 1700000000, v), g')
    ∧ Z.of_nat (String.length v) = 8
    ∧ Smoother.get_key_timestamp_split (Smoother.ts_key "CPU_USAGE_0_107&bool&" 1700000000)
      = Done ("CPU_USAGE_0_107&bool&", 1700000000).
Proof.
  apply (put_query_is_a_bucket 0); [|lia|reflexivity|reflexivity].
  exists "CPU", "USAGE", 107, "bool". split; [by left|]. split; [by left|]. split; [lia|]. split; [|vm_compute; reflexivity].
  right. right. by left.
Defined.
