(* ===== verification/RunningKeys.v ===== *)
(** [ThreadSafeUnorderedMap<std::promise<std::string>>]
    (proxy/src/ThreadSafeUnorderedMap.h): the keys whose value is on its way
    from the storage server, and the user GET requests that wait for them.  A
    user request ([request_id]) asks for several keys and is answered once,
    with the sum of their buckets.

    A promise is an object shared by [shared_ptr]s: a promise is a number
    (an address), a [shared_ptr] is [None] when null, and [promises] holds the
    values that have been set. *)
From S2P Require Import Prelude.
From S2P Require Import CxxString.
From S2P Require Import OrderedSet.
From S2P Require Import Values.
From Stdlib Require Import SpecFloat.

Local Open Scope Z_scope.

Module RunningKeys.

(** * Data *)
Abbreviation promise := nat.
Abbreviation shared_promise := (option promise).

Record ThreadSafeUnorderedMap := {
  m_map_ : gmap string (list shared_promise);
  get_map : gmap string (list Z);
  request_map : gmap Z (list string * shared_promise);
  get_cache : gmap string string;
}.

(** The map and the promises of the program. *)
Record state := {
  tsmap : ThreadSafeUnorderedMap;
  promises : gmap promise string;
}.

Definition new_map : ThreadSafeUnorderedMap :=
  {| m_map_ := ∅; get_map := ∅; request_map := ∅; get_cache := ∅ |}.

Definition with_m_map (g : gmap string (list shared_promise) → gmap string (list shared_promise)) (s : state) : state :=
  {| tsmap := {| m_map_ := g (m_map_ (tsmap s)); get_map := get_map (tsmap s);
                 request_map := request_map (tsmap s); get_cache := get_cache (tsmap s) |};
     promises := promises s |}.
Definition with_get_map (g : gmap string (list Z) → gmap string (list Z)) (s : state) : state :=
  {| tsmap := {| m_map_ := m_map_ (tsmap s); get_map := g (get_map (tsmap s));
                 request_map := request_map (tsmap s); get_cache := get_cache (tsmap s) |};
     promises := promises s |}.
Definition with_request_map (g : gmap Z (list string * shared_promise) → gmap Z (list string * shared_promise)) (s : state) : state :=
  {| tsmap := {| m_map_ := m_map_ (tsmap s); get_map := get_map (tsmap s);
                 request_map := g (request_map (tsmap s)); get_cache := get_cache (tsmap s) |};
     promises := promises s |}.
Definition with_get_cache (g : gmap string string → gmap string string) (s : state) : state :=
  {| tsmap := {| m_map_ := m_map_ (tsmap s); get_map := get_map (tsmap s);
                 request_map := request_map (tsmap s); get_cache := g (get_cache (tsmap s)) |};
     promises := promises s |}.

(** [request_map[id]] creates an empty entry when there is none. *)
Definition request_at (id : Z) (s : state) : list string * shared_promise :=
  default ([], None) (request_map (tsmap s) !! id).
Definition touch_request (id : Z) : state → state :=
  with_request_map (λ m, <[id := default ([], None) (m !! id)]> m).

(** [get_cache[key]] likewise. *)
Definition cached_at (key : string) (s : state) : string := default "" (get_cache (tsmap s) !! key).
Definition touch_cached (key : string) : state → state :=
  with_get_cache (λ m, <[key := default "" (m !! key)]> m).

(** [p->set_value(v)] *)
Definition set_value (p : shared_promise) (v : string) : M state () :=
  match p with
  | None => fail Undefined
  | Some p =>
      s ← get;
      match promises s !! p with
      | Some _ => fail (Throw promise_already_satisfied)
      | None => put {| tsmap := tsmap s; promises := <[p := v]> (promises s) |}
      end
  end.

(** * Operations *)

Definition is_present (key : string) (s : state) : bool :=
  bool_decide (is_Some (m_map_ (tsmap s) !! key)) || bool_decide (is_Some (get_map (tsmap s) !! key)).

(** [insertIfNotPresent(key)] *)
Definition insertIfNotPresent (key : string) (s : state) : bool * state :=
  (is_present key s, with_m_map (λ m, <[key := default [] (m !! key) ++ [None]]> m) s).

(** [insertIfNotPresent(key, value, request_id)] *)
Definition insertIfNotPresent_get (key : string) (value : shared_promise) (request_id : Z) (s : state) : bool * state :=
  (is_present key s,
   with_request_map (λ m, <[request_id := ((default ([], None) (m !! request_id)).1 ++ [key], value)]> m)
     (with_get_map (λ m, <[key := oset_insert Z.ltb request_id (default [] (m !! key))]> m) s)).

Definition insert_cache (request_id : Z) (key value : string) (p : shared_promise) : M state () :=
  s ← get;
  match get_cache (tsmap s) !! key with
  | Some v => if decide (v = value) then mret () else fail (Exit 1)
  | None => mret ()
  end ;;
  modify (with_get_cache (λ m, <[key := value]> m)) ;;
  modify (with_request_map (λ m, match m !! request_id with
                                 | None => <[request_id := ([], p)]> m
                                 | Some _ => m
                                 end)) ;;
  modify (with_request_map (λ m, <[request_id := ((default ([], None) (m !! request_id)).1 ++ [key],
                                                  (default ([], None) (m !! request_id)).2)]> m)).

Definition isFulfilled (request_id : Z) : M state bool :=
  modify (touch_request request_id) ;;
  s ← get;
  mret (forallb (λ key, bool_decide (is_Some (get_cache (tsmap s) !! key))) (request_at request_id s).1).

(** The three summing functions read [get_cache[key]] of each key of the
    request in turn. *)
Definition deserializeAndSumInt (request_id : Z) : M state Z :=
  s ← get;
  let keys := (request_at request_id s).1 in
  modify (λ s, fold_left (λ s key, touch_cached key s) keys s) ;;
  lift_result (Sums.sum_ints 0 (keys ≫= λ key, BinarySerializer.deserialize_int (cached_at key s))).

Definition deserializeAndSumFloat (request_id : Z) : M state spec_float :=
  s ← get;
  let keys := (request_at request_id s).1 in
  modify (λ s, fold_left (λ s key, touch_cached key s) keys s) ;;
  mret (Sums.sum_floats (S754_zero false) (keys ≫= λ key, BinarySerializer.deserialize_float (cached_at key s))).

Definition deserializeAndSumBool (request_id : Z) : M state Z :=
  s ← get;
  let keys := (request_at request_id s).1 in
  modify (λ s, fold_left (λ s key, touch_cached key s) keys s) ;;
  lift_result (Sums.sum_bools 0 (keys ≫= λ key, BinarySerializer.deserialize_bool (cached_at key s))).

Definition clearPromises (request_id : Z) : M state () :=
  modify (touch_request request_id) ;;
  s ← get;
  match (request_at request_id s).1 with
  | [] => fail Undefined
  | key :: _ =>
      data_type ← lift_result (DataType.get_data_type key);
      if decide (data_type = "int") then
        total ← deserializeAndSumInt request_id;
        set_value (request_at request_id s).2 (to_string total)
      else if decide (data_type = "float") then
        total ← deserializeAndSumFloat request_id;
        set_value (request_at request_id s).2 (Sums.to_string_float total)
      else
        total ← deserializeAndSumBool request_id;
        set_value (request_at request_id s).2 (to_string total)
  end.

(** The loop of [tryClearPromises] over [get_map[key]]. *)
Fixpoint clear_waiting (request_ids : list Z) : M state () :=
  match request_ids with
  | [] => mret ()
  | request_id :: request_ids =>
      b ← isFulfilled request_id;
      if (b : bool) then
        clearPromises request_id ;;
        modify (with_request_map (delete request_id)) ;;
        s ← get;
        if decide (request_map (tsmap s) = ∅) then
          modify (with_get_map (λ _, ∅)) ;; modify (with_get_cache (λ _, ∅))
        else clear_waiting request_ids
      else clear_waiting request_ids
  end.

Definition tryClearPromises (key value : string) : M state () :=
  modify (with_m_map (delete key)) ;;
  s ← get;
  match get_map (tsmap s) !! key with
  | None => mret ()
  | Some request_ids =>
      modify (with_get_cache (λ m, <[key := value]> m)) ;;
      clear_waiting request_ids
  end.

(** The loop of [tryClearAllPromises] over the entries of [request_map] (in
    the order of [map_to_list]); returns [to_erase]. *)
Fixpoint clear_fulfilled (request_ids : list Z) : M state (list Z) :=
  match request_ids with
  | [] => mret []
  | request_id :: request_ids =>
      b ← isFulfilled request_id;
      if (b : bool) then
        clearPromises request_id ;;
        to_erase ← clear_fulfilled request_ids;
        mret (request_id :: to_erase)
      else clear_fulfilled request_ids
  end.

Definition tryClearAllPromises : M state () :=
  s ← get;
  to_erase ← clear_fulfilled (map_to_list (request_map (tsmap s))).*1;
  modify (λ s, fold_left (λ s request_id, with_request_map (delete request_id) s) to_erase s) ;;
  s ← get;
  if decide (request_map (tsmap s) = ∅) then
    modify (with_get_map (λ _, ∅)) ;; modify (with_get_cache (λ _, ∅))
  else mret ().

Definition size (s : state) : nat := base.size (m_map_ (tsmap s)).

(** * The answer of a request *)

(** What a request for [keys] is answered when the buckets are in [cache]. *)
Definition answer_of (keys : list string) (cache : gmap string string) : result string :=
  match keys with
  | [] => Stop Undefined
  | key :: _ =>
      data_type ← DataType.get_data_type key;
      let bucket k := default "" (cache !! k) in
      if decide (data_type = "int") then
        total ← Sums.sum_ints 0 (keys ≫= λ k, BinarySerializer.deserialize_int (bucket k));
        Done (to_string total)
      else if decide (data_type = "float") then
        Done (Sums.to_string_float
                (Sums.sum_floats (S754_zero false) (keys ≫= λ k, BinarySerializer.deserialize_float (bucket k))))
      else
        total ← Sums.sum_bools 0 (keys ≫= λ k, BinarySerializer.deserialize_bool (bucket k));
        Done (to_string total)
  end.

(** All the keys of a request are in [cache]. *)
Definition complete (keys : list string) (cache : gmap string string) : bool :=
  forallb (λ key, bool_decide (is_Some (cache !! key))) keys.

(** * The invariant *)
Record inv (s : state) : Prop := {
  (** a waiting request has keys, and a promise not yet set *)
  inv_request id keys p :
    request_map (tsmap s) !! id = Some (keys, p) →
    keys ≠ [] ∧ ∃ q, p = Some q ∧ promises s !! q = None;
  (** two requests do not share a promise *)
  inv_distinct id1 id2 keys1 keys2 q :
    request_map (tsmap s) !! id1 = Some (keys1, Some q) →
    request_map (tsmap s) !! id2 = Some (keys2, Some q) → id1 = id2;
  (** a request listed under a key without a value waits for that key *)
  inv_waiting key ids id :
    get_map (tsmap s) !! key = Some ids → id ∈ ids → get_cache (tsmap s) !! key = None →
    ∃ keys p, request_map (tsmap s) !! id = Some (keys, p) ∧ key ∈ keys;
  (** a request is listed under each of its keys without a value *)
  inv_listed id keys p key :
    request_map (tsmap s) !! id = Some (keys, p) → key ∈ keys →
    get_cache (tsmap s) !! key = None →
    ∃ ids, get_map (tsmap s) !! key = Some ids ∧ id ∈ ids;
  inv_sorted key ids : get_map (tsmap s) !! key = Some ids → oset_sorted Z.ltb ids ∧ ids ≠ [];
}.

(** * Running the operations on waiting requests *)

Lemma touch_request_present id kp s :
  request_map (tsmap s) !! id = Some kp → touch_request id s = s.
Proof.
  intros H. unfold touch_request, with_request_map. rewrite H. simpl. rewrite insert_id by done.
  destruct s as [[????] ?]. done.
Qed.

Lemma touch_cached_present key v s :
  get_cache (tsmap s) !! key = Some v → touch_cached key s = s.
Proof.
  intros H. unfold touch_cached, with_get_cache. rewrite H. simpl. rewrite insert_id by done.
  destruct s as [[????] ?]. done.
Qed.

Lemma complete_spec keys cache :
  complete keys cache = true ↔ ∀ key, key ∈ keys → is_Some (cache !! key).
Proof.
  unfold complete. rewrite <- Is_true_true, forallb_True, Forall_forall.
  by setoid_rewrite bool_decide_spec.
Qed.

Lemma touch_all_cached keys s :
  complete keys (get_cache (tsmap s)) = true →
  fold_left (λ s key, touch_cached key s) keys s = s.
Proof.
  rewrite complete_spec. induction keys as [|key keys IH]; intros Hc; simpl; [done|].
  destruct (Hc key) as [v Hv]; [by left|]. rewrite (touch_cached_present key v) by done.
  apply IH. intros k Hk. apply Hc. by right.
Qed.

Lemma isFulfilled_run id keys p s :
  request_map (tsmap s) !! id = Some (keys, p) →
  isFulfilled id s = (Done (complete keys (get_cache (tsmap s))), s).
Proof.
  intros H. unfold isFulfilled. run. rewrite (touch_request_present _ _ _ H).
  unfold request_at. by rewrite H.
Qed.

Definition with_promise (q : promise) (v : string) (s : state) : state :=
  {| tsmap := tsmap s; promises := <[q := v]> (promises s) |}.

Lemma clearPromises_run id keys q a s :
  request_map (tsmap s) !! id = Some (keys, Some q) → promises s !! q = None →
  complete keys (get_cache (tsmap s)) = true → answer_of keys (get_cache (tsmap s)) = Done a →
  clearPromises id s = (Done (), with_promise q a s).
Proof.
  intros H Hq Hc Ha. unfold clearPromises. run. rewrite (touch_request_present _ _ _ H).
  assert (request_at id s = (keys, Some q)) as Hr by (unfold request_at; by rewrite H).
  unfold answer_of in Ha. rewrite Hr. destruct keys as [|key keys]; [done|]. cbn [fst snd].
  destruct (DataType.get_data_type_total key) as [ty Hty]. rewrite Hty in *. run.
  set (ks := key :: keys) in *.
  unfold deserializeAndSumInt, deserializeAndSumFloat, deserializeAndSumBool, set_value. run.
  unfold cached_at.
  destruct (decide (ty = "int")); [|destruct (decide (ty = "float"))]; rewrite Hr; cbn [fst snd];
    rewrite (touch_all_cached ks) by done.
  - destruct (Sums.sum_ints _ _) as [total|]; simplify_eq. by rewrite Hq.
  - simplify_eq. by rewrite Hq.
  - destruct (Sums.sum_bools _ _) as [total|]; simplify_eq. by rewrite Hq.
Qed.

(** The state in which the requests [ids] can be examined. *)
Record ready (ids : list Z) (s : state) : Prop := {
  ready_request id keys p :
    id ∈ ids → request_map (tsmap s) !! id = Some (keys, p) →
    keys ≠ [] ∧ ∃ q, p = Some q ∧ promises s !! q = None;
  ready_distinct id1 id2 keys1 keys2 q :
    request_map (tsmap s) !! id1 = Some (keys1, Some q) →
    request_map (tsmap s) !! id2 = Some (keys2, Some q) → id1 = id2;
  ready_present id : id ∈ ids → is_Some (request_map (tsmap s) !! id);
  ready_answer id keys p :
    id ∈ ids → request_map (tsmap s) !! id = Some (keys, p) →
    complete keys (get_cache (tsmap s)) = true →
    ∃ a, answer_of keys (get_cache (tsmap s)) = Done a;
}.

(** What happens to the requests [ids]: the complete ones are answered. *)
Record answered (ids : list Z) (s s' : state) : Prop := {
  answered_promise id keys q a :
    id ∈ ids → request_map (tsmap s) !! id = Some (keys, Some q) →
    complete keys (get_cache (tsmap s)) = true →
    answer_of keys (get_cache (tsmap s)) = Done a → promises s' !! q = Some a;
  answered_frame q :
    (∀ id keys, id ∈ ids → request_map (tsmap s) !! id = Some (keys, Some q) →
      complete keys (get_cache (tsmap s)) = false) →
    promises s' !! q = promises s !! q;
}.

(** The request map after the complete requests among [ids] are erased. *)
Definition erased (ids : list Z) (s : state) : gmap Z (list string * shared_promise) :=
  filter (λ e, ¬ (e.1 ∈ ids ∧ complete e.2.1 (get_cache (tsmap s)) = true)) (request_map (tsmap s)).

Lemma erased_cons_complete id ids keys p s :
  request_map (tsmap s) !! id = Some (keys, p) → complete keys (get_cache (tsmap s)) = true →
  id ∉ ids → ∀ m, get_cache (tsmap m) = get_cache (tsmap s) →
  request_map (tsmap m) = delete id (request_map (tsmap s)) → erased ids m = erased (id :: ids) s.
Proof.
  intros Hid Hc Hni m Hcache Hm. apply map_eq. intros i. unfold erased. rewrite Hm, Hcache.
  apply option_eq. intros kp. rewrite !map_lookup_filter_Some, lookup_delete_Some, elem_of_cons.
  simpl. split.
  - intros [[Hne Hl] Hn]. split; [done|]. intros [[->|Hin] ?]; tauto.
  - intros [Hl Hn]. destruct (decide (i = id)) as [->|Hne].
    + exfalso. apply Hn. rewrite Hid in Hl. simplify_eq. simpl. split; [by left|done].
    + split; [done|]. tauto.
Qed.

Lemma erased_cons_incomplete id ids keys p s :
  request_map (tsmap s) !! id = Some (keys, p) → complete keys (get_cache (tsmap s)) = false →
  erased (id :: ids) s = erased ids s.
Proof.
  intros Hid Hc. apply map_eq. intros i. unfold erased.
  apply option_eq. intros kp. rewrite !map_lookup_filter_Some, elem_of_cons. simpl. split.
  - intros [Hl Hn]. split; [done|]. tauto.
  - intros [Hl Hn]. split; [done|]. intros [[->|Hin] Hc']; [|tauto].
    rewrite Hid in Hl. simplify_eq. simpl in *. congruence.
Qed.

Lemma ready_tail id ids s : ready (id :: ids) s → ready ids s.
Proof.
  intros [H1 H2 H3 H4]. split; [|done| |].
  - intros i keys p Hi. apply H1. by right.
  - intros i Hi. apply H3. by right.
  - intros i keys p Hi. apply H4. by right.
Qed.

Lemma ready_answered_one id ids keys q a s s1 :
  ready (id :: ids) s → id ∉ ids → request_map (tsmap s) !! id = Some (keys, Some q) →
  get_cache (tsmap s1) = get_cache (tsmap s) →
  request_map (tsmap s1) = delete id (request_map (tsmap s)) →
  promises s1 = <[q := a]> (promises s) → ready ids s1.
Proof.
  intros [H1 H2 H3 H4] Hni Hid Hc Hm Hp. split; rewrite ?Hc, ?Hm, ?Hp.
  - intros i ks p Hi [Hne Hl]%lookup_delete_Some.
    destruct (H1 i ks p) as (? & q' & -> & Hq'); [by right|done|].
    split; [done|]. exists q'. split; [done|]. rewrite lookup_insert_ne; [done|].
    intros ->. by apply Hne, (H2 _ _ _ _ _ Hid Hl).
  - intros i1 i2 k1 k2 q' [_ Hl1]%lookup_delete_Some [_ Hl2]%lookup_delete_Some. by eapply H2.
  - intros i Hi. rewrite lookup_delete_ne by (intros ->; done). apply H3. by right.
  - intros i ks p Hi [_ Hl]%lookup_delete_Some. apply (H4 i ks p); [by right|done].
Qed.

Lemma answered_cons_complete id ids keys q a s s1 s' :
  ready (id :: ids) s → id ∉ ids → request_map (tsmap s) !! id = Some (keys, Some q) →
  complete keys (get_cache (tsmap s)) = true → answer_of keys (get_cache (tsmap s)) = Done a →
  get_cache (tsmap s1) = get_cache (tsmap s) →
  request_map (tsmap s1) = delete id (request_map (tsmap s)) →
  promises s1 = <[q := a]> (promises s) →
  answered ids s1 s' → answered (id :: ids) s s'.
Proof.
  intros [H1 H2 H3 H4] Hni Hid Hco Ha Hc Hm Hp [Ap Af]. rewrite Hc, Hm, Hp in *. split.
  - intros i ks q' a' [->|Hi]%elem_of_cons Hl Hc' Ha'.
    + rewrite Hid in Hl. injection Hl as <- <-. rewrite Ha in Ha'. injection Ha' as <-.
      rewrite Af; [by rewrite lookup_insert_eq|].
      intros i2 ks2 Hi2 [Hne Hl2]%lookup_delete_Some. destruct Hne. by rewrite (H2 _ _ _ _ _ Hid Hl2).
    + apply (Ap i ks q' a' Hi); [|done..]. rewrite lookup_delete_ne by (intros ->; done). done.
  - intros q' Hq'. rewrite Af.
    + rewrite lookup_insert_ne; [done|]. intros ->.
      rewrite (Hq' id keys) in Hco; [done|by left|done].
    + intros i ks Hi [_ Hl]%lookup_delete_Some. apply (Hq' i); [by right|done].
Qed.

Lemma answered_cons_incomplete id ids keys p s s' :
  request_map (tsmap s) !! id = Some (keys, p) → complete keys (get_cache (tsmap s)) = false →
  answered ids s s' → answered (id :: ids) s s'.
Proof.
  intros Hid Hc [Ap Af]. split.
  - intros i ks q a [->|Hi]%elem_of_cons Hl Hc' Ha; [|by eapply Ap]. congruence.
  - intros q Hq. apply Af. intros i ks Hi. apply Hq. by right.
Qed.

(** The two maps are kept, or emptied together with [request_map]. *)
Definition kept_or_emptied (s s' : state) : Prop :=
  (get_map (tsmap s') = get_map (tsmap s) ∧ get_cache (tsmap s') = get_cache (tsmap s)
   ∧ (request_map (tsmap s') = ∅ → request_map (tsmap s) = ∅))
  ∨ (request_map (tsmap s') = ∅ ∧ get_map (tsmap s') = ∅ ∧ get_cache (tsmap s') = ∅).

Lemma answered_nil s s' : promises s' = promises s → answered [] s s'.
Proof.
  intros Hp. split; [|intros q _; by rewrite Hp].
  intros id keys q a Hin. by apply not_elem_of_nil in Hin.
Qed.

Lemma clear_waiting_run ids s :
  NoDup ids → ready ids s →
  ∃ s', clear_waiting ids s = (Done (), s') ∧ answered ids s s'
    ∧ request_map (tsmap s') = erased ids s ∧ m_map_ (tsmap s') = m_map_ (tsmap s)
    ∧ kept_or_emptied s s'.
Proof.
  intros Hnd. revert s. induction Hnd as [|id ids Hni Hnd IH]; intros s Hr; simpl; run.
  { exists s. split; [done|]. split; [by apply answered_nil|]. split; [|split; [done|by left]].
    unfold erased. symmetry. apply map_filter_id. intros i kp _ [Hi _]. by apply not_elem_of_nil in Hi. }
  destruct (ready_present _ _ Hr id) as [[keys p] Hid]; [by left|].
  rewrite (isFulfilled_run _ _ _ _ Hid).
  destruct (ready_request _ _ Hr id keys p) as (Hk & q & -> & Hq); [by left|done|].
  destruct (complete keys (get_cache (tsmap s))) eqn:Hc.
  - destruct (ready_answer _ _ Hr id keys (Some q)) as [a Ha]; [by left|done..|].
    rewrite (clearPromises_run _ _ _ _ _ Hid Hq Hc Ha).
    set (s1 := with_request_map (delete id) (with_promise q a s)).
    assert (ready ids s1) as Hr1 by (by eapply ready_answered_one).
    assert (∀ s', answered ids s1 s' → answered (id :: ids) s s') as Hcons
      by (intros s'; by eapply answered_cons_complete).
    assert (erased ids s1 = erased (id :: ids) s) as Her by (by eapply erased_cons_complete).
    destruct (decide (request_map (tsmap s1) = ∅)) as [He|Hne].
    + assert (ids = []) as ->.
      { destruct ids as [|i ids]; [done|]. destruct (ready_present _ _ Hr1 i) as [? Hi]; [by left|].
        by rewrite He, lookup_empty in Hi. }
      eexists. split; [done|]. split; [apply Hcons; by apply answered_nil|].
      split; [|split; [done|by right]]. rewrite <- Her. unfold erased. simpl in *. by rewrite He.
    + destruct (IH s1 Hr1) as (s' & Hrun & Han & Hreq & Hmm & Hke). exists s'.
      split; [done|]. split; [by apply Hcons|]. split; [by rewrite Hreq|]. split; [done|].
      destruct Hke as [(? & ? & Hz)|?]; [left|by right]. split; [done|]. split; [done|].
      intros Hz'. by destruct Hne; apply Hz.
  - destruct (IH s (ready_tail _ _ _ Hr)) as (s' & Hrun & Han & Hreq & Hmm & Hke). exists s'.
    split; [done|]. split; [by eapply answered_cons_incomplete|].
    split; [|by split]. by rewrite (erased_cons_incomplete _ _ _ _ _ Hid Hc).
Qed.

Lemma ready_tail_promise id ids keys q a s :
  ready (id :: ids) s → id ∉ ids → request_map (tsmap s) !! id = Some (keys, Some q) →
  ready ids (with_promise q a s).
Proof.
  intros [H1 H2 H3 H4] Hni Hid. split; simpl; [|done| |].
  - intros i ks p Hi Hl. destruct (H1 i ks p) as (? & q' & -> & Hq'); [by right|done|].
    split; [done|]. exists q'. split; [done|]. rewrite lookup_insert_ne; [done|].
    intros ->. apply Hni. by rewrite (H2 _ _ _ _ _ Hid Hl).
  - intros i Hi. apply H3. by right.
  - intros i ks p Hi. apply H4. by right.
Qed.

Lemma answered_cons_promise id ids keys q a s s' :
  ready (id :: ids) s → id ∉ ids → request_map (tsmap s) !! id = Some (keys, Some q) →
  complete keys (get_cache (tsmap s)) = true → answer_of keys (get_cache (tsmap s)) = Done a →
  answered ids (with_promise q a s) s' → answered (id :: ids) s s'.
Proof.
  intros [H1 H2 H3 H4] Hni Hid Hco Ha [Ap Af]. simpl in *. split.
  - intros i ks q' a' [->|Hi]%elem_of_cons Hl Hc' Ha'; [|by eapply Ap].
    rewrite Hid in Hl. injection Hl as <- <-. rewrite Ha in Ha'. injection Ha' as <-.
      rewrite Af; [by rewrite lookup_insert_eq|].
    intros i2 ks2 Hi2 Hl2. destruct Hni. by rewrite (H2 _ _ _ _ _ Hid Hl2).
  - intros q' Hq'. rewrite Af.
    + rewrite lookup_insert_ne; [done|]. intros ->.
      rewrite (Hq' id keys) in Hco; [done|by left|done].
    + intros i ks Hi. apply (Hq' i). by right.
Qed.

Lemma clear_fulfilled_run ids s :
  NoDup ids → ready ids s →
  ∃ l s', clear_fulfilled ids s = (Done l, s') ∧ tsmap s' = tsmap s ∧ answered ids s s'
    ∧ ∀ id, id ∈ l ↔ id ∈ ids ∧ ∃ keys p, request_map (tsmap s) !! id = Some (keys, p)
                          ∧ complete keys (get_cache (tsmap s)) = true.
Proof.
  intros Hnd. revert s. induction Hnd as [|id ids Hni Hnd IH]; intros s Hr; simpl; run.
  { exists [], s. split; [done|]. split; [done|]. split; [by apply answered_nil|]. intros i.
    rewrite elem_of_nil. tauto. }
  destruct (ready_present _ _ Hr id) as [[keys p] Hid]; [by left|].
  rewrite (isFulfilled_run _ _ _ _ Hid).
  destruct (ready_request _ _ Hr id keys p) as (Hk & q & -> & Hq); [by left|done|].
  destruct (complete keys (get_cache (tsmap s))) eqn:Hc.
  - destruct (ready_answer _ _ Hr id keys (Some q)) as [a Ha]; [by left|done..|].
    rewrite (clearPromises_run _ _ _ _ _ Hid Hq Hc Ha).
    destruct (IH (with_promise q a s)) as (l & s' & -> & Hts & Han & Hl).
    { by eapply ready_tail_promise. }
    exists (id :: l), s'. split; [done|]. split; [done|].
    split; [by eapply answered_cons_promise|]. intros i. rewrite !elem_of_cons, Hl. simpl. split.
    + intros [->|[? ?]]; [|tauto]. split; [by left|]. eauto.
    + tauto.
  - destruct (IH s (ready_tail _ _ _ Hr)) as (l & s' & -> & Hts & Han & Hl).
    exists l, s'. split; [done|]. split; [done|]. split; [by eapply answered_cons_incomplete|].
    intros i. rewrite Hl, elem_of_cons. split; [tauto|].
    intros [[->|?] Hx]; [|tauto]. exfalso. destruct Hx as (ks & p & Hid' & Hc'). congruence.
Qed.

(** [inv] only speaks of the keys without a value: it survives new values,
    the end of complete requests and the emptying of the maps. *)
Lemma inv_after_answers ids s cache s' :
  inv s → (∀ key, cache !! key = None → get_cache (tsmap s) !! key = None) →
  answered ids (with_get_cache (λ _, cache) s) s' →
  request_map (tsmap s') = erased ids (with_get_cache (λ _, cache) s) →
  kept_or_emptied (with_get_cache (λ _, cache) s) s' → inv s'.
Proof.
  intros [I1 I2 I3 I4 I5] Hsub [_ Hf] Her [(Hg & Hc & _)|(Hr & Hg & Hc)]; simpl in *; last first.
  { split; rewrite ?Hr, ?Hg, ?Hc; intros *; rewrite ?lookup_empty; done. }
  assert (∀ id kp, request_map (tsmap s') !! id = Some kp →
    request_map (tsmap s) !! id = Some kp ∧ ¬ (id ∈ ids ∧ complete kp.1 cache = true)) as Hin.
  { intros id kp. rewrite Her. unfold erased. rewrite map_lookup_filter_Some. done. }
  split; rewrite ?Hg, ?Hc.
  - intros id keys p [Hl Hn]%Hin. destruct (I1 _ _ _ Hl) as (? & q & -> & Hq). split; [done|].
    exists q. split; [done|]. rewrite Hf; [done|]. intros id2 keys2 Hi2 Hl2. simpl in *.
    assert (id2 = id) as -> by (by eapply I2). rewrite Hl in Hl2. injection Hl2 as <-.
    destruct (complete keys cache); [|done]. tauto.
  - intros id1 id2 keys1 keys2 q [Hl1 _]%Hin [Hl2 _]%Hin. by eapply I2.
  - intros key l id Hm Hi Hk. destruct (I3 key l id Hm Hi (Hsub _ Hk)) as (keys & p & Hl & Hin').
    exists keys, p. split; [|done]. rewrite Her. unfold erased. apply map_lookup_filter_Some.
    split; [done|]. simpl. rewrite complete_spec. intros [_ Hall]. destruct (Hall _ Hin'). congruence.
  - intros id keys p key [Hl _]%Hin Hk Hn. by apply (I4 id keys p key); [| |apply Hsub].
  - done.
Qed.

(** What becomes of each waiting request when [ids] are examined. *)
Lemma answered_each ids s s' id keys q :
  (∀ id1 id2 keys1 keys2 q, request_map (tsmap s) !! id1 = Some (keys1, Some q) →
    request_map (tsmap s) !! id2 = Some (keys2, Some q) → id1 = id2) →
  answered ids s s' → ready ids s →
  request_map (tsmap s) !! id = Some (keys, Some q) → promises s !! q = None →
  if decide (id ∈ ids ∧ complete keys (get_cache (tsmap s)) = true) then
    erased ids s !! id = None
    ∧ ∃ a, answer_of keys (get_cache (tsmap s)) = Done a ∧ promises s' !! q = Some a
  else erased ids s !! id = Some (keys, Some q) ∧ promises s' !! q = None.
Proof.
  intros Hd [Ha Hf] [_ _ _ Hr] Hl Hq. unfold erased. case_decide as Hc.
  - destruct Hc as [Hi Hc]. split.
    + apply map_lookup_filter_None. right. intros kp Hkp. rewrite Hl in Hkp. injection Hkp as <-.
      simpl. tauto.
    + destruct (Hr id keys (Some q) Hi Hl Hc) as [a Han]. exists a. split; [done|]. by eapply Ha.
  - split; [by apply map_lookup_filter_Some|]. rewrite Hf; [done|].
    intros id2 keys2 Hi2 Hl2. assert (id2 = id) as -> by (by eapply Hd).
    rewrite Hl in Hl2. injection Hl2 as <-. destruct (complete _ _); [|done]. tauto.
Qed.

Lemma inv_ready ids cache s :
  inv s → (∀ id, id ∈ ids → is_Some (request_map (tsmap s) !! id)) →
  (∀ id keys p, id ∈ ids → request_map (tsmap s) !! id = Some (keys, p) →
     complete keys cache = true → ∃ a, answer_of keys cache = Done a) →
  ready ids (with_get_cache (λ _, cache) s).
Proof.
  intros [I1 I2 _ _ _] Hp Ha. split; simpl; [|done..|done]. intros id keys p _. apply I1.
Qed.

(** What a call that leaves the buckets of [cache] known has done with the
    request [id] waiting in [s]: answered and forgotten, or kept waiting. *)
Definition request_outcome (answered : bool) (cache : gmap string string) (s s' : state)
    (id : Z) (keys : list string) (q : promise) : Prop :=
  if answered then
    request_map (tsmap s') !! id = None
    ∧ ∃ a, answer_of keys cache = Done a ∧ promises s' !! q = Some a
  else request_map (tsmap s') !! id = Some (keys, Some q) ∧ promises s' !! q = None.

(** One call of [tryClearPromises] for a key without a value: exactly the
    requests that wait for it and have all their other buckets are answered,
    every other request keeps waiting with its promise unset. *)
Lemma tryClearPromises_run key value s :
  inv s → get_cache (tsmap s) !! key = None →
  let cache := <[key := value]> (get_cache (tsmap s)) in
  (∀ id keys p, request_map (tsmap s) !! id = Some (keys, p) → key ∈ keys →
     complete keys cache = true → ∃ a, answer_of keys cache = Done a) →
  ∃ s', tryClearPromises key value s = (Done (), s') ∧ inv s'
    ∧ m_map_ (tsmap s') = delete key (m_map_ (tsmap s))
    ∧ (∀ id keys q, request_map (tsmap s) !! id = Some (keys, Some q) →
        request_outcome (bool_decide (key ∈ keys) && complete keys cache) cache s s' id keys q)
    ∧ (∀ id, request_map (tsmap s) !! id = None → request_map (tsmap s') !! id = None)
    ∧ (∀ q, (∀ id keys, request_map (tsmap s) !! id ≠ Some (keys, Some q)) →
         promises s' !! q = promises s !! q)
    ∧ ((get_map (tsmap s') = get_map (tsmap s) ∧ (request_map (tsmap s') = ∅ → request_map (tsmap s) = ∅)
        ∧ get_cache (tsmap s')
          = match get_map (tsmap s) !! key with Some _ => cache | None => get_cache (tsmap s) end)
       ∨ (request_map (tsmap s') = ∅ ∧ get_map (tsmap s') = ∅ ∧ get_cache (tsmap s') = ∅)).
Proof.
  intros Hinv Hnk cache Hans. unfold tryClearPromises. run. simpl.
  destruct (get_map (tsmap s) !! key) as [ids|] eqn:Hg; last first.
  - eexists. split; [done|]. split; [by destruct Hinv; split|]. split; [done|]. simpl.
    split; [|split; [done|split; [done|by left]]].
    intros id keys q Hl. rewrite bool_decide_eq_false_2; simpl.
    + split; [done|]. by destruct (inv_request _ Hinv _ _ _ Hl) as (_ & ? & [= <-] & ?).
    + intros Hk. destruct (inv_listed _ Hinv _ _ _ _ Hl Hk Hnk) as (? & ? & _). congruence.
  - set (s0 := with_m_map (delete key) s).
    assert (inv s0) as Hinv0 by (by destruct Hinv; split).
    assert (∀ id, id ∈ ids → ∃ keys p, request_map (tsmap s0) !! id = Some (keys, p) ∧ key ∈ keys)
      as Hw by (intros id Hi; by apply (inv_waiting _ Hinv key ids)).
    change (with_get_cache _ s0) with (with_get_cache (λ _, cache) s0).
    assert (ready ids (with_get_cache (λ _, cache) s0)) as Hrd.
    { apply inv_ready; [done| |].
      - intros id (keys & p & -> & _)%Hw. done.
      - intros id keys p (keys' & p' & Hl' & Hk)%Hw Hl. rewrite Hl in Hl'. injection Hl' as <- <-.
        by apply (Hans id keys p). }
    destruct (clear_waiting_run ids (with_get_cache (λ _, cache) s0)) as (s' & -> & Han & Her & Hmm & Hke);
      [by eapply oset_sorted_NoDup, (inv_sorted _ Hinv)|done|].
    exists s'. split; [done|]. split; [|split; [done|]].
    { eapply inv_after_answers; [exact Hinv0| |done..].
      simpl. intros k [? _]%lookup_insert_None. done. }
    split; [|split; [|split]].
    + intros id keys q Hl. unfold request_outcome. rewrite Her.
      pose proof (answered_each ids (with_get_cache (λ _, cache) s0) s' id keys q
        (inv_distinct _ Hinv) Han Hrd Hl) as Hout.
      destruct (inv_request _ Hinv _ _ _ Hl) as (_ & ? & [= <-] & Hq). specialize (Hout Hq).
      assert (id ∈ ids ↔ key ∈ keys) as Hiff.
      { split; [intros (? & ? & Hl' & ?)%Hw; by pose proof (eq_trans (eq_sym Hl) Hl') as [= <- <-]|].
        intros Hk. destruct (inv_listed _ Hinv _ _ _ _ Hl Hk Hnk) as (? & ? & ?). congruence. }
      simpl in Hout. case_decide as Hd; rewrite Hiff in Hd.
      * destruct Hd as [? ->]. by rewrite bool_decide_eq_true_2.
      * destruct (bool_decide_reflect (key ∈ keys)), (complete keys cache); simpl; tauto.
    + intros id Hl. rewrite Her. unfold erased. apply map_lookup_filter_None. by left.
    + intros q Hq. rewrite (answered_frame _ _ _ Han q); [done|]. intros id keys _ Hl. by destruct (Hq id keys).
    + destruct Hke as [(? & ? & ?)|?]; [by left|by right].
Qed.

(** [p] can be the promise of the request [id]: not set, and not the promise
    of another request. *)
Definition promise_for (id : Z) (p : promise) (s : state) : Prop :=
  promises s !! p = None
  ∧ ∀ id' keys p', request_map (tsmap s) !! id' = Some (keys, Some p') → (id' = id ↔ p' = p).

(** Adding a key to a request. *)
Definition with_key (id : Z) (key : string) (p : promise) (s : state) : state :=
  with_request_map (λ m, <[id := ((default ([], None) (m !! id)).1 ++ [key], Some p)]> m) s.

Lemma with_key_lookup id key p s id' keys p' :
  promise_for id p s → inv s →
  request_map (tsmap (with_key id key p s)) !! id' = Some (keys, p') →
  keys ≠ [] ∧ (∃ q, p' = Some q ∧ promises s !! q = None ∧ (id' = id ↔ q = p))
  ∧ ∀ k, k ∈ keys → (id' = id ∧ k = key)
      ∨ ∃ keys0 p0, request_map (tsmap s) !! id' = Some (keys0, p0) ∧ k ∈ keys0.
Proof.
  intros [Hp Hpf] Hinv. simpl. intros [[<- Heq]|[Hne Hl]]%lookup_insert_Some.
  - injection Heq as <- <-. split; [by destruct (default _ _).1|]. split; [by exists p|].
    intros k [Hk|Hk%list_elem_of_singleton]%elem_of_app; [|by left].
    right. destruct (request_map (tsmap s) !! id) as [[keys0 p0]|] eqn:Hl; simpl in Hk.
    + by exists keys0, p0.
    + by apply not_elem_of_nil in Hk.
  - destruct (inv_request _ Hinv _ _ _ Hl) as (? & q & -> & Hq). split; [done|].
    split; [exists q; by rewrite (Hpf _ _ _ Hl)|]. intros k Hk. right. by exists keys, (Some q).
Qed.

Lemma with_key_keeps id key p s id' keys p' :
  request_map (tsmap s) !! id' = Some (keys, p') →
  ∃ keys' p0, request_map (tsmap (with_key id key p s)) !! id' = Some (keys', p0)
    ∧ ∀ k, k ∈ keys → k ∈ keys'.
Proof.
  intros Hl. simpl. destruct (decide (id' = id)) as [->|Hne].
  - rewrite lookup_insert_eq, Hl. simpl. eexists _, _. split; [done|].
    intros k Hk. apply elem_of_app. by left.
  - rewrite lookup_insert_ne by done. eexists _, _. by split.
Qed.

Lemma insertIfNotPresent_get_inv key p id s :
  inv s → promise_for id p s → inv (insertIfNotPresent_get key (Some p) id s).2.
Proof.
  intros Hinv Hpf. pose proof (with_key_lookup id key p s) as Hlk.
  change (insertIfNotPresent_get key (Some p) id s).2
    with (with_get_map (λ m, <[key := oset_insert Z.ltb id (default [] (m !! key))]> m) (with_key id key p s)).
  assert (∀ k l i, <[key := oset_insert Z.ltb id (default [] (get_map (tsmap s) !! key))]> (get_map (tsmap s)) !! k = Some l →
    i ∈ l → (k = key ∧ i = id) ∨ ∃ l0, get_map (tsmap s) !! k = Some l0 ∧ i ∈ l0) as Hgm.
  { intros k l i [[<- <-]|[_ Hl]]%lookup_insert_Some Hi; [|right; by exists l].
    apply elem_of_oset_insert in Hi as [->|Hi]; [by left|]. right.
    destruct (get_map (tsmap s) !! key); [by eexists|by apply not_elem_of_nil in Hi]. }
  split; simpl.
  - intros i keys p' Hl. destruct (Hlk i keys p' Hpf Hinv Hl) as (? & (q & ? & ? & ?) & _). eauto.
  - intros i1 i2 k1 k2 q Hl1 Hl2.
    destruct (Hlk _ _ _ Hpf Hinv Hl1) as (_ & (q1 & [= <-] & _ & Hq1) & _).
    destruct (Hlk _ _ _ Hpf Hinv Hl2) as (_ & (q2 & [= <-] & _ & Hq2) & _).
    destruct (decide (q = p)); [by rewrite (proj2 Hq1), (proj2 Hq2)|].
    apply lookup_insert_Some in Hl1 as [[? _]|[_ Hl1]]; [by destruct Hq1; naive_solver|].
    apply lookup_insert_Some in Hl2 as [[? _]|[_ Hl2]]; [by destruct Hq2; naive_solver|].
    by eapply (inv_distinct _ Hinv).
  - intros k l i Hl Hi Hc. destruct (Hgm _ _ _ Hl Hi) as [[-> ->]|(l0 & Hl0 & Hi0)].
    + rewrite lookup_insert_eq. eexists _, _. split; [done|]. apply elem_of_app. right. by left.
    + destruct (inv_waiting _ Hinv _ _ _ Hl0 Hi0 Hc) as (keys & p' & Hr & Hk).
      destruct (with_key_keeps id key p s i keys p' Hr) as (keys' & p0 & ? & ?). eauto.
  - intros i keys p' k Hl Hk Hc.
    destruct (Hlk _ _ _ Hpf Hinv Hl) as (_ & _ & [[-> ->]|(keys0 & p0 & Hr & Hk0)]%(λ H, H k Hk)).
    + rewrite lookup_insert_eq. eexists. split; [done|]. apply elem_of_oset_insert. by left.
    + destruct (inv_listed _ Hinv _ _ _ _ Hr Hk0 Hc) as (l & Hg & Hi).
      destruct (decide (k = key)) as [->|Hne].
      * rewrite lookup_insert_eq, Hg. eexists. split; [done|]. apply elem_of_oset_insert. by right.
      * rewrite lookup_insert_ne by done. eauto.
  - intros k l [[<- <-]|[_ Hl]]%lookup_insert_Some; [|by apply (inv_sorted _ Hinv k)].
    split.
    + apply oset_insert_sorted. destruct (get_map (tsmap s) !! key) eqn:Hg; simpl; [|constructor].
      by apply (inv_sorted _ Hinv key).
    + intros Hn. assert (id ∈ oset_insert Z.ltb id (default [] (get_map (tsmap s) !! key))) as Hin
        by (apply elem_of_oset_insert; by left). rewrite Hn in Hin. by apply not_elem_of_nil in Hin.
Qed.

Lemma with_cached_inv key value s : inv s → inv (with_get_cache (λ m, <[key := value]> m) s).
Proof.
  intros [I1 I2 I3 I4 I5]. split; simpl; [done..| | |done].
  - intros k l i Hl Hi [Hk _]%lookup_insert_None. eauto.
  - intros i ks q k Hl Hin [Hc _]%lookup_insert_None. eauto.
Qed.

(** What [insert_cache] does when the key is not known with another value. *)
Lemma insert_cache_run id key value p s :
  inv s → promise_for id p s → default value (get_cache (tsmap s) !! key) = value →
  insert_cache id key value (Some p) s
  = (Done (), with_key id key p (with_get_cache (λ m, <[key := value]> m) s)).
Proof.
  intros Hinv [_ Hpf] Hv. unfold insert_cache. run.
  assert (∀ t : state, match get_cache (tsmap s) !! key with
    | Some v => if decide (v = value) then (λ s : state, (Done (), s)) else (λ s : state, (Stop (Exit 1), s))
    | None => λ s : state, (Done (), s) end t = (Done (), t)) as Hg.
  { intros t. destruct (get_cache (tsmap s) !! key); simpl in *; [by rewrite decide_True|done]. }
  rewrite Hg. unfold with_key, with_request_map. simpl. do 3 f_equal.
  destruct (request_map (tsmap s) !! id) as [[keys0 p0]|] eqn:Hl; simpl.
  - rewrite Hl. simpl. destruct (inv_request _ Hinv _ _ _ Hl) as (_ & q & -> & _).
    by rewrite (proj1 (Hpf _ _ _ Hl) eq_refl).
  - rewrite lookup_insert_eq. simpl. by rewrite insert_insert_eq.
Qed.

Lemma insert_cache_inv id key value p s :
  inv s → promise_for id p s → default value (get_cache (tsmap s) !! key) = value →
  inv (with_key id key p (with_get_cache (λ m, <[key := value]> m) s)).
Proof.
  intros Hinv Hpf _. apply (with_cached_inv key value) in Hinv.
  set (s1 := with_get_cache _ s) in *.
  assert (promise_for id p s1) as Hpf1 by exact Hpf.
  pose proof (with_key_lookup id key p s1) as Hlk. split; simpl.
  - intros i keys p' Hl. destruct (Hlk i keys p' Hpf1 Hinv Hl) as (? & (q & ? & ? & ?) & _). eauto.
  - intros i1 i2 k1 k2 q Hl1 Hl2.
    destruct (Hlk _ _ _ Hpf1 Hinv Hl1) as (_ & (q1 & [= <-] & _ & Hq1) & _).
    destruct (Hlk _ _ _ Hpf1 Hinv Hl2) as (_ & (q2 & [= <-] & _ & Hq2) & _).
    destruct (decide (q = p)); [by rewrite (proj2 Hq1), (proj2 Hq2)|].
    apply lookup_insert_Some in Hl1 as [[? _]|[_ Hl1]]; [by destruct Hq1; naive_solver|].
    apply lookup_insert_Some in Hl2 as [[? _]|[_ Hl2]]; [by destruct Hq2; naive_solver|].
    by eapply (inv_distinct _ Hinv).
  - intros k l i Hl Hi Hc. destruct (inv_waiting _ Hinv _ _ _ Hl Hi Hc) as (keys & p' & Hr & Hk).
    destruct (with_key_keeps id key p s1 i keys p' Hr) as (keys' & p0 & ? & ?). eauto.
  - intros i keys p' k Hl Hk Hc.
    destruct (Hlk _ _ _ Hpf1 Hinv Hl) as (_ & _ & [[-> ->]|(keys0 & p0 & Hr & Hk0)]%(λ H, H k Hk)).
    + by rewrite lookup_insert_eq in Hc.
    + by apply (inv_listed _ Hinv _ _ _ _ Hr Hk0 Hc).
  - apply (inv_sorted _ Hinv).
Qed.

(** C23: registering a key for a request keeps the bookkeeping invariant,
    whether the key has to be fetched ([insertIfNotPresent]) or its bucket is
    at hand ([insert_cache]), when the promise is the request's own and not
    yet set; [insert_cache] ends the process when the key is already known
    with another bucket. *)
Theorem register_preserves_inv id key value p s :
  inv s → promise_for id p s →
  inv (insertIfNotPresent_get key (Some p) id s).2
  ∧ match get_cache (tsmap s) !! key with
    | Some v => if decide (v = value)
                then ∃ s', insert_cache id key value (Some p) s = (Done (), s') ∧ inv s'
                else insert_cache id key value (Some p) s = (Stop (Exit 1), s)
    | None => ∃ s', insert_cache id key value (Some p) s = (Done (), s') ∧ inv s'
    end.
Proof.
  intros Hinv Hpf. split; [by apply insertIfNotPresent_get_inv|].
  assert (default value (get_cache (tsmap s) !! key) = value →
    ∃ s', insert_cache id key value (Some p) s = (Done (), s') ∧ inv s') as Hok.
  { intros Hv. eexists. split; [by apply insert_cache_run|by apply insert_cache_inv]. }
  destruct (get_cache (tsmap s) !! key) as [v|] eqn:Hv; [|by apply Hok].
  case_decide as Hd; [by apply Hok|]. unfold insert_cache. run. rewrite Hv. by rewrite decide_False.
Qed.

Lemma new_map_inv : inv {| tsmap := new_map; promises := ∅ |}.
Proof. split; simpl; intros *; rewrite ?lookup_empty; done. Qed.

(** Decide [promise_for] on a state whose requests are listed. *)
Lemma promise_for_spec id p s :
  bool_decide (promises s !! p = None) &&
    forallb (λ e : Z * (list string * shared_promise),
      match e.2.2 with Some p' => Bool.eqb (bool_decide (e.1 = id)) (bool_decide (p' = p)) | None => true end)
      (map_to_list (request_map (tsmap s))) = true → promise_for id p s.
Proof.
  intros [Hp Hall]%andb_prop. split; [by apply bool_decide_eq_true in Hp|].
  intros id' keys p' Hl%elem_of_map_to_list. rewrite List.forallb_forall in Hall.
  specialize (Hall _ (proj1 (list_elem_of_In _ _) Hl)). simpl in Hall.
  apply eqb_prop in Hall. destruct (bool_decide_reflect (id' = id)), (bool_decide_reflect (p' = p)); done.
Qed.

Lemma register_preserves_inv_witness :
  inv (insertIfNotPresent_get "a@1:bool" (Some 0%nat) 7 {| tsmap := new_map; promises := ∅ |}).2.
Proof.
  apply (register_preserves_inv 7 "a@1:bool" "" 0%nat {| tsmap := new_map; promises := ∅ |} new_map_inv).
  apply promise_for_spec. vm_compute. reflexivity.
Defined.

Definition waiting_example : state :=
  snd (insertIfNotPresent_get "b@1:bool" (Some 1%nat) 8
    (snd (insertIfNotPresent_get "a@1:bool" (Some 1%nat) 8
      (snd (insertIfNotPresent_get "a@1:bool" (Some 0%nat) 7 {| tsmap := new_map; promises := ∅ |}))))).

Lemma waiting_example_inv : inv waiting_example.
Proof.
  unfold waiting_example. repeat (apply insertIfNotPresent_get_inv); [apply new_map_inv|..];
    apply promise_for_spec; vm_compute; reflexivity.
Qed.

Lemma delete_all_lookup (l : list Z) s id :
  request_map (tsmap (fold_left (λ s request_id, with_request_map (delete request_id) s) l s)) !! id
  = (if decide (id ∈ l) then None else request_map (tsmap s) !! id)
  ∧ get_map (tsmap (fold_left (λ s request_id, with_request_map (delete request_id) s) l s)) = get_map (tsmap s)
  ∧ get_cache (tsmap (fold_left (λ s request_id, with_request_map (delete request_id) s) l s)) = get_cache (tsmap s)
  ∧ m_map_ (tsmap (fold_left (λ s request_id, with_request_map (delete request_id) s) l s)) = m_map_ (tsmap s)
  ∧ promises (fold_left (λ s request_id, with_request_map (delete request_id) s) l s) = promises s.
Proof.
  revert s. induction l as [|i l IH]; intros s; cbn [fold_left].
  { rewrite decide_False by apply not_elem_of_nil. done. }
  destruct (IH (with_request_map (delete i) s)) as (-> & -> & -> & -> & ->).
  split; [|done]. change (request_map (tsmap (with_request_map (delete i) s)))
    with (delete i (request_map (tsmap s))). destruct (decide (id = i)) as [->|Hne].
  - rewrite lookup_delete_eq, (decide_True _ _ (P := i ∈ i :: l)) by (by left). by case_decide.
  - rewrite lookup_delete_ne by done.
    destruct (decide (id ∈ l)); [rewrite decide_True by (by right)|rewrite decide_False by set_solver]; done.
Qed.

Lemma tryClearAllPromises_run s :
  inv s →
  (∀ id keys p, request_map (tsmap s) !! id = Some (keys, p) →
     complete keys (get_cache (tsmap s)) = true → ∃ a, answer_of keys (get_cache (tsmap s)) = Done a) →
  ∃ s', tryClearAllPromises s = (Done (), s') ∧ inv s' ∧ m_map_ (tsmap s') = m_map_ (tsmap s)
    ∧ kept_or_emptied s s'
    ∧ (∀ id keys q, request_map (tsmap s) !! id = Some (keys, Some q) →
        request_outcome (complete keys (get_cache (tsmap s))) (get_cache (tsmap s)) s s' id keys q)
    ∧ (∀ id, request_map (tsmap s) !! id = None → request_map (tsmap s') !! id = None)
    ∧ (∀ q, (∀ id keys, request_map (tsmap s) !! id ≠ Some (keys, Some q)) → promises s' !! q = promises s !! q).
Proof.
  intros Hinv Hans. unfold tryClearAllPromises. run.
  set (ids := (map_to_list (request_map (tsmap s))).*1).
  assert (∀ id, id ∈ ids ↔ is_Some (request_map (tsmap s) !! id)) as Hids.
  { intros id. unfold ids. rewrite list_elem_of_fmap. split.
    - intros ([? kp] & -> & Hl%elem_of_map_to_list). by exists kp.
    - intros [kp Hl]. exists (id, kp). by rewrite elem_of_map_to_list. }
  assert (s = with_get_cache (λ _, get_cache (tsmap s)) s) as Hs by (by destruct s as [[????] ?]).
  assert (ready ids s) as Hrd.
  { rewrite Hs. apply inv_ready; [done|intros id Hi; by apply Hids|]. intros id keys p _. apply Hans. }
  destruct (clear_fulfilled_run ids s) as (l & s1 & -> & Hts & Han & Hl);
    [apply NoDup_fst_map_to_list|done|].
  set (s2 := fold_left _ l s1).
  pose proof (λ id, delete_all_lookup l s1 id) as Hdel. fold s2 in Hdel. rewrite Hts in Hdel.
  destruct (Hdel 0) as (_ & Hg2 & Hc2 & Hm2 & Hp2).
  assert (request_map (tsmap s2) = erased ids s) as Her.
  { apply map_eq. intros id. rewrite (proj1 (Hdel id)). unfold erased. apply option_eq. intros [keys p].
    rewrite map_lookup_filter_Some. simpl. specialize (Hl id). case_decide as Hd.
    - split; [done|]. intros [Hlk Hn]. apply Hl in Hd as (? & ks & p' & Hlk' & Hc). rewrite Hlk in Hlk'.
      injection Hlk' as <- <-. tauto.
    - split; [|tauto]. intros Hlk. split; [done|]. intros [? ?]. apply Hd, Hl. eauto. }
  assert (∃ s', (if decide (request_map (tsmap s2) = ∅) then
      λ s, (Done (), with_get_cache (λ _, ∅) (with_get_map (λ _, ∅) s)) else λ s, (Done (), s)) s2
      = ((Done (), s') : result () * state)
    ∧ kept_or_emptied s s' ∧ request_map (tsmap s') = erased ids s ∧ promises s' = promises s1
    ∧ m_map_ (tsmap s') = m_map_ (tsmap s)) as (s' & Hrun & Hke & Hre & Hpr & Hmm).
  { rewrite <- Her. unfold kept_or_emptied. case_decide; eexists; (split; [done|]); simpl; tauto. }
  exists s'. split; [exact Hrun|]. rewrite <- Hpr in *.
  assert (answered ids s s') as Han' by (destruct Han as [H1 H2]; split; by rewrite Hpr).
  split; [|split; [done|split; [done|split; [|split]]]].
  - rewrite Hs in Han', Hre, Hke. by apply (inv_after_answers ids s (get_cache (tsmap s))).
  - intros id keys q Hlk. unfold request_outcome. rewrite Hre.
    destruct (inv_request _ Hinv _ _ _ Hlk) as (_ & ? & [= <-] & Hq).
    pose proof (answered_each ids s s' id keys q (inv_distinct _ Hinv) Han' Hrd Hlk Hq) as Hout.
    assert (id ∈ ids) as Hi by (apply Hids; eauto).
    case_decide as Hd; [destruct Hd as [_ ->]; exact Hout|].
    destruct (complete keys _); [by destruct Hd|exact Hout].
  - intros id Hlk. rewrite Hre. apply map_lookup_filter_None. by left.
  - intros q Hq. rewrite (answered_frame _ _ _ Han' q); [done|]. intros id keys _ Hlk. by destruct (Hq id keys).
Qed.

(** C22: at the end of a batch ([tryClearAllPromises]) every waiting request
    whose buckets are all known is answered and forgotten, the others keep
    waiting, the keys marked as running do not change, the maps are emptied
    when no request is left, and the invariant is kept. *)
Theorem tryClearAllPromises_answers s :
  inv s →
  (∀ id keys p, request_map (tsmap s) !! id = Some (keys, p) →
     complete keys (get_cache (tsmap s)) = true → ∃ a, answer_of keys (get_cache (tsmap s)) = Done a) →
  ∃ s', tryClearAllPromises s = (Done (), s') ∧ inv s' ∧ m_map_ (tsmap s') = m_map_ (tsmap s)
    ∧ kept_or_emptied s s'
    ∧ (∀ id keys q, request_map (tsmap s) !! id = Some (keys, Some q) →
        request_outcome (complete keys (get_cache (tsmap s))) (get_cache (tsmap s)) s s' id keys q)
    ∧ (∀ id, request_map (tsmap s) !! id = None → request_map (tsmap s') !! id = None)
    ∧ (∀ q, (∀ id keys, request_map (tsmap s) !! id ≠ Some (keys, Some q)) → promises s' !! q = promises s !! q).
Proof. apply tryClearAllPromises_run. Qed.

(** ** All the values of a batch *)

Lemma list_bind_ext_in {A B} (f g : A → list B) (l : list A) :
  (∀ x, x ∈ l → f x = g x) → l ≫= f = l ≫= g.
Proof.
  induction l as [|x l IH]; intros Hfg; [done|]. rewrite !bind_cons, Hfg by (by left).
  by rewrite IH by (intros y Hy; apply Hfg; by right).
Qed.

Lemma answer_of_ext keys c1 c2 :
  (∀ k, k ∈ keys → c1 !! k = c2 !! k) → answer_of keys c1 = answer_of keys c2.
Proof.
  intros Hc. unfold answer_of. destruct keys as [|key keys]; [done|]. set (ks := key :: keys) in *.
  rewrite (list_bind_ext_in (λ k, BinarySerializer.deserialize_int (default "" (c1 !! k)))
             (λ k, BinarySerializer.deserialize_int (default "" (c2 !! k))) ks) by (intros k Hk; by rewrite Hc).
  rewrite (list_bind_ext_in (λ k, BinarySerializer.deserialize_float (default "" (c1 !! k)))
             (λ k, BinarySerializer.deserialize_float (default "" (c2 !! k))) ks) by (intros k Hk; by rewrite Hc).
  by rewrite (list_bind_ext_in (λ k, BinarySerializer.deserialize_bool (default "" (c1 !! k)))
             (λ k, BinarySerializer.deserialize_bool (default "" (c2 !! k))) ks) by (intros k Hk; by rewrite Hc).
Qed.

Lemma complete_ext keys c1 c2 :
  (∀ k, k ∈ keys → c1 !! k = c2 !! k) → complete keys c1 = complete keys c2.
Proof.
  intros Hc. destruct (complete keys c2) eqn:H2.
  - apply complete_spec. intros k Hk. rewrite Hc by done. by apply (proj1 (complete_spec keys c2)).
  - destruct (complete keys c1) eqn:H1; [|done]. exfalso.
    assert (complete keys c2 = true); [|congruence]. apply complete_spec. intros k Hk.
    rewrite <- Hc by done. by apply (proj1 (complete_spec keys c1)).
Qed.

(** A sum that fits has partial sums that fit. *)
Lemma answer_of_prefix keys1 keys2 c a :
  keys1 ≠ [] → answer_of (keys1 ++ keys2) c = Done a → ∃ a', answer_of keys1 c = Done a'.
Proof.
  destruct keys1 as [|key keys1]; [done|]. intros _. unfold answer_of. cbn [app].
  destruct (DataType.get_data_type_total key) as [ty Hty]. rewrite Hty. cbn [mbind result_bind].
  change (key :: keys1 ++ keys2) with ((key :: keys1) ++ keys2). rewrite !bind_app.
  unfold Sums.sum_bools. rewrite fmap_app.
  destruct (decide (ty = "int")); [|destruct (decide (ty = "float")); [by eexists|]].
  - rewrite Sums.sum_ints_app. destruct (Sums.sum_ints _ _); [by eexists|done].
  - rewrite Sums.sum_ints_app. destruct (Sums.sum_ints _ _); [by eexists|done].
Qed.

(** The loop of the batch over the values it has read. *)
Definition arrivals (kvs : list (string * string)) : M state () :=
  for_each kvs (λ kv, tryClearPromises kv.1 kv.2).

(** The bookkeeping is empty when no request waits. *)
Definition tidy (s : state) : Prop :=
  request_map (tsmap s) = ∅ → get_map (tsmap s) = ∅ ∧ get_cache (tsmap s) = ∅.

(** Each waiting request lacks a bucket, and the arrivals bring all that is
    missing. *)
Definition awaited (kvs : list (string * string)) (s : state) : Prop :=
  ∀ id keys p, request_map (tsmap s) !! id = Some (keys, p) →
    complete keys (get_cache (tsmap s)) = false
    ∧ complete keys (list_to_map kvs ∪ get_cache (tsmap s)) = true
    ∧ ∃ a, answer_of keys (list_to_map kvs ∪ get_cache (tsmap s)) = Done a.

(** One arrival: the buckets known to the requests that go on waiting. *)
Lemma arrival_values k v kvs s s1 (keys : list string) :
  k ∉ kvs.*1 → get_cache (tsmap s) !! k = None →
  get_cache (tsmap s1) = match get_map (tsmap s) !! k with
                         | Some _ => <[k := v]> (get_cache (tsmap s)) | None => get_cache (tsmap s) end →
  (k ∈ keys → is_Some (get_map (tsmap s) !! k)) →
  ∀ k', k' ∈ keys →
    ((list_to_map kvs : gmap string string) ∪ get_cache (tsmap s1)) !! k'
    = ((list_to_map ((k, v) :: kvs) : gmap string string) ∪ get_cache (tsmap s)) !! k'.
Proof.
  intros Hk Hc Hc1 Hl k' Hk'. rewrite Hc1. simpl. rewrite !lookup_union.
  assert ((list_to_map kvs : gmap string string) !! k = None) as Hn by (by apply not_elem_of_list_to_map_1).
  destruct (decide (k' = k)) as [->|Hne].
  - destruct (Hl Hk') as [ids ->]. by rewrite !lookup_insert_eq, Hn, Hc.
  - rewrite (lookup_insert_ne (list_to_map kvs)) by done. f_equal.
    destruct (get_map (tsmap s) !! k); [by rewrite lookup_insert_ne|done].
Qed.

(** What [request_outcome] of every request says of the requests that are
    left: they were there before, and did not have all their buckets. *)
Lemma outcomes_kept (answered : list string → bool) cache s s1 :
  inv s →
  (∀ id keys q, request_map (tsmap s) !! id = Some (keys, Some q) →
     request_outcome (answered keys) cache s s1 id keys q) →
  (∀ id, request_map (tsmap s) !! id = None → request_map (tsmap s1) !! id = None) →
  ∀ id kp, request_map (tsmap s1) !! id = Some kp → request_map (tsmap s) !! id = Some kp ∧ answered kp.1 = false.
Proof.
  intros Hinv Hout Hnone id [keys1 p1] Hl1.
  destruct (request_map (tsmap s) !! id) as [[keys p]|] eqn:Hl; [|by rewrite Hnone in Hl1].
  destruct (inv_request _ Hinv _ _ _ Hl) as (_ & q & -> & _). pose proof (Hout _ _ _ Hl) as Ho.
  unfold request_outcome in Ho. destruct (answered keys) eqn:Hb; destruct Ho as [Hl1' _]; rewrite Hl1' in Hl1; [done|].
  by injection Hl1 as <- <-.
Qed.

(** A request that is gone does not share its promise with one that is left. *)
Lemma promise_gone s s1 id keys q :
  inv s → (∀ id kp, request_map (tsmap s1) !! id = Some kp → request_map (tsmap s) !! id = Some kp) →
  request_map (tsmap s) !! id = Some (keys, Some q) → request_map (tsmap s1) !! id = None →
  ∀ id' keys', request_map (tsmap s1) !! id' ≠ Some (keys', Some q).
Proof.
  intros Hinv Hkept Hl Hl1 id' keys' Hl'. pose proof (Hkept _ _ Hl') as Hl2.
  rewrite (inv_distinct _ Hinv _ _ _ _ _ Hl2 Hl) in Hl'. congruence.
Qed.

(** No request waits for values when none are to come. *)
Lemma awaited_nil s : awaited [] s → request_map (tsmap s) = ∅.
Proof.
  intros Haw. apply map_empty. intros id. destruct (request_map (tsmap s) !! id) as [[keys p]|] eqn:Hl; [|done].
  destruct (Haw _ _ _ Hl) as (Hf & Ht & _). simpl in Ht. rewrite (left_id_L ∅ (∪)) in Ht. congruence.
Qed.

(** A request all of whose buckets are known after the first arrival has the
    answer that all the arrivals give. *)
Lemma arrival_answer k v kvs (cache : gmap string string) keys :
  k ∉ kvs.*1 → cache !! k = None → (∀ k', k' ∈ kvs.*1 → cache !! k' = None) →
  complete keys (<[k := v]> cache) = true →
  answer_of keys (<[k := v]> cache) = answer_of keys (list_to_map ((k, v) :: kvs) ∪ cache).
Proof.
  intros Hk Hnk Hcache Hc. apply answer_of_ext. intros k' Hk'.
  apply (proj1 (complete_spec keys (<[k := v]> cache)) Hc) in Hk'.
  simpl. rewrite lookup_union. destruct (decide (k' = k)) as [->|Hne].
  - by rewrite !lookup_insert_eq, Hnk.
  - rewrite lookup_insert_ne in Hk' by done. rewrite !lookup_insert_ne by done.
    destruct (decide (k' ∈ kvs.*1)) as [Hin|Hni].
    + rewrite Hcache in Hk' by done. by destruct Hk'.
    + rewrite (not_elem_of_list_to_map_1 _ _ Hni). by destruct (cache !! k').
Qed.

(** What one arrival does to the maps of the bookkeeping. *)
Definition arrived k v s s1 : Prop :=
  (get_map (tsmap s1) = get_map (tsmap s) ∧ (request_map (tsmap s1) = ∅ → request_map (tsmap s) = ∅)
    ∧ get_cache (tsmap s1)
      = match get_map (tsmap s) !! k with
        | Some _ => <[k := v]> (get_cache (tsmap s)) | None => get_cache (tsmap s) end)
  ∨ (request_map (tsmap s1) = ∅ ∧ get_map (tsmap s1) = ∅ ∧ get_cache (tsmap s1) = ∅).

Lemma arrived_tidy k v s s1 : arrived k v s s1 → tidy s → tidy s1.
Proof.
  intros [(Hg & Hr & Hc)|(Hr & Hg & Hc)] Ht; [|by intros _].
  intros Hr1. rewrite Hg, Hc. destruct (Ht (Hr Hr1)) as [-> ->]. by rewrite lookup_empty.
Qed.

Lemma arrived_uncached k v s s1 k' :
  arrived k v s s1 → k' ≠ k → get_cache (tsmap s) !! k' = None → get_cache (tsmap s1) !! k' = None.
Proof.
  intros [(_ & _ & Hc)|(_ & _ & ->)] Hne Hn; [|apply lookup_empty]. rewrite Hc.
  destruct (get_map (tsmap s) !! k); [by rewrite lookup_insert_ne|done].
Qed.

(** The values that a request which goes on waiting will see. *)
Lemma arrived_values k v kvs s s1 id keys p p1 :
  inv s → arrived k v s s1 → k ∉ kvs.*1 → get_cache (tsmap s) !! k = None →
  request_map (tsmap s) !! id = Some (keys, p) → request_map (tsmap s1) !! id = Some (keys, p1) →
  ∀ k', k' ∈ keys →
    ((list_to_map kvs : gmap string string) ∪ get_cache (tsmap s1)) !! k'
    = ((list_to_map ((k, v) :: kvs) : gmap string string) ∪ get_cache (tsmap s)) !! k'.
Proof.
  intros Hinv [(_ & _ & Hc)|(Hr & _ & _)] Hk Hnk Hl Hl1; [|by rewrite Hr, lookup_empty in Hl1].
  apply arrival_values; try done. intros Hin.
  destruct (inv_listed _ Hinv _ _ _ _ Hl Hin Hnk) as (? & ? & _). by eexists.
Qed.

(** The requests that one arrival leaves wait for the others. *)
Lemma arrived_awaited k v kvs s s1 :
  inv s → arrived k v s s1 → k ∉ kvs.*1 → get_cache (tsmap s) !! k = None → awaited ((k, v) :: kvs) s →
  (∀ id kp, request_map (tsmap s1) !! id = Some kp → request_map (tsmap s) !! id = Some kp
     ∧ bool_decide (k ∈ kp.1) && complete kp.1 (<[k := v]> (get_cache (tsmap s))) = false) →
  awaited kvs s1.
Proof.
  intros Hinv Harr Hk Hnk Haw Hkept id keys p Hl1. destruct (Hkept _ _ Hl1) as [Hl Hb].
  destruct (Haw _ _ _ Hl) as (Hf & Ht & Hex).
  pose proof (arrived_values _ _ _ _ _ _ _ _ _ Hinv Harr Hk Hnk Hl Hl1) as Hv.
  rewrite (complete_ext _ _ _ Hv), (answer_of_ext _ _ _ Hv). split; [|done].
  destruct Harr as [(_ & _ & Hc)|(Hr & _ & _)]; [|by rewrite Hr, lookup_empty in Hl1].
  rewrite Hc. simpl in Hb. destruct (bool_decide_reflect (k ∈ keys)) as [Hin|Hni].
  - destruct (inv_listed _ Hinv _ _ _ _ Hl Hin Hnk) as (ids & -> & _). done.
  - rewrite <- Hf. apply complete_ext. intros k' Hk'. assert (k' ≠ k) by (intros ->; done).
    destruct (get_map (tsmap s) !! k); [by rewrite lookup_insert_ne|done].
Qed.

Lemma arrivals_run kvs s :
  inv s → tidy s → NoDup kvs.*1 → (∀ k, k ∈ kvs.*1 → get_cache (tsmap s) !! k = None) → awaited kvs s →
  ∃ s', arrivals kvs s = (Done (), s') ∧ inv s'
    ∧ request_map (tsmap s') = ∅ ∧ get_map (tsmap s') = ∅ ∧ get_cache (tsmap s') = ∅
    ∧ (∀ k, m_map_ (tsmap s') !! k = if decide (k ∈ kvs.*1) then None else m_map_ (tsmap s) !! k)
    ∧ (∀ id keys q, request_map (tsmap s) !! id = Some (keys, Some q) →
         ∃ a, answer_of keys (list_to_map kvs ∪ get_cache (tsmap s)) = Done a ∧ promises s' !! q = Some a)
    ∧ (∀ q, (∀ id keys, request_map (tsmap s) !! id ≠ Some (keys, Some q)) → promises s' !! q = promises s !! q).
Proof.
  unfold arrivals. revert s. induction kvs as [|[k v] kvs IH]; intros s Hinv Htidy Hnd Hcache Haw;
    cbn [for_each]; run; rewrite ?fmap_cons in *; cbn [fst snd] in *.
  { pose proof (awaited_nil _ Haw) as Hr. destruct (Htidy Hr). exists s. rewrite Hr. do 5 (split; [done|]).
    split; [intros k; by rewrite decide_False by apply not_elem_of_nil|]. split; [|done].
    intros id keys q Hl. by rewrite lookup_empty in Hl. }
  apply NoDup_cons in Hnd as [Hk Hnd].
  assert (get_cache (tsmap s) !! k = None) as Hnk by (apply Hcache; by left).
  assert (∀ keys, complete keys (<[k := v]> (get_cache (tsmap s))) = true → answer_of keys (<[k := v]> (get_cache (tsmap s)))
    = answer_of keys (list_to_map ((k, v) :: kvs) ∪ get_cache (tsmap s))) as Hans.
  { intros keys. apply arrival_answer; [done|done|]. intros k' ?. apply Hcache. by right. }
  destruct (tryClearPromises_run k v s Hinv Hnk) as (s1 & -> & Hinv1 & Hmm1 & Hout & Hnone & Hfr & Harr).
  { intros id keys p Hl _ Hc. rewrite Hans by done. by apply (Haw id keys p). }
  change (arrived k v s s1) in Harr.
  pose proof (outcomes_kept _ _ _ _ Hinv Hout Hnone) as Hkept.
  destruct (IH s1) as (s' & Hrun & Hinv' & Hr' & Hg' & Hc' & Hm' & Ha' & Hf'); try done.
  { by apply (arrived_tidy k v s). }
  { intros k' Hk'. eapply arrived_uncached; [done|by intros ->|]. apply Hcache. by right. }
  { by apply (arrived_awaited k v kvs s). }
  exists s'. do 5 (split; [done|]). split; [|split].
  - intros k'. rewrite Hm', Hmm1. destruct (decide (k' = k)) as [->|Hne].
    + rewrite lookup_delete_eq, (decide_True _ _ (P := k ∈ k :: kvs.*1)) by (by left). by case_decide.
    + rewrite lookup_delete_ne by done. apply decide_ext. rewrite elem_of_cons. naive_solver.
  - intros id keys q Hl. pose proof (Hout _ _ _ Hl) as Ho. unfold request_outcome in Ho.
    destruct (bool_decide (k ∈ keys) && complete keys _) eqn:Hb; destruct Ho as [Hl1 Ho].
    + destruct Ho as (a & Ha & Hp). apply andb_prop in Hb as [_ Hcm]. rewrite Hans in Ha by done.
      exists a. split; [done|]. rewrite Hf'; [done|].
      apply (promise_gone s s1 id keys q Hinv); [|done|done]. intros ? ? Hk1. by apply (Hkept _ _ Hk1).
    + destruct (Ha' _ _ _ Hl1) as (a & Ha & Hp). exists a. split; [|done].
      rewrite <- Ha. symmetry. apply answer_of_ext. by eapply arrived_values.
  - intros q Hq. rewrite Hf', Hfr; [done|done|]. intros id keys [Hl _]%Hkept. by apply (Hq id keys).
Qed.

(** C19: when the values of a batch arrive, in whatever order, every waiting
    request is answered once with the sum of its buckets, no promise of
    anybody else changes, the keys of the batch stop being marked as running,
    and nothing is left in the bookkeeping. *)
Theorem arrivals_answer_requests kvs s :
  inv s → tidy s → NoDup kvs.*1 → (∀ k, k ∈ kvs.*1 → get_cache (tsmap s) !! k = None) → awaited kvs s →
  ∃ s', arrivals kvs s = (Done (), s')
    ∧ request_map (tsmap s') = ∅ ∧ get_map (tsmap s') = ∅ ∧ get_cache (tsmap s') = ∅
    ∧ (∀ k, m_map_ (tsmap s') !! k = if decide (k ∈ kvs.*1) then None else m_map_ (tsmap s) !! k)
    ∧ (∀ id keys q, request_map (tsmap s) !! id = Some (keys, Some q) →
         ∃ a, answer_of keys (list_to_map kvs ∪ get_cache (tsmap s)) = Done a ∧ promises s' !! q = Some a)
    ∧ (∀ q, (∀ id keys, request_map (tsmap s) !! id ≠ Some (keys, Some q)) → promises s' !! q = promises s !! q).
Proof.
  intros Hinv Ht Hnd Hc Haw. destruct (arrivals_run kvs s Hinv Ht Hnd Hc Haw) as (s' & Hrun & _ & Hrest).
  by exists s'.
Qed.

Definition arrivals_example : list (string * string) :=
  [("b@1:bool", BinarySerializer.serialize_bool [true]);
   ("fake", "x");
   ("a@1:bool", BinarySerializer.serialize_bool [true; true])].

Lemma arrivals_answer_requests_witness :
  ∃ s', arrivals arrivals_example waiting_example = (Done (), s')
    ∧ promises s' !! 0%nat = Some "2" ∧ promises s' !! 1%nat = Some "3" ∧ request_map (tsmap s') = ∅.
Proof.
  destruct (arrivals_answer_requests arrivals_example waiting_example) as (s' & Hrun & Hr & _ & _ & _ & Ha & _).
  - apply waiting_example_inv.
  - intros Hr. apply (f_equal (λ m : gmap Z _, m !! 7)) in Hr. vm_compute in Hr. discriminate Hr.
  - apply (bool_decide_unpack _). vm_compute. exact I.
  - intros k _. apply lookup_empty.
  - intros id keys p Hl%elem_of_map_to_list.
    change (map_to_list (request_map (tsmap waiting_example)))
      with (reverse [(8, (["a@1:bool"; "b@1:bool"], Some 1%nat)); (7, (["a@1:bool"], Some 0%nat))]) in Hl.
    apply elem_of_cons in Hl as [[= -> -> ->]|Hl];
      [split; [vm_compute; reflexivity|]; split; [vm_compute; reflexivity|]; eexists; vm_compute; reflexivity|].
    apply list_elem_of_singleton in Hl as [= -> -> ->].
    split; [vm_compute; reflexivity|]. split; [vm_compute; reflexivity|]. eexists. vm_compute. reflexivity.
  - exists s'. split; [exact Hrun|].
    destruct (Ha 7 ["a@1:bool"] 0%nat) as (a & Han & ->); [vm_compute; reflexivity|].
    destruct (Ha 8 ["a@1:bool"; "b@1:bool"] 1%nat) as (a2 & Han2 & ->); [vm_compute; reflexivity|].
    split; [|split; [|exact Hr]].
    + revert Han. vm_compute. by intros [= <-].
    + revert Han2. vm_compute. by intros [= <-].
Defined.

(** A request for a key that is fetched, and one for a key at hand. *)
Definition cached_example : state :=
  snd (insert_cache 9 "a@1:bool" (BinarySerializer.serialize_bool [true]) (Some 2%nat) waiting_example).

Lemma tryClearAllPromises_answers_witness :
  ∃ s', tryClearAllPromises cached_example = (Done (), s')
    ∧ promises s' !! 0%nat = Some "1" ∧ promises s' !! 2%nat = Some "1" ∧ promises s' !! 1%nat = None.
Proof.
  destruct (tryClearAllPromises_answers cached_example) as (s' & Hrun & _ & _ & _ & Hall & _ & _).
  - unfold cached_example. rewrite insert_cache_run;
      [apply insert_cache_inv|..]; try apply waiting_example_inv; try (vm_compute; reflexivity);
      apply promise_for_spec; vm_compute; reflexivity.
  - intros id keys p Hl%elem_of_map_to_list _.
    change (map_to_list (request_map (tsmap cached_example)))
      with (map_to_list (<[9 := (["a@1:bool"], Some 2%nat)]> (request_map (tsmap waiting_example)))) in Hl.
    apply elem_of_map_to_list in Hl.
    apply lookup_insert_Some in Hl as [[_ [= <- <-]]|[_ Hl]]; [eexists; vm_compute; reflexivity|].
    apply elem_of_map_to_list in Hl.
    change (map_to_list (request_map (tsmap waiting_example)))
      with (reverse [(8, (["a@1:bool"; "b@1:bool"], Some 1%nat)); (7, (["a@1:bool"], Some 0%nat))]) in Hl.
    apply elem_of_cons in Hl as [[= -> -> ->]|Hl]; [eexists; vm_compute; reflexivity|].
    apply list_elem_of_singleton in Hl as [= -> -> ->]. eexists. vm_compute. reflexivity.
  - exists s'. split; [exact Hrun|].
    destruct (Hall 7 ["a@1:bool"] 0%nat) as [_ (a & Ha & Hp)]; [vm_compute; reflexivity|].
    destruct (Hall 9 ["a@1:bool"] 2%nat) as [_ (a2 & Ha2 & Hp2)]; [vm_compute; reflexivity|].
    destruct (Hall 8 ["a@1:bool"; "b@1:bool"] 1%nat) as [_ Hp1]; [vm_compute; reflexivity|].
    rewrite Hp, Hp2. split; [|split; [|exact Hp1]].
    + revert Ha. vm_compute. by intros [= <-].
    + revert Ha2. vm_compute. by intros [= <-].
Defined.

Lemma touch_request_absent id s :
  request_map (tsmap s) !! id = None → request_at id (touch_request id s) = ([], None).
Proof. intros Hr. unfold request_at. simpl. by rewrite lookup_insert_eq, Hr. Qed.

Lemma isFulfilled_absent id s :
  request_map (tsmap s) !! id = None → isFulfilled id s = (Done true, touch_request id s).
Proof. intros Hr. unfold isFulfilled. run. by rewrite touch_request_absent. Qed.

Lemma clearPromises_empty id p s :
  request_at id s = ([], p) → clearPromises id s = (Stop Undefined, touch_request id s).
Proof.
  intros Hr. unfold clearPromises. run.
  assert (request_at id (touch_request id s) = ([], p)) as ->; [|done].
  unfold request_at. simpl. by rewrite lookup_insert_eq.
Qed.

(** The requests [pre] at the front of the list, all of them waiting: the
    loop goes on behind them, unless the last request that waits is among
    those it has answered. *)
Lemma erased_nil s : erased [] s = request_map (tsmap s).
Proof. unfold erased. apply map_filter_id. intros i kp _ [Hi _]. by apply not_elem_of_nil in Hi. Qed.

Lemma clear_waiting_app pre rest s :
  NoDup pre → ready pre s → pre = [] ∨ erased pre s ≠ ∅ →
  ∃ s', clear_waiting (pre ++ rest) s = clear_waiting rest s' ∧ request_map (tsmap s') = erased pre s.
Proof.
  intros Hnd. revert s. induction Hnd as [|id ids Hni Hnd IH]; intros s Hr Hne; simpl; run.
  { exists s. by rewrite erased_nil. }
  destruct Hne as [?|Hne]; [done|].
  destruct (ready_present _ _ Hr id) as [[keys p] Hid]; [by left|]. rewrite (isFulfilled_run _ _ _ _ Hid).
  destruct (ready_request _ _ Hr id keys p) as (Hk & q & -> & Hq); [by left|done|].
  destruct (complete keys (get_cache (tsmap s))) eqn:Hc.
  - destruct (ready_answer _ _ Hr id keys (Some q)) as [a Ha]; [by left|done..|].
    rewrite (clearPromises_run _ _ _ _ _ Hid Hq Hc Ha).
    set (s1 := with_request_map (delete id) (with_promise q a s)).
    assert (erased ids s1 = erased (id :: ids) s) as Her by (by eapply erased_cons_complete).
    assert (ready ids s1) as Hr1 by (by eapply ready_answered_one).
    rewrite <- Her in *. rewrite decide_False.
    + apply IH; [done|by right].
    + intros He. apply Hne. unfold erased. by rewrite He.
  - rewrite (erased_cons_incomplete _ _ _ _ _ Hid Hc) in *. apply IH; [by eapply ready_tail|by right].
Qed.

Lemma clear_waiting_emptied pre rest s :
  NoDup pre → ready pre s → pre ≠ [] → erased pre s = ∅ →
  ∃ s', clear_waiting (pre ++ rest) s = (Done (), s') ∧ request_map (tsmap s') = ∅.
Proof.
  intros Hnd. revert s. induction Hnd as [|id ids Hni Hnd IH]; intros s Hr Hne He; simpl; run; [done|].
  destruct (ready_present _ _ Hr id) as [[keys p] Hid]; [by left|]. rewrite (isFulfilled_run _ _ _ _ Hid).
  destruct (ready_request _ _ Hr id keys p) as (Hk & q & -> & Hq); [by left|done|].
  destruct (complete keys (get_cache (tsmap s))) eqn:Hc.
  - destruct (ready_answer _ _ Hr id keys (Some q)) as [a Ha]; [by left|done..|].
    rewrite (clearPromises_run _ _ _ _ _ Hid Hq Hc Ha).
    set (s1 := with_request_map (delete id) (with_promise q a s)).
    assert (erased ids s1 = erased (id :: ids) s) as Her by (by eapply erased_cons_complete).
    assert (ready ids s1) as Hr1 by (by eapply ready_answered_one).
    rewrite <- Her in *. case_decide as Hd; [by eexists|]. apply IH; [done| |done].
    intros ->. apply Hd. by rewrite <- erased_nil.
  - exfalso. assert (erased (id :: ids) s !! id = Some (keys, Some q)) as Hl.
    { apply map_lookup_filter_Some. split; [done|]. simpl. intros [_ ?]. congruence. }
    by rewrite He, lookup_empty in Hl.
Qed.

(** C35: [tryClearPromises] goes through the requests listed under the key,
    also those that [tryClearAllPromises] has already answered and erased (it
    leaves [get_map] alone while other requests wait).  Let [id] be the first
    erased one and [pre] the waiting ones before it.  When the requests of
    [pre] that have their buckets are all that is left to answer, the loop
    ends before it reaches [id]; in every other case, and always when [id] is
    the first of the list, it looks [id] up, which makes an empty entry, takes
    the empty entry for fulfilled, and reads its first key, which does not
    exist. *)
Theorem late_clear_undefined key value pre id post s :
  inv s → get_map (tsmap s) !! key = Some (pre ++ id :: post) →
  let cache := <[key := value]> (get_cache (tsmap s)) in
  (∀ i, i ∈ pre → is_Some (request_map (tsmap s) !! i)) → request_map (tsmap s) !! id = None →
  (∀ i keys p, i ∈ pre → request_map (tsmap s) !! i = Some (keys, p) →
     complete keys cache = true → ∃ a, answer_of keys cache = Done a) →
  let left := filter (λ e, ¬ (e.1 ∈ pre ∧ complete e.2.1 cache = true)) (request_map (tsmap s)) in
  if decide (pre ≠ [] ∧ left = ∅) then ∃ s', tryClearPromises key value s = (Done (), s')
  else (tryClearPromises key value s).1 = Stop Undefined.
Proof.
  intros Hinv Hg cache Hpre Hid Hans left. unfold tryClearPromises. run. simpl. rewrite Hg.
  set (s0 := with_m_map (delete key) s).
  change (with_get_cache _ s0) with (with_get_cache (λ _, cache) s0).
  assert (ready pre (with_get_cache (λ _, cache) s0)) as Hrd
    by (apply inv_ready; [by destruct Hinv; split|exact Hpre|exact Hans]).
  assert (NoDup pre) as Hnd by (destruct (inv_sorted _ Hinv _ _ Hg) as [Hs%oset_sorted_NoDup _];
    by apply NoDup_app in Hs as (? & _)).
  case_decide as Hd.
  - destruct Hd as [Hne He]. destruct (clear_waiting_emptied pre (id :: post) _ Hnd Hrd Hne He) as (s' & Hrun & _).
    by exists s'.
  - destruct (clear_waiting_app pre (id :: post) _ Hnd Hrd) as (s1 & -> & Hreq).
    { destruct (decide (pre = [])); [by left|right]. naive_solver. }
    assert (request_map (tsmap s1) !! id = None) as Hid1
      by (rewrite Hreq; apply map_lookup_filter_None; by left).
    simpl. run. rewrite isFulfilled_absent by done. erewrite clearPromises_empty; [done|]. by apply touch_request_absent.
Qed.

(** Requests 8 and 9 wait for [a@1], and 8 also for [b@1]; the bucket of
    [a@1] is found for request 10, and the batch ends: 9 and 10 are answered,
    and 9 stays listed behind 8. *)
Definition before_end : state :=
  snd (insert_cache 10 "a@1:bool" (BinarySerializer.serialize_bool [true]) (Some 2%nat)
    (snd (insertIfNotPresent_get "a@1:bool" (Some 0%nat) 9
      (snd (insertIfNotPresent_get "b@1:bool" (Some 1%nat) 8
        (snd (insertIfNotPresent_get "a@1:bool" (Some 1%nat) 8 {| tsmap := new_map; promises := ∅ |}))))))).
Definition stale_example : state := snd (tryClearAllPromises before_end).

Lemma before_end_inv : inv before_end.
Proof.
  unfold before_end. rewrite insert_cache_run; [apply insert_cache_inv|..];
    repeat (apply insertIfNotPresent_get_inv || apply new_map_inv);
    try (apply promise_for_spec); vm_compute; reflexivity.
Qed.

(** Decide the condition on the answers on a state whose requests are
    listed. *)
Lemma answers_spec s :
  forallb (λ e : Z * (list string * shared_promise),
      match answer_of e.2.1 (get_cache (tsmap s)) with
      | Done _ => true | Stop _ => negb (complete e.2.1 (get_cache (tsmap s)))
      end) (map_to_list (request_map (tsmap s))) = true →
  ∀ id keys p, request_map (tsmap s) !! id = Some (keys, p) →
    complete keys (get_cache (tsmap s)) = true → ∃ a, answer_of keys (get_cache (tsmap s)) = Done a.
Proof.
  intros Hall id keys p Hl%elem_of_map_to_list Hc. rewrite List.forallb_forall in Hall.
  specialize (Hall _ (proj1 (list_elem_of_In _ _) Hl)). simpl in Hall. rewrite Hc in Hall.
  destruct (answer_of _ _); [by eexists|done].
Qed.

Lemma stale_example_inv : inv stale_example.
Proof.
  destruct (tryClearAllPromises_run before_end) as (s' & Hrun & Hinv & _);
    [apply before_end_inv|apply answers_spec; vm_compute; reflexivity|].
  unfold stale_example. by rewrite Hrun.
Qed.

Lemma late_clear_undefined_witness :
  get_map (tsmap stale_example) !! "a@1:bool" = Some [8; 9]
  ∧ (tryClearPromises "a@1:bool" "" stale_example).1 = Stop Undefined.
Proof.
  split; [vm_compute; reflexivity|].
  apply (late_clear_undefined "a@1:bool" "" [8] 9 [] stale_example);
    [apply stale_example_inv|vm_compute; reflexivity|..].
  - intros i ->%list_elem_of_singleton. eexists. vm_compute. reflexivity.
  - vm_compute. reflexivity.
  - intros i keys p ->%list_elem_of_singleton Hl. vm_compute in Hl. injection Hl as <- _.
    by intros Hc; vm_compute in Hc.
Defined.

End RunningKeys.
