(* ===== verification/Storage.v ===== *)
(** The storage servers: [storage_interface] (libstorage/src/storage_interface.h)
    as a type class, and [redis] (libstorage/src/redis.cpp) over the client
    library [cpp_redis], which is not part of the repository: its replies and
    requests are the parameters of [CppRedis], and what they are documented
    to do is [CppRedisSpec]. *)
From S2P Require Import Prelude.

(** * The interface the proxy uses *)
Class storage_interface (St : Type) := {
  storage_get : string → M St string;
  storage_put : string → string → M St ();
  storage_get_batch : list string → M St (list string);
  storage_put_batch : list string → list string → M St ();
  storage_delete_batch : list string → M St ();
}.

(** [values] are stored under [keys], the last one when a key is repeated. *)
Definition store_all (kvs : list (string * string)) (m : gmap string string) : gmap string string :=
  fold_left (λ m kv, <[kv.1 := kv.2]> m) kvs m.
Definition remove_all (keys : list string) (m : gmap string string) : gmap string string :=
  fold_left (λ m k, delete k m) keys m.

Lemma store_all_other kvs m k : k ∉ kvs.*1 → store_all kvs m !! k = m !! k.
Proof.
  unfold store_all. revert m. induction kvs as [|[k' v] kvs IH]; intros m Hk; [done|].
  rewrite fmap_cons in Hk. apply not_elem_of_cons in Hk as [Hne Hk]. cbn [fold_left]. rewrite IH by done.
  simpl. by rewrite lookup_insert_ne.
Qed.

Lemma store_all_lookup kvs m k v : NoDup kvs.*1 → (k, v) ∈ kvs → store_all kvs m !! k = Some v.
Proof.
  unfold store_all. revert m. induction kvs as [|[k' v'] kvs IH]; intros m Hnd Hin; [by apply not_elem_of_nil in Hin|].
  rewrite fmap_cons in Hnd. apply NoDup_cons in Hnd as [Hni Hnd]. cbn [fold_left].
  apply elem_of_cons in Hin as [[= <- <-]|Hin]; [|by apply IH].
  fold (store_all kvs (<[k := v]> m)). rewrite store_all_other by done. apply lookup_insert_eq.
Qed.

Lemma store_all_dom kvs m : dom (store_all kvs m) = dom m ∪ list_to_set kvs.*1.
Proof.
  unfold store_all. revert m. induction kvs as [|[k v] kvs IH]; intros m; [cbn; set_solver|].
  cbn [fold_left]. rewrite IH, dom_insert_L. set_solver.
Qed.

Lemma remove_all_lookup keys m k : remove_all keys m !! k = if decide (k ∈ keys) then None else m !! k.
Proof.
  unfold remove_all. revert m. induction keys as [|k' keys IH]; intros m; cbn [fold_left].
  { by rewrite decide_False by apply not_elem_of_nil. }
  rewrite IH. destruct (decide (k ∈ keys)) as [Hin|Hni]; [by rewrite decide_True by (by right)|].
  destruct (decide (k = k')) as [->|Hne].
  - rewrite lookup_delete_eq. by rewrite decide_True by (by left).
  - rewrite lookup_delete_ne by done. by rewrite decide_False by (by intros [?|?]%elem_of_cons).
Qed.

(** What the proxy relies on: the server is a map. *)
Class StorageSpec (St : Type) `{storage_interface St} := {
  storage_ok : St → Prop;
  contents : St → gmap string string;
  storage_get_batch_ok st keys values :
    storage_ok st → mapM (λ k, contents st !! k) keys = Some values →
    ∃ st', storage_get_batch keys st = (Done values, st') ∧ storage_ok st' ∧ contents st' = contents st;
  storage_put_batch_ok st keys values :
    storage_ok st → length keys = length values →
    ∃ st', storage_put_batch keys values st = (Done (), st') ∧ storage_ok st'
      ∧ contents st' = store_all (zip keys values) (contents st);
  storage_delete_batch_ok st keys :
    storage_ok st →
    ∃ st', storage_delete_batch keys st = (Done (), st') ∧ storage_ok st'
      ∧ contents st' = remove_all keys (contents st);
}.

(** * What a server is asked *)

(** The requests of the batch operations, with all they carry. *)
Inductive request :=
  | GetBatch (keys : list string)
  | PutBatch (keys values : list string)
  | DeleteBatch (keys : list string).

Section logged.
Context {St : Type} `{storage_interface St}.

Definition logging {A} (r : list request) (m : M St A) : M (St * list request) A := λ sl,
  let '(a, st) := m sl.1 in (a, (st, sl.2 ++ r)).

Lemma logging_run {A} (r : list request) (m : M St A) st l a st' :
  m st = (a, st') → logging r m (st, l) = (a, (st', l ++ r)).
Proof. intros Hm. unfold logging. cbn [fst snd]. by rewrite Hm. Qed.

(** A storage that keeps a log of the batch operations it is asked for. *)
#[export] Instance logged : storage_interface (St * list request) := {|
  storage_get k := logging [] (storage_get k);
  storage_put k v := logging [] (storage_put k v);
  storage_get_batch keys := logging [GetBatch keys] (storage_get_batch keys);
  storage_put_batch keys values := logging [PutBatch keys values] (storage_put_batch keys values);
  storage_delete_batch keys := logging [DeleteBatch keys] (storage_delete_batch keys);
|}.

Context `{!StorageSpec St}.

#[export] Program Instance logged_spec : StorageSpec (St * list request) := {|
  storage_ok sl := storage_ok sl.1;
  contents sl := contents sl.1;
|}.
Next Obligation.
  intros [st l] keys values Ho Hv. destruct (storage_get_batch_ok st keys values Ho Hv) as (st' & Hr & Ho' & Hc).
  exists (st', l ++ [GetBatch keys]). split; [|done]. exact (logging_run _ _ st l _ _ Hr).
Qed.
Next Obligation.
  intros [st l] keys values Ho Hl. destruct (storage_put_batch_ok st keys values Ho Hl) as (st' & Hr & Ho' & Hc).
  exists (st', l ++ [PutBatch keys values]). split; [|done]. exact (logging_run _ _ st l _ _ Hr).
Qed.
Next Obligation.
  intros [st l] keys Ho. destruct (storage_delete_batch_ok st keys Ho) as (st' & Hr & Ho' & Hc).
  exists (st', l ++ [DeleteBatch keys]). split; [|done]. exact (logging_run _ _ st l _ _ Hr).
Qed.

Lemma logging_log {A} (r : list request) (m : M St A) sl : (logging r m sl).2.2 = sl.2 ++ r.
Proof. unfold logging. by destruct (m sl.1). Qed.

Lemma logged_get_batch keys (sl : St * list request) :
  (storage_get_batch keys sl).2.2 = sl.2 ++ [GetBatch keys].
Proof. apply logging_log. Qed.

Lemma logged_put_batch keys values (sl : St * list request) :
  (storage_put_batch keys values sl).2.2 = sl.2 ++ [PutBatch keys values].
Proof. apply logging_log. Qed.

End logged.

(** * The client library *)
Class CppRedis := {
  server : Type;
  reply : Type;
  is_error : reply → bool;
  error : reply → string;
  as_string : reply → result string;
  as_array : reply → result (list reply);
  as_integer : reply → result Z;
  do_get : string → server → reply;
  do_set : string → string → server → reply * server;
  do_mget : list string → server → reply;
  do_mset : list (string * string) → server → reply * server;
  do_del : list string → server → server;
  do_dbsize : server → reply;
  do_exists : list string → server → reply;
  (** [std::hash<std::string>] *)
  hash : string → nat;
  (** the order in which an [unordered_map<int, T>] is traversed *)
  traversal : list nat → list nat;
}.

(** [r] is a reply that carries the string [v]. *)
Definition string_reply `{CppRedis} (r : reply) (v : string) : Prop :=
  is_error r = false ∧ as_string r = Done v.

Class CppRedisSpec `{CppRedis} := {
  held : server → gmap string string;
  traversal_perm l : Permutation (traversal l) l;
  do_mget_ok s keys values :
    keys ≠ [] → mapM (λ k, held s !! k) keys = Some values →
    is_error (do_mget keys s) = false ∧
    ∃ rs, as_array (do_mget keys s) = Done rs ∧ Forall2 string_reply rs values;
  do_mset_ok s kvs :
    kvs ≠ [] → is_error (do_mset kvs s).1 = false ∧ held (do_mset kvs s).2 = store_all kvs (held s);
  do_del_ok s keys : held (do_del keys s) = remove_all keys (held s);
  do_get_ok s k v : held s !! k = Some v → string_reply (do_get k s) v;
  do_set_ok s k v : is_error (do_set k v s).1 = false ∧ held (do_set k v s).2 = <[k := v]> (held s);
}.

Module Redis.
Section redis.
Context `{CppRedis}.

(** [std::vector<std::shared_ptr<cpp_redis::client>> clients] *)
Definition redis : Type := list server.

Definition make_redis (first : server) : redis := [first].
Definition add_server (s : server) (clients : redis) : redis := clients ++ [s].

(** [std::hash<std::string>{}(key) % clients.size()] *)
Definition server_of (key : string) (clients : redis) : nat := (hash key mod length clients)%nat.

Definition client_at (id : nat) : M redis server :=
  clients ← get;
  match clients !! id with Some s => mret s | None => fail Undefined end.
Definition set_client (id : nat) (s : server) : M redis () := modify (<[id := s]>).

(** [if (reply.is_error()) throw std::runtime_error(reply.error());] *)
Definition check_reply (r : reply) : M redis () :=
  if is_error r then fail (Throw (runtime_error (error r))) else mret ().

Definition redis_get (key : string) : M redis string :=
  clients ← get;
  client ← client_at (server_of key clients);
  let r := do_get key client in
  check_reply r ;; lift_result (as_string r).

Definition redis_put (key value : string) : M redis () :=
  clients ← get;
  let id := server_of key clients in
  client ← client_at id;
  let '(r, client) := do_set key value client in
  set_client id client ;; check_reply r.

(** The keys of each server, and the servers in the order of the traversal. *)
Definition group {A} (key_of : A → string) (l : list A) (clients : redis) : gmap nat (list A) :=
  fold_left (λ m x, let id := server_of (key_of x) clients in <[id := default [] (m !! id) ++ [x]]> m) l ∅.
Definition group_ids {A} (g : gmap nat (list A)) : list nat := traversal ((map_to_list g).*1).

(** The loop that reads the futures: it pops one per turn and compares its
    counter with the number left. *)
Fixpoint read_futures {A} (i : nat) (futures : list reply) (each : reply → M redis (list A)) : M redis (list A) :=
  match futures with
  | [] => mret []
  | r :: futures' =>
      if (i <? length futures)%nat then
        check_reply r ;;
        xs ← each r;
        ys ← read_futures (S i) futures' each;
        mret (xs ++ ys)
      else mret []
  end.

(** The strings of the reply of an [mget]. *)
Definition read_array (r : reply) : M redis (list string) :=
  rs ← lift_result (as_array r);
  mapM (λ r, check_reply r ;; lift_result (as_string r)) rs.

Definition redis_get_batch (keys : list string) : M redis (list string) :=
  clients ← get;
  let key_vectors := group id keys clients in
  futures ← mapM (λ id, client ← client_at id; mret (do_mget (default [] (key_vectors !! id)) client))
              (group_ids key_vectors);
  read_futures 0 futures read_array.

Definition redis_put_batch (keys values : list string) : M redis () :=
  clients ← get;
  if (length values <? length keys)%nat then fail Undefined else
  let key_value_vector_pairs := group fst (zip keys values) clients in
  futures ← mapM (λ id, client ← client_at id;
                        let '(r, client) := do_mset (default [] (key_value_vector_pairs !! id)) client in
                        set_client id client ;; mret r)
              (group_ids key_value_vector_pairs);
  read_futures 0 futures (λ r, mret ([] : list ())) ;; mret ().

Definition redis_delete_batch (keys : list string) : M redis () :=
  clients ← get;
  let key_vectors := group id keys clients in
  for_each (group_ids key_vectors)
    (λ id, client ← client_at id; set_client id (do_del (default [] (key_vectors !! id)) client)).

Definition get_database_size : M redis Z :=
  clients ← get;
  match clients with
  | [] => fail (Throw (runtime_error "No Redis clients are connected."))
  | client :: _ => let r := do_dbsize client in check_reply r ;; lift_result (as_integer r)
  end.

Definition key_exists (key : string) : M redis bool :=
  clients ← get;
  client ← client_at (server_of key clients);
  let r := do_exists [key] client in
  check_reply r ;; (n ← lift_result (as_integer r); mret (0 <? n)%Z).

#[export] Instance redis_storage : storage_interface redis := {|
  storage_get := redis_get;
  storage_put := redis_put;
  storage_get_batch := redis_get_batch;
  storage_put_batch := redis_put_batch;
  storage_delete_batch := redis_delete_batch;
|}.

(** * Lemmas *)
Lemma group_lookup {A} (key_of : A → string) (l : list A) clients j :
  group key_of l clients !! j =
    match filter (λ x : A, server_of (key_of x) clients = j) l with [] => None | xs => Some xs end.
Proof.
  unfold group. induction l as [|x l IH] using rev_ind; [simpl; by rewrite lookup_empty|].
  rewrite fold_left_app. simpl. rewrite filter_app. destruct (decide (server_of (key_of x) clients = j)) as [<-|Hne].
  - rewrite lookup_insert_eq, IH, filter_cons_True, filter_nil by done.
    by destruct (filter _ l) as [|y ys].
  - rewrite lookup_insert_ne, IH, filter_cons_False, filter_nil, app_nil_r by done. done.
Qed.

Lemma read_futures_run {A} i futures (each : reply → M redis (list A)) xss (clients : redis) :
  Forall2 (λ r xs, is_error r = false ∧ each r clients = (Done xs, clients)) futures xss →
  read_futures i futures each clients
  = (Done (concat (take ((length futures - i + 1) / 2) xss)), clients).
Proof.
  intros Hall. revert i. induction Hall as [|r xs futures xss [Hr He] _ IH]; intros i; simpl read_futures.
  { by rewrite take_nil. }
  destruct (Nat.ltb_spec i (S (length futures))) as [Hlt|Hge]; simpl length.
  - assert ((S (length futures) - i + 1) / 2 = S ((length futures - S i + 1) / 2))%nat as ->.
    { destruct (decide (i = length futures)) as [->|Hne].
      - replace (S (length futures) - length futures + 1)%nat with 2%nat by lia.
        by replace (length futures - S (length futures) + 1)%nat with 1%nat by lia.
      - replace (S (length futures) - i + 1)%nat with ((length futures - S i + 1) + 1 * 2)%nat by lia.
        rewrite Nat.div_add by done. lia. }
    unfold check_reply. rewrite Hr. run. rewrite He, IH. done.
  - replace (S (length futures) - i + 1)%nat with 1%nat by lia. done.
Qed.

(** The futures that are read: the first half, rounded up. *)
Definition read_part (n : nat) : nat := ((n + 1) / 2)%nat.

Context `{!CppRedisSpec}.

Lemma mapM_M {S A B} (f : A → M S B) l ys (s : S) :
  Forall2 (λ x y, f x s = (Done y, s)) l ys → mapM f l s = (Done ys, s).
Proof.
  induction 1 as [|x y l ys Hx _ IH]; [done|]. simpl. unfold mbind, M_bind in *. rewrite Hx.
  by rewrite IH.
Qed.

Lemma read_array_run r rs values (clients : redis) :
  as_array r = Done rs → Forall2 string_reply rs values →
  read_array r clients = (Done values, clients).
Proof.
  intros Hr Hall. unfold read_array. run. rewrite Hr. apply mapM_M.
  eapply Forall2_impl; [done|]. intros x v [Hx Hv]. unfold check_reply. rewrite Hx. run. by rewrite Hv.
Qed.

(** The values of the keys of one server. *)
Definition held_values (clients : redis) (keys : list string) : option (list string) :=
  mapM (λ k, s ← clients !! server_of k clients; held s !! k) keys.

Lemma held_values_server clients j s keys values :
  clients !! j = Some s → (∀ k, k ∈ keys → server_of k clients = j) →
  held_values clients keys = Some values → mapM (λ k, held s !! k) keys = Some values.
Proof.
  intros Hs Hk Hv. unfold held_values in Hv. rewrite <- Hv. clear Hv.
  induction keys as [|k keys IH]; simpl; [done|]. rewrite (Hk k) by (by left). rewrite Hs. simpl.
  by rewrite IH by (intros k' Hk'; apply Hk; by right).
Qed.

Lemma in_group_ids {A} (key_of : A → string) (l : list A) clients j :
  j ∈ group_ids (group key_of l clients) → ∃ x xs, group key_of l clients !! j = Some (x :: xs)
    ∧ filter (λ x : A, server_of (key_of x) clients = j) l = x :: xs.
Proof.
  unfold group_ids. rewrite traversal_perm. intros ([? xs] & -> & Hl%elem_of_map_to_list)%list_elem_of_fmap.
  simpl. rewrite group_lookup in *. destruct (filter _ _) as [|y ys]; [done|]. injection Hl as <-. eauto.
Qed.

Lemma mapM_M_exists {S A B C} (f : A → M S B) (R : B → C → Prop) l zs (s : S) :
  Forall2 (λ x z, ∃ y, f x s = (Done y, s) ∧ R y z) l zs →
  ∃ ys, mapM f l s = (Done ys, s) ∧ Forall2 R ys zs.
Proof.
  induction 1 as [|x z l zs (y & Hx & Hr) _ (ys & IH & Hys)]; [by exists []|].
  exists (y :: ys). split; [|by constructor]. simpl. unfold mbind, M_bind in *. rewrite Hx. by rewrite IH.
Qed.

(** The values of the part of [keys] that server [j] holds. *)
Definition values_of (clients : redis) (keys : list string) (j : nat) : list string :=
  default [] (held_values clients (filter (λ k : string, server_of k clients = j) keys)).

Lemma held_values_part clients keys values j :
  held_values clients keys = Some values →
  held_values clients (filter (λ k : string, server_of k clients = j) keys) = Some (values_of clients keys j).
Proof.
  intros Hv. unfold values_of.
  destruct (held_values clients (filter _ keys)) as [vs|] eqn:Hf; [done|]. exfalso.
  revert Hf. apply not_eq_None_Some. unfold held_values. apply mapM_is_Some.
  assert (is_Some (held_values clients keys)) as Hall%mapM_is_Some by eauto.
  rewrite Forall_forall in Hall |- *. intros k [_ Hk]%list_elem_of_filter. by apply Hall.
Qed.

Lemma group_reply clients keys values j :
  held_values clients keys = Some values → j ∈ group_ids (group id keys clients) →
  ∃ r, (client ← client_at j; mret (do_mget (default [] (group id keys clients !! j)) client)) clients
       = (Done r, clients)
    ∧ is_error r = false ∧ read_array r clients = (Done (values_of clients keys j), clients).
Proof.
  intros Hv (k & ks & Hg & Hf)%in_group_ids. rewrite Hg. simpl.
  assert (k ∈ filter (λ k : string, server_of k clients = j) keys) as [Hkj Hk]%list_elem_of_filter
    by (unfold id in Hf; rewrite Hf; by left).
  assert (is_Some (held_values clients keys)) as Hall%mapM_is_Some by eauto.
  rewrite Forall_forall in Hall. destruct (Hall k Hk) as [v Hkv]. rewrite Hkj in Hkv.
  destruct (clients !! j) as [s|] eqn:Hs; [simpl in Hkv|done].
  pose proof (held_values_part _ _ _ j Hv) as Hpart. unfold id in Hf. rewrite Hf in Hpart.
  apply (held_values_server _ _ _ _ _ Hs) in Hpart.
  - destruct (do_mget_ok s (k :: ks) _ (cons_nonempty _ _) Hpart) as (He & rs & Hrs & Hall2).
    exists (do_mget (k :: ks) s). unfold client_at. run. rewrite Hs. split; [done|]. split; [done|].
    by eapply read_array_run.
  - intros k' Hk'. rewrite <- Hf in Hk'. by apply list_elem_of_filter in Hk' as [? _].
Qed.

(** What [get_batch] returns when every key is on its server. *)
Lemma redis_get_batch_run clients keys values :
  held_values clients keys = Some values →
  let ids := group_ids (group id keys clients) in
  redis_get_batch keys clients
  = (Done (concat (take (read_part (length ids)) (values_of clients keys <$> ids))), clients).
Proof.
  intros Hv ids. unfold redis_get_batch, read_part. run. fold ids.
  assert (Forall2 (λ j xs, ∃ r,
     (client ← client_at j; mret (do_mget (default [] (group id keys clients !! j)) client)) clients
       = (Done r, clients) ∧ (is_error r = false ∧ read_array r clients = (Done xs, clients)))
     ids (values_of clients keys <$> ids)) as Hall.
  { apply Forall2_fmap_r, Forall_Forall2_diag, Forall_forall. intros j Hj. by eapply group_reply. }
  apply (mapM_M_exists (λ j, client ← client_at j; mret (do_mget (default [] (group id keys clients !! j)) client))
    (λ r xs, is_error r = false ∧ read_array r clients = (Done xs, clients))) in Hall as (futures & Hrun & Hall).
  unfold mbind, M_bind, mret, M_ret in Hrun. rewrite Hrun.
  rewrite (read_futures_run _ _ _ _ _ Hall). apply Forall2_length in Hall.
  rewrite length_fmap in Hall. by rewrite Hall, Nat.sub_0_r.
Qed.

(** ** Sums of lengths *)
Lemma length_concat_sum {A} (ls : list (list A)) : length (concat ls) = sum_list (length <$> ls).
Proof. induction ls as [|l ls IH]; simpl; [done|]. by rewrite length_app, IH. Qed.

Lemma sum_list_with_app_fmap (l k : list nat) : sum_list (l ++ k) = (sum_list l + sum_list k)%nat.
Proof. induction l as [|n l IH]; simpl; [done|]. rewrite IH. lia. Qed.

(** The parts of a list have together at most its length. *)
Lemma sum_parts (f : string → nat) (l : list string) ids :
  NoDup ids → (sum_list ((λ j, length (filter (λ k : string, f k = j) l)) <$> ids) ≤ length l)%nat.
Proof.
  intros Hnd. induction l as [|k l IH]; simpl.
  - clear Hnd. by induction ids.
  - transitivity (sum_list ((λ j, length (filter (λ k : string, f k = j) l)) <$> ids)
                  + if decide (f k ∈ ids) then 1 else 0)%nat; [|case_decide; lia].
    clear IH. induction Hnd as [|j ids Hni Hnd IHi]; [simpl; lia|].
    rewrite !fmap_cons. cbn [sum_list_with]. unfold id in *. rewrite filter_cons. destruct (decide (f k = j)) as [Hj|Hj]; cbn [length].
    + rewrite (decide_True (P := f k ∈ j :: ids)) by (rewrite Hj; by left).
      rewrite (decide_False (P := f k ∈ ids)) in IHi by congruence. lia.
    + destruct (decide (f k ∈ ids)); [rewrite decide_True by (by right); lia|].
      rewrite decide_False by (by intros [?|?]%elem_of_cons). lia.
Qed.

(** ** One server *)
Lemma server_of_one key s : server_of key [s] = 0%nat.
Proof. apply Nat.mod_1_r. Qed.

Lemma group_one {A} (key_of : A → string) (l : list A) s :
  l ≠ [] → group key_of l [s] !! 0%nat = Some l ∧ group_ids (group key_of l [s]) = [0%nat].
Proof.
  intros Hne. assert (group key_of l [s] = {[0%nat := l]}) as ->.
  { apply map_eq. intros j. rewrite group_lookup. destruct (decide (j = 0%nat)) as [->|Hj].
    - rewrite lookup_singleton_eq, list_filter_all; [by destruct l|]. intros x _. apply server_of_one.
    - rewrite lookup_singleton_ne by done. destruct (filter _ l) as [|x xs] eqn:Hf; [done|].
      assert (x ∈ filter (λ x : A, server_of (key_of x) [s] = j) l) as [Hx _]%list_elem_of_filter
        by (rewrite Hf; by left). by rewrite server_of_one in Hx. }
  split; [by rewrite lookup_singleton_eq|]. unfold group_ids. rewrite map_to_list_singleton. simpl.
  apply Permutation_length_1_inv. symmetry. apply traversal_perm.
Qed.

Lemma group_ids_nil {A} (key_of : A → string) clients : group_ids (group key_of [] clients) = [].
Proof.
  unfold group_ids, group. simpl. rewrite map_to_list_empty. simpl.
  apply Permutation_nil. symmetry. apply traversal_perm.
Qed.

Lemma redis_get_batch_one s keys values :
  mapM (λ k, held s !! k) keys = Some values → redis_get_batch keys [s] = (Done values, [s]).
Proof.
  intros Hv. assert (held_values [s] keys = Some values) as Hhv.
  { rewrite <- Hv. unfold held_values. apply mapM_ext. intros k. by rewrite server_of_one. }
  rewrite (redis_get_batch_run _ _ _ Hhv). destruct keys as [|k keys].
  - rewrite group_ids_nil. by injection Hv as <-.
  - rewrite (proj2 (group_one id (k :: keys) s (cons_nonempty _ _))). simpl. unfold values_of.
    rewrite list_filter_all by (intros; apply server_of_one). rewrite Hhv. simpl. by rewrite app_nil_r.
Qed.

Lemma redis_put_batch_one s keys values :
  length keys = length values →
  ∃ s', redis_put_batch keys values [s] = (Done (), [s']) ∧ held s' = store_all (zip keys values) (held s).
Proof.
  intros Hlen. unfold redis_put_batch. run.
  destruct (Nat.ltb_spec (length values) (length keys)); [lia|].
  destruct (zip keys values) as [|kv kvs] eqn:Hz.
  - rewrite group_ids_nil. simpl. run. by exists s.
  - destruct (group_one fst (kv :: kvs) s (cons_nonempty _ _)) as [Hg Hids]. rewrite Hids. simpl.
    unfold client_at, set_client. run. simpl. rewrite Hg. simpl.
    destruct (do_mset_ok s (kv :: kvs) (cons_nonempty _ _)) as [He Hh].
    destruct (do_mset (kv :: kvs) s) as [r s'] eqn:Hr. simpl in *.
    unfold check_reply. rewrite He. run. by exists s'.
Qed.

Lemma redis_delete_batch_one s keys :
  ∃ s', redis_delete_batch keys [s] = (Done (), [s']) ∧ held s' = remove_all keys (held s).
Proof.
  unfold redis_delete_batch. run. destruct keys as [|k keys].
  - rewrite group_ids_nil. simpl. run. by exists s.
  - destruct (group_one id (k :: keys) s (cons_nonempty _ _)) as [Hg Hids]. rewrite Hids. simpl.
    unfold client_at, set_client. run. rewrite Hg. simpl. eexists. split; [done|]. apply (do_del_ok s (k :: keys)).
Qed.

Lemma redis_get_one s k v : held s !! k = Some v → redis_get k [s] = (Done v, [s]).
Proof.
  intros [He Hv]%do_get_ok. unfold redis_get, client_at, check_reply. run.
  rewrite server_of_one. simpl. rewrite He. run. by rewrite Hv.
Qed.

Lemma redis_put_one s k v :
  ∃ s', redis_put k v [s] = (Done (), [s']) ∧ held s' = <[k := v]> (held s).
Proof.
  unfold redis_put, client_at, check_reply, set_client. run. rewrite server_of_one. simpl.
  destruct (do_set_ok s k v) as [He Hh]. destruct (do_set k v s) as [r s']. simpl in *. rewrite He.
  run. by exists s'.
Qed.

(** With one server, [redis] keeps the promises of the interface. *)
#[export] Program Instance redis_spec : StorageSpec redis := {|
  storage_ok clients := ∃ s, clients = [s];
  contents clients := default ∅ (held <$> head clients);
|}.
Next Obligation. intros ? keys values (s & ->) Hv. exists [s]. split; [by apply redis_get_batch_one|eauto]. Qed.
Next Obligation.
  intros ? keys values (s & ->) Hl. destruct (redis_put_batch_one s keys values Hl) as (s' & Hrun & Hh).
  exists [s']. eauto.
Qed.
Next Obligation.
  intros ? keys (s & ->). destruct (redis_delete_batch_one s keys) as (s' & Hrun & Hh). exists [s']. eauto.
Qed.

(** C26: with one storage server [redis] is a map: [get_batch] returns the
    values of the keys in the order of the keys (present keys, repeated or
    not), [put_batch] stores every pair, the last one when a key is repeated,
    [delete_batch] removes the keys, and [get] and [put] read and write one
    key. *)
Theorem redis_one_server s :
  (∀ keys values, mapM (λ k, held s !! k) keys = Some values → redis_get_batch keys [s] = (Done values, [s]))
  ∧ (∀ keys values, length keys = length values →
       ∃ s', redis_put_batch keys values [s] = (Done (), [s'])
         ∧ held s' = store_all (zip keys values) (held s))
  ∧ (∀ keys, ∃ s', redis_delete_batch keys [s] = (Done (), [s']) ∧ held s' = remove_all keys (held s))
  ∧ (∀ k v, held s !! k = Some v → redis_get k [s] = (Done v, [s]))
  ∧ (∀ k v, ∃ s', redis_put k v [s] = (Done (), [s']) ∧ held s' = <[k := v]> (held s)).
Proof.
  split; [apply redis_get_batch_one|]. split; [apply redis_put_batch_one|].
  split; [apply redis_delete_batch_one|]. split; [apply redis_get_one|apply redis_put_one].
Qed.

(** [get_batch] over several servers, every key being on its server: the
    loop over the futures reads the replies of only half of the servers asked
    (rounded up), in the order of the traversal.  So as soon as the keys are
    on two servers, fewer values come back than keys were asked for. *)
Theorem redis_get_batch_reads_half clients keys values :
  held_values clients keys = Some values →
  let ids := group_ids (group id keys clients) in
  redis_get_batch keys clients
    = (Done (concat (take ((length ids + 1) / 2) (values_of clients keys <$> ids))), clients)
  ∧ (2 ≤ length ids →
     length (concat (take ((length ids + 1) / 2) (values_of clients keys <$> ids))) < length keys)%nat.
Proof.
  intros Hv ids. split; [by eapply redis_get_batch_run|]. intros Hn.
  assert (∀ j, length (values_of clients keys j) = length (filter (λ k : string, server_of k clients = j) keys))
    as Hlen.
  { intros j. pose proof (held_values_part _ _ _ j Hv) as Hp. symmetry. by eapply length_mapM. }
  assert (NoDup ids) as Hnd.
  { unfold ids, group_ids. rewrite traversal_perm. apply NoDup_fst_map_to_list. }
  rewrite length_concat_sum. rewrite <- fmap_take, <- list_fmap_compose.
  rewrite (list_fmap_ext _ (λ j, length (filter (λ k : string, server_of k clients = j) keys))) by (intros; apply Hlen).
  apply Nat.lt_le_trans with (sum_list ((λ j, length (filter (λ k : string, server_of k clients = j) keys)) <$> ids)).
  - set (n := ((length ids + 1) / 2)%nat).
    assert (n < length ids)%nat as Hlt.
    { unfold n. apply Nat.Div0.div_lt_upper_bound. lia. }
    rewrite <- (take_drop n ids) at 2. rewrite fmap_app, sum_list_with_app_fmap.
    destruct (drop n ids) as [|j rest] eqn:Hd.
    { apply (f_equal length) in Hd. rewrite length_drop in Hd. simpl in Hd. lia. }
    assert (j ∈ ids) as Hj by (rewrite <- (take_drop n ids), Hd; apply elem_of_app; right; by left).
    apply in_group_ids in Hj as (k & ks & _ & Hf). simpl. unfold id in Hf. rewrite Hf. simpl. lia.
  - by apply sum_parts.
Qed.

End redis.

(** * An instance of the client library

    Servers that are maps and replies that are trees, to evaluate the
    definitions on concrete inputs. *)
Inductive plain_reply :=
  | RNull
  | RString (s : string)
  | RInt (n : Z)
  | RArray (l : list plain_reply).

Definition plain_of (o : option string) : plain_reply :=
  match o with Some v => RString v | None => RNull end.

Definition plain_redis : CppRedis := {|
  server := gmap string string;
  reply := plain_reply;
  is_error _ := false;
  error _ := "";
  as_string r := match r with RString v => Done v | _ => Stop (Throw (runtime_error "Reply is not a string")) end;
  as_array r := match r with RArray l => Done l | _ => Stop (Throw (runtime_error "Reply is not an array")) end;
  as_integer r := match r with RInt n => Done n | _ => Stop (Throw (runtime_error "Reply is not an integer")) end;
  do_get k m := plain_of (m !! k);
  do_set k v m := (RString "OK", <[k := v]> m);
  do_mget ks m := RArray ((λ k, plain_of (m !! k)) <$> ks);
  do_mset kvs m := (RString "OK", store_all kvs m);
  do_del ks m := remove_all ks m;
  do_dbsize m := RInt (Z.of_nat (size m));
  do_exists ks m := RInt (Z.of_nat (length (filter (λ k : string, is_Some (m !! k)) ks)));
  hash := String.length;
  traversal l := l;
|}.

Definition plain_redis_spec : @CppRedisSpec plain_redis.
Proof.
  refine (@Build_CppRedisSpec plain_redis (λ m, m) _ _ _ _ _ _); simpl; [done| |done..| |done].
  - intros s keys values _ Hv. split; [done|]. eexists. split; [done|].
    apply mapM_Some in Hv. apply Forall2_fmap_l. eapply Forall2_impl; [done|].
    intros k v Hk. simpl in *. by rewrite Hk.
  - intros s k v Hk. by rewrite Hk.
Defined.

Lemma redis_one_server_witness :
  @redis_get_batch plain_redis ["a"; "b"; "a"] [<["a" := "1"]> (<["b" := "2"]> ∅)]
  = (Done ["1"; "2"; "1"], [<["a" := "1"]> (<["b" := "2"]> ∅)]).
Proof.
  apply (@redis_one_server plain_redis plain_redis_spec (<["a" := "1"]> (<["b" := "2"]> ∅))).
  vm_compute. reflexivity.
Defined.

Lemma redis_get_batch_reads_half_witness :
  let clients : @redis plain_redis := [<["bb" := "2"]> ∅; <["a" := "1"]> ∅] in
  @redis_get_batch plain_redis ["a"; "bb"] clients = (Done ["1"], clients).
Proof.
  intros clients.
  rewrite (proj1 (@redis_get_batch_reads_half plain_redis plain_redis_spec clients ["a"; "bb"] ["1"; "2"] eq_refl)).
  vm_compute. reflexivity.
Defined.

End Redis.
