(* ===== verification/Encryption.v ===== *)
(** [encryption_engine] (proxy/src/encryption_engine.cpp) and the random
    strings of proxy/src/util.cpp.

    OpenSSL is not part of the repository: its calls are the parameters of
    [OpenSSL], run on the library's own state, and what the round trip needs
    of them is [OpenSSLSpec].  The values of [rand()] and of the distribution
    of [rand_uint32] are streams, the parameters of [Randomness]. *)
From S2P Require Import Prelude.
From S2P Require Import CxxString.

Local Open Scope Z_scope.

(** * What is outside the repository *)
Class Randomness := {
  rand_values : nat → Z;
  rand_nonneg n : 0 ≤ rand_values n;
  (** the values of [uniform_int_distribution(min, max)] on the thread's
      [std::mt19937] *)
  uniform_values : Z → Z → nat → Z;
  uniform_range lo hi n : lo ≤ hi → lo ≤ uniform_values lo hi n ≤ hi;
}.

Class OpenSSL := {
  ossl : Type;
  evp_md : Type;
  evp_md_ctx : Type;
  evp_pkey : Type;
  evp_cipher_ctx : Type;
  EVP_get_digestbyname : string → M ossl (option evp_md);
  EVP_MD_size : evp_md → Z;
  EVP_MD_CTX_create : M ossl (option evp_md_ctx);
  EVP_DigestInit_ex : evp_md_ctx → evp_md → M ossl (Z * evp_md_ctx);
  EVP_DigestSignInit : evp_md_ctx → evp_md → evp_pkey → M ossl (Z * evp_md_ctx);
  EVP_DigestSignUpdate : evp_md_ctx → string → M ossl (Z * evp_md_ctx);
  (** [EVP_DigestSignFinal] with a null buffer, which sets [*siglen] to the
      size needed, and with a buffer of [*siglen] bytes: the new [*siglen] and
      the bytes it has written *)
  EVP_DigestSignFinal_size : evp_md_ctx → M ossl (Z * Z);
  EVP_DigestSignFinal : evp_md_ctx → Z → M ossl (Z * (Z * string));
  OPENSSL_malloc : Z → M ossl bool;
  RAND_bytes : Z → M ossl (Z * string);
  EVP_PKEY_new_mac_key : string → M ossl (option evp_pkey);
  CRYPTO_memcmp : string → string → Z → Z;
  EVP_CIPHER_CTX_new : M ossl (option evp_cipher_ctx);
  (** the [Init] calls take the key and the IV, the others return the bytes
      written *)
  EVP_EncryptInit_ex : evp_cipher_ctx → string → string → M ossl (Z * evp_cipher_ctx);
  EVP_EncryptUpdate : evp_cipher_ctx → string → M ossl (Z * (evp_cipher_ctx * string));
  EVP_EncryptFinal_ex : evp_cipher_ctx → M ossl (Z * string);
  EVP_DecryptInit_ex : evp_cipher_ctx → string → string → M ossl (Z * evp_cipher_ctx);
  EVP_DecryptUpdate : evp_cipher_ctx → string → M ossl (Z * (evp_cipher_ctx * string));
  EVP_DecryptFinal_ex : evp_cipher_ctx → M ossl (Z * string);
  HMAC_SHA256 : string → string → string;
}.

Definition EVP_MAX_MD_SIZE : Z := 64.

(** AES-256-CBC with padding: encryption succeeds and adds 1 to 16 bytes, and
    decryption with the same key and IV gives the text back. *)
Class OpenSSLSpec `{OpenSSL} := {
  aes_256_cbc : string → string → string → string;
  aes_length key iv text :
    Z.of_nat (String.length (aes_256_cbc key iv text)) = 16 * (Z.of_nat (String.length text) / 16 + 1);
  encrypt_calls key iv text st :
    ∃ c0 st0 c1 st1 c2 out st2 fin st3,
      EVP_CIPHER_CTX_new st = (Done (Some c0), st0)
      ∧ EVP_EncryptInit_ex c0 key iv st0 = (Done (1, c1), st1)
      ∧ EVP_EncryptUpdate c1 text st1 = (Done (1, (c2, out)), st2)
      ∧ EVP_EncryptFinal_ex c2 st2 = (Done (1, fin), st3)
      ∧ out +:+ fin = aes_256_cbc key iv text;
  decrypt_calls key iv text st :
    ∃ c0 st0 c1 st1 c2 out st2 fin st3,
      EVP_CIPHER_CTX_new st = (Done (Some c0), st0)
      ∧ EVP_DecryptInit_ex c0 key iv st0 = (Done (1, c1), st1)
      ∧ EVP_DecryptUpdate c1 (aes_256_cbc key iv text) st1 = (Done (1, (c2, out)), st2)
      ∧ EVP_DecryptFinal_ex c2 st2 = (Done (1, fin), st3)
      ∧ out +:+ fin = text;
}.

Definition nul : ascii := "000"%char.
(** [std::string(text, std::find(text, text + text_len, '\0'))] *)
Definition until_nul (s : string) : string :=
  match find_char nul s with Some i => str_take i s | None => s end.

Module Encryption.

(** [extractKey] (also a free function of waffle_proxy.cpp) *)
Definition extractKey (encryptedKey : string) : string :=
  match rfind_char "#" encryptedKey with
  | Some i => str_take i encryptedKey
  | None => ""
  end.

Definition alphanum : string := "0123456789ABCDEFGHIJKLMNOPQRSTUVWXYZabcdefghijklmnopqrstuvwxyz".
(** [alphanum[i]] *)
Definition char_at (s : string) (i : Z) : ascii := default zero (String.get (Z.to_nat i) s).

Section engine.
Context `{Randomness, OpenSSL}.
(** are assertions compiled in ([NDEBUG] not defined)? *)
Variable assertions : bool.

(** [encryption_key_] and [iv_] are the addresses of the engines whose
    strings they point into. *)
Record encryption_engine := {
  encryption_string_ : string;
  iv_string_ : string;
  encryption_key_ : nat;
  iv_ : nat;
  skey_ : option evp_pkey;
  vkey_ : option evp_pkey;
}.

(** What the engines share: the random streams (how many values have been
    drawn), the state of OpenSSL, and the live engines. *)
Record world := {
  rand_calls : nat;
  uniform_calls : nat;
  library : ossl;
  engines : gmap nat encryption_engine;
}.

Definition lib {A} (m : M ossl A) : M world A :=
  zoom library (λ l w, {| rand_calls := rand_calls w; uniform_calls := uniform_calls w;
                          library := l; engines := engines w |}) m.

Definition rand : M world Z := λ w,
  (Done (rand_values (rand_calls w)),
   {| rand_calls := S (rand_calls w); uniform_calls := uniform_calls w;
      library := library w; engines := engines w |}).

Definition rand_uint32 (lo hi : Z) : M world Z := λ w,
  (Done (uniform_values lo hi (uniform_calls w)),
   {| rand_calls := rand_calls w; uniform_calls := S (uniform_calls w);
      library := library w; engines := engines w |}).

(** [n] characters, each drawn by [draw] *)
Fixpoint draw_string (draw : M world ascii) (n : nat) : M world string :=
  match n with
  | O => mret ""
  | S n => a ← draw; s ← draw_string draw n; mret (String a s)
  end.

Definition rand_str (len : Z) : M world string :=
  draw_string (r ← rand_uint32 0 500; mret (char_at "0123456789" (r `mod` 10))) (Z.to_nat len).

Definition gen_random (len : Z) : M world string :=
  draw_string (r ← rand; mret (char_at alphanum (r `mod` 62))) (Z.to_nat len).

(** * The OpenSSL wrappers

    Each runs its calls in a [do { ... } while(0)]; a failed check is an
    [assert] and then a [break], which leaves the value [brk]. *)
Definition check {A} (b : bool) (brk : A) (m : M ossl A) : M ossl A :=
  if b then m else if assertions then fail AssertFail else mret brk.

(** [!!x] *)
Definition not_not (x : Z) : Z := if x =? 0 then 0 else 1.

(** The buffer behind an out parameter: none, or allocated and with the bytes
    that were written to it. *)
Inductive out_buffer := NullBuffer | Filled (bytes : string).

(** The bodies of [sign_it] and [hmac_it]: [result], [*sig] and [*slen]. *)
Definition sign_body (digest : string) (strict : bool) (msg : string) (pkey : evp_pkey)
    : M ossl (Z * (out_buffer * Z)) :=
  let nothing := (-1, (NullBuffer, 0)) in
  ctx ← EVP_MD_CTX_create;
  match ctx with
  | None => check false nothing (mret nothing)
  | Some ctx =>
      md ← EVP_get_digestbyname digest;
      match md with
      | None => check false nothing (mret nothing)
      | Some md =>
          '(rc, ctx) ← EVP_DigestInit_ex ctx md;
          check (rc =? 1) nothing (
          '(rc, ctx) ← EVP_DigestSignInit ctx md pkey;
          check (rc =? 1) nothing (
          '(rc, ctx) ← EVP_DigestSignUpdate ctx msg;
          check (rc =? 1) nothing (
          '(rc, req) ← EVP_DigestSignFinal_size ctx;
          check (rc =? 1) nothing (
          check (0 <? req) nothing (
          ok ← OPENSSL_malloc req;
          check ok nothing (
          '(rc, (slen, sig)) ← EVP_DigestSignFinal ctx req;
          check (rc =? 1) (-1, (Filled sig, slen)) (
          if req =? slen then mret (0, (Filled sig, slen))
          else if assertions then fail AssertFail
          else mret (if strict then -1 else 0, (Filled sig, slen)))))))))
      end
  end.

(** The return value, [*sig] and [*slen], which is [slen] before the call.
    The first test has no null pointer to find but the key's. *)
Definition sign_with (digest : string) (strict : bool) (msg : string) (pkey : option evp_pkey) (slen : Z)
    : M ossl (Z * (out_buffer * Z)) :=
  match pkey with
  | Some pkey =>
      if (String.length msg =? 0)%nat then
        if assertions then fail AssertFail else mret (-1, (NullBuffer, slen))
      else
        '(result, out) ← sign_body digest strict msg pkey;
        mret (not_not result, out)
  | None => if assertions then fail AssertFail else mret (-1, (NullBuffer, slen))
  end.

Definition hn : string := "SHA256".
(** The two differ in their last test: [sign_it] tests [rc] again where
    [hmac_it] tests the length. *)
Definition sign_it : string → option evp_pkey → Z → M ossl (Z * (out_buffer * Z)) := sign_with hn false.
Definition hmac_it : string → option evp_pkey → Z → M ossl (Z * (out_buffer * Z)) := sign_with "SHA256" true.

(** [result = !!CRYPTO_memcmp(...)], then [return !!result] *)
Definition verify_body (msg sig : string) (pkey : evp_pkey) : M ossl Z :=
  ctx ← EVP_MD_CTX_create;
  match ctx with
  | None => check false (-1) (mret (-1))
  | Some ctx =>
      md ← EVP_get_digestbyname hn;
      match md with
      | None => check false (-1) (mret (-1))
      | Some md =>
          '(rc, ctx) ← EVP_DigestInit_ex ctx md;
          check (rc =? 1) (-1) (
          '(rc, ctx) ← EVP_DigestSignInit ctx md pkey;
          check (rc =? 1) (-1) (
          '(rc, ctx) ← EVP_DigestSignUpdate ctx msg;
          check (rc =? 1) (-1) (
          '(rc, (size, buff)) ← EVP_DigestSignFinal ctx EVP_MAX_MD_SIZE;
          check (rc =? 1) (-1) (
          check (0 <? size) (-1) (
          let slen := Z.of_nat (String.length sig) in
          let m := if slen <? size then slen else size in
          mret (not_not (CRYPTO_memcmp sig buff m)))))))
      end
  end.

Definition verify_it (msg sig : string) (pkey : option evp_pkey) : M ossl Z :=
  match pkey with
  | Some pkey =>
      if (String.length msg =? 0)%nat || (String.length sig =? 0)%nat then
        if assertions then fail AssertFail else mret (-1)
      else result ← verify_body msg sig pkey; mret (not_not result)
  | None => if assertions then fail AssertFail else mret (-1)
  end.

(** [make_keys]: the return value and the two keys, null at first.  The two
    addresses given are those of members, never null. *)
Definition make_keys_body : M ossl (Z * (option evp_pkey * option evp_pkey)) :=
  let nothing := (-1, (None, None)) in
  md ← EVP_get_digestbyname hn;
  match md with
  | None => check false nothing (mret nothing)
  | Some md =>
      let size := EVP_MD_size md in
      check (16 <=? size) nothing (
      check (size <=? EVP_MAX_MD_SIZE) nothing (
      '(rc, hkey) ← RAND_bytes size;
      check (rc =? 1) nothing (
      skey ← EVP_PKEY_new_mac_key hkey;
      match skey with
      | None => check false nothing (mret nothing)
      | Some skey =>
          vkey ← EVP_PKEY_new_mac_key hkey;
          match vkey with
          | None => check false (-1, (Some skey, None)) (mret nothing)
          | Some vkey => mret (0, (Some skey, Some vkey))
          end
      end)))
  end.
Definition make_keys : M ossl (Z * (option evp_pkey * option evp_pkey)) :=
  '(result, keys) ← make_keys_body;
  mret (not_not result, keys).

(** [handle_errors] prints the errors and calls [abort()]. *)
Definition handle_errors {A} : M ossl A := fail Aborted.

(** The [int encrypt(...)] on buffers: the bytes written to [ciphertext]. *)
Definition encrypt_buffer (plaintext key iv : string) : M ossl string :=
  ctx ← EVP_CIPHER_CTX_new;
  match ctx with
  | None => handle_errors
  | Some ctx =>
      '(rc, ctx) ← EVP_EncryptInit_ex ctx key iv;
      if negb (rc =? 1) then handle_errors else
      '(rc, (ctx, out)) ← EVP_EncryptUpdate ctx plaintext;
      if negb (rc =? 1) then handle_errors else
      '(rc, fin) ← EVP_EncryptFinal_ex ctx;
      if negb (rc =? 1) then handle_errors else mret (out +:+ fin)
  end.

Definition decrypt_buffer (ciphertext key iv : string) : M ossl string :=
  ctx ← EVP_CIPHER_CTX_new;
  match ctx with
  | None => handle_errors
  | Some ctx =>
      '(rc, ctx) ← EVP_DecryptInit_ex ctx key iv;
      if negb (rc =? 1) then handle_errors else
      '(rc, (ctx, out)) ← EVP_DecryptUpdate ctx ciphertext;
      if negb (rc =? 1) then handle_errors else
      '(rc, fin) ← EVP_DecryptFinal_ex ctx;
      if negb (rc =? 1) then handle_errors else mret (out +:+ fin)
  end.

(** * The engine *)
Definition set_engine (this : nat) (e : encryption_engine) : M world () :=
  modify (λ w, {| rand_calls := rand_calls w; uniform_calls := uniform_calls w;
                  library := library w; engines := <[this := e]> (engines w) |}).

Definition engine_at (this : nat) : M world encryption_engine :=
  w ← get;
  match engines w !! this with Some e => mret e | None => fail Undefined end.

(** The keys of a constructor: [exit(1)] when there are none. *)
Definition keys_or_exit : M world (option evp_pkey * option evp_pkey) :=
  '(rc, (skey, vkey)) ← lib make_keys;
  if negb (rc =? 0) then fail (Exit 1)
  else match skey, vkey with
       | Some _, Some _ => mret (skey, vkey)
       | _, _ => fail (if assertions then AssertFail else Exit 1)
       end.

Definition new_engine (this : nat) : M world () :=
  es ← rand_str 32;
  iv ← rand_str 16;
  '(skey, vkey) ← keys_or_exit;
  set_engine this {| encryption_string_ := es; iv_string_ := iv; encryption_key_ := this; iv_ := this;
                     skey_ := skey; vkey_ := vkey |}.

(** The copy has the source's key string, an empty IV string, and pointers
    into the source's strings. *)
Definition copy_engine (this source : nat) : M world () :=
  e ← engine_at source;
  '(skey, vkey) ← keys_or_exit;
  set_engine this {| encryption_string_ := encryption_string_ e; iv_string_ := "";
                     encryption_key_ := source; iv_ := source; skey_ := skey; vkey_ := vkey |}.

(** The bytes behind [encryption_key_] and [iv_]. *)
Definition key_and_iv (this : nat) : M world (string * string) :=
  e ← engine_at this;
  k ← engine_at (encryption_key_ e);
  i ← engine_at (iv_ e);
  mret (encryption_string_ k, iv_string_ i).

(** The buffers [cipher_text[4096]] and [text[4096]]. *)
Definition buffer_size : Z := 4096.
Definition assert_len (text : string) : M world () :=
  if buffer_size <? Z.of_nat (String.length text) then fail Undefined
  else if (String.length text =? 0)%nat && assertions then fail AssertFail
  else mret ().

Definition encrypt (this : nat) (plain_text : string) : M world string :=
  '(key, iv) ← key_and_iv this;
  cipher_text ← lib (encrypt_buffer plain_text key iv);
  assert_len cipher_text ;; mret cipher_text.

Definition decrypt (this : nat) (cipher_text : string) : M world string :=
  '(key, iv) ← key_and_iv this;
  text ← lib (decrypt_buffer cipher_text key iv);
  assert_len text ;; mret (until_nul text).

(** [hmac] ignores the return value: it makes a string of [val_len] bytes of
    [val]; those that were not written are not there to be read. *)
Definition hmac (this : nat) (key : string) : M world string :=
  e ← engine_at this;
  '(res, (val, val_len)) ← lib (hmac_it key (skey_ e) 256);
  match val with
  | Filled bytes =>
      if val_len <=? Z.of_nat (String.length bytes) then mret (str_take (Z.to_nat val_len) bytes) else fail Undefined
  | NullBuffer => if val_len =? 0 then mret "" else fail Undefined
  end.

Definition encryptNonDeterministic (this : nat) (plain_text : string) : M world string :=
  r ← rand;
  suffix ← gen_random (r `mod` 10);
  encrypt this (plain_text +:+ "#" +:+ suffix).

Definition decryptNonDeterministic (this : nat) (cipher_text : string) : M world string :=
  text ← decrypt this cipher_text;
  mret (extractKey text).

Definition getencryption_string_ (this : nat) : M world string :=
  e ← engine_at this;
  mret (encryption_string_ e).

Definition prf_encrypt (key plaintext : string) : string := HMAC_SHA256 key plaintext.

Definition prf (this : nat) (plain_text : string) : M world string :=
  e ← engine_at this;
  mret (prf_encrypt (encryption_string_ e) plain_text).

(** * Encryption and decryption *)

Lemma draw_string_run (draw : M world ascii) (next : world → world) (ok : ascii → bool) n w :
  (∀ w, ∃ a, draw w = (Done a, next w) ∧ ok a = true) →
  ∃ s, draw_string draw n w = (Done s, Nat.iter n next w) ∧ String.length s = n
    ∧ ∀ c, ok c = false → has_char c s = false.
Proof.
  intros Hd. revert w. induction n as [|n IH]; intros w; simpl; run; [by exists ""|].
  destruct (Hd w) as (a & -> & Ha). destruct (IH (next w)) as (s & -> & Hs & Hc).
  exists (String a s). rewrite <- Nat.iter_succ_r. simpl. rewrite Hs. split; [done|]. split; [done|].
  intros c Hf. rewrite (Hc c Hf). 
  rewrite orb_false_r. apply bool_decide_eq_false. congruence.
Qed.

Lemma alphanum_is_alphanum i : 0 ≤ i < 62 → has_char (char_at alphanum i) alphanum = true.
Proof.
  intros Hi.
  assert (forallb (λ n, has_char (char_at alphanum (Z.of_nat n)) alphanum) (seq 0 62) = true) as Hall
    by (vm_compute; reflexivity).
  rewrite List.forallb_forall in Hall. rewrite <- (Z2Nat.id i) by lia. apply Hall.
  apply list_elem_of_In, elem_of_seq. lia.
Qed.

Definition rand_next (w : world) : world :=
  {| rand_calls := S (rand_calls w); uniform_calls := uniform_calls w;
     library := library w; engines := engines w |}.

Lemma rand_next_engines n w : engines (Nat.iter n rand_next w) = engines w.
Proof. induction n; simpl; congruence. Qed.

Lemma gen_random_run len w :
  0 ≤ len → ∃ s w', gen_random len w = (Done s, w') ∧ Z.of_nat (String.length s) = len
    ∧ (∀ c, has_char c alphanum = false → has_char c s = false) ∧ engines w' = engines w.
Proof.
  intros Hl. unfold gen_random.
  destruct (draw_string_run (r ← rand; mret (char_at alphanum (r `mod` 62))) rand_next
    (λ c, has_char c alphanum) (Z.to_nat len) w) as (s & -> & Hs & Hc).
  { intros w0. eexists. split; [done|]. apply alphanum_is_alphanum, Z.mod_pos_bound. lia. }
  eexists _, _. split; [done|]. rewrite Hs, rand_next_engines. split; [lia|done].
Qed.

(** The key and IV an engine uses. *)
Definition uses (w : world) (this : nat) (key iv : string) : Prop :=
  key_and_iv this w = (Done (key, iv), w).

Lemma uses_engines w w' this key iv : engines w' = engines w → uses w this key iv → uses w' this key iv.
Proof.
  unfold uses, key_and_iv, engine_at. intros He. run. rewrite He.
  destruct (engines w !! this) as [e|]; [|done]. rewrite He.
  destruct (engines w !! encryption_key_ e); [|done]. rewrite He.
  destruct (engines w !! iv_ e); [|done]. by intros [= <- <-].
Qed.

Context `{!OpenSSLSpec}.

Lemma encrypt_run this text key iv w :
  uses w this key iv → Z.of_nat (String.length text) < buffer_size →
  ∃ w', encrypt this text w = (Done (aes_256_cbc key iv text), w') ∧ engines w' = engines w.
Proof.
  unfold uses, encrypt. intros Hu Hl. run. rewrite Hu. unfold lib, encrypt_buffer. run.
  destruct (encrypt_calls key iv text (library w))
    as (c0 & st0 & c1 & st1 & c2 & out & st2 & fin & st3 & Hr1 & Hr2 & Hr3 & Hr4 & Hc).
  rewrite Hr1. cbn. rewrite Hr2. cbn. rewrite Hr3. cbn. rewrite Hr4. cbn. rewrite Hc. unfold assert_len. pose proof (aes_length key iv text) as Hal.
  destruct (Z.ltb_spec buffer_size (Z.of_nat (String.length (aes_256_cbc key iv text)))) as [Hb|_].
  { unfold buffer_size in *. assert (Z.of_nat (String.length text) / 16 < 256) by (apply Z.div_lt_upper_bound; lia).
    lia. }
  destruct (Nat.eqb_spec (String.length (aes_256_cbc key iv text)) 0) as [Hz|_].
  { pose proof (Z.div_pos (Z.of_nat (String.length text)) 16). lia. }
  cbn. run. by eexists.
Qed.

Lemma decrypt_run this text key iv w :
  uses w this key iv → 0 < Z.of_nat (String.length text) < buffer_size →
  ∃ w', decrypt this (aes_256_cbc key iv text) w = (Done (until_nul text), w') ∧ engines w' = engines w.
Proof.
  unfold uses, decrypt. intros Hu Hl. run. rewrite Hu. unfold lib, decrypt_buffer. run.
  destruct (decrypt_calls key iv text (library w))
    as (c0 & st0 & c1 & st1 & c2 & out & st2 & fin & st3 & Hr1 & Hr2 & Hr3 & Hr4 & Hc).
  rewrite Hr1. cbn. rewrite Hr2. cbn. rewrite Hr3. cbn. rewrite Hr4. cbn. rewrite Hc. unfold assert_len.
  destruct (Z.ltb_spec buffer_size (Z.of_nat (String.length text))); [lia|].
  destruct (Nat.eqb_spec (String.length text) 0); [lia|].
  cbn. run. by eexists.
Qed.

(** The text from its first NUL on is lost, and what is left is cut at its
    last '#'. *)
Definition recovered (p : string) : string :=
  if has_char nul p then extractKey (until_nul p) else p.

Lemma str_take_length n s : (String.length (str_take n s) ≤ String.length s)%nat.
Proof. revert n. induction s as [|a s IH]; intros [|n]; simpl; [lia..|]. specialize (IH n). lia. Qed.

Lemma extractKey_length s : (String.length (extractKey s) ≤ String.length s)%nat.
Proof. unfold extractKey. destruct (rfind_char "#" s); [apply str_take_length|simpl; lia]. Qed.

Lemma until_nul_app p t : has_char nul p = true → until_nul (p +:+ t) = until_nul p
  ∧ (String.length (until_nul p) < String.length p)%nat.
Proof.
  unfold until_nul. induction p as [|a p IH]; [done|]. intros Hh. rewrite str_app_cons. simpl.
  case_decide as Ha; [simpl; split; [done|lia]|]. simpl in Hh. rewrite bool_decide_eq_false_2 in Hh by done.
  destruct (IH Hh) as [Heq Hlt].
  assert (is_Some (find_char nul p)) as [i Hi].
  { destruct (find_char nul p) eqn:Hn; [by eexists|]. apply find_char_None in Hn. simpl in Hh. congruence. }
  rewrite Hi in Heq, Hlt |- *. simpl.
  destruct (find_char nul (p +:+ t)) as [j|] eqn:Hj; simpl.
  - rewrite Heq. split; [done|]. lia.
  - exfalso. apply find_char_None in Hj. rewrite has_char_app in Hj. simpl in Hh.
    by rewrite Hh in Hj.
Qed.

Lemma until_nul_none s : has_char nul s = false → until_nul s = s.
Proof. intros Hn. unfold until_nul. by rewrite (proj2 (find_char_None nul s) Hn). Qed.

Lemma recovered_spec p suffix :
  (∀ c, has_char c alphanum = false → has_char c suffix = false) →
  extractKey (until_nul (p +:+ "#" +:+ suffix)) = recovered p.
Proof.
  intros Hs. unfold recovered. destruct (has_char nul p) eqn:Hn.
  - by rewrite (proj1 (until_nul_app p _ Hn)).
  - rewrite until_nul_none.
    + unfold extractKey. change ("#" +:+ suffix) with (String "#" suffix).
      rewrite rfind_char_app by (by apply Hs). by rewrite str_take_app.
    + rewrite has_char_app, Hn. simpl. by apply Hs.
Qed.

(** [encryptNonDeterministic] on a value that fits the buffer. *)
Lemma encryptNonDeterministic_run this key iv p w :
  uses w this key iv → Z.of_nat (String.length p) ≤ 4085 →
  ∃ suffix w', encryptNonDeterministic this p w = (Done (aes_256_cbc key iv (p +:+ "#" +:+ suffix)), w')
    ∧ engines w' = engines w ∧ (∀ c, has_char c alphanum = false → has_char c suffix = false)
    ∧ 0 < Z.of_nat (String.length (p +:+ "#" +:+ suffix)) < buffer_size.
Proof.
  intros Hu Hl. unfold encryptNonDeterministic. run. unfold rand at 1.
  set (r := rand_values (rand_calls w)). fold (rand_next w).
  assert (0 ≤ r `mod` 10 < 10) as Hr by (apply Z.mod_pos_bound; lia).
  destruct (gen_random_run (r `mod` 10) (rand_next w)) as (suffix & w1 & -> & Hlen & Hs & He1); [lia|].
  assert (engines w1 = engines w) as He by (by rewrite He1).
  assert (0 < Z.of_nat (String.length (p +:+ "#" +:+ suffix)) < buffer_size) as Hb.
  { unfold buffer_size. rewrite !str_length_app. simpl String.length. lia. }
  destruct (encrypt_run this (p +:+ "#" +:+ suffix) key iv w1) as (w2 & -> & He2);
    [by eapply uses_engines|lia|].
  exists suffix, w2. by rewrite He2.
Qed.

(** C28: what one engine encrypts with [encryptNonDeterministic], an engine
    that uses the same key and IV decrypts with [decryptNonDeterministic] at
    any later time, as long as the value is short enough for the 4096-byte
    buffer.  It gets the value back when the value has no NUL byte, and
    otherwise a shorter string: serialized buckets with a zero byte are
    lost. *)
Theorem nondeterministic_round_trip this that key iv p w :
  uses w this key iv → uses w that key iv → Z.of_nat (String.length p) ≤ 4085 →
  ∃ c w', encryptNonDeterministic this p w = (Done c, w') ∧ engines w' = engines w
    ∧ (∀ later, engines later = engines w →
         ∃ w'', decryptNonDeterministic that c later = (Done (recovered p), w'') ∧ engines w'' = engines w)
    ∧ (has_char nul p = false → recovered p = p)
    ∧ (has_char nul p = true → String.length (recovered p) < String.length p)%nat.
Proof.
  intros Hu Hv Hl.
  destruct (encryptNonDeterministic_run this key iv p w Hu Hl) as (suffix & w2 & Henc & He2 & Hs & Hb).
  eexists _, w2. split; [done|]. split; [by rewrite He2|]. split; [|split].
  - intros later Hlater. unfold decryptNonDeterministic. run.
    destruct (decrypt_run that _ key iv later (uses_engines _ _ _ _ _ Hlater Hv) Hb) as (w3 & -> & He3).
    exists w3. rewrite recovered_spec by done. by rewrite He3.
  - intros Hn. unfold recovered. by rewrite Hn.
  - intros Hn. unfold recovered. rewrite Hn. pose proof (extractKey_length (until_nul p)).
    pose proof (proj2 (until_nul_app p "" Hn)). lia.
Qed.

(** The world after the engine at [a] is destroyed. *)
Definition destroy (a : nat) (w : world) : world :=
  {| rand_calls := rand_calls w; uniform_calls := uniform_calls w;
     library := library w; engines := delete a (engines w) |}.

Lemma copy_engine_run this source w w' e :
  engines w !! source = Some e → copy_engine this source w = (Done (), w') →
  ∃ skey vkey, engines w' = <[this := {| encryption_string_ := encryption_string_ e; iv_string_ := "";
    encryption_key_ := source; iv_ := source; skey_ := skey; vkey_ := vkey |}]> (engines w).
Proof.
  intros He. unfold copy_engine, engine_at, keys_or_exit, set_engine, lib. run. rewrite He.
  destruct (make_keys (library w)) as [[[rc [skey vkey]]|] l]; [|done].
  destruct (rc =? 0); simpl; [|done]. destruct skey as [sk|]; [|done]. destruct vkey as [vk|]; [|done].
  intros [= <-]. simpl. by exists (Some sk), (Some vk).
Qed.

(** The copy of an engine that a consumer thread works with uses the key
    and IV of the original and computes the same [prf]; but it does so through
    the original's strings (its own IV string is empty), so that once the
    original is destroyed encrypting or decrypting is undefined. *)
Theorem copy_engine_same_key this source w w' e :
  this ≠ source → engines w !! source = Some e →
  copy_engine this source w = (Done (), w') →
  uses w' this (encryption_string_ e) (iv_string_ e)
  ∧ (∀ text, (prf this text w').1 = (prf source text w).1)
  ∧ (∀ text, (encrypt this text (destroy source w')).1 = Stop Undefined
             ∧ (decrypt this text (destroy source w')).1 = Stop Undefined).
Proof.
  intros Hne He Hcopy. destruct (copy_engine_run _ _ _ _ _ He Hcopy) as (skey & vkey & He').
  unfold uses, prf, encrypt, decrypt, key_and_iv, engine_at. run. simpl. split; [|split].
  - rewrite He', lookup_insert_eq. simpl. rewrite He', lookup_insert_ne, He by done.
    by rewrite He', lookup_insert_ne, He.
  - intros text. by rewrite He', lookup_insert_eq, He.
  - intros text. rewrite He', lookup_delete_ne, lookup_insert_eq by done. simpl.
    by rewrite He', lookup_delete_eq.
Qed.

(** Every call that makes a signature succeeds: it needs [req] bytes, they
    can be allocated, and the last call writes [sig] and sets [*slen] to
    [len]. *)
Definition signed (digest msg : string) (pkey : evp_pkey) (st : ossl) (req len : Z) (sig : string) (st' : ossl) : Prop :=
  ∃ ctx0 st0 md st1 ctx1 st2 ctx2 st3 ctx3 st4 st5 st6,
    EVP_MD_CTX_create st = (Done (Some ctx0), st0)
    ∧ EVP_get_digestbyname digest st0 = (Done (Some md), st1)
    ∧ EVP_DigestInit_ex ctx0 md st1 = (Done (1, ctx1), st2)
    ∧ EVP_DigestSignInit ctx1 md pkey st2 = (Done (1, ctx2), st3)
    ∧ EVP_DigestSignUpdate ctx2 msg st3 = (Done (1, ctx3), st4)
    ∧ EVP_DigestSignFinal_size ctx3 st4 = (Done (1, req), st5) ∧ 0 < req
    ∧ OPENSSL_malloc req st5 = (Done true, st6)
    ∧ EVP_DigestSignFinal ctx3 req st6 = (Done (1, (len, sig)), st').

Lemma check_true {A} (b : bool) (brk : A) m : b = true → check b brk m = m.
Proof. by intros ->. Qed.

(** A failed check leaves the body without a result of 0. *)
Lemma check_inv {A} (b : bool) (brk : Z * A) (m : M ossl (Z * A)) st r st' :
  check b brk m st = (Done r, st') →
  b = true ∧ m st = (Done r, st') ∨ assertions = false ∧ r = brk.
Proof. unfold check. destruct b; [by left|]. destruct assertions; run; [done|]. intros [= <- <-]. by right. Qed.

(** One call of the body and its check *)
Ltac sign_call H :=
  let a := fresh "a" in let st := fresh "st" in let Hm := fresh "Hm" in let Hc := fresh "Hc" in
  apply bind_inv in H as (a & st & Hm & H);
  try (destruct a as [a ?]); cbn beta iota zeta in H;
  apply check_inv in H as [[Hc H]|[? [= -> -> ->]]]; [|by right];
  try (apply Z.eqb_eq in Hc; subst a).

Lemma sign_body_inv digest strict msg pkey st result out len st' :
  sign_body digest strict msg pkey st = (Done (result, (out, len)), st') →
  (result = 0 ∧ ∃ req sig, signed digest msg pkey st req len sig st' ∧ out = Filled sig
      ∧ (assertions || strict = true → len = req))
  ∨ assertions = false ∧ result = -1.
Proof.
  unfold sign_body, signed. intros Hb.
  apply bind_inv in Hb as ([ctx|] & st0 & Hc0 & Hb); [|by apply check_inv in Hb as [[]|[? [= -> -> ->]]]; [|right]].
  apply bind_inv in Hb as ([md|] & st1 & Hc1 & Hb); [|by apply check_inv in Hb as [[]|[? [= -> -> ->]]]; [|right]].
  do 4 sign_call Hb. apply check_inv in Hb as [[Hreq Hb]|[? [= -> -> ->]]]; [|by right]. apply Z.ltb_lt in Hreq.
  apply bind_inv in Hb as (ok & st6 & Hok & Hb). apply check_inv in Hb as [[-> Hb]|[? [= -> -> ->]]]; [|by right].
  apply bind_inv in Hb as ([rc [slen sig]] & st7 & Hfin & Hb).
  apply check_inv in Hb as [[->%Z.eqb_eq Hb]|[? [= -> -> ->]]]; [|by right].
  assert (st7 = st' ∧ slen = len ∧ out = Filled sig
    ∧ (result = 0 ∧ (assertions || strict = true → len = z) ∨ assertions = false ∧ result = -1))
    as (-> & -> & -> & [[-> Hl]|?]); [|left; split; [done|]; exists z, sig; split; [|done];
      repeat (first [eexists | split; [eassumption|]]); eassumption|by right].
  revert Hb. destruct (Z.eqb_spec z slen) as [->|Hne]; [run; intros [= <- <- <- <-]; by repeat split; left|].
  destruct assertions; run; [done|]. intros [= <- <- <- <-]. split_and!; [done..|]. destruct strict; [by right|by left].
Qed.

Lemma sign_body_signed digest strict msg pkey st req len sig st' :
  signed digest msg pkey st req len sig st' → (assertions || strict = true → len = req) →
  sign_body digest strict msg pkey st = (Done (0, (Filled sig, len)), st').
Proof.
  intros (ctx0 & st0 & md & st1 & ctx1 & st2 & ctx2 & st3 & ctx3 & st4 & st5 & st6 & Hc0 & Hc1 & Hc2 & Hc3 & Hc4 & Hc5
    & Hreq & Hc6 & Hc7) Hl.
  unfold sign_body, mbind, M_bind. rewrite Hc0, Hc1, Hc2. cbn. rewrite Hc3. cbn. rewrite Hc4. cbn. rewrite Hc5. cbn.
  rewrite (proj2 (Z.ltb_lt _ _)) by done. cbn. rewrite Hc6. cbn. rewrite Hc7. cbn.
  destruct (Z.eqb_spec req len) as [->|Hne]; [done|]. destruct assertions, strict; try done; exfalso; naive_solver.
Qed.

(** C34: [hmac_it] ([strict]) and [sign_it] (called on an absent buffer) return
    0 exactly when there is a key and a text, every call to OpenSSL returned
    1, the size it asked for is positive and could be allocated, and, where
    the code tests it ([hmac_it], and [sign_it] with assertions), the
    length reported is that size; the buffer then holds what the last call
    wrote, and [*slen] is the length it reported.  What else they return is
    1, or -1 without a key or a text, and only when assertions are not
    compiled in. *)
Theorem sign_returns digest strict msg pkey slen st :
  (∀ out len st',
    sign_with digest strict msg pkey slen st = (Done (0, (out, len)), st') ↔
    ∃ p req sig, pkey = Some p ∧ msg ≠ "" ∧ signed digest msg p st req len sig st'
      ∧ out = Filled sig ∧ (assertions || strict = true → len = req))
  ∧ ∀ code out len st',
    sign_with digest strict msg pkey slen st = (Done (code, (out, len)), st') →
    code = 0 ∨ assertions = false ∧ code = if decide (pkey = None ∨ msg = "") then -1 else 1.
Proof.
  unfold sign_with. destruct pkey as [pkey|].
  2: { split; [|rewrite decide_True by (by left)]; destruct assertions; run; try done; naive_solver. }
  destruct (Nat.eqb_spec (String.length msg) 0) as [Hm|Hm].
  { destruct msg; [|done]. split; [|rewrite decide_True by (by right)]; destruct assertions; run; try done; naive_solver. }
  assert (msg ≠ "") as Hne by (by intros ->). rewrite decide_False by naive_solver. split.
  - intros out len st'. split.
    + intros ([result [o l]] & st1 & Hb & [= Hr <- <- <-])%bind_inv.
      apply sign_body_inv in Hb as [(-> & req & sig & Hs & Ho & Hl)|[_ ->]]; [|done]. naive_solver.
    + intros (p & req & sig & [= <-] & _ & Hs & -> & Hl).
      unfold mbind, M_bind. by rewrite (sign_body_signed _ _ _ _ _ _ _ _ _ Hs Hl).
  - intros code out len st' ([result [o l]] & st1 & Hb & [= <- <- <- <-])%bind_inv.
    apply sign_body_inv in Hb as [[-> _]|[? ->]]; [by left|by right].
Qed.

End engine.

(** * An instance of what is outside the repository

    A cipher that only pads, a digest that is the text, and constant random
    values, to evaluate the definitions on concrete inputs. *)
Definition pad (text : string) : string :=
  text +:+ String "#" (rep "0" (15 - String.length text mod 16)).

Lemma pad_length text :
  Z.of_nat (String.length (pad text)) = 16 * (Z.of_nat (String.length text) / 16 + 1).
Proof.
  unfold pad. rewrite str_length_app. cbn [String.length].
  rewrite rep_length.
  pose proof (Nat.mod_upper_bound (String.length text) 16).
  assert (Z.of_nat (String.length text) = 16 * (Z.of_nat (String.length text) / 16)
    + Z.of_nat (String.length text mod 16)) as Hd.
  { rewrite Nat2Z.inj_mod. apply Z.div_mod. done. }
  revert Hd. generalize (Z.of_nat (String.length text) / 16). intros q Hd.
  set (m := (String.length text mod 16)%nat) in *. clearbody m. lia.
Qed.

Lemma unpad_pad text : extractKey (pad text) = text.
Proof.
  unfold extractKey, pad. rewrite rfind_char_app; [by rewrite str_take_app|].
  induction (15 - _)%nat; done.
Qed.

Definition plain_random : Randomness.
Proof.
  refine {| rand_values n := Z.of_nat n; uniform_values lo hi n := lo |}; intros; lia.
Defined.

Definition plain_ssl : OpenSSL := {|
  ossl := ();
  evp_md := ();
  evp_md_ctx := string;
  evp_pkey := string;
  evp_cipher_ctx := string;
  EVP_get_digestbyname _ := mret (Some ());
  EVP_MD_size _ := 32;
  EVP_MD_CTX_create := mret (Some "");
  EVP_DigestInit_ex c _ := mret (1, c);
  EVP_DigestSignInit c _ k := mret (1, k);
  EVP_DigestSignUpdate c msg := mret (1, c +:+ msg);
  EVP_DigestSignFinal_size c := mret (1, Z.of_nat (String.length c));
  EVP_DigestSignFinal c _ := mret (1, (Z.of_nat (String.length c), c));
  OPENSSL_malloc _ := mret true;
  RAND_bytes n := mret (1, rep "k" (Z.to_nat n));
  EVP_PKEY_new_mac_key k := mret (Some k);
  CRYPTO_memcmp a b n := if decide (str_take (Z.to_nat n) a = str_take (Z.to_nat n) b) then 0 else 1;
  EVP_CIPHER_CTX_new := mret (Some "");
  EVP_EncryptInit_ex _ _ _ := mret (1, "");
  EVP_EncryptUpdate _ text := mret (1, (text, ""));
  EVP_EncryptFinal_ex c := mret (1, pad c);
  EVP_DecryptInit_ex _ _ _ := mret (1, "");
  EVP_DecryptUpdate _ text := mret (1, (text, ""));
  EVP_DecryptFinal_ex c := mret (1, extractKey c);
  HMAC_SHA256 k text := k +:+ text;
|}.

Definition plain_ssl_spec : @OpenSSLSpec plain_ssl.
Proof.
  refine (@Build_OpenSSLSpec plain_ssl (λ _ _ text, pad text) (λ _ _, pad_length) _ _).
  - intros key iv text []. by exists "", (), "", (), text, "", (), (pad text), ().
  - intros key iv text []. exists "", (), "", (), (pad text), "", (), (extractKey (pad text)), ().
    split; [done|]. split; [done|]. split; [done|]. split; [done|]. apply unpad_pad.
Defined.

(** An engine at address 0 and its copy at address 1. *)
Definition example_world : @world plain_ssl :=
  ((@new_engine plain_random plain_ssl true 0 ;; @copy_engine plain_ssl true 1 0)
     (@Build_world plain_ssl 0 0 tt ∅)).2.

Lemma nondeterministic_round_trip_witness :
  ∃ c w', @encryptNonDeterministic plain_random plain_ssl true 1 "value" example_world = (Done c, w')
    ∧ ∃ w'', @decryptNonDeterministic plain_ssl true 0 c w' = (Done "value", w'').
Proof.
  destruct (@nondeterministic_round_trip plain_random plain_ssl true plain_ssl_spec 1 0
    (rep "0" 32) (rep "0" 16) "value" example_world) as (c & w' & Henc & He & Hdec & _);
    [vm_compute; reflexivity|vm_compute; reflexivity|vm_compute; discriminate|].
  exists c, w'. split; [exact Henc|]. destruct (Hdec w' He) as (w'' & Hd & _). by exists w''.
Defined.

Lemma copy_engine_same_key_witness :
  ∃ w', @copy_engine plain_ssl true 2 0 example_world = (Done (), w')
    ∧ ∀ text, (@encrypt plain_ssl true 2 text (destroy 0 w')).1 = Stop Undefined.
Proof.
  eexists. split; [vm_compute; reflexivity|]. intros text.
  eapply (@copy_engine_same_key plain_ssl true 2 0 example_world);
    [discriminate|vm_compute; reflexivity|vm_compute; reflexivity].
Defined.

Lemma sign_returns_witness :
  @hmac_it plain_ssl true "message" (Some "key") 256 tt = (Done (0, (Filled "keymessage", 10)), tt)
  ∧ @signed plain_ssl "SHA256" "message" "key" tt 10 10 "keymessage" tt.
Proof.
  destruct (@sign_returns plain_ssl true "SHA256" true "message" (Some "key") 256 tt) as [Hs _].
  assert (@hmac_it plain_ssl true "message" (Some "key") 256 tt = (Done (0, (Filled "keymessage", 10)), tt)) as Hrun
    by (vm_compute; reflexivity).
  split; [exact Hrun|]. apply Hs in Hrun as (p & req & sig & [= <-] & _ & Hsig & [= <-] & Hl).
  by rewrite <- (Hl eq_refl) in Hsig.
Defined.

End Encryption.

(** * What the proxy uses of an engine *)
Class crypter (W : Type) := {
  crypt_prf : string → M W string;
  crypt_encrypt : string → M W string;
  crypt_decrypt : string → M W string;
  crypt_rand : M W Z;
}.

(** A value the engine can give back: no NUL byte, and it fits the buffer. *)
Definition storable (p : string) : Prop := has_char nul p = false ∧ Z.of_nat (String.length p) ≤ 4085.

Class CrypterSpec (W : Type) `{crypter W} := {
  crypt_ok : W → Prop;
  (** the name under which a string is stored *)
  prf_name : string → string;
  (** [cipher_of c p]: [c] decrypts to [p] *)
  cipher_of : string → string → Prop;
  crypt_prf_ok w x : crypt_ok w → crypt_prf x w = (Done (prf_name x), w);
  crypt_encrypt_ok w p :
    crypt_ok w → storable p → ∃ c w', crypt_encrypt p w = (Done c, w') ∧ crypt_ok w' ∧ cipher_of c p;
  crypt_decrypt_ok w c p :
    crypt_ok w → cipher_of c p → ∃ w', crypt_decrypt c w = (Done p, w') ∧ crypt_ok w';
  crypt_rand_ok w : crypt_ok w → ∃ r w', crypt_rand w = (Done r, w') ∧ crypt_ok w' ∧ 0 ≤ r;
}.

Module EngineCrypter.
Import Encryption.
Section instance.
Context `{Randomness, OpenSSL} (assertions : bool) (this : nat).

(** The engine at [this], as the proxy uses it. *)
Definition engine_crypter : crypter world := {|
  crypt_prf := prf this;
  crypt_encrypt := encryptNonDeterministic assertions this;
  crypt_decrypt := decryptNonDeterministic assertions this;
  crypt_rand := rand;
|}.

Context `{!OpenSSLSpec}.

(** The engine keeps its promises while it and the engine its pointers lead
    to live. *)
Definition engine_crypter_spec (key iv pkey : string) : @CrypterSpec world engine_crypter.
Proof.
  refine (@Build_CrypterSpec world engine_crypter
    (λ w, uses w this key iv ∧ ∃ e, engines w !! this = Some e ∧ encryption_string_ e = pkey)
    (HMAC_SHA256 pkey)
    (λ c p, ∃ text, c = aes_256_cbc key iv text ∧ 0 < Z.of_nat (String.length text) < buffer_size
                    ∧ extractKey (until_nul text) = p) _ _ _ _); simpl.
  - intros w x [_ (e & He & <-)]. unfold prf, engine_at. run. by rewrite He.
  - intros w p [Hu (e & He & Hk)] [Hn Hl]. 
    destruct (encryptNonDeterministic_run assertions this key iv p w Hu Hl) as (suffix & w' & Henc & Hw & Hs & Hb).
    eexists _, w'. split; [done|]. split; [split; [by eapply uses_engines|exists e; by rewrite Hw]|].
    eexists. split; [done|]. split; [done|]. rewrite recovered_spec by done. unfold recovered. by rewrite Hn.
  - intros w c p [Hu (e & He & Hk)] (text & -> & Hb & <-).
    destruct (decrypt_run assertions this text key iv w Hu Hb) as (w' & Hd & Hw).
    exists w'. unfold decryptNonDeterministic. run. rewrite Hd. split; [done|].
    split; [by eapply uses_engines|]. exists e. by rewrite Hw.
  - intros w [Hu (e & He & Hk)]. eexists _, _. split; [done|]. split; [|apply rand_nonneg].
    split; [by eapply uses_engines; [|exact Hu]|]. by exists e.
Defined.

End instance.
End EngineCrypter.

