(* ===== verification/Proxy.v ===== *)
(** [waffle_proxy] (proxy/src/waffle_proxy.h, waffle_proxy.cpp): the state of
    the proxy and the operations of its consumer thread before a batch is
    executed: splitting a user GET into bucket keys ([get_split_keys]),
    choosing the bucket a PUT displaces ([remove_oldest_data]), and
    registering an operation ([create_security_batch], the loop of
    [consumer_thread]).  [execute_batch] is in ProxyBatch.

    The storage server and the encryption engine are the interfaces
    [storage_interface] and [crypter].  Mutexes are not modelled: each call
    on a component is one step.  The log and latency files, the timings and
    the printed messages are not modelled. *)
From S2P Require Import Prelude.
From S2P Require Import CxxString.
From S2P Require Import OrderedSet.
From S2P Require Import FrequencySmoother.
From S2P Require Import Cache.
From S2P Require Import EvictedItems.
From S2P Require Import Values.
From S2P Require Import RunningKeys.
From S2P Require Import Storage.
From S2P Require Import Encryption.

Local Open Scope Z_scope.

(** [struct operation]: a GET has an empty value. *)
Record operation := { op_key : string; op_value : string }.

(** The answer for a key that is not there, set by [init]. *)
Definition invalid_key_response_ : string := "No record found!".

(** The parameters of the proxy, set from the command line. *)
Record config := {
  R : Z;
  B : Z;
  F : Z;
  D : Z;
  cacheBatches : Z;
  redisBulkLength : Z;
  object_size_ : Z;
  recording_alpha : bool;
}.

Module Proxy.
Section proxy.
Context {St W : Type} `{storage_interface St} `{crypter W}.
Variable conf : config.

Record waffle_proxy := {
  realBst : Smoother.FrequencySmoother;
  fakeBst : Smoother.FrequencySmoother;
  cache : Cache.Cache;
  EvictedItems : EvictedItems.evictedItems;
  runningKeys : RunningKeys.state;
  keys_to_be_deleted : list string;
  timeStamp : Z;
  keyValueMap : gmap string string;
  storage_interface_ : St;
  encryption_engine_ : W;
  keysNotUsed : list (list string);
}.

(** * Access to the components *)
Definition set_realBst (x : Smoother.FrequencySmoother) (p : waffle_proxy) : waffle_proxy :=
  {| realBst := x; fakeBst := fakeBst p; cache := cache p; EvictedItems := EvictedItems p; runningKeys :=
     runningKeys p; keys_to_be_deleted := keys_to_be_deleted p; timeStamp := timeStamp p; keyValueMap :=
     keyValueMap p; storage_interface_ := storage_interface_ p; encryption_engine_ := encryption_engine_
     p; keysNotUsed := keysNotUsed p |}.
Definition set_fakeBst (x : Smoother.FrequencySmoother) (p : waffle_proxy) : waffle_proxy :=
  {| realBst := realBst p; fakeBst := x; cache := cache p; EvictedItems := EvictedItems p; runningKeys :=
     runningKeys p; keys_to_be_deleted := keys_to_be_deleted p; timeStamp := timeStamp p; keyValueMap :=
     keyValueMap p; storage_interface_ := storage_interface_ p; encryption_engine_ := encryption_engine_
     p; keysNotUsed := keysNotUsed p |}.
Definition set_cache (x : Cache.Cache) (p : waffle_proxy) : waffle_proxy :=
  {| realBst := realBst p; fakeBst := fakeBst p; cache := x; EvictedItems := EvictedItems p; runningKeys
     := runningKeys p; keys_to_be_deleted := keys_to_be_deleted p; timeStamp := timeStamp p; keyValueMap
     := keyValueMap p; storage_interface_ := storage_interface_ p; encryption_engine_ :=
     encryption_engine_ p; keysNotUsed := keysNotUsed p |}.
Definition set_EvictedItems (x : EvictedItems.evictedItems) (p : waffle_proxy) : waffle_proxy :=
  {| realBst := realBst p; fakeBst := fakeBst p; cache := cache p; EvictedItems := x; runningKeys :=
     runningKeys p; keys_to_be_deleted := keys_to_be_deleted p; timeStamp := timeStamp p; keyValueMap :=
     keyValueMap p; storage_interface_ := storage_interface_ p; encryption_engine_ := encryption_engine_
     p; keysNotUsed := keysNotUsed p |}.
Definition set_runningKeys (x : RunningKeys.state) (p : waffle_proxy) : waffle_proxy :=
  {| realBst := realBst p; fakeBst := fakeBst p; cache := cache p; EvictedItems := EvictedItems p;
     runningKeys := x; keys_to_be_deleted := keys_to_be_deleted p; timeStamp := timeStamp p; keyValueMap
     := keyValueMap p; storage_interface_ := storage_interface_ p; encryption_engine_ :=
     encryption_engine_ p; keysNotUsed := keysNotUsed p |}.
Definition set_keys_to_be_deleted (x : list string) (p : waffle_proxy) : waffle_proxy :=
  {| realBst := realBst p; fakeBst := fakeBst p; cache := cache p; EvictedItems := EvictedItems p;
     runningKeys := runningKeys p; keys_to_be_deleted := x; timeStamp := timeStamp p; keyValueMap :=
     keyValueMap p; storage_interface_ := storage_interface_ p; encryption_engine_ := encryption_engine_
     p; keysNotUsed := keysNotUsed p |}.
Definition set_timeStamp (x : Z) (p : waffle_proxy) : waffle_proxy :=
  {| realBst := realBst p; fakeBst := fakeBst p; cache := cache p; EvictedItems := EvictedItems p;
     runningKeys := runningKeys p; keys_to_be_deleted := keys_to_be_deleted p; timeStamp := x;
     keyValueMap := keyValueMap p; storage_interface_ := storage_interface_ p; encryption_engine_ :=
     encryption_engine_ p; keysNotUsed := keysNotUsed p |}.
Definition set_keyValueMap (x : gmap string string) (p : waffle_proxy) : waffle_proxy :=
  {| realBst := realBst p; fakeBst := fakeBst p; cache := cache p; EvictedItems := EvictedItems p;
     runningKeys := runningKeys p; keys_to_be_deleted := keys_to_be_deleted p; timeStamp := timeStamp p;
     keyValueMap := x; storage_interface_ := storage_interface_ p; encryption_engine_ :=
     encryption_engine_ p; keysNotUsed := keysNotUsed p |}.
Definition set_storage_interface_ (x : St) (p : waffle_proxy) : waffle_proxy :=
  {| realBst := realBst p; fakeBst := fakeBst p; cache := cache p; EvictedItems := EvictedItems p;
     runningKeys := runningKeys p; keys_to_be_deleted := keys_to_be_deleted p; timeStamp := timeStamp p;
     keyValueMap := keyValueMap p; storage_interface_ := x; encryption_engine_ := encryption_engine_ p;
     keysNotUsed := keysNotUsed p |}.
Definition set_encryption_engine_ (x : W) (p : waffle_proxy) : waffle_proxy :=
  {| realBst := realBst p; fakeBst := fakeBst p; cache := cache p; EvictedItems := EvictedItems p;
     runningKeys := runningKeys p; keys_to_be_deleted := keys_to_be_deleted p; timeStamp := timeStamp p;
     keyValueMap := keyValueMap p; storage_interface_ := storage_interface_ p; encryption_engine_ := x;
     keysNotUsed := keysNotUsed p |}.
Definition set_keysNotUsed (x : list (list string)) (p : waffle_proxy) : waffle_proxy :=
  {| realBst := realBst p; fakeBst := fakeBst p; cache := cache p; EvictedItems := EvictedItems p;
     runningKeys := runningKeys p; keys_to_be_deleted := keys_to_be_deleted p; timeStamp := timeStamp p;
     keyValueMap := keyValueMap p; storage_interface_ := storage_interface_ p; encryption_engine_ :=
     encryption_engine_ p; keysNotUsed := x |}.

(** Code that runs on one component. *)
Definition on_realBst {A} : M Smoother.FrequencySmoother A → M waffle_proxy A := zoom realBst set_realBst.
Definition on_fakeBst {A} : M Smoother.FrequencySmoother A → M waffle_proxy A := zoom fakeBst set_fakeBst.
Definition on_cache {A} : M Cache.Cache A → M waffle_proxy A := zoom cache set_cache.
Definition on_EvictedItems {A} : M EvictedItems.evictedItems A → M waffle_proxy A := zoom EvictedItems set_EvictedItems.
Definition on_runningKeys {A} : M RunningKeys.state A → M waffle_proxy A := zoom runningKeys set_runningKeys.
Definition on_storage {A} : M St A → M waffle_proxy A := zoom storage_interface_ set_storage_interface_.
Definition on_engine {A} : M W A → M waffle_proxy A := zoom encryption_engine_ set_encryption_engine_.

Definition with_keys_to_be_deleted (g : list string → list string) (p : waffle_proxy) : waffle_proxy :=
  set_keys_to_be_deleted (g (keys_to_be_deleted p)) p.
Definition with_timeStamp (t : Z) : waffle_proxy → waffle_proxy := set_timeStamp t.
Definition with_keyValueMap (g : gmap string string → gmap string string) (p : waffle_proxy) : waffle_proxy :=
  set_keyValueMap (g (keyValueMap p)) p.
Definition with_keysNotUsed (g : list (list string) → list (list string)) (p : waffle_proxy) : waffle_proxy :=
  set_keysNotUsed (g (keysNotUsed p)) p.

(** A pure function that updates a component. *)
Definition update {S} (f : S → S) : M S () := modify f.

(** * Splitting a GET *)

(** The buckets of a sorted vector that [get_split_keys] selects. *)
Definition select_timestamps (start_timestamp end_timestamp : Z) (timestamps_vector : list Z) : list Z :=
  let lb := lower_bound Z.ltb start_timestamp timestamps_vector in
  let lb := if decide (lb = 0%nat) then 0%nat else (lb - 1)%nat in
  let ub := upper_bound Z.ltb end_timestamp timestamps_vector in
  if (lb <? ub)%nat then take (ub - lb) (drop lb timestamps_vector) else [].

(** The set is in order already, so that sorting the vector changes
    nothing. *)
Definition get_split_keys (get_key : string) : M waffle_proxy (list string) :=
  let parts := getline_all "@" get_key in
  match parts with
  | key_name :: start :: finish :: _ =>
      start_timestamp ← lift_result (stol start);
      end_timestamp ← lift_result (stol finish);
      available_timestamps ← on_realBst (Smoother.get_timestamp_for_key key_name);
      mret ((λ t, key_name +:+ "@" +:+ to_string t)
              <$> select_timestamps start_timestamp end_timestamp available_timestamps)
  | [_; start] => stol_then_undefined ← lift_result (stol start); fail Undefined
  | _ => fail Undefined
  end.

(** * Displacing the oldest bucket *)

(** [remove_oldest_data]: returns the storage batch with what it appends. *)
Definition remove_oldest_data (storage_batch : list operation) (currentKey : string)
    : M waffle_proxy (list operation) :=
  p ← get;
  oldest_key ← on_realBst (Smoother.getOldestKey (keys_to_be_deleted p) currentKey);
  present ← on_cache (c ← get; lift_result (Cache.getValueWithoutPositionChangeNew oldest_key c));
  valEvicted ← on_EvictedItems (gets (EvictedItems.getValue oldest_key));
  let state := if ((present : string * bool).2) then 1 else 0 in
  let state := if decide (valEvicted = "") then state else 2 in
  if decide (state = 0) then
    running ← on_runningKeys (λ s, let '(b, s) := RunningKeys.insertIfNotPresent oldest_key s in (Done b, s));
    let storage_batch := if (running : bool) then storage_batch
                         else storage_batch ++ [{| op_key := oldest_key; op_value := "" |}] in
    modify (with_keys_to_be_deleted (λ l, l ++ [oldest_key])) ;;
    mret storage_batch
  else if decide (state = 1) then
    on_cache (Cache.removeKey oldest_key) ;;
    on_realBst (Smoother.removeKey oldest_key) ;;
    mret storage_batch
  else
    on_EvictedItems (update (EvictedItems.erase oldest_key)) ;;
    on_realBst (Smoother.removeKey oldest_key) ;;
    mret storage_batch.

(** * Registering an operation *)

(** [try { ... } catch (const std::exception& e) { }] *)
Definition catch_exceptions (m : M waffle_proxy ()) : M waffle_proxy () := λ p,
  match m p with
  | (Stop (Throw _), p') => (Done (), p')
  | r => r
  end.

(** [create_security_batch]: the storage batch and the count of cache misses
    are threaded; [keyToPromiseMap] is never used. *)
Definition create_security_batch (op : operation) (promise : RunningKeys.shared_promise)
    (storage_batch : list operation) (cacheMisses request_id : Z) : M waffle_proxy (list operation * Z) :=
  let currentKey := op_key op in
  if decide (op_value op = "") then
    stored ← on_realBst (gets (Smoother.checkIfUniqueItemWithTimeStampExists currentKey));
    if negb stored then
      on_runningKeys (RunningKeys.set_value promise invalid_key_response_) ;;
      mret (storage_batch, cacheMisses)
    else
      present ← on_cache (c ← get; lift_result (Cache.getValueWithoutPositionChangeNew currentKey c));
      valEvicted ← on_EvictedItems (gets (EvictedItems.getValue currentKey));
      if ((present : string * bool).2) then
        catch_exceptions (on_runningKeys (RunningKeys.insert_cache request_id currentKey present.1 promise)) ;;
        mret (storage_batch, cacheMisses)
      else if decide (valEvicted = "") then
        running ← on_runningKeys
          (λ s, let '(b, s) := RunningKeys.insertIfNotPresent_get currentKey promise request_id s in (Done b, s));
        mret (if (running : bool) then storage_batch else storage_batch ++ [op], cacheMisses + 1)
      else
        catch_exceptions (on_runningKeys (RunningKeys.insert_cache request_id currentKey valEvicted promise)) ;;
        mret (storage_batch, cacheMisses)
  else
    storage_batch ← remove_oldest_data storage_batch currentKey;
    on_cache (Cache.insertIntoCache currentKey (op_value op)) ;;
    on_realBst (Smoother.insert currentKey) ;;
    p ← get;
    on_realBst (update (Smoother.setFrequency currentKey (timeStamp p))) ;;
    v ← on_cache (c ← get; lift_result (Cache.getValueWithoutPositionChange currentKey c));
    on_runningKeys (RunningKeys.set_value promise v) ;;
    mret (storage_batch, cacheMisses).

(** The sub-operations of a user GET. *)
Fixpoint register_gets (db_keys : list string) (promise : RunningKeys.shared_promise)
    (storage_batch : list operation) (cacheMisses request_id : Z) : M waffle_proxy (list operation * Z) :=
  match db_keys with
  | [] => mret (storage_batch, cacheMisses)
  | k :: db_keys =>
      r ← create_security_batch {| op_key := k; op_value := "" |} promise storage_batch cacheMisses request_id;
      register_gets db_keys promise r.1 r.2 request_id
  end.

(** What the loop of [consumer_thread] has gathered. *)
Record gathered := { storage_batch : list operation; cacheMisses : Z; request_id : Z }.
Definition nothing_gathered (id : Z) : gathered := {| storage_batch := []; cacheMisses := 0; request_id := id |}.

(** [cacheMisses] and [request_id] are [int]s.  They only grow, so a turn has
    overflowed one of them exactly when it is out of range at the end. *)
Definition counters_fit (g : gathered) : bool := in_int (cacheMisses g) && in_int (request_id g).

(** A turn of the loop of [consumer_thread]: by how much it counts [i] up, and
    what is gathered then.  A GET counts its buckets. *)
Definition serve (op : operation) (promise : RunningKeys.shared_promise) (g : gathered)
    : M waffle_proxy (Z * gathered) :=
  if decide (op_value op = "") then
    db_keys ← get_split_keys (op_key op);
    r ← register_gets db_keys promise (storage_batch g) (cacheMisses g) (request_id g);
    let g' := {| storage_batch := r.1; cacheMisses := r.2; request_id := request_id g + 1 |} in
    if counters_fit g' then mret (Z.of_nat (length db_keys), g') else fail Undefined
  else
    r ← create_security_batch op promise (storage_batch g) (cacheMisses g) (-1);
    mret (1, {| storage_batch := r.1; cacheMisses := r.2; request_id := request_id g |}).

(** The loop [while (i < R && !finished_)] over the operations that the queue
    of the thread gives.  It spins on an empty queue until [finished_] is
    set.  [i] is an [int] that only grows, as the counters of [serve]. *)
Fixpoint gather (finished : bool) (i : Z) (ops : list (operation * RunningKeys.shared_promise)) (g : gathered)
    : M waffle_proxy (gathered * list (operation * RunningKeys.shared_promise)) :=
  if (R conf <=? i) || finished then mret (g, ops) else
  match ops with
  | [] => fail Blocked
  | (op, promise) :: ops =>
      r ← serve op promise g;
      if in_int (i + r.1) then gather finished (i + r.1) ops r.2 else fail Undefined
  end.

End proxy.

(** * What a GET selects *)

(** The buckets of a GET from [start] to [finish] on the time stamps [ts]:
    those that start in the range, and the last one before it. *)
Lemma select_timestamps_spec start finish ts t :
  oset_sorted Z.ltb ts →
  t ∈ select_timestamps start finish ts ↔ t ∈ ts ∧ t ≤ finish ∧ ∀ u, u ∈ ts → u < start → u ≤ t.
Proof.
  intros Hs. pose proof (oset_sorted_NoDup (ltb := Z.ltb) ts Hs) as Hnd. unfold select_timestamps. cbv zeta.
  set (lb := lower_bound Z.ltb start ts). set (ub := upper_bound Z.ltb finish ts).
  set (m := if decide (lb = 0%nat) then 0%nat else (lb - 1)%nat).
  assert (∀ i u, ts !! i = Some u → u < start ↔ (i < lb)%nat) as Hlb.
  { intros i u Hi. pose proof (lower_bound_spec (ltb := Z.ltb) start ts Hs u) as Hsp. fold lb in Hsp.
    rewrite Z.ltb_lt in Hsp. split.
    - intros Hu. assert (u ∈ take lb ts) as [j [Hj Hl]%lookup_take_Some]%list_elem_of_lookup_1
        by (apply Hsp; split; [by eapply list_elem_of_lookup_2|done]).
      by rewrite (NoDup_lookup _ _ _ _ Hnd Hi Hj).
    - intros Hl. apply Hsp. apply list_elem_of_lookup. exists i. by apply lookup_take_Some. }
  assert (∀ i u, ts !! i = Some u → u ≤ finish ↔ (i < ub)%nat) as Hub.
  { intros i u Hi. pose proof (upper_bound_spec (ltb := Z.ltb) finish ts Hs u) as Hsp. fold ub in Hsp.
    rewrite Z.ltb_ge in Hsp. split.
    - intros Hu. assert (u ∈ take ub ts) as [j [Hj Hl]%lookup_take_Some]%list_elem_of_lookup_1
        by (apply Hsp; split; [by eapply list_elem_of_lookup_2|done]).
      by rewrite (NoDup_lookup _ _ _ _ Hnd Hi Hj).
    - intros Hl. apply Hsp. apply list_elem_of_lookup. exists i. by apply lookup_take_Some. }
  assert (∀ i j u v, ts !! i = Some u → ts !! j = Some v → (i ≤ j)%nat → u ≤ v) as Hle.
  { intros i j u v Hi Hj Hij. destruct (decide (i = j)) as [->|Hne]; [rewrite Hi in Hj; injection Hj as ->; lia|].
    pose proof (oset_sorted_lookup_lt (ltb := Z.ltb) ts i j u v Hs Hi Hj ltac:(lia)) as Hlt.
    apply Z.ltb_lt in Hlt. lia. }
  assert (t ∈ (if (m <? ub)%nat then take (ub - m) (drop m ts) else [])
    ↔ ∃ j, ts !! j = Some t ∧ (m ≤ j < ub)%nat) as ->.
  { destruct (Nat.ltb_spec m ub) as [Hm|Hm].
    - rewrite list_elem_of_lookup. split.
      + intros [i [Hi Hl]%lookup_take_Some]. rewrite lookup_drop in Hi. exists (m + i)%nat. split; [done|lia].
      + intros (j & Hj & Hl). exists (j - m)%nat. apply lookup_take_Some. split; [|lia]. rewrite lookup_drop.
        by replace (m + (j - m))%nat with j by lia.
    - split; [by intros ?%not_elem_of_nil|]. intros (j & _ & ?). lia. }
  split.
  - intros (j & Hj & Hm & Hu). split; [by eapply list_elem_of_lookup_2|]. split; [by apply (Hub j)|].
    intros u [i Hi]%list_elem_of_lookup_1 Hlt. apply (Hle i j); [done|done|]. apply (Hlb i u Hi) in Hlt.
    unfold m in Hm. destruct (decide (lb = 0%nat)); lia.
  - intros ([j Hj]%list_elem_of_lookup_1 & Hf & Hall). exists j. split; [done|].
    apply (Hub j t Hj) in Hf. split; [|done]. unfold m. destruct (decide (lb = 0%nat)) as [|Hnz]; [lia|].
    destruct (lookup_lt_is_Some_2 ts (lb - 1)) as [u Hu].
    { pose proof (lower_bound_le (ltb := Z.ltb) start ts) as Hll. fold lb in Hll. lia. }
    assert (u < start) as Hlt by (apply (Hlb _ _ Hu); lia).
    destruct (decide (lb - 1 ≤ j)%nat); [done|]. exfalso.
    pose proof (Hall u ltac:(by eapply list_elem_of_lookup_2) Hlt).
    pose proof (oset_sorted_lookup_lt (ltb := Z.ltb) ts j (lb - 1) t u Hs Hj Hu ltac:(lia)) as Hlt'.
    apply Z.ltb_lt in Hlt'. lia.
Qed.

Lemma select_timestamps_sublist start finish ts : select_timestamps start finish ts `sublist_of` ts.
Proof.
  unfold select_timestamps. cbv zeta. destruct (_ <? _)%nat; [|apply sublist_nil_l].
  etrans; [apply sublist_take|apply sublist_drop].
Qed.

End Proxy.
