(* ===== verification/ProxyBatch.v ===== *)
(** [waffle_proxy::execute_batch] (proxy/src/waffle_proxy.cpp): the batch of
    reads and writes that the proxy sends to the storage server, in its five
    phases: the keys the users need, real keys to fill up, fake keys, the
    exchange with the server, and the answers. *)
From S2P Require Import Prelude.
From S2P Require Import CxxString.
From S2P Require Import OrderedSet.
From S2P Require Import FrequencySmoother.
From S2P Require Import Cache.
From S2P Require Import EvictedItems.
From S2P Require Import Values.
From S2P Require Import RunningKeys.
From S2P Require Import Storage.
From S2P Require Import Encryption.
From S2P Require Import Proxy.

Local Open Scope Z_scope.

Module Batch.
Import Proxy.
Section batch.
Context {St W : Type} `{storage_interface St} `{crypter W}.
Variable conf : config.

Abbreviation proxy := (@waffle_proxy St W).

(** The name of a key on the server: [prf(key + "#" + frequency)]. *)
Definition name (key : string) (frequency : Z) : string := key +:+ "#" +:+ to_string frequency.

(** [storage_keys] and [readBatchMap] *)
Record reads := { storage_keys : list string; readBatchMap : gmap string string }.
Definition add_read (stKey key : string) (r : reads) : reads :=
  {| storage_keys := storage_keys r ++ [stKey]; readBatchMap := <[stKey := key]> (readBatchMap r) |}.

(** [if (recording_alpha) ...getFrequency(key)]: what the log line reads *)
Definition record_alpha (m : M proxy Z) : M proxy () :=
  if recording_alpha conf then m ;; mret () else mret ().

(** The body of the loops over [operations] and [realKeysNotInCache]. *)
Definition read_real (key : string) (r : reads) : M proxy reads :=
  record_alpha (on_realBst (Smoother.getFrequency key)) ;;
  f ← on_realBst (Smoother.getFrequency key);
  stKey ← on_engine (crypt_prf (name key f));
  p ← get;
  on_realBst (update (Smoother.setFrequency key (timeStamp p))) ;;
  mret (add_read stKey key r).

Fixpoint read_reals (keys : list string) (r : reads) : M proxy reads :=
  match keys with
  | [] => mret r
  | key :: keys => r ← read_real key r; read_reals keys r
  end.

(** The walk over [realBst] that picks real keys to fill the batch up: [n]
    keys are wanted, [it] is what is left of the tree, and going past its end
    is undefined. *)
Fixpoint pick_reals (n : Z) (it : list (string * Z)) (realKeysNotInCache : list string) : M proxy (list string) :=
  if Z.of_nat (length realKeysNotInCache) <? n then
    match it with
    | [] => fail Undefined
    | (key, _) :: it =>
        p ← get;
        if negb (Cache.checkIfKeyExists key (cache p))
           && negb (EvictedItems.checkIfKeyExists key (EvictedItems p)) then
          running ← on_runningKeys (λ s, let '(b, s) := RunningKeys.insertIfNotPresent key s in (Done b, s));
          pick_reals n it (if (running : bool) then realKeysNotInCache else realKeysNotInCache ++ [key])
        else pick_reals n it realKeysNotInCache
    end
  else mret realKeysNotInCache.

(** [B-(operations.size()+F)], computed in [size_t] *)
Definition fill_count (operations : nat) : Z := wrap_u64 (B conf - wrap_u64 (Z.of_nat operations + F conf)).

(** The loop over the fake keys: a turn whose key is already running does not
    count. *)
Fixpoint read_fakes (fuel : nat) (i : Z) (r : reads) : M proxy reads :=
  if i <? F conf then
    match fuel with
    | O => fail OutOfFuel
    | S fuel =>
        record_alpha (on_fakeBst (s ← get; lift_result (Smoother.getKeyWithMinFrequencyRecordingAlpha s))) ;;
        fakeMinKey ← on_fakeBst (s ← get; lift_result (Smoother.getKeyWithMinFrequency s));
        running ← on_runningKeys (λ s, let '(b, s) := RunningKeys.insertIfNotPresent fakeMinKey s in (Done b, s));
        if (running : bool) then read_fakes fuel i r
        else
          f ← on_fakeBst (Smoother.getFrequency fakeMinKey);
          stKey ← on_engine (crypt_prf (name fakeMinKey f));
          p ← get;
          on_fakeBst (update (Smoother.setFrequency fakeMinKey (timeStamp p))) ;;
          read_fakes fuel (i + 1) (add_read stKey fakeMinKey r)
    end
  else mret r.

(** The random strings of the file's own [gen_random]. *)
Fixpoint gen_random (n : nat) : M proxy string :=
  match n with
  | O => mret ""
  | S n =>
      x ← on_engine crypt_rand;
      s ← gen_random n;
      mret (String (Encryption.char_at Encryption.alphanum (x `mod` 62)) s)
  end.

(** What the exchange builds up: [writeBatchKeys] and [writeBatchValues],
    [tempEvictedItems], and [promiseSatisfy]. *)
Record writes := {
  writeBatch : list (string * string);
  tempEvictedItems : gset string;
  promiseSatisfy : gmap string string;
}.
Definition no_writes : writes := {| writeBatch := []; tempEvictedItems := ∅; promiseSatisfy := ∅ |}.

(** The turn of a real key: make room in the cache, write what is evicted
    under a new name, and put what was read into the cache, unless the key is
    to be deleted. *)
Definition exchange_real (key response : string) (w : writes) : M proxy writes :=
  kv_pair ← on_cache Cache.evictLRElementFromCache;
  match kv_pair with
  | k :: v :: _ =>
      on_EvictedItems (update (EvictedItems.insert k v)) ;;
      f ← on_realBst (Smoother.getFrequency k);
      writeBatchKey ← on_engine (crypt_prf (name k f));
      writeBatchValue ← on_engine (crypt_encrypt v);
      valueAboutToGoToCache ← on_engine (crypt_decrypt response);
      let w := {| writeBatch := writeBatch w ++ [(writeBatchKey, writeBatchValue)];
                  tempEvictedItems := {[k]} ∪ tempEvictedItems w;
                  promiseSatisfy := <[key := valueAboutToGoToCache]> (promiseSatisfy w) |} in
      p ← get;
      if decide (key ∈ keys_to_be_deleted p) then
        on_realBst (Smoother.removeKey key) ;;
        modify (with_keys_to_be_deleted (filter (λ k' : string, k' ≠ key))) ;;
        mret w
      else
        p ← get;
        valueAboutToGoToCache ←
          (if Cache.checkIfKeyExists key (cache p)
           then on_cache (c ← get; lift_result (Cache.getValueWithoutPositionChange key c))
           else mret valueAboutToGoToCache);
        on_cache (Cache.insertIntoCache key valueAboutToGoToCache) ;;
        mret w
  | _ => fail Undefined
  end.

(** The turn of a fake key: write a new random value under a new name. *)
Definition exchange_fake (key response : string) (w : writes) : M proxy writes :=
  v ← on_engine (crypt_decrypt response);
  f ← on_fakeBst (Smoother.getFrequency key);
  writeBatchKey ← on_engine (crypt_prf (name key f));
  value ← gen_random (Z.to_nat (object_size_ conf));
  writeBatchValue ← on_engine (crypt_encrypt value);
  mret {| writeBatch := writeBatch w ++ [(writeBatchKey, writeBatchValue)];
          tempEvictedItems := tempEvictedItems w;
          promiseSatisfy := <[key := v]> (promiseSatisfy w) |}.

(** The loop over [storage_keys]; the first [reals] are real.  [responses[i]]
    is undefined past the end, [readBatchMap[stKey]] is empty for a key that
    is not there. *)
Fixpoint exchange (reals : nat) (keys responses : list string) (readBatchMap : gmap string string) (w : writes)
    : M proxy writes :=
  match keys with
  | [] => mret w
  | stKey :: keys =>
      let key := default "" (readBatchMap !! stKey) in
      match responses with
      | [] => fail Undefined
      | response :: responses =>
          w ← match reals with
              | O => exchange_fake key response w
              | S _ => exchange_real key response w
              end;
          exchange (pred reals) keys responses readBatchMap w
      end
  end.

(** The first half of [execute_batch]: the new time stamp, and the keys to
    read, with the number of real ones.  The fuel covers a turn per fake key
    and per fake key already running. *)
Definition read_phase (fuel : nat) (operations : list operation) : M proxy (reads * nat) :=
  modify (λ p, with_timeStamp (wrap32 (timeStamp p + 1)) p) ;;
  r ← read_reals (op_key <$> operations) {| storage_keys := []; readBatchMap := ∅ |};
  p ← get;
  realKeysNotInCache ← pick_reals (fill_count (length operations)) (Smoother.getIterator (realBst p)) [];
  r ← read_reals realKeysNotInCache r;
  r ← read_fakes fuel 0 r;
  mret (r, (length operations + length realKeysNotInCache)%nat).

(** The second half: the exchange with the server, and the answers. *)
Definition exchange_phase (r : reads) (reals : nat) : M proxy () :=
  responses ← on_storage (storage_get_batch (storage_keys r));
  w ← exchange reals (storage_keys r) responses (readBatchMap r) no_writes;
  on_storage (storage_put_batch (writeBatch w).*1 (writeBatch w).*2) ;;
  on_EvictedItems (update (λ e, fold_left (λ e k, EvictedItems.erase k e) (elements (tempEvictedItems w)) e)) ;;
  on_runningKeys (RunningKeys.arrivals (map_to_list (promiseSatisfy w))) ;;
  modify (with_keysNotUsed (λ l, l ++ [storage_keys r])).

Definition execute_batch (fuel : nat) (operations : list operation) : M proxy () :=
  rn ← read_phase fuel operations;
  exchange_phase rn.1 rn.2.

End batch.
End Batch.
