(* ===== verification/BatchPhases.v ===== *)
(** Running the phases of [execute_batch] (ProxyBatch) against the interfaces
    [StorageSpec] and [CrypterSpec]: which keys each loop reads, what the turn
    of a real key and of a fake key does to the proxy, and the invariant [mid]
    of the loop that exchanges the real keys. *)
From S2P Require Import Prelude.
From S2P Require Import CxxString.
From S2P Require Import OrderedSet.
From S2P Require Import FrequencySmoother.
From S2P Require Import Cache.
From S2P Require Import EvictedItems.
From S2P Require Import Values.
From S2P Require Import RunningKeys.
From S2P Require Import Storage.
From S2P Require Import Encryption.
From S2P Require Import Proxy.
From S2P Require Import ProxyBatch.

Local Open Scope Z_scope.

Module Phases.
Import Proxy Batch.
#[local] Existing Instance Smoother.freqCmp_strict_total.

Section phases.
Context {St W : Type} {sto : storage_interface St} {stoS : @StorageSpec St sto}
  {cry : crypter W} {cryS : @CrypterSpec W cry}.
Variable conf : config.
Abbreviation proxy := (@waffle_proxy St W).
Implicit Types p : proxy.

(** * Running the phases *)
Definition freqs (p : proxy) : gmap string Z := Smoother.accessFreqs (realBst p).
Definition ffreqs (p : proxy) : gmap string Z := Smoother.accessFreqs (fakeBst p).
Definition lru (p : proxy) : list (string * string) := Cache.abs (cache p).
Abbreviation cached p := ((lru p).*1).

(** The name on the server of a key of frequency [f]. *)
Definition loc (key : string) (f : Z) : string := prf_name (name key f).

Lemma set_realBst_same p : set_realBst (realBst p) p = p.
Proof. by destruct p. Qed.
Lemma set_fakeBst_same p : set_fakeBst (fakeBst p) p = p.
Proof. by destruct p. Qed.
Lemma set_cache_same p : set_cache (cache p) p = p.
Proof. by destruct p. Qed.
Lemma set_engine_same p : set_encryption_engine_ (encryption_engine_ p) p = p.
Proof. by destruct p. Qed.

Lemma on_realBst_run {A} (m : M _ A) a b p :
  m (realBst p) = (Done a, b) → on_realBst m p = (Done a, set_realBst b p).
Proof. intros Hm. unfold on_realBst, zoom. by rewrite Hm. Qed.

Lemma real_getFrequency_run k f p :
  freqs p !! k = Some f → on_realBst (Smoother.getFrequency k) p = (Done f, p).
Proof.
  intros Hf. rewrite (on_realBst_run _ _ _ _ (Smoother.getFrequency_present _ _ _ Hf)).
  by rewrite set_realBst_same.
Qed.

Lemma fake_getFrequency_run k f p :
  ffreqs p !! k = Some f → on_fakeBst (Smoother.getFrequency k) p = (Done f, p).
Proof.
  intros Hf. unfold on_fakeBst, zoom. rewrite (Smoother.getFrequency_present _ _ _ Hf).
  by rewrite set_fakeBst_same.
Qed.

Lemma prf_run x p :
  crypt_ok (encryption_engine_ p) → on_engine (crypt_prf x) p = (Done (prf_name x), p).
Proof. intros Ho. unfold on_engine, zoom. rewrite crypt_prf_ok by done. by rewrite set_engine_same. Qed.

(** ** Reading real keys *)
Definition key_freq (p : proxy) (k : string) : Z := default 0 (freqs p !! k).
Definition add_reads (nks : list (string * string)) (r : reads) : reads :=
  fold_left (λ r nk, add_read nk.1 nk.2 r) nks r.
Definition mark (ks : list string) (t : Z) (b : Smoother.FrequencySmoother) : Smoother.FrequencySmoother :=
  fold_left (λ b k, Smoother.setFrequency k t b) ks b.

Lemma mark_freqs ks t b k :
  Smoother.accessFreqs (mark ks t b) !! k
  = if decide (k ∈ ks) then Some t else Smoother.accessFreqs b !! k.
Proof.
  revert b. induction ks as [|k' ks IH]; intros b.
  { by rewrite decide_False by apply not_elem_of_nil. }
  unfold mark in *. cbn [fold_left]. rewrite IH, Smoother.setFrequency_freqs.
  destruct (decide (k ∈ ks)) as [Hk|Hk]; [by rewrite decide_True by (by right)|].
  destruct (decide (k = k')) as [->|Hne].
  - by rewrite lookup_insert_eq, decide_True by (by left).
  - rewrite lookup_insert_ne by done. by rewrite decide_False by (by intros [->|?]%elem_of_cons).
Qed.

Lemma mark_wf ks t b :
  Smoother.wf b → (∀ k, k ∈ ks → is_Some (Smoother.accessFreqs b !! k)) →
  Smoother.wf (mark ks t b) ∧ Smoother.needTimeStamp (mark ks t b) = Smoother.needTimeStamp b.
Proof.
  revert b. induction ks as [|k ks IH]; intros b Hwf Hk; [done|]. unfold mark in *. cbn [fold_left].
  destruct (IH (Smoother.setFrequency k t b)) as [H1 H2].
  - apply Smoother.wf_setFrequency; [done|]. apply Hk. by left.
  - intros k' Hk'. rewrite Smoother.setFrequency_freqs.
    destruct (decide (k = k')) as [->|Hne]; [by rewrite lookup_insert_eq|].
    rewrite lookup_insert_ne by done. apply Hk. by right.
  - split; [done|]. by rewrite H2.
Qed.

Lemma read_real_run key f r p :
  crypt_ok (encryption_engine_ p) → freqs p !! key = Some f →
  read_real conf key r p
  = (Done (add_read (loc key f) key r), set_realBst (mark [key] (timeStamp p) (realBst p)) p).
Proof.
  intros Ho Hf. unfold read_real, record_alpha.
  assert ((if recording_alpha conf then on_realBst (Smoother.getFrequency key) ;; mret () else mret ()) p
    = (Done (), p)) as Ha.
  { destruct (recording_alpha conf); [|done]. by rewrite (mbind_run _ _ _ _ _ (real_getFrequency_run _ _ _ Hf)). }
  rewrite (mbind_run _ _ _ _ _ Ha). rewrite (mbind_run _ _ _ _ _ (real_getFrequency_run _ _ _ Hf)).
  rewrite (mbind_run _ _ _ _ _ (prf_run _ _ Ho)). reflexivity.
Qed.

Lemma read_reals_run keys r p :
  crypt_ok (encryption_engine_ p) → NoDup keys → (∀ k, k ∈ keys → is_Some (freqs p !! k)) →
  read_reals conf keys r p
  = (Done (add_reads ((λ k, (loc k (key_freq p k), k)) <$> keys) r),
     set_realBst (mark keys (timeStamp p) (realBst p)) p).
Proof.
  intros Ho Hnd. revert r p Ho. induction Hnd as [|k keys Hni Hnd IH]; intros r p Ho Hk.
  { simpl. unfold mark. simpl. by rewrite set_realBst_same. }
  cbn [read_reals fmap list_fmap]. destruct (Hk k) as [f Hf]; [by left|].
  rewrite (mbind_run _ _ _ _ _ (read_real_run _ _ _ _ Ho Hf)).
  assert (∀ k', k' ∈ keys → freqs (set_realBst (mark [k] (timeStamp p) (realBst p)) p) !! k' = freqs p !! k') as Hsame.
  { intros k' Hk'. unfold freqs. cbn [realBst set_realBst]. rewrite mark_freqs.
    rewrite decide_False; [done|]. intros ->%list_elem_of_singleton. done. }
  rewrite IH; [|done|intros k' Hk'; rewrite Hsame by done; apply Hk; by right].
  assert (key_freq p k = f) as -> by (unfold key_freq; by rewrite Hf).
  erewrite list_fmap_ext; [reflexivity|].
  intros i k' Hk'%list_elem_of_lookup_2. unfold key_freq. by rewrite Hsame.
Qed.

(** ** Marking keys as running *)
Record grown (ks : list string) (s s' : RunningKeys.state) : Prop := {
  grown_get_map : RunningKeys.get_map (RunningKeys.tsmap s') = RunningKeys.get_map (RunningKeys.tsmap s);
  grown_request_map : RunningKeys.request_map (RunningKeys.tsmap s') = RunningKeys.request_map (RunningKeys.tsmap s);
  grown_get_cache : RunningKeys.get_cache (RunningKeys.tsmap s') = RunningKeys.get_cache (RunningKeys.tsmap s);
  grown_promises : RunningKeys.promises s' = RunningKeys.promises s;
  grown_present k : RunningKeys.is_present k s' = RunningKeys.is_present k s || bool_decide (k ∈ ks);
}.

Lemma grown_nil s : grown [] s s.
Proof. split; [done..|]. intros k. by rewrite bool_decide_eq_false_2, orb_false_r by apply not_elem_of_nil. Qed.

Lemma grown_trans ks1 ks2 s1 s2 s3 : grown ks1 s1 s2 → grown ks2 s2 s3 → grown (ks1 ++ ks2) s1 s3.
Proof.
  intros [A1 A2 A3 A4 A5] [B1 B2 B3 B4 B5]. split; [congruence..|]. intros k.
  rewrite B5, A5, <- orb_assoc. f_equal. rewrite (bool_decide_ext (k ∈ ks1 ++ ks2) _ (elem_of_app _ _ _)).
  by rewrite bool_decide_or.
Qed.

Lemma is_present_insert k k' s :
  RunningKeys.is_present k' (RunningKeys.insertIfNotPresent k s).2
  = RunningKeys.is_present k' s || bool_decide (k' = k).
Proof.
  unfold RunningKeys.is_present, RunningKeys.insertIfNotPresent. cbn.
  destruct (decide (k' = k)) as [->|Hne].
  - rewrite lookup_insert_eq, (bool_decide_eq_true_2 (k = k)) by done.
    by rewrite bool_decide_eq_true_2, orb_true_r by eauto.
  - by rewrite lookup_insert_ne, (bool_decide_eq_false_2 (k' = k)), orb_false_r.
Qed.

Lemma insert_grown k s :
  grown (if RunningKeys.is_present k s then [] else [k]) s (RunningKeys.insertIfNotPresent k s).2.
Proof.
  split; [done..|]. intros k'. rewrite is_present_insert.
  destruct (RunningKeys.is_present k s) eqn:Hk.
  - rewrite (bool_decide_eq_false_2 (k' ∈ [])) by apply not_elem_of_nil. rewrite orb_false_r.
    destruct (bool_decide_reflect (k' = k)) as [->|]; [by rewrite Hk|by rewrite orb_false_r].
  - f_equal. apply bool_decide_ext. by rewrite list_elem_of_singleton.
Qed.

Lemma on_running_insert k p :
  on_runningKeys (λ s, let '(b, s) := RunningKeys.insertIfNotPresent k s in (Done b, s)) p
  = (Done (RunningKeys.is_present k (runningKeys p)),
     set_runningKeys (RunningKeys.insertIfNotPresent k (runningKeys p)).2 p).
Proof. reflexivity. Qed.

(** ** Picking real keys *)

(** A real key that can be read: it is not in the cache, not being evicted,
    and not running. *)
Definition free p (k : string) : bool :=
  negb (Cache.checkIfKeyExists k (cache p)) && negb (EvictedItems.checkIfKeyExists k (EvictedItems p))
  && negb (RunningKeys.is_present k (runningKeys p)).

Lemma pick_reals_run n it acc p :
  NoDup it.*1 →
  n - Z.of_nat (length acc) ≤ Z.of_nat (length (filter (λ k : string, free p k = true) it.*1)) →
  let picked := take (Z.to_nat (n - Z.of_nat (length acc))) (filter (λ k : string, free p k = true) it.*1) in
  ∃ s', pick_reals n it acc p = (Done (acc ++ picked), set_runningKeys s' p) ∧ grown picked (runningKeys p) s'.
Proof.
  revert acc p. induction it as [|[k f] it IH]; intros acc p Hnd Hn; cbn [pick_reals]; cbv zeta.
  { change (filter (λ k : string, free p k = true) _) with (@nil string) in Hn |- *. cbn [length] in Hn.
    destruct (Z.ltb_spec (Z.of_nat (length acc)) n); [lia|].
    exists (runningKeys p). rewrite take_nil, app_nil_r. split; [by destruct p|apply grown_nil]. }
  rewrite fmap_cons in *. cbn [fst] in *. apply NoDup_cons in Hnd as [Hk Hnd].
  destruct (Z.ltb_spec (Z.of_nat (length acc)) n) as [Hlt|Hge]; last first.
  { replace (Z.to_nat (n - Z.of_nat (length acc))) with 0%nat by lia. rewrite take_0, app_nil_r.
    exists (runningKeys p). split; [by destruct p|apply grown_nil]. }
  unfold mbind at 1, M_bind at 1, get at 1.
  destruct (negb (Cache.checkIfKeyExists k (cache p))
    && negb (EvictedItems.checkIfKeyExists k (EvictedItems p))) eqn:Hce; last first.
  { assert (free p k = false) as Hf by (unfold free; by rewrite Hce).
    rewrite filter_cons_False in Hn |- * by congruence. by apply IH. }
  rewrite (mbind_run _ _ _ _ _ (on_running_insert k p)).
  set (p1 := set_runningKeys (RunningKeys.insertIfNotPresent k (runningKeys p)).2 p).
  assert (∀ k', k' ∈ it.*1 → free p1 k' = free p k') as Hfree.
  { intros k' Hk'. unfold free. cbn [cache EvictedItems runningKeys p1 set_runningKeys].
    rewrite is_present_insert. rewrite (bool_decide_eq_false_2 (k' = k)); [by rewrite orb_false_r|].
    by intros ->. }
  assert (filter (λ k : string, free p1 k = true) it.*1 = filter (λ k : string, free p k = true) it.*1) as Hfl.
  { apply list_filter_ext_in. intros k' Hk'. by rewrite Hfree. }
  pose proof (insert_grown k (runningKeys p)) as Hg.
  destruct (RunningKeys.is_present k (runningKeys p)) eqn:Hp.
  - assert (free p k = false) as Hf by (unfold free; by rewrite Hp, andb_false_r).
    rewrite filter_cons_False in Hn |- * by congruence. rewrite <- Hfl in Hn |- *.
    destruct (IH acc p1 Hnd Hn) as (s' & Hrun & Hgr). exists s'. split; [done|].
    by apply (grown_trans [] _ _ _ _ Hg).
  - assert (free p k = true) as Hf by (unfold free; by rewrite Hce, Hp).
    rewrite filter_cons_True in Hn |- * by done. rewrite <- Hfl in Hn |- *.
    destruct (IH (acc ++ [k]) p1 Hnd) as (s' & Hrun & Hgr).
    { rewrite length_app. simpl in *. lia. }
    rewrite length_app in Hrun, Hgr. cbn [length] in Hrun, Hgr.
    replace (Z.to_nat (n - Z.of_nat (length acc)))
      with (S (Z.to_nat (n - Z.of_nat (length acc + 1)))) by lia.
    exists s'. rewrite Hrun, <- app_assoc. split; [done|]. by apply (grown_trans [k] _ _ _ _ Hg).
Qed.

(** ** Fake keys *)

(** The entries that have not been touched since before time [t], least
    first. *)
Definition young (t : Z) (b : Smoother.FrequencySmoother) : list (string * Z) :=
  filter (λ kf : string * Z, kf.2 < t) (Smoother.accessTree b).

Lemma tree_keys_NoDup b : Smoother.wf_tree b → NoDup (Smoother.accessTree b).*1.
Proof.
  intros [Hs Ha]. apply NoDup_fmap_fst; [|by apply (oset_sorted_NoDup (ltb := Smoother.freqCmp))].
  intros k f1 f2 H1%Ha H2%Ha. congruence.
Qed.

Lemma young_keys_NoDup t b : Smoother.wf_tree b → NoDup (young t b).*1.
Proof. intros Hwf. apply NoDup_fmap_filter. by apply tree_keys_NoDup. Qed.

Lemma young_freq t b kf :
  Smoother.wf_tree b → kf ∈ young t b → Smoother.accessFreqs b !! kf.1 = Some kf.2 ∧ kf.2 < t.
Proof.
  intros [_ Ha] [Hlt Hin]%list_elem_of_filter. destruct kf as [k f]. by apply Ha in Hin.
Qed.

(** The least entry, and what is left once it is set to [t]. *)
Lemma young_cons t b kf rest :
  Smoother.wf_tree b → young t b = kf :: rest →
  ∃ tree, Smoother.accessTree b = kf :: tree ∧ young t (Smoother.setFrequency kf.1 t b) = rest.
Proof.
  intros Hwf Hy. destruct (Smoother.accessTree b) as [|[k f] tree] eqn:Ht; [by unfold young in Hy; rewrite Ht in Hy|].
  assert (f < t) as Hf.
  { assert (kf ∈ Smoother.accessTree b) as Hin.
    { assert (kf ∈ young t b) as [_ Hin]%list_elem_of_filter by (rewrite Hy; by left). done. }
    destruct (young_freq t b kf Hwf) as [_ Hlt]; [rewrite Hy; by left|].
    pose proof (Smoother.tree_sorted _ Hwf) as Hs. rewrite Ht in Hs, Hin.
    destruct (oset_head_min _ _ _ Hs Hin) as [->|Hlt']; [done|].
    unfold Smoother.freqCmp in Hlt'. destruct kf as [k' f']. cbn in *.
    destruct (Z.eqb_spec f f'); [lia|]. apply Z.ltb_lt in Hlt'. lia. }
  assert (kf = (k, f) ∧ rest = filter (λ kf : string * Z, kf.2 < t) tree) as [-> ->].
  { unfold young in Hy. rewrite Ht, filter_cons_True in Hy by done. by injection Hy as <- <-. }
  exists tree. split; [done|]. unfold young. rewrite Smoother.setFrequency_tree.
  assert (Smoother.freq_at (k, f).1 b = f) as ->.
  { unfold Smoother.freq_at. destruct Hwf as [_ Ha]. cbn [fst].
    rewrite (proj1 (Ha k f)); [done|]. rewrite Ht. by left. }
  cbn [fst]. rewrite Ht. rewrite oset_erase_head. apply filter_oset_insert. simpl. lia.
Qed.

Lemma fake_min_run {A} (g : Smoother.FrequencySmoother → result A) a p :
  g (fakeBst p) = Done a → on_fakeBst (s ← get; lift_result (g s)) p = (Done a, p).
Proof. intros Hg. unfold on_fakeBst, zoom. run. rewrite Hg. by rewrite set_fakeBst_same. Qed.

Lemma read_fakes_run fuel i r p :
  crypt_ok (encryption_engine_ p) → Smoother.wf_tree (fakeBst p) → i ≤ F conf →
  let chosen := take (Z.to_nat (F conf - i)) (young (timeStamp p) (fakeBst p)) in
  F conf - i ≤ Z.of_nat (length (young (timeStamp p) (fakeBst p))) →
  (Z.to_nat (F conf - i) ≤ fuel)%nat →
  (∀ k, k ∈ chosen.*1 → RunningKeys.is_present k (runningKeys p) = false) →
  ∃ s', read_fakes conf fuel i r p
    = (Done (add_reads ((λ kf, (loc kf.1 kf.2, kf.1)) <$> chosen) r),
       set_fakeBst (mark chosen.*1 (timeStamp p) (fakeBst p)) (set_runningKeys s' p))
    ∧ grown chosen.*1 (runningKeys p) s'.
Proof.
  revert i r p. induction fuel as [|fuel IH]; intros i r p Ho Hwf Hi chosen Hlen Hfuel Hrun;
    cbn [read_fakes]; destruct (Z.ltb_spec i (F conf)) as [Hlt|Hge]; try lia.
  1, 3: assert (chosen = []) as Hn by (unfold chosen; by replace (Z.to_nat (F conf - i)) with 0%nat by lia);
    rewrite Hn; exists (runningKeys p); split; [destruct p; reflexivity|apply grown_nil].
  destruct (young (timeStamp p) (fakeBst p)) as [|[k f] rest] eqn:Hy; [simpl in Hlen; lia|].
  assert (chosen = (k, f) :: take (Z.to_nat (F conf - (i + 1))) rest) as Hch.
  { unfold chosen. by replace (Z.to_nat (F conf - i)) with (S (Z.to_nat (F conf - (i + 1)))) by lia. }
  clearbody chosen. subst chosen.
  destruct (young_cons _ _ _ _ Hwf Hy) as (tree & Htree & Hrest).
  destruct (young_freq (timeStamp p) (fakeBst p) (k, f) Hwf) as [Hf _]; [rewrite Hy; by left|].
  assert (record_alpha conf (on_fakeBst (s ← get; lift_result (Smoother.getKeyWithMinFrequencyRecordingAlpha s))) p
    = (Done (), p)) as Ha.
  { unfold record_alpha. destruct (recording_alpha conf); [|done].
    erewrite mbind_run; [|apply (fake_min_run _ f); unfold Smoother.getKeyWithMinFrequencyRecordingAlpha; by rewrite Htree].
    done. }
  rewrite (mbind_run _ _ _ _ _ Ha).
  erewrite mbind_run; [|apply (fake_min_run _ k); unfold Smoother.getKeyWithMinFrequency; by rewrite Htree].
  rewrite (mbind_run _ _ _ _ _ (on_running_insert k p)).
  assert (RunningKeys.is_present k (runningKeys p) = false) as Hnr by (apply Hrun; by left).
  rewrite Hnr. set (p1 := set_runningKeys _ p).
  rewrite (mbind_run _ _ _ _ _ (fake_getFrequency_run k f p1 Hf)).
  rewrite (mbind_run _ _ _ _ _ (prf_run (name k f) p1 Ho)).
  set (p2 := set_fakeBst (Smoother.setFrequency k (timeStamp p) (fakeBst p)) p1).
  set (chosen := take _ rest).
  change (∃ s', read_fakes conf fuel (i + 1) (add_read (loc k f) k r) p2
    = (Done (add_reads ((λ kf, (loc kf.1 kf.2, kf.1)) <$> chosen) (add_read (loc k f) k r)),
       set_fakeBst (mark chosen.*1 (timeStamp p2) (fakeBst p2)) (set_runningKeys s' p2))
    ∧ grown (k :: chosen.*1) (runningKeys p) s').
  assert (young (timeStamp p2) (fakeBst p2) = rest) as Hy2 by exact Hrest.
  pose proof (young_keys_NoDup (timeStamp p) _ Hwf) as Hnd. rewrite Hy in Hnd.
  apply NoDup_cons in Hnd as [Hk Hnd].
  destruct (IH (i + 1) (add_read (loc k f) k r) p2) as (s' & Hrun' & Hgr); rewrite ?Hy2.
  - done.
  - by apply Smoother.wf_tree_setFrequency.
  - lia.
  - simpl in Hlen. lia.
  - lia.
  - intros k' Hk'. cbn [p2 p1 runningKeys set_fakeBst set_runningKeys]. rewrite is_present_insert.
    assert (k' ≠ k).
    { intros ->. apply Hk. rewrite fmap_take in Hk'. by eapply elem_of_take_in. }
    rewrite bool_decide_eq_false_2, orb_false_r by done. apply Hrun. by right.
  - rewrite Hy2 in Hrun', Hgr. exists s'. split; [exact Hrun'|].
    pose proof (insert_grown k (runningKeys p)) as Hg. rewrite Hnr in Hg.
    exact (grown_trans [k] _ _ _ _ Hg Hgr).
Qed.

(** ** The exchange *)

(** What an exchange with the server leaves alone. *)
Record same_rest p p' : Prop := {
  rest_fakeBst : fakeBst p' = fakeBst p;
  rest_runningKeys : runningKeys p' = runningKeys p;
  rest_timeStamp : timeStamp p' = timeStamp p;
  rest_storage : storage_interface_ p' = storage_interface_ p;
  rest_keysNotUsed : keysNotUsed p' = keysNotUsed p;
}.

Lemma same_rest_refl p : same_rest p p.
Proof. by split. Qed.
Lemma same_rest_trans p1 p2 p3 : same_rest p1 p2 → same_rest p2 p3 → same_rest p1 p3.
Proof. intros [] []. split; congruence. Qed.

Definition real_ok p : Prop :=
  Smoother.wf (realBst p) ∧ Smoother.needTimeStamp (realBst p) = true.

(** The state and the writes after the turn of the real key [k], whose value
    [v] was read; [(ek, ev)] is evicted from the cache, whose other pairs are
    [l]. *)
Record real_turn p (k v ek ev : string) (fe : Z) (l : list (string * string)) (w : writes)
    p' (cw : string) (w' : writes) : Prop := {
  turn_rest : same_rest p p';
  turn_crypt : crypt_ok (encryption_engine_ p');
  turn_cipher : cipher_of cw ev;
  turn_real : real_ok p';
  turn_cache : Cache.wf (cache p');
  turn_lru : lru p' = if decide (k ∈ keys_to_be_deleted p) then l else (k, v) :: l;
  turn_freqs : freqs p' = if decide (k ∈ keys_to_be_deleted p) then delete k (freqs p) else freqs p;
  turn_delete : keys_to_be_deleted p' = filter (λ k' : string, k' ≠ k) (keys_to_be_deleted p);
  turn_evicted : EvictedItems.cacheMap (EvictedItems p') = <[ek := ev]> (EvictedItems.cacheMap (EvictedItems p));
  turn_writes : w' = {| writeBatch := writeBatch w ++ [(loc ek fe, cw)];
                        tempEvictedItems := {[ek]} ∪ tempEvictedItems w;
                        promiseSatisfy := <[k := v]> (promiseSatisfy w) |};
}.

Lemma real_removeKey_run k p :
  real_ok p → is_Some (freqs p !! k) →
  ∃ b, Smoother.removeKey k (realBst p) = (Done (), b) ∧ Smoother.wf b ∧ Smoother.needTimeStamp b = true
    ∧ Smoother.accessFreqs b = delete k (freqs p).
Proof.
  intros [Hwf Hn] Hk. destruct (Smoother.items_canonical _ (proj2 Hwf Hn) k Hk) as (item & t & Hi & Ht & ->).
  exists (Smoother.remove_state item t (realBst p)). split; [by apply Smoother.removeKey_run|].
  split; [by apply Smoother.wf_remove|]. by split.
Qed.

Lemma evict_last l ek ev : Lru.evict (l ++ [(ek, ev)]) = ([ek; ev], l).
Proof.
  unfold Lru.evict. rewrite last_snoc, length_app. cbn [length].
  by rewrite Nat.add_sub, take_app_length.
Qed.

Lemma lru_insert_absent k v (l : list (string * string)) : k ∉ l.*1 → Lru.insert k v l = (k, v) :: l.
Proof.
  intros Hk. unfold Lru.insert. f_equal. apply list_filter_all. intros [k' v'] Hin. simpl. intros ->.
  apply Hk. by apply (list_elem_of_fmap_2 fst) in Hin.
Qed.

Lemma exchange_real_run k c v ek ev fe l w p :
  crypt_ok (encryption_engine_ p) → real_ok p → Cache.wf (cache p) →
  lru p = l ++ [(ek, ev)] → storable ev → freqs p !! ek = Some fe →
  is_Some (freqs p !! k) → Lru.lookup k (lru p) = None → cipher_of c v →
  ∃ p' cw w', exchange_real k c w p = (Done w', p') ∧ real_turn p k v ek ev fe l w p' cw w'.
Proof.
  intros Ho Hr Hc Hl Hst Hfe Hk Hnl Hcv. unfold exchange_real.
  destruct (Cache.evict_refines (cache p) Hc) as (c1 & Hev & Hc1 & Ha1). fold (lru p) in Hev, Ha1.
  rewrite Hl, evict_last in Hev, Ha1. cbn in Hev, Ha1.
  set (p1 := set_cache c1 p).
  assert (on_cache Cache.evictLRElementFromCache p = (Done [ek; ev], p1)) as H1
    by (unfold on_cache, zoom; by rewrite Hev).
  rewrite (mbind_run _ _ _ _ _ H1).
  set (p2 := set_EvictedItems (EvictedItems.insert ek ev (EvictedItems p)) p1).
  assert (on_EvictedItems (update (EvictedItems.insert ek ev)) p1 = (Done (), p2)) as H2 by done.
  rewrite (mbind_run _ _ _ _ _ H2).
  rewrite (mbind_run _ _ _ _ _ (real_getFrequency_run ek fe p2 Hfe)).
  rewrite (mbind_run _ _ _ _ _ (prf_run (name ek fe) p2 Ho)).
  destruct (crypt_encrypt_ok _ ev Ho Hst) as (cw & e1 & He1 & Ho1 & Hcw).
  set (p3 := set_encryption_engine_ e1 p2).
  assert (on_engine (crypt_encrypt ev) p2 = (Done cw, p3)) as H3
    by (unfold on_engine, zoom; cbn; by rewrite He1).
  rewrite (mbind_run _ _ _ _ _ H3).
  destruct (crypt_decrypt_ok _ c v Ho1 Hcv) as (e2 & He2 & Ho2).
  set (p4 := set_encryption_engine_ e2 p3).
  assert (on_engine (crypt_decrypt c) p3 = (Done v, p4)) as H4
    by (unfold on_engine, zoom; cbn; by rewrite He2).
  rewrite (mbind_run _ _ _ _ _ H4).
  unfold mbind at 1, M_bind at 1, get at 1.
  change (keys_to_be_deleted p4) with (keys_to_be_deleted p).
  assert (k ∉ l.*1) as Hkl.
  { apply Lru.lookup_None in Hnl. rewrite Hl, fmap_app in Hnl. intros Hin. apply Hnl, elem_of_app. by left. }
  destruct (decide (k ∈ keys_to_be_deleted p)) as [Hd|Hd].
  - destruct (real_removeKey_run k p4 Hr Hk) as (b & Hb & Hbw & Hbn & Hbf).
    set (p5 := set_realBst b p4).
    rewrite (mbind_run _ _ _ _ _ (on_realBst_run _ _ _ p4 Hb)).
    set (p6 := with_keys_to_be_deleted (filter (λ k' : string, k' ≠ k)) p5).
    exists p6, cw. eexists. split; [reflexivity|].
    split; [by split|done|done|by split|done|by rewrite decide_True|by rewrite decide_True|done|done|done].
  - unfold mbind at 1, M_bind at 1, get at 1.
    assert (Cache.checkIfKeyExists k (cache p4) = false) as Hck.
    { change (cache p4) with c1. rewrite (Cache.checkIfKeyExists_abs c1 k Hc1), Ha1. apply bool_decide_eq_false_2.
      apply Lru.lookup_None in Hkl. rewrite Hkl. by intros [??]. }
    rewrite Hck. unfold mbind at 1, M_bind at 1, mret at 1, M_ret at 1.
    destruct (Cache.insertIntoCache_refines c1 k v Hc1) as (c2 & Hins & Hc2 & Ha2 & _).
    set (p5 := set_cache c2 p4).
    assert (on_cache (Cache.insertIntoCache k v) p4 = (Done (), p5)) as H5
      by (unfold on_cache, zoom; cbn; by rewrite Hins).
    rewrite (mbind_run _ _ _ _ _ H5). exists p5, cw. eexists. split; [reflexivity|].
    rewrite Ha1, lru_insert_absent in Ha2 by done.
    split; [by split|done|done|done|done|by rewrite decide_False|by rewrite decide_False| |done|done].
    symmetry. apply list_filter_all. by intros k' Hk' ->.
Qed.

(** A pair evicted from the cache and written to the server. *)
Record eviction := { ev_key : string; ev_freq : Z; ev_value : string; ev_cipher : string }.

Definition in_lru p (k v : string) : Prop := Lru.lookup k (lru p) = Some v.
Definition in_evs (evs : list eviction) (k v : string) : Prop :=
  ∃ e, e ∈ evs ∧ ev_key e = k ∧ ev_value e = v.

(** The number of keys of a list that are to be deleted. *)
Definition doomed (del ks : list string) : nat := length (filter (λ k : string, k ∈ del) ks).

(** In the middle of the exchange that started in [p0] with the real pairs
    [kvs]: the keys [rem] are still to be exchanged, [evs] have been evicted. *)
Record mid p0 (kvs : list (string * string)) (rem : list string) p (w : writes) (evs : list eviction) : Prop := {
  mid_rest : same_rest p0 p;
  mid_crypt : crypt_ok (encryption_engine_ p);
  mid_real : real_ok p;
  mid_cache : Cache.wf (cache p);
  mid_writes : writeBatch w = ((λ e, (loc (ev_key e) (ev_freq e), ev_cipher e)) <$> evs);
  mid_items k : is_Some (EvictedItems.cacheMap (EvictedItems p) !! k) → k ∈ tempEvictedItems w;
  mid_nodup : NoDup (ev_key <$> evs);
  mid_evs e : e ∈ evs → freqs p !! ev_key e = Some (ev_freq e) ∧ cipher_of (ev_cipher e) (ev_value e)
                        ∧ storable (ev_value e) ∧ (ev_key e ∉ cached p) ∧ ev_key e ∉ rem;
  mid_lru k v : in_lru p k v → is_Some (freqs p !! k) ∧ storable v;
  mid_rem k : k ∈ rem → is_Some (freqs p !! k) ∧ k ∉ cached p;
  mid_delete k : k ∈ keys_to_be_deleted p ↔ k ∈ keys_to_be_deleted p0 ∧ (k ∉ kvs.*1 ∨ k ∈ rem);
  mid_freqs k : freqs p !! k = (if decide (k ∈ keys_to_be_deleted p0 ∧ k ∈ kvs.*1 ∧ k ∉ rem)
                                then None else freqs p0 !! k);
  mid_value k v : in_lru p0 k v ∨ (k, v) ∈ kvs → k ∉ rem →
    in_lru p k v ∨ in_evs evs k v ∨ (k ∈ keys_to_be_deleted p0 ∧ k ∈ kvs.*1);
  mid_sound k v : in_lru p k v ∨ in_evs evs k v → in_lru p0 k v ∨ (k, v) ∈ kvs;
  mid_size : (length (lru p) + doomed (keys_to_be_deleted p0) kvs.*1
              = length (lru p0) + doomed (keys_to_be_deleted p0) rem)%nat;
  mid_count : (length evs + length rem = length kvs)%nat;
  mid_promise k v : promiseSatisfy w !! k = Some v ↔ (k, v) ∈ kvs ∧ k ∉ rem;
}.

Lemma lru_NoDup p : Cache.wf (cache p) → NoDup (cached p).
Proof. apply Cache.wf_keys_NoDup. Qed.

Lemma in_lru_elem p k v : Cache.wf (cache p) → in_lru p k v ↔ (k, v) ∈ lru p.
Proof. intros Hc. apply Lru.lookup_Some. by apply lru_NoDup. Qed.

Lemma in_lru_keys p k : k ∈ cached p ↔ is_Some (Lru.lookup k (lru p)).
Proof.
  destruct (Lru.lookup k (lru p)) eqn:Hl.
  - split; [by eexists|]. intros _. destruct (decide (k ∈ cached p)) as [|Hn]; [done|].
    apply Lru.lookup_None in Hn. congruence.
  - apply Lru.lookup_None in Hl. split; [done|by intros [??]].
Qed.

(** The real pairs that a batch has read: distinct keys, none of them cached,
    and enough pairs in the cache to make room. *)
Record reads_ok p0 (kvs : list (string * string)) : Prop := {
  reads_nodup : NoDup kvs.*1;
  reads_uncached k : k ∈ kvs.*1 → k ∉ cached p0;
  reads_storable k v : (k, v) ∈ kvs → storable v;
  reads_slack : (doomed (keys_to_be_deleted p0) kvs.*1 < length (lru p0))%nat;
}.

Lemma pair_unique (l : list (string * string)) k v1 v2 : NoDup l.*1 → (k, v1) ∈ l → (k, v2) ∈ l → v1 = v2.
Proof. intros Hn H1 H2. apply Lru.lookup_Some in H1, H2; [|done..]. congruence. Qed.

(** The pair that the turn of a real key evicts. *)
Lemma mid_last p0 kvs k rem p w evs :
  reads_ok p0 kvs → mid p0 kvs (k :: rem) p w evs →
  ∃ l ek ev fe, lru p = l ++ [(ek, ev)] ∧ freqs p !! ek = Some fe ∧ storable ev ∧ in_lru p ek ev
    ∧ (ek ∉ (l.*1)) ∧ ek ≠ k ∧ ek ∉ rem ∧ (ek ∉ (ev_key <$> evs)).
Proof.
  intros [_ _ _ Hslack] Hmid. pose proof (mid_size _ _ _ _ _ _ Hmid) as Hsz.
  pose proof (lru_NoDup p (mid_cache _ _ _ _ _ _ Hmid)) as Hnd.
  destruct (lru p) as [|[ek ev] l _] eqn:Hl using rev_ind; [simpl in Hsz; lia|].
  rewrite fmap_app in Hnd. apply NoDup_app in Hnd as (_ & Hni & _).
  assert (in_lru p ek ev) as Hin.
  { apply in_lru_elem; [apply Hmid|]. rewrite Hl. apply elem_of_app. right. by left. }
  assert (ek ∈ cached p) as Hek by (apply in_lru_keys; by eexists).
  destruct (mid_lru _ _ _ _ _ _ Hmid _ _ Hin) as [[fe Hfe] Hst].
  assert (ek ∉ k :: rem) as Hr by (intros Hr; by destruct (mid_rem _ _ _ _ _ _ Hmid _ Hr)).
  apply not_elem_of_cons in Hr as [Hne Hr].
  exists l, ek, ev, fe. split; [done|]. split; [done|]. split; [done|]. split; [done|]. split; [|split; [done|split; [done|]]].
  - intros Hin'. apply (Hni ek Hin'). by left.
  - intros (e & -> & He)%list_elem_of_fmap. by destruct (mid_evs _ _ _ _ _ _ Hmid e He) as (_ & _ & _ & ? & _).
Qed.

Lemma doomed_cons del k ks :
  doomed del (k :: ks) = ((if decide (k ∈ del) then 1 else 0) + doomed del ks)%nat.
Proof. unfold doomed. rewrite filter_cons. by destruct (decide (k ∈ del)). Qed.

(** The turn of one real key keeps [mid]. *)
Section next.
Context (p0 : proxy) (kvs : list (string * string)) (k v : string) (rem : list string) (p : proxy) (w : writes)
  (evs : list eviction) (l : list (string * string)) (ek ev : string) (fe : Z) (p' : proxy) (cw : string) (w' : writes).
Hypotheses (Hok : reads_ok p0 kvs) (Hmid : mid p0 kvs (k :: rem) p w evs) (Hkrem : k ∉ rem) (Hkv : (k, v) ∈ kvs)
  (Hl : lru p = l ++ [(ek, ev)]) (Hfe : freqs p !! ek = Some fe) (Hst : storable ev) (Hlru : in_lru p ek ev)
  (Hekl : ek ∉ l.*1) (Hne : ek ≠ k) (Hekrem : ek ∉ rem) (Hekevs : ek ∉ (ev_key <$> evs))
  (Ht : real_turn p k v ek ev fe l w p' cw w').

Local Abbreviation evicted := {| ev_key := ek; ev_freq := fe; ev_value := ev; ev_cipher := cw |}.

Lemma next_delete : k ∈ keys_to_be_deleted p ↔ k ∈ keys_to_be_deleted p0.
Proof. rewrite (mid_delete _ _ _ _ _ _ Hmid). split; [tauto|]. intros ?. split; [done|right; by left]. Qed.

Lemma next_key : is_Some (freqs p !! k) ∧ k ∉ cached p.
Proof. apply (mid_rem _ _ _ _ _ _ Hmid). by left. Qed.

(** The cache after the turn *)
Lemma next_old k' v' : (k', v') ∈ l → in_lru p k' v' ∧ k' ≠ k.
Proof.
  intros Hin. assert (in_lru p k' v') as Hi.
  { apply in_lru_elem; [apply Hmid|]. rewrite Hl. apply elem_of_app. by left. }
  split; [done|]. intros ->. apply (proj2 next_key), in_lru_keys. by eexists.
Qed.

Lemma next_lru k' v' : in_lru p' k' v' ↔ (k', v') ∈ l ∨ (k' = k ∧ v' = v ∧ k ∉ keys_to_be_deleted p).
Proof.
  rewrite in_lru_elem by apply Ht. rewrite (turn_lru _ _ _ _ _ _ _ _ _ _ _ Ht).
  case_decide; rewrite ?elem_of_cons; [tauto|]. split; [intros [[= -> ->]|]; tauto|]. naive_solver.
Qed.

Lemma next_cached k' : k' ∈ cached p' → k' ∈ cached p ∨ k' = k.
Proof.
  assert (k' ∈ l.*1 → k' ∈ cached p) as Hsub by (intros Hin; rewrite Hl, fmap_app; apply elem_of_app; by left).
  rewrite (turn_lru _ _ _ _ _ _ _ _ _ _ _ Ht). case_decide; [tauto|]. intros [->|]%elem_of_cons; tauto.
Qed.

Lemma next_uncached : ek ∉ cached p'.
Proof.
  rewrite (turn_lru _ _ _ _ _ _ _ _ _ _ _ Ht). case_decide; [done|]. by intros [|]%elem_of_cons.
Qed.

Lemma next_size :
  (length (lru p') + doomed (keys_to_be_deleted p0) (k :: rem) = length (lru p) + doomed (keys_to_be_deleted p0) rem)%nat.
Proof.
  pose proof next_delete as Hdel. rewrite doomed_cons, Hl, length_app, (turn_lru _ _ _ _ _ _ _ _ _ _ _ Ht).
  destruct (decide (k ∈ keys_to_be_deleted p0)), (decide (k ∈ keys_to_be_deleted p)); cbn [length]; tauto || lia.
Qed.

(** The frequencies after the turn *)
Lemma next_freqs k' : k' ≠ k → freqs p' !! k' = freqs p !! k'.
Proof.
  intros Hk'. rewrite (turn_freqs _ _ _ _ _ _ _ _ _ _ _ Ht). case_decide; [by rewrite lookup_delete_ne|done].
Qed.

Lemma next_freq : freqs p' !! k = if decide (k ∈ keys_to_be_deleted p) then None else freqs p !! k.
Proof. rewrite (turn_freqs _ _ _ _ _ _ _ _ _ _ _ Ht). case_decide; [by rewrite lookup_delete_eq|done]. Qed.

(** The values that are kept, and no others, are in the cache or evicted. *)
Lemma next_value k' v' :
  in_lru p0 k' v' ∨ (k', v') ∈ kvs → k' ∉ rem →
  in_lru p' k' v' ∨ (∃ e, e ∈ evs ++ [evicted] ∧ ev_key e = k' ∧ ev_value e = v')
  ∨ (k' ∈ keys_to_be_deleted p0 ∧ k' ∈ kvs.*1).
Proof.
  intros Hv Hk'. destruct (decide (k' = k)) as [->|Hne'].
  - assert (k ∈ kvs.*1) as Hkk by (by apply (list_elem_of_fmap_2 fst) in Hkv).
    destruct Hv as [Hv|Hv].
    { exfalso. apply (reads_uncached _ _ Hok k Hkk), in_lru_keys. by eexists. }
    rewrite (pair_unique _ _ _ _ (reads_nodup _ _ Hok) Hv Hkv). pose proof next_delete as Hdel.
    destruct (decide (k ∈ keys_to_be_deleted p)); [right; right; tauto|]. left. apply next_lru. by right.
  - destruct (mid_value _ _ _ _ _ _ Hmid k' v' Hv) as [Hi|[(e & He & Hek)|?]].
    + by apply not_elem_of_cons.
    + apply in_lru_elem in Hi; [|apply Hmid]. rewrite Hl in Hi.
      apply elem_of_app in Hi as [Hi|[= -> ->]%list_elem_of_singleton]; [left; apply next_lru; by left|].
      right. left. eexists. split; [apply elem_of_app; right; by left|done].
    + right. left. exists e. split; [apply elem_of_app; by left|done].
    + by right; right.
Qed.

Lemma next_sound k' v' :
  in_lru p' k' v' ∨ (∃ e, e ∈ evs ++ [evicted] ∧ ev_key e = k' ∧ ev_value e = v') →
  in_lru p0 k' v' ∨ (k', v') ∈ kvs.
Proof.
  intros [Hin|(e & He & <- & <-)]; [apply next_lru in Hin as [Hin|(-> & -> & _)]|
    apply elem_of_app in He as [He|He]; [|apply list_elem_of_singleton in He as ->]].
  - apply (mid_sound _ _ _ _ _ _ Hmid). left. by apply next_old.
  - by right.
  - apply (mid_sound _ _ _ _ _ _ Hmid). right. by exists e.
  - apply (mid_sound _ _ _ _ _ _ Hmid). by left.
Qed.

Lemma mid_next : mid p0 kvs rem p' w' (evs ++ [evicted]).
Proof.
  pose proof next_delete as Hdel. assert (k ∈ kvs.*1) as Hkk by (by apply (list_elem_of_fmap_2 fst) in Hkv).
  rewrite (turn_writes _ _ _ _ _ _ _ _ _ _ _ Ht).
  split; cbn [writeBatch tempEvictedItems promiseSatisfy]; try by apply Ht.
  - eapply same_rest_trans; [apply Hmid|apply Ht].
  - rewrite fmap_app. f_equal. apply Hmid.
  - intros k'. rewrite (turn_evicted _ _ _ _ _ _ _ _ _ _ _ Ht). intros [<-|[_ Hi]]%lookup_insert_is_Some; [set_solver|].
    apply elem_of_union. right. by apply (mid_items _ _ _ _ _ _ Hmid).
  - rewrite fmap_app. apply NoDup_app. split; [apply Hmid|]. split; [|apply NoDup_singleton].
    intros k' Hk' ->%list_elem_of_singleton. done.
  - intros e [He| ->%list_elem_of_singleton]%elem_of_app; cbn [ev_key ev_freq ev_value ev_cipher].
    + destruct (mid_evs _ _ _ _ _ _ Hmid e He) as (H1 & H2 & H3 & H4 & H5).
      apply not_elem_of_cons in H5 as [Hek' H5]. rewrite next_freqs by done. do 3 (split; [done|]).
      split; [|done]. by intros [?|?]%next_cached.
    + rewrite next_freqs by done. split; [done|]. split; [apply Ht|]. split; [done|]. split; [apply next_uncached|done].
  - intros k' v' [Hin|(-> & -> & Hd)]%next_lru.
    + destruct (next_old _ _ Hin) as [Hi Hk']. rewrite next_freqs by done. by apply (mid_lru _ _ _ _ _ _ Hmid).
    + rewrite next_freq, decide_False by done. split; [apply next_key|by apply (reads_storable _ _ Hok _ _ Hkv)].
  - intros k' Hk'. assert (k' ≠ k) as Hk'k by (by intros ->). rewrite next_freqs by done.
    destruct (mid_rem _ _ _ _ _ _ Hmid k') as [H1 H2]; [by right|]. split; [done|]. by intros [?|?]%next_cached.
  - intros k'. rewrite (turn_delete _ _ _ _ _ _ _ _ _ _ _ Ht), list_elem_of_filter, (mid_delete _ _ _ _ _ _ Hmid).
    rewrite elem_of_cons. destruct (decide (k' = k)) as [->|]; tauto.
  - intros k'. destruct (decide (k' = k)) as [->|Hk'].
    + rewrite next_freq, (mid_freqs _ _ _ _ _ _ Hmid), (decide_False (P := _ ∧ _ ∧ _ ∉ k :: _)) by (rewrite not_elem_of_cons; tauto).
      apply decide_ext. tauto.
    + rewrite next_freqs, (mid_freqs _ _ _ _ _ _ Hmid) by done.
      apply decide_ext. rewrite not_elem_of_cons. tauto.
  - apply next_value.
  - apply next_sound.
  - pose proof (mid_size _ _ _ _ _ _ Hmid). pose proof next_size. lia.
  - pose proof (mid_count _ _ _ _ _ _ Hmid) as Hct. rewrite length_app. simpl in *. lia.
  - intros k' v'. destruct (decide (k' = k)) as [->|Hne'].
    + rewrite lookup_insert_eq. split; [by intros [= <-]|]. intros [Hv _].
      by rewrite (pair_unique _ _ _ _ (reads_nodup _ _ Hok) Hv Hkv).
    + rewrite lookup_insert_ne, (mid_promise _ _ _ _ _ _ Hmid) by done. rewrite not_elem_of_cons. tauto.
Qed.
End next.

(** A key that is read: its frequency before the batch, and the value and
    the cipher text on the server. *)
Record item := { it_key : string; it_freq : Z; it_value : string; it_cipher : string }.
Definition it_loc (x : item) : string := loc (it_key x) (it_freq x).
Definition it_pair (x : item) : string * string := (it_key x, it_value x).

(** The part of the loop over the real keys. *)
Lemma exchange_reals_run p0 kvs items ks cs m p w evs :
  reads_ok p0 kvs → mid p0 kvs (it_key <$> items) p w evs → NoDup (it_key <$> items) →
  (∀ x, x ∈ items → it_pair x ∈ kvs ∧ cipher_of (it_cipher x) (it_value x) ∧ m !! it_loc x = Some (it_key x)) →
  ∃ p' w' evs', mid p0 kvs [] p' w' evs'
    ∧ exchange conf (length items) ((it_loc <$> items) ++ ks) ((it_cipher <$> items) ++ cs) m w p
      = exchange conf 0 ks cs m w' p'.
Proof.
  intros Hok. revert p w evs. induction items as [|x items IH]; intros p w evs Hmid Hnd Hx.
  { by exists p, w, evs. }
  rewrite fmap_cons in Hnd, Hmid. apply NoDup_cons in Hnd as [Hni Hnd].
  destruct (Hx x) as (Hin & Hc & Hm); [by left|].
  destruct (mid_last _ _ _ _ _ _ _ Hok Hmid) as (l & ek & ev & fe & Hl & Hfe & Hst & Hlru & Hekl & Hne & Her & Hee).
  destruct (mid_rem _ _ _ _ _ _ Hmid (it_key x)) as [Hkf Hkl]; [by left|].
  destruct (exchange_real_run (it_key x) (it_cipher x) (it_value x) ek ev fe l w p) as (p1 & cw & w1 & Hrun & Ht);
    [apply Hmid..|done|done|done|done|by apply Lru.lookup_None|done|].
  pose proof (mid_next _ _ _ _ _ _ _ _ _ _ _ _ _ _ _ Hok Hmid Hni Hin Hl Hfe Hst Hlru Hekl Hne Her Hee Ht) as Hmid1.
  destruct (IH _ _ _ Hmid1 Hnd) as (p' & w' & evs' & Hmid' & Hrun'); [intros y Hy; apply Hx; by right|].
  exists p', w', evs'. split; [done|]. cbn [length fmap list_fmap app exchange pred].
  rewrite Hm. cbn [default]. by rewrite (mbind_run _ _ _ _ _ Hrun).
Qed.

(** The part over the fake keys: only the engine moves. *)
(** A string of [n] characters of [alphanum] *)
Definition alphanums (n : nat) (s : string) : Prop :=
  String.length s = n ∧ ∀ a, has_char a Encryption.alphanum = false → has_char a s = false.

Lemma gen_random_yields n p :
  crypt_ok (encryption_engine_ p) →
  ∃ s e, gen_random n p = (Done s, set_encryption_engine_ e p) ∧ crypt_ok e ∧ alphanums n s.
Proof.
  revert p. induction n as [|n IH]; intros p Ho; simpl.
  { exists "", (encryption_engine_ p). by rewrite set_engine_same. }
  destruct (crypt_rand_ok _ Ho) as (x & e1 & Hx & Ho1 & Hpos).
  assert (on_engine crypt_rand p = (Done x, set_encryption_engine_ e1 p)) as H1
    by (unfold on_engine, zoom; by rewrite Hx).
  rewrite (mbind_run _ _ _ _ _ H1).
  destruct (IH (set_encryption_engine_ e1 p) Ho1) as (s & e & Hs & Ho2 & Hlen & Hn).
  rewrite (mbind_run _ _ _ _ _ Hs). eexists _, e. split; [reflexivity|]. split; [done|]. split; [simpl; by rewrite Hlen|].
  intros a Hna. change (bool_decide (Encryption.char_at Encryption.alphanum (x `mod` 62) = a) || has_char a s = false).
  rewrite Hn, orb_false_r by done. apply bool_decide_eq_false. intros Heq.
  assert (has_char (Encryption.char_at Encryption.alphanum (x `mod` 62)) Encryption.alphanum = true) as Ha
    by (apply Encryption.alphanum_is_alphanum, Z.mod_pos_bound; lia).
  rewrite Heq, Hna in Ha. discriminate Ha.
Qed.

Lemma alphanums_storable n s : alphanums n s → Z.of_nat n ≤ 4085 → storable s.
Proof. intros [Hl Hn] Hle. split; [apply Hn; vm_compute; reflexivity|lia]. Qed.

Lemma exchange_fake_run k c v f w p :
  crypt_ok (encryption_engine_ p) → 0 ≤ object_size_ conf ≤ 4085 → cipher_of c v → ffreqs p !! k = Some f →
  ∃ e cw v', exchange_fake conf k c w p
    = (Done {| writeBatch := writeBatch w ++ [(loc k f, cw)]; tempEvictedItems := tempEvictedItems w;
               promiseSatisfy := <[k := v]> (promiseSatisfy w) |}, set_encryption_engine_ e p)
    ∧ crypt_ok e ∧ cipher_of cw v'.
Proof.
  intros Ho Hsz Hc Hf. unfold exchange_fake.
  destruct (crypt_decrypt_ok _ c v Ho Hc) as (e1 & He1 & Ho1). set (p1 := set_encryption_engine_ e1 p).
  assert (on_engine (crypt_decrypt c) p = (Done v, p1)) as H1 by (unfold on_engine, zoom; by rewrite He1).
  rewrite (mbind_run _ _ _ _ _ H1). rewrite (mbind_run _ _ _ _ _ (fake_getFrequency_run k f p1 Hf)).
  rewrite (mbind_run _ _ _ _ _ (prf_run (name k f) p1 Ho1)).
  destruct (gen_random_yields (Z.to_nat (object_size_ conf)) p1 Ho1) as (s & e2 & Hs & Ho2 & Hal).
  rewrite (mbind_run _ _ _ _ _ Hs).
  destruct (crypt_encrypt_ok e2 s Ho2) as (cw & e3 & He3 & Ho3 & Hcw); [apply (alphanums_storable _ _ Hal); lia|].
  assert (on_engine (crypt_encrypt s) (set_encryption_engine_ e2 p1) = (Done cw, set_encryption_engine_ e3 p)) as H3
    by (unfold on_engine, zoom; cbn; by rewrite He3).
  rewrite (mbind_run _ _ _ _ _ H3). by exists e3, cw, s.
Qed.

Lemma exchange_fakes_run items m w p :
  crypt_ok (encryption_engine_ p) → 0 ≤ object_size_ conf ≤ 4085 →
  (∀ x, x ∈ items → cipher_of (it_cipher x) (it_value x) ∧ m !! it_loc x = Some (it_key x)
                    ∧ ffreqs p !! it_key x = Some (timeStamp p)) →
  ∃ e cws, exchange conf 0 (it_loc <$> items) (it_cipher <$> items) m w p
    = (Done {| writeBatch := writeBatch w ++ zip ((λ x, loc (it_key x) (timeStamp p)) <$> items) cws;
               tempEvictedItems := tempEvictedItems w;
               promiseSatisfy := fold_left (λ m x, <[it_key x := it_value x]> m) items (promiseSatisfy w) |},
       set_encryption_engine_ e p)
    ∧ crypt_ok e ∧ length cws = length items ∧ ∀ c, c ∈ cws → ∃ v, cipher_of c v.
Proof.
  revert w p. induction items as [|x items IH]; intros w p Ho Hsz Hx.
  { exists (encryption_engine_ p), []. simpl. rewrite app_nil_r. destruct w. rewrite set_engine_same.
    split; [done|]. split; [done|]. split; [done|]. intros c Hin. by apply not_elem_of_nil in Hin. }
  destruct (Hx x) as (Hc & Hm & Hf); [by left|]. cbn [fmap list_fmap exchange pred]. rewrite Hm. cbn [default].
  destruct (exchange_fake_run (it_key x) (it_cipher x) (it_value x) (timeStamp p) w p Ho Hsz Hc Hf)
    as (e1 & cw & v' & Hrun & Ho1 & Hcw).
  rewrite (mbind_run _ _ _ _ _ Hrun).
  destruct (IH {| writeBatch := writeBatch w ++ [(loc (it_key x) (timeStamp p), cw)];
    tempEvictedItems := tempEvictedItems w; promiseSatisfy := <[it_key x := it_value x]> (promiseSatisfy w) |}
    (set_encryption_engine_ e1 p) Ho1 Hsz) as (e & cws & Hrun' & Ho' & Hlen & Hcs);
    [intros y Hy; apply Hx; by right|].
  exists e, (cw :: cws). rewrite Hrun'. cbn [writeBatch tempEvictedItems promiseSatisfy].
  rewrite <- app_assoc. split; [done|]. split; [done|]. split; [simpl; by rewrite Hlen|].
  intros c [->|Hin]%elem_of_cons; [by exists v'|by apply Hcs].
Qed.

(** * When the loop over the fake keys does not end *)

(** C38: the loop over the fake keys never ends once the fake key of least
    frequency is already running while fake keys are still wanted: each turn
    finds the same key again.  So a batch that wants more fake keys than there
    are does not end. *)
Theorem fake_loop_spins fuel i r k f tree p :
  Smoother.accessTree (fakeBst p) = (k, f) :: tree → RunningKeys.is_present k (runningKeys p) = true →
  i < F conf → fst (read_fakes conf fuel i r p) = Stop OutOfFuel.
Proof.
  revert p. induction fuel as [|fuel IH]; intros p Ht Hk Hi; cbn [read_fakes]; rewrite (proj2 (Z.ltb_lt _ _) Hi); [done|].
  set (p1 := set_runningKeys (RunningKeys.insertIfNotPresent k (runningKeys p)).2 p).
  assert (record_alpha conf (on_fakeBst (s ← get; lift_result (Smoother.getKeyWithMinFrequencyRecordingAlpha s))) p
    = (Done (), p)) as H1.
  { unfold record_alpha. destruct (recording_alpha conf); [|done]. unfold on_fakeBst, zoom,
      Smoother.getKeyWithMinFrequencyRecordingAlpha. run. rewrite Ht. cbn. by rewrite set_fakeBst_same. }
  rewrite (mbind_run _ _ _ _ _ H1).
  assert (on_fakeBst (s ← get; lift_result (Smoother.getKeyWithMinFrequency s)) p = (Done k, p)) as H2.
  { unfold on_fakeBst, zoom, Smoother.getKeyWithMinFrequency. run. rewrite Ht. cbn. by rewrite set_fakeBst_same. }
  rewrite (mbind_run _ _ _ _ _ H2), (mbind_run _ _ _ _ _ (on_running_insert k p)), Hk.
  apply IH; [done| |done]. cbn. unfold RunningKeys.is_present. cbn.
  by rewrite lookup_insert_eq, bool_decide_eq_true_2 by (by eexists).
Qed.

End phases.
End Phases.
