(* ===== verification/BatchCorrect.v ===== *)
(** Correctness of a batch: [execute_batch] against the interfaces
    [StorageSpec] and [CrypterSpec].  The invariant says where the value of
    each key is (in the cache, or on the server under its current name), and
    the batch theorem says that a batch moves values without losing any,
    reads and writes exactly [B] server locations, none of them for the second
    time, and answers every request that waits. *)
From S2P Require Import Prelude.
From S2P Require Import CxxString.
From S2P Require Import OrderedSet.
From S2P Require Import FrequencySmoother.
From S2P Require Import Cache.
From S2P Require Import EvictedItems.
From S2P Require Import Values.
From S2P Require Import RunningKeys.
From S2P Require Import Storage.
From S2P Require Import Encryption.
From S2P Require Import Proxy.
From S2P Require Import ProxyBatch.
From S2P Require Import BatchPhases.

Local Open Scope Z_scope.

Module Correct.
Import Proxy Batch Phases.
#[local] Existing Instance Smoother.freqCmp_strict_total.

Section correct.
Context {St W : Type} {sto : storage_interface St} {stoS : @StorageSpec St sto}
  {cry : crypter W} {cryS : @CrypterSpec W cry}.
Variable conf : config.
Abbreviation proxy := (@waffle_proxy St W).
Implicit Types p : proxy.
Abbreviation cached p := ((lru p).*1).

(** * The invariant of the proxy *)

(** The keys in use.  [ok_name]: a key in use and a value of the clock, which
    is an [int]; the assumption on the PRF is that no two names of these
    collide. *)
Context (key_ok : string → Prop).
Definition ok_name (k : string) (f : Z) : Prop := key_ok k ∧ 0 ≤ f < 2^31.
Definition collision_free : Prop :=
  ∀ k1 f1 k2 f2, ok_name k1 f1 → ok_name k2 f2 →
    prf_name (name k1 f1) = prf_name (name k2 f2) → name k1 f1 = name k2 f2.
Hypothesis prf_collision_free : collision_free.

Lemma loc_inj k1 f1 k2 f2 : ok_name k1 f1 → ok_name k2 f2 → loc k1 f1 = loc k2 f2 → k1 = k2 ∧ f1 = f2.
Proof.
  intros H1 H2 Heq. apply prf_collision_free in Heq; [|done..].
  unfold name in Heq. apply str_app_sep_inj in Heq as [-> Heq]; [|by apply to_string_no_char..].
  split; [done|]. by apply to_string_inj.
Qed.

Definition server p : gmap string string := contents (storage_interface_ p).
Definition on_server p (k : string) (f : Z) (v : string) : Prop :=
  ∃ c, server p !! loc k f = Some c ∧ cipher_of c v.

(** [wr] and [rd] are the server locations written and read so far. *)
Record pinv (wr rd : gset string) p : Prop := {
  pi_real : real_ok p;
  pi_fake : Smoother.wf (fakeBst p) ∧ Smoother.needTimeStamp (fakeBst p) = false;
  pi_cache : Cache.wf (cache p);
  pi_evicted : EvictedItems.cacheMap (EvictedItems p) = ∅;
  pi_known k : is_Some (freqs p !! k) ∨ is_Some (ffreqs p !! k) → key_ok k;
  pi_disjoint k : is_Some (freqs p !! k) → ffreqs p !! k = None;
  (** a cached key has not been written under its current name *)
  pi_cached k v : in_lru p k v →
    is_Some (freqs p !! k) ∧ storable v ∧ ∀ f, freqs p !! k = Some f → loc k f ∉ wr;
  (** a real key that is not cached is on the server under its current name,
      which has not been read *)
  pi_stored k f : freqs p !! k = Some f → k ∉ cached p →
    loc k f ∉ rd ∧ ∃ v, storable v ∧ on_server p k f v;
  pi_stored_fake k f : ffreqs p !! k = Some f → loc k f ∉ rd ∧ ∃ v, on_server p k f v;
  pi_time k f : freqs p !! k = Some f ∨ ffreqs p !! k = Some f → 0 ≤ f ≤ timeStamp p;
  pi_clock : timeStamp p < 2^31;
  pi_written x : x ∈ wr → ∃ k f, key_ok k ∧ x = loc k f ∧ 0 ≤ f ≤ timeStamp p;
  pi_server : dom (server p) ⊆ wr;
  pi_read : rd ⊆ wr;
  pi_storage : storage_ok (storage_interface_ p);
  pi_crypt : crypt_ok (encryption_engine_ p);
}.

Lemma known_ok wr rd p k f :
  pinv wr rd p → freqs p !! k = Some f ∨ ffreqs p !! k = Some f → ok_name k f.
Proof.
  intros Hi Hf. split.
  - apply (pi_known _ _ _ Hi). destruct Hf as [Hf|Hf]; [left|right]; by eexists.
  - pose proof (pi_time _ _ _ Hi k f Hf). pose proof (pi_clock _ _ _ Hi). lia.
Qed.

(** The value of a real key: in the cache, or else on the server. *)
Definition value_of p (k v : string) : Prop :=
  in_lru p k v ∨ (k ∉ cached p ∧ ∃ f, freqs p !! k = Some f ∧ on_server p k f v).

Lemma cipher_unique p c v1 v2 : crypt_ok (encryption_engine_ p) → cipher_of c v1 → cipher_of c v2 → v1 = v2.
Proof.
  intros Ho H1 H2. destruct (crypt_decrypt_ok _ _ _ Ho H1) as (? & Hr1 & _).
  destruct (crypt_decrypt_ok _ _ _ Ho H2) as (? & Hr2 & _). congruence.
Qed.

Lemma value_unique wr rd p k v1 v2 : pinv wr rd p → value_of p k v1 → value_of p k v2 → v1 = v2.
Proof.
  intros Hi [H1|(Hn1 & f1 & Hf1 & c1 & Hc1 & Hv1)] [H2|(Hn2 & f2 & Hf2 & c2 & Hc2 & Hv2)].
  - unfold in_lru in *. congruence.
  - destruct Hn2. apply in_lru_keys. by eexists.
  - destruct Hn1. apply in_lru_keys. by eexists.
  - rewrite Hf1 in Hf2. injection Hf2 as <-. rewrite Hc1 in Hc2. injection Hc2 as <-.
    eapply cipher_unique; [apply Hi|done..].
Qed.

Lemma value_exists wr rd p k : pinv wr rd p → is_Some (freqs p !! k) → ∃ v, value_of p k v.
Proof.
  intros Hi [f Hf]. destruct (decide (k ∈ cached p)) as [Hin|Hn].
  - apply in_lru_keys in Hin as [v Hv]. exists v. by left.
  - destruct (pi_stored _ _ _ Hi k f Hf Hn) as (_ & v & _ & Hon). exists v. right. split; [done|]. by exists f.
Qed.

Lemma value_stored wr rd p k v : pinv wr rd p → value_of p k v → is_Some (freqs p !! k).
Proof.
  intros Hi [Hv|(_ & f & Hf & _)]; [by apply (pi_cached _ _ _ Hi k v)|by eexists].
Qed.

(** What a batch needs: the state of the bookkeeping when the keys [ks] have
    been registered to be read, sizes that fit, and answers for the requests. *)
Definition agree p (keys : list string) (vals : gmap string string) : Prop :=
  ∀ k, k ∈ keys → match RunningKeys.get_cache (RunningKeys.tsmap (runningKeys p)) !! k with
                  | Some v => vals !! k = Some v
                  | None => ∃ v, value_of p k v ∧ vals !! k = Some v
                  end.

Record batch_pre (ks : list string) p : Prop := {
  bp_nodup : NoDup ks;
  bp_keys k : k ∈ ks → is_Some (freqs p !! k) ∧ k ∉ cached p;
  bp_running k : RunningKeys.is_present k (runningKeys p) = true ↔ k ∈ ks;
  bp_clock : 0 ≤ timeStamp p < 2^31 - 1;
  bp_batch : 0 ≤ F conf ∧ Z.of_nat (length ks) + F conf ≤ B conf < 2^31;
  bp_object : 0 ≤ object_size_ conf ≤ 4085;
  bp_fakes : F conf ≤ Z.of_nat (size (ffreqs p));
  bp_reals : B conf - F conf + Z.of_nat (length (lru p)) ≤ Z.of_nat (size (freqs p));
  bp_slack : (length (keys_to_be_deleted p) < length (lru p))%nat;
  bp_inv : RunningKeys.inv (runningKeys p);
  bp_tidy : RunningKeys.tidy (runningKeys p);
  bp_requests id keys q :
    RunningKeys.request_map (RunningKeys.tsmap (runningKeys p)) !! id = Some (keys, q) →
    RunningKeys.complete keys (RunningKeys.get_cache (RunningKeys.tsmap (runningKeys p))) = false
    ∧ (∀ k, k ∈ keys → k ∈ ks ∨ is_Some (RunningKeys.get_cache (RunningKeys.tsmap (runningKeys p)) !! k))
    ∧ ∀ vals, agree p keys vals → ∃ a, RunningKeys.answer_of keys vals = Done a;
  bp_cached k : is_Some (RunningKeys.get_cache (RunningKeys.tsmap (runningKeys p)) !! k) →
    ffreqs p !! k = None ∧ (is_Some (freqs p !! k) → k ∈ cached p);
}.

(** ** Sizes *)
Lemma tree_size b : Smoother.wf_tree b → length (Smoother.accessTree b) = size (Smoother.accessFreqs b).
Proof.
  intros Hwf. pose proof (tree_keys_NoDup b Hwf) as Hnd.
  assert (Smoother.accessFreqs b = list_to_map (Smoother.accessTree b)) as ->.
  { apply map_eq. intros k. apply option_eq. intros f. rewrite <- (Smoother.tree_agree _ Hwf).
    by rewrite elem_of_list_to_map. }
  by rewrite map_size_list_to_map.
Qed.

Lemma length_filter_split (P : string → bool) (l : list string) :
  (length (filter (λ k, P k = true) l) + length (filter (λ k, P k = false) l) = length l)%nat.
Proof.
  induction l as [|x l IH]; [done|]. rewrite !filter_cons.
  destruct (P x) eqn:Hx; rewrite ?decide_True, ?decide_False by congruence;
    repeat (rewrite (decide_True _ _ (P := _ = _)) by done || rewrite (decide_False (P := _ = _)) by done);
    cbn [length]; lia.
Qed.

(** Enough real keys are free when few are cached or running. *)
Lemma free_enough (P : string → bool) (l excluded : list string) :
  NoDup l → (∀ k, k ∈ l → P k = false → k ∈ excluded) →
  (length l ≤ length (filter (λ k, P k = true) l) + length excluded)%nat.
Proof.
  intros Hnd He. rewrite <- (length_filter_split P l) at 1.
  assert (length (filter (λ k, P k = false) l) ≤ length excluded)%nat; [|lia].
  apply submseteq_length, NoDup_submseteq; [by apply NoDup_filter|].
  intros k [Hp Hin]%list_elem_of_filter. by apply He.
Qed.

(** ** The reads of a batch *)

Lemma add_reads_keys nks r : storage_keys (add_reads nks r) = storage_keys r ++ nks.*1.
Proof.
  revert r. unfold add_reads. induction nks as [|[n k] nks IH]; intros r; simpl; [by rewrite app_nil_r|].
  rewrite IH. simpl. by rewrite <- app_assoc.
Qed.

Lemma add_reads_app a b r : add_reads (a ++ b) r = add_reads b (add_reads a r).
Proof. apply fold_left_app. Qed.

Lemma add_reads_other nks r n : n ∉ nks.*1 → readBatchMap (add_reads nks r) !! n = readBatchMap r !! n.
Proof.
  revert r. unfold add_reads. induction nks as [|[n' k] nks IH]; intros r Hn; [done|].
  rewrite fmap_cons in Hn. apply not_elem_of_cons in Hn as [Hne Hn]. cbn [fold_left]. rewrite IH by done.
  simpl. by rewrite lookup_insert_ne.
Qed.

Lemma add_reads_map nks r n k :
  NoDup nks.*1 → (n, k) ∈ nks → readBatchMap (add_reads nks r) !! n = Some k.
Proof.
  revert r. unfold add_reads. induction nks as [|[n' k'] nks IH]; intros r Hnd Hin.
  { by apply not_elem_of_nil in Hin. }
  rewrite fmap_cons in Hnd. apply NoDup_cons in Hnd as [Hni Hnd]. cbn [fold_left].
  apply elem_of_cons in Hin as [[= <- <-]|Hin]; [|by apply IH].
  fold (add_reads nks (add_read (n, k).1 (n, k).2 r)). rewrite add_reads_other by done. simpl.
  by rewrite lookup_insert_eq.
Qed.

(** The item of a key that is on the server. *)
Definition real_item p (x : item) : Prop :=
  freqs p !! it_key x = Some (it_freq x) ∧ storable (it_value x)
  ∧ server p !! it_loc x = Some (it_cipher x) ∧ cipher_of (it_cipher x) (it_value x).
Definition fake_item p (x : item) : Prop :=
  ffreqs p !! it_key x = Some (it_freq x)
  ∧ server p !! it_loc x = Some (it_cipher x) ∧ cipher_of (it_cipher x) (it_value x).

Lemma list_choice {A B} (f : B → A) (Q : B → Prop) (l : list A) :
  (∀ a, a ∈ l → ∃ b, f b = a ∧ Q b) → ∃ bs, f <$> bs = l ∧ ∀ b, b ∈ bs → Q b.
Proof.
  induction l as [|a l IH]; intros Hf.
  { exists []. split; [done|]. intros b Hb. by apply not_elem_of_nil in Hb. }
  destruct (Hf a) as (b & Hb & Hq); [by left|].
  destruct IH as (bs & Hbs & Hqs); [intros a' Ha'; apply Hf; by right|].
  exists (b :: bs). rewrite fmap_cons, Hb, Hbs. split; [done|]. by intros b' [->|?%Hqs]%elem_of_cons.
Qed.

Lemma real_items wr rd p (keys : list string) :
  pinv wr rd p → (∀ k, k ∈ keys → is_Some (freqs p !! k) ∧ k ∉ cached p) →
  ∃ items, it_key <$> items = keys ∧ ∀ x, x ∈ items → real_item p x.
Proof.
  intros Hi Hk. apply list_choice. intros k [[f Hf] Hn]%Hk.
  destruct (pi_stored _ _ _ Hi k f Hf Hn) as (_ & v & Hst & c & Hc & Hcv).
  by exists {| it_key := k; it_freq := f; it_value := v; it_cipher := c |}.
Qed.

Lemma fake_items wr rd p (keys : list string) :
  pinv wr rd p → (∀ k, k ∈ keys → is_Some (ffreqs p !! k)) →
  ∃ items, it_key <$> items = keys ∧ ∀ x, x ∈ items → fake_item p x.
Proof.
  intros Hi Hk. apply list_choice. intros k [f Hf]%Hk.
  destruct (pi_stored_fake _ _ _ Hi k f Hf) as (_ & v & c & Hc & Hcv).
  by exists {| it_key := k; it_freq := f; it_value := v; it_cipher := c |}.
Qed.

(** The reads that a batch sends, and the state before the exchange. *)
Record prepared p (ks : list string) (reals fakes : list item) r p4 : Prop := {
  pr_operations : ∃ picked, it_key <$> reals = ks ++ picked;
  pr_reals x : x ∈ reals → real_item p x ∧ it_key x ∉ cached p;
  pr_fakes x : x ∈ fakes → fake_item p x;
  pr_reals_nodup : NoDup (it_key <$> reals);
  pr_fakes_nodup : NoDup (it_key <$> fakes);
  pr_fakes_least : (λ x, (it_key x, it_freq x)) <$> fakes
                   = take (length fakes) (Smoother.accessTree (fakeBst p));
  pr_count : Z.of_nat (length reals) = B conf - F conf ∧ Z.of_nat (length fakes) = F conf;
  pr_reads : r = add_reads ((λ x, (it_loc x, it_key x)) <$> reals ++ fakes)
                   {| storage_keys := []; readBatchMap := ∅ |};
  pr_storage : storage_ok (storage_interface_ p4) ∧ server p4 = server p;
  pr_state : ∃ s4 st4, p4 = set_storage_interface_ st4 (set_runningKeys s4 (set_timeStamp (timeStamp p + 1)
                     (set_realBst (mark (it_key <$> reals) (timeStamp p + 1) (realBst p))
                        (set_fakeBst (mark (it_key <$> fakes) (timeStamp p + 1) (fakeBst p)) p))))
               ∧ grown (drop (length ks) (it_key <$> reals) ++ (it_key <$> fakes)) (runningKeys p) s4;
}.

(** Every free key of the tree is a real key that can be read. *)
Lemma free_spec (ks : list string) p p1 k :
  Cache.wf (cache p1) → EvictedItems.cacheMap (EvictedItems p1) = ∅ →
  cache p1 = cache p → (∀ k, RunningKeys.is_present k (runningKeys p1) = true ↔ k ∈ ks) →
  free p1 k = true ↔ k ∉ cached p ∧ k ∉ ks.
Proof.
  intros Hc He Hcp Hr. unfold free. rewrite (Cache.checkIfKeyExists_abs _ _ Hc).
  assert (EvictedItems.checkIfKeyExists k (EvictedItems p1) = false) as ->
    by (unfold EvictedItems.checkIfKeyExists; by rewrite He, lookup_empty).
  rewrite andb_true_r, andb_true_iff, !negb_true_iff, bool_decide_eq_false, in_lru_keys.
  unfold lru. rewrite Hcp, <- Hr. destruct (RunningKeys.is_present k (runningKeys p1)); naive_solver.
Qed.

Lemma wrap_u64_small z : 0 ≤ z < 2^64 → wrap_u64 z = z.
Proof. apply Z.mod_small. Qed.

Lemma fill_count_run ks p : batch_pre ks p → fill_count conf (length ks) = B conf - F conf - Z.of_nat (length ks).
Proof.
  intros Hp. destruct (bp_batch _ _ Hp). unfold fill_count.
  rewrite (wrap_u64_small (Z.of_nat (length ks) + F conf)) by lia. rewrite wrap_u64_small by lia. lia.
Qed.

Lemma mark_size ks t b :
  (∀ k, k ∈ ks → is_Some (Smoother.accessFreqs b !! k)) →
  size (Smoother.accessFreqs (mark ks t b)) = size (Smoother.accessFreqs b).
Proof.
  intros Hk. rewrite <- !size_dom. f_equal. apply set_eq. intros k. rewrite !elem_of_dom, mark_freqs.
  case_decide as Hd; [|done]. split; [intros _; by apply Hk|by eexists].
Qed.

(** The real keys picked to fill the batch up. *)
Lemma pick_run wr rd p ks t :
  pinv wr rd p → batch_pre ks p →
  let p1 := set_timeStamp t (set_realBst (mark ks t (realBst p)) p) in
  ∃ picked s2, pick_reals (B conf - F conf - Z.of_nat (length ks)) (Smoother.accessTree (realBst p1)) [] p1
      = (Done picked, set_runningKeys s2 p1)
    ∧ grown picked (runningKeys p) s2
    ∧ Z.of_nat (length picked) = B conf - F conf - Z.of_nat (length ks)
    ∧ NoDup (ks ++ picked) ∧ ∀ k, k ∈ picked → is_Some (freqs p !! k) ∧ k ∉ cached p.
Proof.
  intros Hi Hp p1.
  assert (∀ k, k ∈ ks → is_Some (freqs p !! k)) as Hks by (intros k Hk; by apply (bp_keys _ _ Hp)).
  destruct (mark_wf ks t (realBst p) (proj1 (pi_real _ _ _ Hi)) Hks) as [[Hwf1 _] _].
  set (tree := Smoother.accessTree (realBst p1)).
  pose proof (tree_keys_NoDup _ Hwf1 : NoDup tree.*1) as Hnd.
  assert (∀ k, free p1 k = true ↔ k ∉ cached p ∧ k ∉ ks) as Hfree
    by (intros k; apply free_spec; [apply Hi|apply Hi|done|apply (bp_running _ _ Hp)]).
  pose proof (free_enough (free p1) tree.*1 (cached p ++ ks) Hnd) as Henough.
  assert (length tree = size (freqs p)) as Hsize
    by (exact (eq_trans (tree_size _ Hwf1) (mark_size _ t _ Hks))).
  rewrite !length_fmap, length_app, length_fmap, Hsize in Henough.
  destruct (bp_batch _ _ Hp) as [HF HB]. pose proof (bp_reals _ _ Hp) as HR.
  set (n := B conf - F conf - Z.of_nat (length ks)) in *.
  set (fl := filter (λ k : string, free p1 k = true) tree.*1) in *.
  assert (n ≤ Z.of_nat (length fl)) as Hn.
  { assert (size (freqs p) ≤ length fl + (length (lru p) + length ks))%nat; [apply Henough|lia].
    intros k _ Hk. apply elem_of_app. destruct (decide (k ∈ cached p)); [by left|]. right.
    destruct (decide (k ∈ ks)); [done|]. exfalso. assert (free p1 k = true) by (by apply Hfree). congruence. }
  destruct (pick_reals_run n tree [] p1 Hnd) as (s2 & Hrun & Hgr); [simpl; fold fl; lia|].
  cbn [length] in Hrun, Hgr. rewrite Z.sub_0_r in Hrun, Hgr. fold fl in Hrun, Hgr.
  assert (∀ k, k ∈ take (Z.to_nat n) fl → free p1 k = true ∧ k ∈ tree.*1) as Hfl
    by (intros k Hk%elem_of_take_in; by apply list_elem_of_filter in Hk).
  exists (take (Z.to_nat n) fl), s2. split; [done|]. split; [done|].
  split; [rewrite length_take; lia|]. split.
  - apply NoDup_app. split; [apply Hp|]. split; [|eapply sublist_NoDup; [|apply sublist_take]; by apply NoDup_filter].
    intros k Hk [Hf _]%Hfl. by apply Hfree in Hf as [_ ?].
  - intros k [Hf Hin]%Hfl. split; [|by apply Hfree].
    apply list_elem_of_fmap in Hin as ([k' f] & -> & Hin). apply (Smoother.tree_agree _ Hwf1) in Hin.
    unfold p1 in Hin. cbn [realBst set_timeStamp set_realBst] in Hin. rewrite mark_freqs in Hin.
    destruct (decide (k' ∈ ks)); [by apply Hks|by eexists].
Qed.

(** The entries of the fake tree are all older than the new time stamp. *)
Lemma young_all wr rd p : pinv wr rd p → young (timeStamp p + 1) (fakeBst p) = Smoother.accessTree (fakeBst p).
Proof.
  intros Hi. apply list_filter_all. intros [k f] Hin. cbn.
  apply (Smoother.tree_agree _ (proj1 (proj1 (pi_fake _ _ _ Hi)))) in Hin.
  pose proof (pi_time _ _ _ Hi k f (or_intror Hin)). lia.
Qed.

Lemma read_list_eq p (items : list item) keys :
  it_key <$> items = keys → (∀ x, x ∈ items → real_item p x) →
  (λ k, (loc k (key_freq p k), k)) <$> keys = (λ x, (it_loc x, it_key x)) <$> items.
Proof.
  intros <- Hx. rewrite <- list_fmap_compose. apply list_fmap_ext. intros i x Hl%list_elem_of_lookup_2.
  destruct (Hx _ Hl) as [Hf _]. unfold key_freq. simpl. by rewrite Hf.
Qed.

Lemma fake_list_eq p (items : list item) chosen :
  Smoother.wf_tree (fakeBst p) → it_key <$> items = chosen.*1 → (∀ x, x ∈ items → fake_item p x) →
  (∀ kf, kf ∈ chosen → kf ∈ Smoother.accessTree (fakeBst p)) →
  (λ x, (it_key x, it_freq x)) <$> items = chosen.
Proof.
  intros Hwf. revert items. induction chosen as [|[k f] chosen IH]; intros [|x items] Hk Hx Hc; try done.
  rewrite !fmap_cons in *. injection Hk as Hk0 Hk. cbn in Hk0.
  rewrite (IH items); [|done|intros y Hy; apply Hx; by right|intros kf Hkf; apply Hc; by right].
  f_equal. destruct (Hx x) as [Hf _]; [by left|].
  assert ((k, f) ∈ Smoother.accessTree (fakeBst p)) as Hin by (apply Hc; by left).
  apply (Smoother.tree_agree _ Hwf) in Hin. unfold ffreqs in Hf. rewrite Hk0 in *. congruence.
Qed.

(** The fake keys that a batch reads: the least ones of their index *)
Local Abbreviation chosen p := (take (Z.to_nat (F conf)) (Smoother.accessTree (fakeBst p))).

Lemma chosen_known wr rd p k : pinv wr rd p → k ∈ (chosen p).*1 → is_Some (ffreqs p !! k).
Proof.
  intros Hi ([k' f] & -> & Hin%elem_of_take_in)%list_elem_of_fmap.
  apply (Smoother.tree_agree _ (proj1 (proj1 (pi_fake _ _ _ Hi)))) in Hin. by eexists.
Qed.

Lemma chosen_items wr rd p ks :
  pinv wr rd p → batch_pre ks p →
  ∃ fakes, it_key <$> fakes = (chosen p).*1 ∧ (∀ x, x ∈ fakes → fake_item p x)
    ∧ (λ x, (it_key x, it_freq x)) <$> fakes = chosen p ∧ length fakes = Z.to_nat (F conf).
Proof.
  intros Hi Hp. pose proof (proj1 (proj1 (pi_fake _ _ _ Hi))) as Hwff.
  destruct (fake_items _ _ _ (chosen p).*1 Hi) as (fakes & Hfkk & Hfitems); [intros k; by apply chosen_known with wr rd|].
  exists fakes. split; [done|]. split; [done|]. split; [by apply (fake_list_eq p); [..|intros kf; apply elem_of_take_in]|].
  apply (f_equal length) in Hfkk. rewrite !length_fmap in Hfkk. rewrite Hfkk, length_take.
  pose proof (bp_fakes _ _ Hp) as HF. pose proof (tree_size _ Hwff). unfold ffreqs in HF. lia.
Qed.

(** No fake key is running when the batch comes to it. *)
Lemma chosen_free wr rd p ks picked s k :
  pinv wr rd p → batch_pre ks p → (∀ k, k ∈ picked → is_Some (freqs p !! k)) → grown picked (runningKeys p) s →
  k ∈ (chosen p).*1 → RunningKeys.is_present k s = false.
Proof.
  intros Hi Hp Hpk Hgr [f Hf]%(chosen_known _ _ _ _ Hi).
  assert (¬ is_Some (freqs p !! k)) as Hk by (intros Hs%(pi_disjoint _ _ _ Hi); congruence).
  rewrite (grown_present _ _ _ Hgr), (bool_decide_eq_false_2 (k ∈ picked)), orb_false_r by auto.
  destruct (RunningKeys.is_present k (runningKeys p)) eqn:Hpr; [|done]. apply (bp_running _ _ Hp) in Hpr.
  by destruct Hk; apply (bp_keys _ _ Hp).
Qed.

(** The state of the proxy when all keys to read are known *)
Local Abbreviation marked ks picked s4 p :=
  (set_fakeBst (mark (chosen p).*1 (timeStamp p + 1) (fakeBst p)) (set_runningKeys s4
    (set_realBst (mark picked (timeStamp p + 1) (mark ks (timeStamp p + 1) (realBst p)))
      (set_timeStamp (timeStamp p + 1) p)))).

Lemma prepared_intro wr rd p ks picked s4 :
  pinv wr rd p → batch_pre ks p → NoDup (ks ++ picked) →
  (∀ k, k ∈ picked → is_Some (freqs p !! k) ∧ k ∉ cached p) →
  Z.of_nat (length picked) = B conf - F conf - Z.of_nat (length ks) →
  grown (picked ++ (chosen p).*1) (runningKeys p) s4 →
  ∃ reals fakes, length reals = length (ks ++ picked)
    ∧ prepared p ks reals fakes
        (add_reads ((λ kf, (loc kf.1 kf.2, kf.1)) <$> chosen p)
          (add_reads ((λ k, (loc k (key_freq p k), k)) <$> ks ++ picked) {| storage_keys := []; readBatchMap := ∅ |}))
        (marked ks picked s4 p).
Proof.
  intros Hi Hp Hnd Hpk Hcount Hgr.
  assert (∀ k, k ∈ ks ++ picked → is_Some (freqs p !! k) ∧ k ∉ cached p) as Hall
    by (intros k [Hk|Hk]%elem_of_app; [by apply (bp_keys _ _ Hp)|by apply Hpk]).
  destruct (real_items _ _ _ (ks ++ picked) Hi Hall) as (reals & Hrk & Hreals).
  destruct (chosen_items _ _ _ _ Hi Hp) as (fakes & Hfkk & Hfitems & Hpairs & Hlf).
  assert (length reals = length (ks ++ picked)) as Hlr by (by rewrite <- Hrk, length_fmap).
  exists reals, fakes. split; [done|]. split.
  - by exists picked.
  - intros x Hx. split; [by apply Hreals|]. apply (list_elem_of_fmap_2 it_key) in Hx. rewrite Hrk in Hx.
    by apply Hall.
  - done.
  - by rewrite Hrk.
  - rewrite Hfkk. eapply sublist_NoDup; [apply (tree_keys_NoDup _ (proj1 (proj1 (pi_fake _ _ _ Hi))))|].
    apply sublist_fmap_mono, sublist_take.
  - by rewrite Hpairs, Hlf.
  - destruct (bp_batch _ _ Hp). rewrite Hlr, Hlf, length_app. lia.
  - rewrite (fmap_app _ reals fakes), add_reads_app, <- (read_list_eq p reals _ Hrk Hreals). f_equal.
    by rewrite <- Hpairs, <- list_fmap_compose.
  - split; [apply Hi|reflexivity].
  - exists s4, (storage_interface_ p). rewrite Hrk, Hfkk, drop_app_length. split; [|done].
    unfold mark. rewrite fold_left_app. reflexivity.
Qed.

(** The first half of the loop: the keys of the operations are read. *)
Lemma read_operations_run wr rd p ks :
  pinv wr rd p → batch_pre ks p →
  modify (λ p, with_timeStamp (wrap32 (timeStamp p + 1)) p) p = (Done (), set_timeStamp (timeStamp p + 1) p)
  ∧ ∀ r, read_reals conf ks r (set_timeStamp (timeStamp p + 1) p)
    = (Done (add_reads ((λ k, (loc k (key_freq p k), k)) <$> ks) r),
       set_timeStamp (timeStamp p + 1) (set_realBst (mark ks (timeStamp p + 1) (realBst p)) p)).
Proof.
  intros Hi Hp. split.
  { unfold modify, with_timeStamp. rewrite wrap32_in_range; [done|]. pose proof (bp_clock _ _ Hp). lia. }
  intros r. rewrite read_reals_run; [done|apply Hi|apply Hp|]. intros k Hk. by apply (bp_keys _ _ Hp).
Qed.

(** The picked keys are read with the frequencies they had before the batch. *)
Lemma read_picked_run wr rd p ks picked s2 r :
  pinv wr rd p → NoDup (ks ++ picked) → (∀ k, k ∈ picked → is_Some (freqs p !! k)) →
  let p2 := set_runningKeys s2 (set_timeStamp (timeStamp p + 1) (set_realBst (mark ks (timeStamp p + 1) (realBst p)) p)) in
  read_reals conf picked r p2
  = (Done (add_reads ((λ k, (loc k (key_freq p k), k)) <$> picked) r),
     set_realBst (mark picked (timeStamp p + 1) (mark ks (timeStamp p + 1) (realBst p))) p2).
Proof.
  intros Hi (Hndk & Hdis & Hndp)%NoDup_app Hpk p2.
  assert (∀ k, k ∈ picked → freqs p2 !! k = freqs p !! k) as Hfr.
  { intros k Hk. unfold freqs, p2. cbn [realBst set_timeStamp set_realBst set_runningKeys]. rewrite mark_freqs.
    rewrite decide_False; [done|]. intros Hk'. by apply (Hdis k). }
  rewrite read_reals_run; [|apply Hi|done|intros k Hk; rewrite Hfr by done; by apply Hpk].
  erewrite list_fmap_ext; [reflexivity|]. intros i k Hk%list_elem_of_lookup_2. unfold key_freq. by rewrite (Hfr k Hk).
Qed.

Lemma read_phase_run wr rd p (operations : list operation) fuel :
  pinv wr rd p → batch_pre (op_key <$> operations) p → (Z.to_nat (F conf) ≤ fuel)%nat →
  ∃ reals fakes r p4, prepared p (op_key <$> operations) reals fakes r p4
    ∧ storage_interface_ p4 = storage_interface_ p
    ∧ read_phase conf fuel operations p = (Done (r, length reals), p4).
Proof.
  intros Hi Hp Hfuel. set (ks := op_key <$> operations) in *.
  assert (length operations = length ks) as Hlen by (unfold ks; by rewrite length_fmap).
  unfold read_phase. rewrite Hlen, (fill_count_run _ _ Hp). fold ks.
  destruct (read_operations_run _ _ _ _ Hi Hp) as [H0 Hreals].
  rewrite (mbind_run _ _ _ _ _ H0), (mbind_run _ _ _ _ _ (Hreals _)).
  unfold mbind at 1, M_bind at 1, get at 1.
  destruct (pick_run _ _ _ ks (timeStamp p + 1) Hi Hp) as (picked & s2 & Hpick & Hgr2 & Hcount & Hnd & Hpk).
  rewrite (mbind_run _ _ _ _ _ Hpick).
  assert (∀ k, k ∈ picked → is_Some (freqs p !! k)) as Hpk' by (intros k Hk; by apply Hpk).
  rewrite (mbind_run _ _ _ _ _ (read_picked_run _ _ _ _ _ _ _ Hi Hnd Hpk')), <- add_reads_app, <- fmap_app.
  set (r2 := add_reads _ _). set (p3 := set_realBst _ _).
  pose proof (proj1 (proj1 (pi_fake _ _ _ Hi))) as Hwff. destruct (bp_batch _ _ Hp) as [HF0 _].
  pose proof (read_fakes_run conf fuel 0 r2 p3 (pi_crypt _ _ _ Hi) Hwff HF0) as Hfk.
  change (timeStamp p3) with (timeStamp p + 1) in Hfk. change (fakeBst p3) with (fakeBst p) in Hfk.
  rewrite (young_all _ _ _ Hi), Z.sub_0_r in Hfk.
  destruct Hfk as (s4 & Hfakes & Hgr4); [rewrite (tree_size _ Hwff); by apply (bp_fakes _ _ Hp)|done| |].
  { intros k. by apply (chosen_free wr rd p ks picked). }
  rewrite (mbind_run _ _ _ _ _ Hfakes).
  destruct (prepared_intro _ _ _ _ _ s4 Hi Hp Hnd Hpk Hcount (grown_trans _ _ _ _ _ Hgr2 Hgr4))
    as (reals & fakes & Hlr & Hpr).
  exists reals, fakes. eexists _, _. split; [exact Hpr|]. split; [done|]. by rewrite Hlr, length_app.
Qed.

(** ** The state between the two halves *)
Section halves.
Context (wr rd : gset string) (p : proxy) (ks : list string) (reals fakes : list item) (r : reads) (p4 : proxy).
Hypotheses (Hi : pinv wr rd p) (Hp : batch_pre ks p) (Hpr : prepared p ks reals fakes r p4).

Local Abbreviation t := (timeStamp p + 1).
Local Abbreviation items := (reals ++ fakes).

Lemma real_known x : x ∈ reals → key_ok (it_key x) ∧ is_Some (freqs p !! it_key x).
Proof.
  intros [[Hf _] _]%(pr_reals _ _ _ _ _ _ Hpr). split; [|by eexists].
  apply (pi_known _ _ _ Hi). left. by eexists.
Qed.

Lemma fake_known x : x ∈ fakes → key_ok (it_key x) ∧ is_Some (ffreqs p !! it_key x).
Proof.
  intros [Hf _]%(pr_fakes _ _ _ _ _ _ Hpr). split; [|by eexists].
  apply (pi_known _ _ _ Hi). right. by eexists.
Qed.

Lemma real_not_fake k : is_Some (freqs p !! k) → k ∉ it_key <$> fakes.
Proof.
  intros Hk (x & -> & Hx)%list_elem_of_fmap. destruct (fake_known x Hx) as [_ [f Hf]].
  rewrite (pi_disjoint _ _ _ Hi _ Hk) in Hf. done.
Qed.

Lemma item_known x : x ∈ items → ok_name (it_key x) (it_freq x).
Proof.
  intros [Hx|Hx]%elem_of_app; apply (known_ok _ _ _ _ _ Hi); [left|right].
  - by apply (pr_reals _ _ _ _ _ _ Hpr x Hx).
  - by apply (pr_fakes _ _ _ _ _ _ Hpr x Hx).
Qed.

(** The new time stamp *)
Lemma new_name_ok k : key_ok k → ok_name k t.
Proof. intros Hk. split; [done|]. pose proof (bp_clock _ _ Hp). lia. Qed.

Lemma items_keys_NoDup : NoDup (it_key <$> items).
Proof.
  rewrite fmap_app. apply NoDup_app. split; [apply Hpr|]. split; [|apply Hpr].
  intros k (x & -> & Hx)%list_elem_of_fmap. by apply real_not_fake, real_known.
Qed.

Lemma NoDup_locs {A} (key : A → string) (l : list A) (f : A → Z) :
  (∀ x, x ∈ l → ok_name (key x) (f x)) → NoDup (key <$> l) → NoDup ((λ x, loc (key x) (f x)) <$> l).
Proof.
  induction l as [|x l IH]; intros Hk Hnd; [constructor|]. rewrite !fmap_cons in *.
  apply NoDup_cons in Hnd as [Hni Hnd]. constructor; [|apply IH; [intros y Hy; apply Hk; by right|done]].
  intros (y & Heq & Hy)%list_elem_of_fmap. apply loc_inj in Heq as [Heq _]; [|apply Hk; by left|apply Hk; by right].
  apply Hni. rewrite Heq. by apply list_elem_of_fmap_2.
Qed.

Lemma items_locs_NoDup : NoDup (it_loc <$> items).
Proof. apply NoDup_locs; [apply item_known|apply items_keys_NoDup]. Qed.

Lemma item_stored x :
  x ∈ items → server p !! it_loc x = Some (it_cipher x) ∧ cipher_of (it_cipher x) (it_value x) ∧ it_loc x ∉ rd.
Proof.
  intros [Hx|Hx]%elem_of_app.
  - destruct (pr_reals _ _ _ _ _ _ Hpr x Hx) as [(Hf & _ & Hs & Hc) Hn].
    split; [done|]. split; [done|]. by apply (pi_stored _ _ _ Hi _ _ Hf).
  - destruct (pr_fakes _ _ _ _ _ _ Hpr x Hx) as (Hf & Hs & Hc).
    split; [done|]. split; [done|]. by apply (pi_stored_fake _ _ _ Hi _ _ Hf).
Qed.

Lemma item_written x : x ∈ items → it_loc x ∈ wr.
Proof.
  intros Hx. apply (pi_server _ _ _ Hi), elem_of_dom. destruct (item_stored x Hx) as (-> & _). by eexists.
Qed.

(** A name with the new time stamp is new. *)
Lemma loc_new k : key_ok k → loc k t ∉ wr.
Proof.
  intros Hk (k' & f & Hk' & Heq & Hle)%(pi_written _ _ _ Hi). pose proof (pi_clock _ _ _ Hi).
  apply loc_inj in Heq as [_ <-]; [lia|by apply new_name_ok|split; [done|lia]].
Qed.

Lemma p4_same :
  keys_to_be_deleted p4 = keys_to_be_deleted p ∧ cache p4 = cache p ∧ EvictedItems p4 = EvictedItems p
  ∧ timeStamp p4 = t ∧ encryption_engine_ p4 = encryption_engine_ p
  ∧ keysNotUsed p4 = keysNotUsed p.
Proof. destruct (pr_state _ _ _ _ _ _ Hpr) as (s4 & st4 & Heq & _). by rewrite Heq. Qed.

Lemma p4_freqs k : freqs p4 !! k = if decide (k ∈ it_key <$> reals) then Some t else freqs p !! k.
Proof. destruct (pr_state _ _ _ _ _ _ Hpr) as (s4 & st4 & Heq & _). rewrite Heq. apply mark_freqs. Qed.

Lemma p4_ffreqs k : ffreqs p4 !! k = if decide (k ∈ it_key <$> fakes) then Some t else ffreqs p !! k.
Proof. destruct (pr_state _ _ _ _ _ _ Hpr) as (s4 & st4 & Heq & _). rewrite Heq. apply mark_freqs. Qed.

Lemma p4_freqs_known k : is_Some (freqs p4 !! k) ↔ is_Some (freqs p !! k).
Proof.
  rewrite p4_freqs. case_decide as Hk; [|done]. split; [|by eexists]. intros _.
  apply list_elem_of_fmap in Hk as (x & -> & Hx). by apply real_known.
Qed.

Lemma p4_real : real_ok p4.
Proof.
  destruct (pr_state _ _ _ _ _ _ Hpr) as (s4 & st4 & Heq & _). rewrite Heq. destruct (pi_real _ _ _ Hi) as [Hw Hn].
  destruct (mark_wf (it_key <$> reals) t (realBst p) Hw) as [H1 H2].
  - intros k (x & -> & Hx)%list_elem_of_fmap. by apply real_known.
  - split; [done|]. by rewrite <- Hn.
Qed.

Lemma p4_fake : Smoother.wf (fakeBst p4) ∧ Smoother.needTimeStamp (fakeBst p4) = false.
Proof.
  destruct (pr_state _ _ _ _ _ _ Hpr) as (s4 & st4 & Heq & _). rewrite Heq. destruct (pi_fake _ _ _ Hi) as [Hw Hn].
  destruct (mark_wf (it_key <$> fakes) t (fakeBst p) Hw) as [H1 H2].
  - intros k (x & -> & Hx)%list_elem_of_fmap. by apply fake_known.
  - split; [done|]. by rewrite <- Hn.
Qed.

(** The reads are answered with the cipher texts of the items. *)
Lemma get_batch_run :
  storage_keys r = it_loc <$> items
  ∧ ∃ st, storage_get_batch (storage_keys r) (storage_interface_ p4) = (Done (it_cipher <$> items), st)
          ∧ prepared p ks reals fakes r (set_storage_interface_ st p4).
Proof.
  assert (storage_keys r = it_loc <$> items) as Hk.
  { rewrite (pr_reads _ _ _ _ _ _ Hpr), add_reads_keys. simpl. by rewrite <- list_fmap_compose. }
  split; [done|]. rewrite Hk. destruct (pr_storage _ _ _ _ _ _ Hpr) as [Hok Hs].
  destruct (storage_get_batch_ok (storage_interface_ p4) (it_loc <$> items) (it_cipher <$> items) Hok)
    as (st & Hget & Hok' & Hc).
  - apply mapM_Some. apply Forall2_fmap_l, Forall2_fmap_r, Forall_Forall2_diag, Forall_forall.
    intros x Hx. fold (server p4). rewrite Hs. by apply item_stored.
  - exists st. split; [done|]. destruct Hpr as [A1 A2 A3 A4 A5 A6 A7 A8 A9 (s4 & st4 & -> & Hg)].
    split; try done; [|by exists s4, st]. split; [done|]. unfold server in *. cbn in *. by rewrite Hc.
Qed.

Lemma item_lookup x : x ∈ items → readBatchMap r !! it_loc x = Some (it_key x).
Proof.
  intros Hx. rewrite (pr_reads _ _ _ _ _ _ Hpr). apply add_reads_map.
  - rewrite <- list_fmap_compose. apply items_locs_NoDup.
  - apply list_elem_of_fmap. by exists x.
Qed.

Lemma doomed_le (del l : list string) : NoDup l → (doomed del l ≤ length del)%nat.
Proof.
  intros Hnd. apply submseteq_length, NoDup_submseteq; [by apply NoDup_filter|].
  by intros k [Hk _]%list_elem_of_filter.
Qed.

Lemma kvs_keys (l : list item) : (it_pair <$> l).*1 = it_key <$> l.
Proof. by rewrite <- list_fmap_compose. Qed.

Lemma p4_reads_ok : reads_ok p4 (it_pair <$> reals).
Proof.
  destruct p4_same as (Hd & Hc & _). split; rewrite ?kvs_keys.
  - apply Hpr.
  - intros k (x & -> & Hx)%list_elem_of_fmap. unfold lru. rewrite Hc. by apply (pr_reals _ _ _ _ _ _ Hpr).
  - intros k v (x & [= -> ->] & Hx)%list_elem_of_fmap.
    by destruct (pr_reals _ _ _ _ _ _ Hpr x Hx) as [(_ & ? & _) _].
  - unfold lru. rewrite Hd, Hc. pose proof (doomed_le (keys_to_be_deleted p) _ (pr_reals_nodup _ _ _ _ _ _ Hpr)).
    pose proof (bp_slack _ _ Hp). unfold lru in *. lia.
Qed.

Lemma mid_start : mid p4 (it_pair <$> reals) (it_key <$> reals) p4 no_writes [].
Proof.
  destruct p4_same as (Hd & Hc & He & Ht & Hen & Hn).
  assert (cached p4 = cached p) as Hcp by (unfold lru; by rewrite Hc).
  split; rewrite ?kvs_keys.
  - apply same_rest_refl.
  - rewrite Hen. apply Hi.
  - apply p4_real.
  - rewrite Hc. apply Hi.
  - done.
  - intros k. rewrite He, (pi_evicted _ _ _ Hi), lookup_empty. by intros [??].
  - constructor.
  - intros e Hin. by apply not_elem_of_nil in Hin.
  - intros k v Hin. unfold in_lru, lru in Hin. rewrite Hc in Hin.
    destruct (pi_cached _ _ _ Hi k v Hin) as (Hf & Hst & _). split; [by apply p4_freqs_known|done].
  - intros k (x & -> & Hx)%list_elem_of_fmap. rewrite Hcp. split; [by apply p4_freqs_known, real_known|].
    by apply (pr_reals _ _ _ _ _ _ Hpr).
  - intros k. destruct (decide (k ∈ it_key <$> reals)); tauto.
  - intros k. rewrite decide_False by tauto. done.
  - intros k v [?|Hin] Hk; [by left|]. destruct Hk. apply (list_elem_of_fmap_2 fst) in Hin.
    by rewrite kvs_keys in Hin.
  - intros k v [?|(e & He' & _)]; [by left|]. by apply not_elem_of_nil in He'.
  - done.
  - simpl. by rewrite !length_fmap.
  - intros k v. cbn [promiseSatisfy no_writes]. rewrite lookup_empty. split; [done|]. intros [Hin Hk]. destruct Hk.
    apply (list_elem_of_fmap_2 fst) in Hin. by rewrite kvs_keys in Hin.
Qed.

(** * After the exchange *)
Context (p5 : proxy) (w5 : writes) (evs : list eviction).
Hypothesis Hmid : mid p4 (it_pair <$> reals) [] p5 w5 evs.

Lemma keys_before k : is_Some (freqs p5 !! k) → is_Some (freqs p !! k).
Proof.
  rewrite (mid_freqs _ _ _ _ _ _ Hmid). case_decide; [by intros [??]|]. by apply p4_freqs_known.
Qed.

(** A real key whose value has passed through the proxy has a new name. *)
Lemma fresh_loc k f v :
  in_lru p4 k v ∨ (k, v) ∈ it_pair <$> reals → freqs p5 !! k = Some f → loc k f ∉ wr ∧ 0 ≤ f ≤ t.
Proof.
  intros Hv Hf. assert (key_ok k) as Hk by (apply (pi_known _ _ _ Hi); left; apply keys_before; by eexists).
  rewrite (mid_freqs _ _ _ _ _ _ Hmid) in Hf. case_decide; [done|]. rewrite p4_freqs in Hf.
  destruct (decide (k ∈ it_key <$> reals)) as [Hr|Hr]; [injection Hf as <-; pose proof (bp_clock _ _ Hp); split; [by apply loc_new|lia]|].
  destruct Hv as [Hv|Hv].
  - destruct p4_same as (_ & Hc & _). unfold in_lru, lru in Hv. rewrite Hc in Hv.
    destruct (pi_cached _ _ _ Hi k v Hv) as (_ & _ & Hw). split; [by apply Hw|].
    pose proof (pi_time _ _ _ Hi k f (or_introl Hf)). lia.
  - destruct Hr. apply (list_elem_of_fmap_2 fst) in Hv. by rewrite kvs_keys in Hv.
Qed.

Lemma evicted_known e : e ∈ evs →
  ok_name (ev_key e) (ev_freq e) ∧ is_Some (freqs p !! ev_key e) ∧ loc (ev_key e) (ev_freq e) ∉ wr
  ∧ 0 ≤ ev_freq e ≤ t.
Proof.
  intros He. destruct (mid_evs _ _ _ _ _ _ Hmid e He) as (Hf & _).
  assert (is_Some (freqs p !! ev_key e)) as Hk by (apply keys_before; by eexists).
  assert (loc (ev_key e) (ev_freq e) ∉ wr ∧ 0 ≤ ev_freq e ≤ t) as [Hn Hle].
  { apply (fresh_loc _ _ (ev_value e)); [|done]. apply (mid_sound _ _ _ _ _ _ Hmid). right. by exists e. }
  split; [split; [apply (pi_known _ _ _ Hi); by left|]|done]. pose proof (bp_clock _ _ Hp). lia.
Qed.

(** The locations read and written. *)
Definition read_locs : list string := it_loc <$> items.
Definition write_locs : list string :=
  ((λ e, loc (ev_key e) (ev_freq e)) <$> evs) ++ ((λ x, loc (it_key x) t) <$> fakes).

Lemma write_locs_new x : x ∈ write_locs →
  x ∉ wr ∧ ∃ k f, key_ok k ∧ x = loc k f ∧ 0 ≤ f ≤ t.
Proof.
  intros [(e & -> & He)%list_elem_of_fmap|(i & -> & Hx)%list_elem_of_fmap]%elem_of_app.
  - destruct (evicted_known e He) as ([Hk _] & _ & Hn & Hle). split; [done|]. by eexists _, _.
  - destruct (fake_known i Hx) as [Hk _]. pose proof (bp_clock _ _ Hp). split; [by apply loc_new|].
    eexists _, _. split; [done|]. split; [done|lia].
Qed.

Lemma write_locs_known x : x ∈ write_locs →
  ∃ k f, x = loc k f ∧ ok_name k f ∧ (is_Some (freqs p !! k) ∨ is_Some (ffreqs p !! k)).
Proof.
  intros [(e & -> & He)%list_elem_of_fmap|(i & -> & Hx)%list_elem_of_fmap]%elem_of_app.
  - destruct (evicted_known e He) as (Hk & Hf & _). exists (ev_key e), (ev_freq e). split; [done|]. split; [done|by left].
  - destruct (fake_known i Hx) as [Hk Hf]. exists (it_key i), t. split; [done|]. split; [by apply new_name_ok|by right].
Qed.

Lemma write_locs_NoDup : NoDup write_locs.
Proof.
  apply NoDup_app. split; [|split].
  - apply NoDup_locs; [intros e He; by apply evicted_known|apply Hmid].
  - intros x (e & -> & He)%list_elem_of_fmap (i & Heq & Hx)%list_elem_of_fmap.
    destruct (evicted_known e He) as (Hk & Hf & _). apply loc_inj in Heq as [Heq _]; [|done|by apply new_name_ok, fake_known].
    apply (real_not_fake _ Hf). rewrite Heq. by apply list_elem_of_fmap_2.
  - apply (NoDup_locs it_key fakes (λ _, t)); [intros x Hx; by apply new_name_ok, fake_known|apply Hpr].
Qed.

Lemma locs_length : Z.of_nat (length read_locs) = B conf ∧ Z.of_nat (length write_locs) = B conf.
Proof.
  destruct (pr_count _ _ _ _ _ _ Hpr) as [Hr Hf]. pose proof (mid_count _ _ _ _ _ _ Hmid) as Hc.
  rewrite length_fmap in Hc. cbn [length] in Hc. unfold read_locs, write_locs.
  rewrite length_fmap, !length_app, !length_fmap. lia.
Qed.

Lemma read_locs_old x : x ∈ read_locs → x ∈ wr ∧ x ∉ rd.
Proof.
  intros (i & -> & Hx)%list_elem_of_fmap. split; [by apply item_written|]. by apply item_stored.
Qed.

(** The state when the writes have reached the server. *)
Record ended (cws : list string) p' : Prop := {
  end_realBst : realBst p' = realBst p5;
  end_cache : cache p' = cache p5;
  end_delete : keys_to_be_deleted p' = keys_to_be_deleted p5;
  end_fakeBst : fakeBst p' = fakeBst p4;
  end_time : timeStamp p' = t;
  end_evicted : EvictedItems.cacheMap (EvictedItems p') = ∅;
  end_storage : storage_ok (storage_interface_ p');
  end_crypt : crypt_ok (encryption_engine_ p');
  end_length : length cws = length fakes;
  end_ciphers c : c ∈ cws → ∃ v, cipher_of c v;
  end_server : server p' = store_all (((λ e, (loc (ev_key e) (ev_freq e), ev_cipher e)) <$> evs)
                                      ++ zip ((λ x, loc (it_key x) t) <$> fakes) cws) (server p);
}.

Context (cws : list string) (p' : proxy).
Hypothesis He : ended cws p'.

Lemma written_keys' (cs : list string) : length cs = length fakes →
  (((λ e, (loc (ev_key e) (ev_freq e), ev_cipher e)) <$> evs) ++ zip ((λ x, loc (it_key x) t) <$> fakes) cs).*1
  = write_locs.
Proof.
  intros Hl. rewrite fmap_app, <- list_fmap_compose. unfold write_locs. f_equal. apply fst_zip.
  by rewrite length_fmap, Hl.
Qed.

Lemma written_keys :
  (((λ e, (loc (ev_key e) (ev_freq e), ev_cipher e)) <$> evs) ++ zip ((λ x, loc (it_key x) t) <$> fakes) cws).*1
  = write_locs.
Proof. apply written_keys'. apply He. Qed.

Lemma server_kept x : x ∉ write_locs → server p' !! x = server p !! x.
Proof. intros Hx. rewrite (end_server _ _ He). apply store_all_other. by rewrite written_keys. Qed.

Lemma server_evicted e : e ∈ evs → server p' !! loc (ev_key e) (ev_freq e) = Some (ev_cipher e).
Proof.
  intros Hin. rewrite (end_server _ _ He). apply store_all_lookup.
  - rewrite written_keys. apply write_locs_NoDup.
  - apply elem_of_app. left. apply list_elem_of_fmap. by exists e.
Qed.

Lemma server_fake x : x ∈ fakes → ∃ c v, server p' !! loc (it_key x) t = Some c ∧ cipher_of c v.
Proof.
  intros [i Hl]%list_elem_of_lookup_1. destruct (lookup_lt_is_Some_2 cws i) as [c Hc].
  { rewrite (end_length _ _ He). by eapply lookup_lt_Some. }
  destruct (end_ciphers _ _ He c) as [v Hv]; [by eapply list_elem_of_lookup_2|].
  exists c, v. split; [|done]. rewrite (end_server _ _ He). apply store_all_lookup.
  - rewrite written_keys. apply write_locs_NoDup.
  - apply elem_of_app. right. apply list_elem_of_lookup. exists i. apply lookup_zip_with_Some.
    exists (loc (it_key x) t), c. split; [done|]. by rewrite list_lookup_fmap, Hl.
Qed.

Lemma end_freqs : freqs p' = freqs p5.
Proof. unfold freqs. by rewrite (end_realBst _ _ He). Qed.
Lemma end_ffreqs : ffreqs p' = ffreqs p4.
Proof. unfold ffreqs. by rewrite (end_fakeBst _ _ He). Qed.
Lemma end_lru : lru p' = lru p5.
Proof. unfold lru. by rewrite (end_cache _ _ He). Qed.
Lemma start_lru : lru p4 = lru p.
Proof. unfold lru. destruct p4_same as (_ & -> & _). done. Qed.

(** A value that passed through the proxy is in the cache or on the server. *)
Lemma passed_value k v :
  in_lru p k v ∨ (k, v) ∈ it_pair <$> reals →
  value_of p' k v ∨ (freqs p' !! k = None ∧ k ∈ keys_to_be_deleted p ∧ k ∈ it_key <$> reals).
Proof.
  intros Hv. assert (in_lru p4 k v ∨ (k, v) ∈ it_pair <$> reals) as Hv4 by (unfold in_lru; by rewrite start_lru).
  destruct (mid_value _ _ _ _ _ _ Hmid k v Hv4) as [Hl|[(e & Hin & <- & <-)|[Hd Hr]]].
  - apply not_elem_of_nil.
  - left. left. unfold in_lru. by rewrite end_lru.
  - left. right. destruct (mid_evs _ _ _ _ _ _ Hmid e Hin) as (Hf & Hc & _ & Hn & _). rewrite end_lru.
    split; [done|]. exists (ev_freq e). rewrite end_freqs. split; [done|]. exists (ev_cipher e).
    split; [by apply server_evicted|done].
  - right. rewrite end_freqs, (mid_freqs _ _ _ _ _ _ Hmid). rewrite kvs_keys in *.
    destruct p4_same as (Hdel & _). rewrite <- Hdel. split; [|done]. rewrite decide_True; [done|].
    split; [done|]. split; [done|]. apply not_elem_of_nil.
Qed.

Lemma untouched_freq k : k ∉ it_key <$> reals → freqs p' !! k = freqs p !! k.
Proof.
  intros Hk. rewrite end_freqs, (mid_freqs _ _ _ _ _ _ Hmid), kvs_keys, p4_freqs.
  rewrite decide_False by tauto. by rewrite decide_False.
Qed.

Lemma passed_or_not k :
  (k ∈ cached p ∨ k ∈ it_key <$> reals → ∃ v, storable v ∧ (in_lru p k v ∨ (k, v) ∈ it_pair <$> reals)).
Proof.
  intros [[v Hv]%in_lru_keys|(x & -> & Hx)%list_elem_of_fmap].
  - exists v. split; [by apply (pi_cached _ _ _ Hi k v Hv)|by left].
  - exists (it_value x). destruct (pr_reals _ _ _ _ _ _ Hpr x Hx) as [(_ & Hs & _) _]. split; [done|].
    right. apply list_elem_of_fmap. by exists x.
Qed.

(** A key that did not pass through the proxy stays where it is. *)
Lemma stays k f : k ∉ cached p → k ∉ it_key <$> reals → freqs p !! k = Some f →
  freqs p' !! k = Some f ∧ k ∉ cached p' ∧ loc k f ∉ read_locs ∧ server p' !! loc k f = server p !! loc k f.
Proof.
  intros Hc Hr Hf. pose proof (known_ok _ _ _ _ _ Hi (or_introl Hf)) as Hk.
  split; [by rewrite untouched_freq|]. split; [|split].
  - rewrite end_lru. intros [v Hv]%in_lru_keys.
    destruct (mid_sound _ _ _ _ _ _ Hmid k v (or_introl Hv)) as [Hv'|Hv'].
    + apply Hc, in_lru_keys. unfold in_lru in Hv'. rewrite start_lru in Hv'. by eexists.
    + apply Hr. apply (list_elem_of_fmap_2 fst) in Hv'. by rewrite kvs_keys in Hv'.
  - intros (x & Heq & Hx)%list_elem_of_fmap. apply loc_inj in Heq as [Heq _]; [|done|by apply item_known].
    apply elem_of_app in Hx as [Hx|Hx].
    + apply Hr. rewrite Heq. by apply list_elem_of_fmap_2.
    + apply (real_not_fake k); [by eexists|]. rewrite Heq. by apply list_elem_of_fmap_2.
  - apply server_kept. intros [Hn _]%write_locs_new. apply Hn, (pi_server _ _ _ Hi), elem_of_dom.
    destruct (pi_stored _ _ _ Hi k f Hf Hc) as (_ & v & _ & c & -> & _). by eexists.
Qed.

(** Values survive the batch. *)
Lemma value_survives k v :
  value_of p k v →
  value_of p' k v ∨ (freqs p' !! k = None ∧ k ∈ keys_to_be_deleted p ∧ k ∈ it_key <$> reals).
Proof.
  intros [Hv|(Hc & f & Hf & c & Hs & Hv)]; [by apply passed_value; left|].
  destruct (decide (k ∈ it_key <$> reals)) as [(x & -> & Hx)%list_elem_of_fmap|Hr].
  - apply passed_value. right. apply list_elem_of_fmap. exists x. split; [|done]. unfold it_pair. f_equal.
    destruct (pr_reals _ _ _ _ _ _ Hpr x Hx) as [(Hf' & _ & Hs' & Hv') _]. rewrite Hf in Hf'. injection Hf' as ->.
    unfold it_loc in Hs'. rewrite Hs in Hs'. injection Hs' as ->. by eapply cipher_unique; [apply Hi|..].
  - destruct (stays k f Hc Hr Hf) as (Hf' & Hc' & _ & Hs'). left. right. split; [done|]. exists f. split; [done|].
    exists c. by rewrite Hs'.
Qed.

Local Abbreviation wr' := (wr ∪ list_to_set write_locs).
Local Abbreviation rd' := (rd ∪ list_to_set read_locs).

Lemma old_not_read x : x ∉ wr → x ∉ rd'.
Proof.
  intros Hx [Hr|Hr%elem_of_list_to_set]%elem_of_union; [by apply Hx, (pi_read _ _ _ Hi)|].
  by apply Hx, read_locs_old.
Qed.

Lemma end_cached k v : in_lru p' k v →
  is_Some (freqs p' !! k) ∧ storable v ∧ ∀ f, freqs p' !! k = Some f → loc k f ∉ wr'.
Proof.
  unfold in_lru. rewrite end_lru, end_freqs. intros Hv.
  destruct (mid_lru _ _ _ _ _ _ Hmid k v Hv) as [Hf Hs]. split; [done|]. split; [done|].
  assert (∀ f, freqs p5 !! k = Some f → ok_name k f) as Hok.
  { intros f Hf'. destruct (fresh_loc k f v (mid_sound _ _ _ _ _ _ Hmid k v (or_introl Hv)) Hf') as [_ Hle].
    split; [apply (pi_known _ _ _ Hi); left; by apply keys_before|]. pose proof (bp_clock _ _ Hp). lia. }
  intros f Hf' [Hw|Hw%elem_of_list_to_set]%elem_of_union.
  - destruct (fresh_loc k f v (mid_sound _ _ _ _ _ _ Hmid k v (or_introl Hv)) Hf') as [Hn _]. by apply Hn.
  - apply elem_of_app in Hw as [(e & Heq & Hin)%list_elem_of_fmap|(x & Heq & Hin)%list_elem_of_fmap].
    + apply loc_inj in Heq as [-> _]; [|by apply Hok|by apply evicted_known].
      destruct (mid_evs _ _ _ _ _ _ Hmid e Hin) as (_ & _ & _ & Hn & _). apply Hn, in_lru_keys. by eexists.
    + apply loc_inj in Heq as [-> _]; [|by apply Hok|by apply new_name_ok, fake_known].
      apply (real_not_fake (it_key x)); [by apply keys_before|]. by apply list_elem_of_fmap_2.
Qed.

Lemma end_stored k f : freqs p' !! k = Some f → k ∉ cached p' →
  loc k f ∉ rd' ∧ ∃ v, storable v ∧ on_server p' k f v.
Proof.
  intros Hf Hc. destruct (decide (k ∈ cached p ∨ k ∈ it_key <$> reals)) as [Hp0|Hp0].
  - destruct (passed_or_not k Hp0) as (v & Hs & Hv). split.
    + apply old_not_read. rewrite end_freqs in Hf. apply (fresh_loc k f v); [|done].
      unfold in_lru. by rewrite start_lru.
    + exists v. split; [done|]. destruct (passed_value k v Hv) as [[Hl|(_ & f' & Hf' & Hs')]|[Hn _]].
      * destruct Hc. apply in_lru_keys. by eexists.
      * rewrite Hf in Hf'. by injection Hf' as <-.
      * congruence.
  - assert (freqs p !! k = Some f) as Hf0 by (rewrite <- untouched_freq by tauto; done).
    destruct (stays k f) as (_ & _ & Hr & Hs); [tauto..|done|].
    destruct (pi_stored _ _ _ Hi k f Hf0) as (Hrd & v & Hst & c & Hsc & Hcv); [tauto|]. split.
    + intros [?|?%elem_of_list_to_set]%elem_of_union; done.
    + exists v. split; [done|]. exists c. by rewrite Hs.
Qed.

Lemma end_stored_fake k f : ffreqs p' !! k = Some f → loc k f ∉ rd' ∧ ∃ v, on_server p' k f v.
Proof.
  rewrite end_ffreqs, p4_ffreqs. destruct (decide (k ∈ it_key <$> fakes)) as [Hk|Hk].
  - intros [= <-]. apply list_elem_of_fmap in Hk as (x & -> & Hx). split.
    + apply old_not_read, loc_new. by apply fake_known.
    + destruct (server_fake x Hx) as (c & v & Hs & Hv). by exists v, c.
  - intros Hf. destruct (pi_stored_fake _ _ _ Hi k f Hf) as (Hr & v & c & Hs & Hv).
    pose proof (known_ok _ _ _ _ _ Hi (or_intror Hf)) as Hko. split.
    + intros [?|(x & Heq & Hx)%elem_of_list_to_set%list_elem_of_fmap]%elem_of_union; [done|].
      apply loc_inj in Heq as [-> _]; [|done|by apply item_known]. apply elem_of_app in Hx as [Hx|Hx].
      * destruct (real_known x Hx) as [_ Hr']. rewrite (pi_disjoint _ _ _ Hi _ Hr') in Hf. done.
      * apply Hk. by apply list_elem_of_fmap_2.
    + exists v, c. split; [|done]. rewrite server_kept; [done|]. intros [Hn _]%write_locs_new.
      apply Hn, (pi_server _ _ _ Hi), elem_of_dom. by eexists.
Qed.

Lemma ended_ffreqs_known k : is_Some (ffreqs p' !! k) → is_Some (ffreqs p !! k).
Proof.
  rewrite end_ffreqs, p4_ffreqs. case_decide as Hk; [|done]. intros _.
  apply list_elem_of_fmap in Hk as (x & -> & Hx). by apply fake_known.
Qed.

Lemma ended_freqs_known k : is_Some (freqs p' !! k) → is_Some (freqs p !! k).
Proof. rewrite end_freqs. apply keys_before. Qed.

Lemma ended_time k f : freqs p' !! k = Some f ∨ ffreqs p' !! k = Some f → 0 ≤ f ≤ t.
Proof.
  intros [Hf|Hf].
  - destruct (decide (k ∈ cached p ∨ k ∈ it_key <$> reals)) as [Hp0|Hp0].
    + destruct (passed_or_not k Hp0) as (v & _ & Hv). rewrite end_freqs in Hf. apply (fresh_loc k f v); [|done].
      unfold in_lru. by rewrite start_lru.
    + rewrite untouched_freq in Hf by tauto. pose proof (pi_time _ _ _ Hi k f (or_introl Hf)). lia.
  - rewrite end_ffreqs, p4_ffreqs in Hf. pose proof (bp_clock _ _ Hp).
    case_decide; [injection Hf as <-; lia|].
    pose proof (pi_time _ _ _ Hi k f (or_intror Hf)). lia.
Qed.

Lemma ended_inv : pinv wr' rd' p'.
Proof.
  split.
  - unfold real_ok. rewrite (end_realBst _ _ He). apply Hmid.
  - rewrite (end_fakeBst _ _ He). apply p4_fake.
  - rewrite (end_cache _ _ He). apply Hmid.
  - apply He.
  - intros k [Hk%ended_freqs_known|Hk%ended_ffreqs_known]; apply (pi_known _ _ _ Hi); tauto.
  - intros k Hk%ended_freqs_known. apply eq_None_not_Some. intros [f Hf]%ended_ffreqs_known.
    rewrite (pi_disjoint _ _ _ Hi k Hk) in Hf. done.
  - apply end_cached.
  - apply end_stored.
  - apply end_stored_fake.
  - intros k f Hf. rewrite (end_time _ _ He). by apply (ended_time k).
  - rewrite (end_time _ _ He). pose proof (bp_clock _ _ Hp). lia.
  - intros x. rewrite (end_time _ _ He). intros [Hx|Hx%elem_of_list_to_set]%elem_of_union.
    + destruct (pi_written _ _ _ Hi x Hx) as (k & f & Hk & -> & Hf). exists k, f. split; [done|]. split; [done|lia].
    + by apply write_locs_new.
  - rewrite (end_server _ _ He), store_all_dom, written_keys. pose proof (pi_server _ _ _ Hi). set_solver.
  - intros x [Hx|Hx%elem_of_list_to_set]%elem_of_union; apply elem_of_union; left;
      [by apply (pi_read _ _ _ Hi)|by apply read_locs_old].
  - apply He.
  - apply He.
Qed.

End halves.

(** ** The answers *)

Lemma grown_inv ks s s' : grown ks s s' → RunningKeys.inv s → RunningKeys.tidy s →
  RunningKeys.inv s' ∧ RunningKeys.tidy s'.
Proof.
  intros [G1 G2 G3 G4 _] [I1 I2 I3 I4 I5] Ht. split; [|unfold RunningKeys.tidy; by rewrite G1, G2, G3].
  split; rewrite ?G1, ?G2, ?G3, ?G4; assumption.
Qed.

Definition fake_values (items : list item) (m : gmap string string) : gmap string string :=
  fold_left (λ m x, <[it_key x := it_value x]> m) items m.

Lemma fake_values_other items m k : k ∉ it_key <$> items → fake_values items m !! k = m !! k.
Proof.
  unfold fake_values. revert m. induction items as [|x items IH]; intros m Hk; [done|].
  rewrite fmap_cons in Hk. apply not_elem_of_cons in Hk as [Hne Hk]. cbn [fold_left]. rewrite IH by done.
  by rewrite lookup_insert_ne.
Qed.

Lemma fake_values_dom items m k :
  is_Some (fake_values items m !! k) ↔ k ∈ it_key <$> items ∨ is_Some (m !! k).
Proof.
  unfold fake_values. revert m. induction items as [|x items IH]; intros m; cbn [fold_left].
  { split; [by right|]. by intros [Hk%not_elem_of_nil|]. }
  rewrite IH, fmap_cons, elem_of_cons, lookup_insert_is_Some. destruct (decide (k = it_key x)); naive_solver.
Qed.

(** The bookkeeping after a batch that started in [p]. *)
Record settled p (s' : RunningKeys.state) : Prop := {
  settled_empty : RunningKeys.tsmap s' = RunningKeys.new_map;
  (** a request is answered with the sum of the values of its keys *)
  settled_answers id keys q :
    RunningKeys.request_map (RunningKeys.tsmap (runningKeys p)) !! id = Some (keys, Some q) →
    ∃ vals a, agree p keys vals ∧ RunningKeys.answer_of keys vals = Done a
              ∧ RunningKeys.promises s' !! q = Some a;
  settled_others q :
    (∀ id keys, RunningKeys.request_map (RunningKeys.tsmap (runningKeys p)) !! id ≠ Some (keys, Some q)) →
    RunningKeys.promises s' !! q = RunningKeys.promises (runningKeys p) !! q;
}.

Lemma answers_run wr rd p ks s4 (real_pairs : list (string * string)) (fake_keys : list string)
    (promises : gmap string string) :
  pinv wr rd p → batch_pre ks p → grown (drop (length ks) real_pairs.*1 ++ fake_keys) (runningKeys p) s4 →
  (∃ picked, real_pairs.*1 = ks ++ picked) →
  (∀ k, is_Some (promises !! k) ↔ k ∈ real_pairs.*1 ∨ k ∈ fake_keys) →
  (∀ k, k ∈ real_pairs.*1 → is_Some (freqs p !! k) ∧ k ∉ cached p) →
  (∀ k, k ∈ fake_keys → is_Some (ffreqs p !! k)) →
  (∀ k, k ∈ ks → ∃ v, promises !! k = Some v ∧ value_of p k v) →
  ∃ s', RunningKeys.arrivals (map_to_list promises) s4 = (Done (), s') ∧ settled p s'.
Proof.
  intros Hi Hp Hgr [picked Hks] Hdom Hreal Hfake Hval.
  destruct (grown_inv _ _ _ Hgr (bp_inv _ _ Hp) (bp_tidy _ _ Hp)) as [Hinv Htidy].
  set (m0 := RunningKeys.tsmap (runningKeys p)).
  assert (∀ k, is_Some (promises !! k) → RunningKeys.get_cache m0 !! k = None) as Hnc.
  { intros k Hk. apply eq_None_not_Some. intros Hc%(bp_cached _ _ Hp). destruct Hc as [Hnf Hnr].
    apply Hdom in Hk as [Hk|Hk].
    - destruct (Hreal k Hk) as [Hf Hn]. by apply Hn, Hnr.
    - destruct (Hfake k Hk) as [f Hf]. congruence. }
  assert (∀ keys, (∀ k, k ∈ keys → k ∈ ks ∨ is_Some (RunningKeys.get_cache m0 !! k)) →
    agree p keys (promises ∪ RunningKeys.get_cache m0)
    ∧ RunningKeys.complete keys (promises ∪ RunningKeys.get_cache m0) = true) as Hag.
  { intros keys Hk. split; [|apply RunningKeys.complete_spec; intros k Hin; rewrite lookup_union_is_Some].
    - intros k Hin. fold m0. destruct (RunningKeys.get_cache m0 !! k) as [v|] eqn:Hc.
      + rewrite lookup_union_r; [done|]. apply eq_None_not_Some. intros Hs%Hnc. congruence.
      + destruct (Hk k Hin) as [Hin'|[v Hv]]; [|congruence]. destruct (Hval k Hin') as (v & Hv & Hvo).
        exists v. split; [done|]. by apply lookup_union_Some_l.
    - destruct (Hk k Hin) as [Hin'|?]; [|by right]. destruct (Hval k Hin') as (v & Hv & _). left. by eexists. }
  assert (∀ k, k ∈ (map_to_list promises).*1 ↔ is_Some (promises !! k)) as Hkeys.
  { intros k. rewrite list_elem_of_fmap. split.
    - intros ([k' v] & -> & Hin%elem_of_map_to_list). by eexists.
    - intros [v Hv]. exists (k, v). split; [done|]. by apply elem_of_map_to_list. }
  destruct (RunningKeys.arrivals_run (map_to_list promises) s4) as (s' & Hrun & _ & Hr & Hg & Hc & Hm & Ha & Hf);
    [done|done|apply NoDup_fst_map_to_list| | |].
  - intros k Hk%Hkeys. rewrite (grown_get_cache _ _ _ Hgr). by apply Hnc.
  - intros id keys q Hl. rewrite (grown_request_map _ _ _ Hgr) in Hl. rewrite (grown_get_cache _ _ _ Hgr).
    rewrite list_to_map_to_list. destruct (bp_requests _ _ Hp _ _ _ Hl) as (Hcf & Hk & Hans).
    destruct (Hag keys Hk) as [H1 H2]. split; [done|]. split; [done|]. by apply Hans.
  - rewrite list_to_map_to_list, (grown_request_map _ _ _ Hgr), (grown_get_cache _ _ _ Hgr) in Ha.
    rewrite (grown_request_map _ _ _ Hgr), (grown_promises _ _ _ Hgr) in Hf.
    exists s'. split; [done|]. split; [|intros id keys q Hl|done].
    + assert (RunningKeys.m_map_ (RunningKeys.tsmap s') = ∅) as Hm0.
      { apply map_empty. intros k. rewrite Hm. case_decide as Hk; [done|]. rewrite Hkeys, Hdom in Hk.
        apply eq_None_not_Some. intros Hs.
        assert (RunningKeys.is_present k s4 = true) as Hpr
          by (unfold RunningKeys.is_present; by rewrite bool_decide_eq_true_2).
        rewrite (grown_present _ _ _ Hgr), orb_true_iff, (bp_running _ _ Hp), bool_decide_eq_true in Hpr.
        apply Hk. rewrite Hks, drop_app_length, elem_of_app in *. tauto. }
      destruct s' as [[??? ?] ?]. cbn in *. by subst.
    + destruct (Ha id keys q Hl) as (a & Han & Hq). exists (promises ∪ RunningKeys.get_cache m0), a.
      split; [|done]. apply Hag. by destruct (bp_requests _ _ Hp _ _ _ Hl) as (_ & Hk & _).
Qed.

(** ** The whole batch *)

Lemma on_storage_run {A} (m : M _ A) a st p :
  m (storage_interface_ p) = (Done a, st) → on_storage m p = (Done a, set_storage_interface_ st p).
Proof. intros Hm. unfold on_storage, zoom. by rewrite Hm. Qed.

Lemma on_runningKeys_run {A} (m : M _ A) a s p :
  m (runningKeys p) = (Done a, s) → on_runningKeys m p = (Done a, set_runningKeys s p).
Proof. intros Hm. unfold on_runningKeys, zoom. by rewrite Hm. Qed.

(** All that a batch asks of the server: the keys read, and the keys written. *)
Definition asked p p4 (reals fakes : list item) (evs : list eviction) p' : Prop :=
  ∃ values st cws,
    storage_get_batch (read_locs reals fakes) (storage_interface_ p4) = (Done values, st)
    ∧ storage_put_batch (write_locs p fakes evs) cws st = (Done (), storage_interface_ p').

(** The loop over the responses: the real keys, then the fake ones. *)
Lemma exchange_run wr rd p ks reals fakes r p4 :
  pinv wr rd p → batch_pre ks p → prepared p ks reals fakes r p4 →
  ∃ p5 w5 evs e cws, mid p4 (it_pair <$> reals) [] p5 w5 evs
    ∧ crypt_ok e ∧ length cws = length fakes ∧ (∀ c, c ∈ cws → ∃ v, cipher_of c v)
    ∧ exchange conf (length reals) (it_loc <$> reals ++ fakes) (it_cipher <$> reals ++ fakes) (readBatchMap r) no_writes p4
      = (Done {| writeBatch := writeBatch w5 ++ zip ((λ x, loc (it_key x) (timeStamp p + 1)) <$> fakes) cws;
                 tempEvictedItems := tempEvictedItems w5;
                 promiseSatisfy := fake_values fakes (promiseSatisfy w5) |}, set_encryption_engine_ e p5).
Proof.
  intros Hi Hp Hpr. pose proof (p4_same _ _ _ _ _ _ Hpr) as (_ & _ & _ & Ht4 & _ & _).
  pose proof (mid_start _ _ _ _ _ _ _ _ Hi Hpr) as Hms. pose proof (p4_reads_ok _ _ _ _ _ _ Hp Hpr) as Hok.
  rewrite (fmap_app it_loc), (fmap_app it_cipher).
  assert (∀ x, x ∈ reals ++ fakes → cipher_of (it_cipher x) (it_value x) ∧ readBatchMap r !! it_loc x = Some (it_key x))
    as Hitem by (intros x Hx; split; [by apply (item_stored _ _ _ _ _ _ _ _ Hi Hpr)|by apply (item_lookup _ _ _ _ _ _ _ _ Hi Hpr)]).
  destruct (exchange_reals_run conf p4 (it_pair <$> reals) reals (it_loc <$> fakes) (it_cipher <$> fakes)
    (readBatchMap r) p4 no_writes []) as (p5 & w5 & evs & Hmid & Hex); [done|done|apply Hpr| |].
  { intros x Hx. split; [by apply list_elem_of_fmap_2|]. apply Hitem, elem_of_app. by left. }
  pose proof (mid_rest _ _ _ _ _ _ Hmid) as [R1 R2 R3 R4 R5].
  destruct (exchange_fakes_run conf fakes (readBatchMap r) w5 p5) as (e & cws & Hexf & Heok & Hlen & Hcs).
  { apply Hmid. }
  { apply (bp_object _ _ Hp). }
  { intros x Hx. destruct (Hitem x) as [Hc Hl]; [apply elem_of_app; by right|]. split; [done|]. split; [done|].
    unfold ffreqs. rewrite R1, R3, Ht4. fold (ffreqs p4). rewrite (p4_ffreqs _ _ _ _ _ _ Hpr).
    rewrite decide_True; [done|]. by apply list_elem_of_fmap_2. }
  exists p5, w5, evs, e, cws. split; [done|]. split; [done|]. split; [done|]. split; [done|].
  rewrite Hexf, R3, Ht4 in Hex. exact Hex.
Qed.

(** What has been read answers the waiting requests. *)
Lemma read_answers_run wr rd p ks reals fakes r p4 p5 w5 evs :
  pinv wr rd p → batch_pre ks p → prepared p ks reals fakes r p4 → mid p4 (it_pair <$> reals) [] p5 w5 evs →
  ∃ s', RunningKeys.arrivals (map_to_list (fake_values fakes (promiseSatisfy w5))) (runningKeys p5) = (Done (), s')
    ∧ settled p s'.
Proof.
  intros Hi Hp Hpr Hmid. pose proof (mid_promise _ _ _ _ _ _ Hmid) as Hpk.
  destruct (pr_state _ _ _ _ _ _ Hpr) as (s4 & st4 & Heq4 & Hgr).
  assert (runningKeys p5 = s4) as -> by (destruct (mid_rest _ _ _ _ _ _ Hmid) as [_ -> _ _ _]; by rewrite Heq4).
  assert (∀ x, x ∈ reals → promiseSatisfy w5 !! it_key x = Some (it_value x)) as Hread.
  { intros x Hx. apply Hpk. split; [|apply not_elem_of_nil]. apply list_elem_of_fmap. by exists x. }
  apply (answers_run wr rd p ks s4 (it_pair <$> reals) (it_key <$> fakes)); rewrite ?kvs_keys; [done..|apply Hpr| | | |].
  - intros k. rewrite fake_values_dom. split.
    + intros [Hk|[v [Hk _]%Hpk]]; [by right|]. left. apply (list_elem_of_fmap_2 fst) in Hk. by rewrite kvs_keys in Hk.
    + intros [(x & -> & Hx)%list_elem_of_fmap|Hk]; [|by left]. right. eexists. by apply Hread.
  - intros k (x & -> & Hx)%list_elem_of_fmap.
    split; [by apply (real_known _ _ _ _ _ _ _ _ Hi Hpr)|by apply (pr_reals _ _ _ _ _ _ Hpr)].
  - intros k (x & -> & Hx)%list_elem_of_fmap. by apply (fake_known _ _ _ _ _ _ _ _ Hi Hpr).
  - intros k Hk. destruct (pr_operations _ _ _ _ _ _ Hpr) as [picked Hops].
    assert (k ∈ it_key <$> reals) as (x & -> & Hx)%list_elem_of_fmap by (rewrite Hops; apply elem_of_app; by left).
    exists (it_value x). destruct (pr_reals _ _ _ _ _ _ Hpr x Hx) as [(Hf & _ & Hs & Hv) Hnc].
    rewrite fake_values_other by (apply (real_not_fake _ _ _ _ _ _ _ _ Hi Hpr); by eexists).
    split; [by apply Hread|]. right. split; [done|]. exists (it_freq x). split; [done|]. by exists (it_cipher x).
Qed.

(** All that was evicted is forgotten. *)
Lemma erased_all p0 kvs p w evs :
  mid p0 kvs [] p w evs →
  EvictedItems.cacheMap (fold_left (λ e k, EvictedItems.erase k e) (elements (tempEvictedItems w)) (EvictedItems p)) = ∅.
Proof.
  intros Hmid. apply map_empty. intros k. rewrite EvictedItems.erase_all_dom. case_decide as Hk; [done|].
  rewrite elem_of_elements in Hk. apply eq_None_not_Some. intros Hs. by apply Hk, (mid_items _ _ _ _ _ _ Hmid).
Qed.

(** The second half of a batch, from the state that the first one prepared. *)
Lemma exchange_phase_run wr rd p ks reals fakes r p4 :
  pinv wr rd p → batch_pre ks p → prepared p ks reals fakes r p4 →
  ∃ p4' p5 w5 evs cws p', exchange_phase conf r (length reals) p4 = (Done (), p')
    ∧ prepared p ks reals fakes r p4' ∧ mid p4' (it_pair <$> reals) [] p5 w5 evs
    ∧ ended p fakes p4' p5 evs cws p' ∧ asked p p4 reals fakes evs p'
    ∧ settled p (runningKeys p') ∧ keysNotUsed p' = keysNotUsed p ++ [storage_keys r].
Proof.
  intros Hi Hp Hpr0. destruct (get_batch_run _ _ _ _ _ _ _ _ Hi Hpr0) as (Hkeys & st0 & Hget & Hpr).
  unfold exchange_phase. rewrite (mbind_run _ _ _ _ _ (on_storage_run _ _ _ _ Hget)).
  set (p4' := set_storage_interface_ st0 p4) in *.
  pose proof (p4_same _ _ _ _ _ _ Hpr) as (_ & _ & _ & Ht4 & _ & Hn4).
  destruct (exchange_run _ _ _ _ _ _ _ _ Hi Hp Hpr) as (p5 & w5 & evs & e & cws & Hmid & Heok & Hlen & Hcs & Hex).
  pose proof (mid_rest _ _ _ _ _ _ Hmid) as [R1 R2 R3 R4 R5].
  rewrite Hkeys, (mbind_run _ _ _ _ _ Hex). cbn [writeBatch tempEvictedItems promiseSatisfy].
  set (p6 := set_encryption_engine_ e p5). set (kvs := writeBatch w5 ++ _).
  assert (kvs.*1 = write_locs p fakes evs) as Hwl
    by (unfold kvs; rewrite (mid_writes _ _ _ _ _ _ Hmid); by apply written_keys').
  destruct (storage_put_batch_ok (storage_interface_ p6) kvs.*1 kvs.*2) as (st & Hput & Hsok & Hcont);
    [change (storage_ok (storage_interface_ p5)); rewrite R4; apply Hpr|by rewrite !length_fmap|].
  rewrite (mbind_run _ _ _ _ _ (on_storage_run _ _ _ p6 Hput)). set (p7 := set_storage_interface_ st p6).
  set (erase_all := λ e, fold_left _ _ e).
  assert (on_EvictedItems (update erase_all) p7 = (Done (), set_EvictedItems (erase_all (EvictedItems p7)) p7)) as Her
    by done.
  rewrite (mbind_run _ _ _ _ _ Her). set (p8 := set_EvictedItems _ p7).
  destruct (read_answers_run _ _ _ _ _ _ _ _ _ _ _ Hi Hp Hpr Hmid) as (s' & Harr & Hset).
  rewrite (mbind_run _ _ _ _ _ (on_runningKeys_run _ _ _ p8 Harr)).
  exists p4', p5, w5, evs, cws. eexists. split; [reflexivity|]. split; [done|]. split; [done|].
  split; [|split; [|split; [done|cbn; by rewrite R5, Hn4]]].
  - split; try done; [by cbn; rewrite R3|by apply (erased_all _ _ _ _ _ Hmid)|].
    change (contents st = store_all (((λ e, (loc (ev_key e) (ev_freq e), ev_cipher e)) <$> evs)
      ++ zip ((λ x, loc (it_key x) (timeStamp p + 1)) <$> fakes) cws) (server p)).
    rewrite Hcont, zip_fst_snd. unfold kvs. rewrite (mid_writes _ _ _ _ _ _ Hmid).
    change (storage_interface_ p6) with (storage_interface_ p5). rewrite R4. f_equal. apply Hpr.
  - exists (it_cipher <$> reals ++ fakes), st0, kvs.*2. unfold read_locs. rewrite <- Hwl, <- Hkeys.
    split; [exact Hget|]. change st0 with (storage_interface_ p4'). by rewrite <- R4.
Qed.

(** What a batch that reads the locations [reads] and writes [writes] does. *)
Record batch_effect wr rd p (ks : list string) (reads writes : list string) p' : Prop := {
  be_inv : pinv (wr ∪ list_to_set writes) (rd ∪ list_to_set reads) p';
  be_reads : NoDup reads ∧ Z.of_nat (length reads) = B conf ∧ ∀ x, x ∈ reads → x ∈ wr ∧ x ∉ rd;
  be_writes : NoDup writes ∧ Z.of_nat (length writes) = B conf ∧ ∀ x, x ∈ writes → x ∉ wr;
  be_written x : x ∈ writes →
    ∃ k f, x = loc k f ∧ ok_name k f ∧ (is_Some (freqs p !! k) ∨ is_Some (ffreqs p !! k));
  be_asked : ∃ values st cws,
    storage_get_batch reads (storage_interface_ p) = (Done values, st)
    ∧ storage_put_batch writes cws st = (Done (), storage_interface_ p');
  be_values k v : value_of p k v → value_of p' k v ∨ (k ∈ keys_to_be_deleted p ∧ freqs p' !! k = None);
  be_keys k : is_Some (freqs p' !! k) → is_Some (freqs p !! k);
  be_deleted k : k ∈ ks → k ∈ keys_to_be_deleted p → freqs p' !! k = None;
  be_fakes : dom (ffreqs p') = dom (ffreqs p);
  be_settled : settled p (runningKeys p');
  be_history : keysNotUsed p' = keysNotUsed p ++ [reads];
  be_clock : timeStamp p' = timeStamp p + 1;
  be_delete k : k ∈ keys_to_be_deleted p' → k ∈ keys_to_be_deleted p ∧ k ∉ ks;
  be_lru : ∃ n, (n ≤ length (keys_to_be_deleted p))%nat ∧ (length (lru p') + n = length (lru p))%nat
                ∧ (size (freqs p') + n = size (freqs p))%nat;
}.

Lemma size_delete_list (ks : list string) (m m' : gmap string Z) :
  NoDup ks → (∀ k, k ∈ ks → is_Some (m !! k)) → (∀ k, m' !! k = if decide (k ∈ ks) then None else m !! k) →
  (size m' + length ks = size m)%nat.
Proof.
  intros Hnd Hk Hm. assert (dom m' = dom m ∖ list_to_set ks) as Hd.
  { apply set_eq. intros k. rewrite elem_of_difference, elem_of_list_to_set, !elem_of_dom, Hm.
    case_decide; [|tauto]. split; [by intros [??]|tauto]. }
  rewrite <- (size_dom m'), Hd, size_difference.
  - rewrite size_list_to_set, size_dom by done.
    assert (length ks ≤ size m)%nat; [|lia]. rewrite <- (size_dom m).
    rewrite <- (size_list_to_set (C := gset string)) by done. apply subseteq_size.
    intros k Hin%elem_of_list_to_set. by apply elem_of_dom, Hk.
  - intros k Hin%elem_of_list_to_set. by apply elem_of_dom, Hk.
Qed.

(** The keys that are gone after a batch, and how many they are *)
Lemma ended_freqs wr rd p ks reals fakes r p4 p5 w5 evs cws p' k :
  pinv wr rd p → prepared p ks reals fakes r p4 → mid p4 (it_pair <$> reals) [] p5 w5 evs → ended p fakes p4 p5 evs cws p' →
  freqs p' !! k = if decide (k ∈ keys_to_be_deleted p ∧ k ∈ it_key <$> reals) then None else freqs p4 !! k.
Proof.
  intros Hi Hpr Hmid He. pose proof (p4_same _ _ _ _ _ _ Hpr) as (Hdel & _ & _ & _ & _ & _).
  rewrite (end_freqs _ _ _ _ _ _ _ He), (mid_freqs _ _ _ _ _ _ Hmid), kvs_keys, Hdel. apply decide_ext.
  pose proof (not_elem_of_nil k). tauto.
Qed.

Lemma ended_sizes wr rd p ks reals fakes r p4 p5 w5 evs cws p' :
  pinv wr rd p → prepared p ks reals fakes r p4 → mid p4 (it_pair <$> reals) [] p5 w5 evs → ended p fakes p4 p5 evs cws p' →
  ∃ n, (n ≤ length (keys_to_be_deleted p))%nat ∧ (length (lru p') + n = length (lru p))%nat
       ∧ (size (freqs p') + n = size (freqs p))%nat.
Proof.
  intros Hi Hpr Hmid He. pose proof (p4_same _ _ _ _ _ _ Hpr) as (Hdel & _ & _ & _ & _ & _).
  pose proof (mid_size _ _ _ _ _ _ Hmid) as Hsz. rewrite kvs_keys, Hdel, (start_lru _ _ _ _ _ _ Hpr) in Hsz.
  pose proof (pr_reals_nodup _ _ _ _ _ _ Hpr) as Hnd.
  exists (doomed (keys_to_be_deleted p) (it_key <$> reals)). split; [by apply doomed_le|].
  rewrite (end_lru _ _ _ _ _ _ _ He). unfold doomed in *. cbn [filter list_filter length] in Hsz. split; [lia|].
  assert (size (freqs p4) = size (freqs p)) as <-.
  { rewrite <- !size_dom. f_equal. apply set_eq. intros k. rewrite !elem_of_dom.
    by apply (p4_freqs_known _ _ _ _ _ _ _ _ Hi Hpr). }
  apply size_delete_list.
  - by apply NoDup_filter.
  - intros k [_ Hin]%list_elem_of_filter. apply list_elem_of_fmap in Hin as (x & -> & Hx).
    apply (p4_freqs_known _ _ _ _ _ _ _ _ Hi Hpr). by apply (real_known _ _ _ _ _ _ _ _ Hi Hpr).
  - intros k. rewrite (ended_freqs _ _ _ _ _ _ _ _ _ _ _ _ _ _ Hi Hpr Hmid He). apply decide_ext.
    by rewrite list_elem_of_filter.
Qed.

Lemma batch_run wr rd p (operations : list operation) fuel :
  pinv wr rd p → batch_pre (op_key <$> operations) p → (Z.to_nat (F conf) ≤ fuel)%nat →
  ∃ p' reads writes, execute_batch conf fuel operations p = (Done (), p')
    ∧ batch_effect wr rd p (op_key <$> operations) reads writes p'.
Proof.
  intros Hi Hp Hfuel.
  destruct (read_phase_run wr rd p operations fuel Hi Hp Hfuel) as (reals & fakes & r & p4 & Hpr & Hst & Hread).
  destruct (exchange_phase_run wr rd p _ reals fakes r p4 Hi Hp Hpr)
    as (p4' & p5 & w5 & evs & cws & p' & Hrun & Hpr' & Hmid & He & Hask & Hset & Hhist).
  exists p', (read_locs reals fakes), (write_locs p fakes evs).
  split; [unfold execute_batch; by rewrite (mbind_run _ _ _ _ _ Hread)|].
  assert (storage_keys r = read_locs reals fakes) as Hk by (by destruct (get_batch_run _ _ _ _ _ _ _ _ Hi Hpr)).
  destruct (locs_length _ _ _ _ _ _ Hpr' _ _ _ Hmid) as [Hlr Hlw].
  pose proof (p4_same _ _ _ _ _ _ Hpr') as (Hdel & _ & _ & _ & _ & _).
  pose proof (pr_operations _ _ _ _ _ _ Hpr') as [picked Hops].
  pose proof (λ k, ended_freqs _ _ _ _ _ _ _ _ _ _ _ _ _ k Hi Hpr' Hmid He) as Hfreqs.
  split.
  - by eapply ended_inv.
  - split; [by apply (items_locs_NoDup _ _ _ _ _ _ _ _ Hi Hpr')|]. split; [done|].
    intros x. by apply (read_locs_old _ _ _ _ _ _ _ _ Hi Hpr').
  - split; [by apply (write_locs_NoDup _ _ _ _ _ _ _ _ Hi Hp Hpr' _ _ _ Hmid)|]. split; [done|].
    intros x Hx. by apply (write_locs_new _ _ _ _ _ _ _ _ Hi Hp Hpr' _ _ _ Hmid x Hx).
  - by apply (write_locs_known _ _ _ _ _ _ _ _ Hi Hp Hpr' _ _ _ Hmid).
  - destruct Hask as (values & st & cs & Hg & Hpt). rewrite Hst in Hg. by exists values, st, cs.
  - intros k v Hv. destruct (value_survives _ _ _ _ _ _ _ _ Hi Hp Hpr' _ _ _ Hmid _ _ He k v Hv) as [?|(?&?&?)];
      [by left|by right].
  - intros k Hs. rewrite (end_freqs _ _ _ _ _ _ _ He) in Hs. by apply (keys_before _ _ _ _ _ _ _ _ Hi Hpr' _ _ _ Hmid).
  - intros k Hin Hd. rewrite Hfreqs, decide_True; [done|]. split; [done|]. rewrite Hops. apply elem_of_app. by left.
  - apply set_eq. intros k. rewrite !elem_of_dom, (end_ffreqs _ _ _ _ _ _ _ He), (p4_ffreqs _ _ _ _ _ _ Hpr').
    case_decide as Hin; [|done]. split; [intros _|by eexists].
    apply list_elem_of_fmap in Hin as (x & -> & Hx). by apply (fake_known _ _ _ _ _ _ _ _ Hi Hpr').
  - done.
  - by rewrite Hhist, Hk.
  - apply He.
  - intros k. rewrite (end_delete _ _ _ _ _ _ _ He), (mid_delete _ _ _ _ _ _ Hmid), kvs_keys, Hdel.
    intros [Hd [Hn|Hn]]; [|by apply not_elem_of_nil in Hn]. split; [done|]. intros Hin. apply Hn. rewrite Hops.
    apply elem_of_app. by left.
  - by apply (ended_sizes _ _ _ _ _ _ _ _ _ _ _ _ _ Hi Hpr' Hmid He).
Qed.

End correct.
End Correct.
