(* ===== verification/ProxyInit.v ===== *)
(** [waffle_proxy::init] (proxy/src/waffle_proxy.cpp): the data set is
    encrypted under the names of time 0, a part of it is kept in the cache
    instead, fake keys with random values are made up, and everything but the
    cached part goes to the server in bulks.  The theorem is that the proxy
    starts in the invariant of BatchCorrect.

    Not modelled: the log, the connection to the servers, the threads that
    are started, the prints. *)
From S2P Require Import Prelude.
From S2P Require Import CxxString.
From S2P Require Import OrderedSet.
From S2P Require Import FrequencySmoother.
From S2P Require Import Cache.
From S2P Require Import EvictedItems.
From S2P Require Import Values.
From S2P Require Import RunningKeys.
From S2P Require Import Storage.
From S2P Require Import Encryption.
From S2P Require Import Proxy.
From S2P Require Import ProxyBatch.
From S2P Require Import BatchPhases.
From S2P Require Import BatchCorrect.

Local Open Scope Z_scope.

Module Init.
Import Proxy Batch.
Section init.
Context {St W : Type} `{storage_interface St} `{crypter W}.
Variable conf : config.

Abbreviation proxy := (@waffle_proxy St W).

(** [values[i]] *)
Definition at_index {A} (l : list A) (i : nat) : M proxy A :=
  match l !! i with Some v => mret v | None => fail Undefined end.

(** The loop that adds the data to [realBst] and [keyValueMap].  The order of
    the two sides of the assignment is not specified. *)
Fixpoint load_keys (i : nat) (keys values : list string) : M proxy () :=
  match keys with
  | [] => mret ()
  | key :: keys =>
      on_realBst (Smoother.insert key) ;;
      value ← at_index values i;
      f ← on_realBst (Smoother.getFrequency key);
      stKey ← on_engine (crypt_prf (name key f));
      c ← on_engine (crypt_encrypt value);
      modify (with_keyValueMap (λ m, <[stKey := c]> m)) ;;
      load_keys (S i) keys values
  end.

(** [cacheBatches*keys.size()/100], in [size_t] *)
Definition cacheCapacity (keys : nat) : Z := wrap_u64 (cacheBatches conf * Z.of_nat keys) / 100.

(** The loop that picks the cached keys at random; a key that is picked again
    does not count.  Returns [keysCacheUnencrypted] and [valuesCache]. *)
Fixpoint pick_cached (fuel : nat) (keys values : list string) (temp : gset string)
    (keysCacheUnencrypted valuesCache : list string) : M proxy (list string * list string) :=
  if Z.of_nat (length keysCacheUnencrypted) <? cacheCapacity (length keys) then
    match fuel with
    | O => fail OutOfFuel
    | S fuel =>
        r ← on_engine crypt_rand;
        let index := Z.to_nat (r `mod` Z.of_nat (length keys)) in
        key ← at_index keys index;
        if decide (key ∈ temp) then pick_cached fuel keys values temp keysCacheUnencrypted valuesCache
        else
          value ← at_index values index;
          f ← on_realBst (Smoother.getFrequency key);
          on_engine (crypt_prf (name key f)) ;;
          f ← on_realBst (Smoother.getFrequency key);
          stKey ← on_engine (crypt_prf (name key f));
          modify (with_keyValueMap (delete stKey)) ;;
          pick_cached fuel keys values ({[key]} ∪ temp) (keysCacheUnencrypted ++ [key]) (valuesCache ++ [value])
    end
  else mret (keysCacheUnencrypted, valuesCache).

(** The loop that makes up [D] fake keys; a name that is made up again does
    not count. *)
Fixpoint make_fakes (fuel : nat) (i : Z) (tempFakeKeys : gset string) : M proxy () :=
  if i <? D conf then
    match fuel with
    | O => fail OutOfFuel
    | S fuel =>
        r ← on_engine crypt_rand;
        s ← gen_random (Z.to_nat (r `mod` 10 + 5));
        let fakeKey := "fake" +:+ s in
        if decide (fakeKey ∈ tempFakeKeys) then make_fakes fuel i tempFakeKeys
        else
          on_fakeBst (Smoother.insert fakeKey) ;;
          f ← on_fakeBst (Smoother.getFrequency fakeKey);
          tempFakeKey ← on_engine (crypt_prf (name fakeKey f));
          value ← gen_random (Z.to_nat (object_size_ conf));
          fakeKeyValue ← on_engine (crypt_encrypt value);
          modify (with_keyValueMap (λ m, <[tempFakeKey := fakeKeyValue]> m)) ;;
          make_fakes fuel (i + 1) ({[fakeKey]} ∪ tempFakeKeys)
    end
  else mret ().

(** [randomize_map]: the shuffles are commented out in the source; the order
    of [map_to_list] is one of the orders of iteration. *)
Definition randomize_map (m : gmap string string) : list string * list string :=
  ((map_to_list m).*1, (map_to_list m).*2).

(** The loop that sends the pairs in bulks of [redisBulkLength]. *)
Fixpoint put_bulks (kvs : list (string * string)) (finalKeysRedis finalValuesRedis : list string) : M proxy () :=
  match kvs with
  | [] =>
      if decide (finalValuesRedis = []) then mret ()
      else on_storage (storage_put_batch finalKeysRedis finalValuesRedis)
  | (k, v) :: kvs =>
      let finalKeysRedis := finalKeysRedis ++ [k] in
      let finalValuesRedis := finalValuesRedis ++ [v] in
      if Z.of_nat (length finalValuesRedis) =? wrap_u64 (redisBulkLength conf) then
        on_storage (storage_put_batch finalKeysRedis finalValuesRedis) ;;
        put_bulks kvs [] []
      else put_bulks kvs finalKeysRedis finalValuesRedis
  end.

(** The calls of the encryption tests, whose outcomes are only printed. *)
Definition encryption_tests : M proxy () :=
  test3 ← on_engine (crypt_encrypt "mynameissharath");
  test4 ← on_engine (crypt_encrypt "mynameissharath");
  on_engine (crypt_decrypt test3) ;;
  on_engine (crypt_decrypt test4) ;;
  on_engine (crypt_prf "mynameissharath1") ;;
  on_engine (crypt_prf "mynameissharath1") ;;
  mret ().

(** [init]: [keyValueMap.empty()] does not empty the map. *)
Definition init (fuel : nat) (keys values : list string) : M proxy () :=
  on_realBst (update (λ this, Smoother.move_assign false this (Smoother.new_smoother true))) ;;
  on_fakeBst (update (λ this, Smoother.move_assign false this (Smoother.new_smoother false))) ;;
  load_keys 0 keys values ;;
  kvs ← pick_cached fuel keys values ∅ [] [];
  c ← (let '(r, c) := Cache.make_cache kvs.1 kvs.2 (wrap32 (cacheCapacity (length keys) * 10)) in
       lift_result r ;; mret c);
  on_cache (update (λ this, Cache.move_assign false this c)) ;;
  on_EvictedItems (update (λ this, EvictedItems.move_assign false this EvictedItems.new_evictedItems)) ;;
  on_fakeBst (update (Smoother.with_needTimeStamp false)) ;;
  make_fakes fuel 0 ∅ ;;
  p ← get;
  let '(redisKeys, redisValues) := randomize_map (keyValueMap p) in
  put_bulks (zip redisKeys redisValues) [] [] ;;
  encryption_tests.

End init.
(** * The loops *)
Import Phases Correct.
Section correct.
Context {St W : Type} {sto : storage_interface St} {stoS : @StorageSpec St sto}
  {cry : crypter W} {cryS : @CrypterSpec W cry}.
Variable conf : config.
Abbreviation proxy := (@waffle_proxy St W).
Implicit Types p : proxy.

Context (key_ok : string → Prop).
Hypothesis prf_collision_free : collision_free key_ok.

Lemma zero_ok k : key_ok k → ok_name key_ok k 0.
Proof. intros Hk. split; [done|lia]. Qed.

Lemma loc0_inj k1 k2 : key_ok k1 → key_ok k2 → loc k1 0 = loc k2 0 → k1 = k2.
Proof. intros H1 H2 Heq. by apply (loc_inj key_ok prf_collision_free) in Heq as [? _]; try apply zero_ok. Qed.

(** The pairs of [m] that stand for the values of [kvs] *)
Definition holds (m : gmap string string) (kvs : list (string * string)) : Prop :=
  ∀ k v, (k, v) ∈ kvs → ∃ c, m !! loc k 0 = Some c ∧ cipher_of c v.

Lemma at_index_run {A} (l : list A) i x p : l !! i = Some x → at_index l i p = (Done x, p).
Proof. intros Hx. unfold at_index. by rewrite Hx. Qed.

Lemma real_insert_run k p :
  real_ok p → Smoother.canonical k → freqs p !! k = None →
  ∃ b, Smoother.insert k (realBst p) = (Done (), b) ∧ Smoother.wf b ∧ Smoother.needTimeStamp b = true
    ∧ Smoother.accessFreqs b = <[k := 0]> (freqs p).
Proof.
  intros [Hw Hn] (item & t & Hi & Ht & ->) Hf. exists (Smoother.insert_state item t (realBst p)).
  split; [by apply Smoother.insert_run|]. split; [by apply Smoother.wf_insert|done].
Qed.

Lemma load_keys_run kvs i values p :
  real_ok p → crypt_ok (encryption_engine_ p) → drop i values = kvs.*2 → NoDup kvs.*1 →
  (∀ k v, (k, v) ∈ kvs → Smoother.canonical k ∧ key_ok k ∧ storable v ∧ freqs p !! k = None) →
  ∃ b m e, load_keys i kvs.*1 values p
      = (Done (), set_realBst b (set_keyValueMap m (set_encryption_engine_ e p)))
    ∧ Smoother.wf b ∧ Smoother.needTimeStamp b = true ∧ crypt_ok e
    ∧ (∀ k, Smoother.accessFreqs b !! k = if decide (k ∈ kvs.*1) then Some 0 else freqs p !! k)
    ∧ holds m kvs
    ∧ ∀ x, x ∉ (λ k, loc k 0) <$> kvs.*1 → m !! x = keyValueMap p !! x.
Proof.
  revert i p. induction kvs as [|[k v] kvs IH]; intros i p [Hw Hn] Ho Hv Hnd Hk.
  { exists (realBst p), (keyValueMap p), (encryption_engine_ p). destruct p. split; [reflexivity|].
    split; [done|]. split; [done|]. split; [done|]. split; [|split; [|done]].
    - intros k. by rewrite decide_False by apply not_elem_of_nil.
    - intros k v Hin. by apply not_elem_of_nil in Hin. }
  rewrite fmap_cons in *. cbn [fst] in *. apply NoDup_cons in Hnd as [Hni Hnd].
  destruct (Hk k v) as (Hc & Hkk & Hst & Hf); [by left|].
  destruct (real_insert_run k p (conj Hw Hn) Hc Hf) as (b1 & Hb1 & Hbw & Hbn & Hbf). cbn [load_keys].
  rewrite (mbind_run _ _ _ _ _ (on_realBst_run _ _ _ p Hb1)). set (p1 := set_realBst b1 p).
  assert (values !! i = Some v) as Hvi.
  { rewrite <- (Nat.add_0_r i), <- lookup_drop, Hv. done. }
  rewrite (mbind_run _ _ _ _ _ (at_index_run values i v p1 Hvi)).
  assert (freqs p1 !! k = Some 0) as Hf1 by (unfold freqs; cbn; by rewrite Hbf, lookup_insert_eq).
  rewrite (mbind_run _ _ _ _ _ (real_getFrequency_run k 0 p1 Hf1)).
  rewrite (mbind_run _ _ _ _ _ (prf_run (name k 0) p1 Ho)). fold (loc k 0).
  destruct (crypt_encrypt_ok _ v Ho Hst) as (c & e1 & He1 & Ho1 & Hcv).
  assert (on_engine (crypt_encrypt v) p1 = (Done c, set_encryption_engine_ e1 p1)) as H1
    by (unfold on_engine, zoom; cbn; by rewrite He1).
  rewrite (mbind_run _ _ _ _ _ H1).
  set (p2 := set_keyValueMap (<[loc k 0 := c]> (keyValueMap p)) (set_encryption_engine_ e1 p1)).
  destruct (IH (S i) p2) as (b & m & e & Hrun & Hw' & Hn' & Ho' & Hf' & Hh & Hm); [done|done| |done| |].
  { change (S i) with (1 + i)%nat. rewrite Nat.add_comm, <- drop_drop, Hv. done. }
  { intros k' v' Hin. destruct (Hk k' v') as (Hc' & Hk' & Hs' & Hf0); [by right|]. split; [done|]. split; [done|].
    split; [done|]. unfold freqs. cbn. rewrite Hbf, lookup_insert_ne; [done|]. intros ->. apply Hni.
    by apply (list_elem_of_fmap_2 fst) in Hin. }
  exists b, m, e. split; [exact Hrun|]. split; [done|]. split; [done|]. split; [done|]. split; [|split].
  - intros k'. rewrite Hf'. unfold freqs. cbn [realBst p2 set_keyValueMap set_encryption_engine_ p1 set_realBst].
    rewrite Hbf. destruct (decide (k' ∈ kvs.*1)); [by rewrite decide_True by (by right)|].
    destruct (decide (k = k')) as [<-|Hne]; [rewrite lookup_insert_eq; by rewrite decide_True by (by left)|].
    rewrite lookup_insert_ne by done. by rewrite decide_False by (by intros [->|?]%elem_of_cons).
  - intros k' v' [[= -> ->]|Hin]%elem_of_cons; [|by apply Hh]. exists c. split; [|done]. rewrite Hm.
    + cbn. by rewrite lookup_insert_eq.
    + intros (k' & Heq & Hin)%list_elem_of_fmap. apply loc0_inj in Heq as ->; [done|done|].
      apply list_elem_of_fmap in Hin as ([k0 v0] & -> & Hin). apply (Hk k0 v0). by right.
  - intros x Hx. apply not_elem_of_cons in Hx as [Hne Hx]. rewrite Hm by done. cbn.
    by rewrite lookup_insert_ne.
Qed.

(** ** The random draws *)

(** The draw after [k] others *)
Fixpoint redraw {A} (draw : M proxy A) (k : nat) : M proxy A :=
  match k with O => draw | S k => draw ;; redraw draw k end.

Definition draw_rand : M proxy Z := on_engine crypt_rand.
(** The name of a fake key *)
Definition draw_fake : M proxy string :=
  r ← on_engine crypt_rand; s ← gen_random (Z.to_nat (r `mod` 10 + 5)); mret ("fake" +:+ s).

(** Of any [K] draws in a row, one is a given index below [n], and one is a
    name that is not among fewer than [D] given ones. *)
Definition fair_index (n K : nat) : Prop := ∀ p i, crypt_ok (encryption_engine_ p) → (i < n)%nat →
  ∃ k r p', (k < K)%nat ∧ redraw draw_rand k p = (Done r, p') ∧ Z.to_nat (r `mod` Z.of_nat n) = i.
Definition fair_fake (K : nat) : Prop := ∀ p (temp : gset string),
  crypt_ok (encryption_engine_ p) → Z.of_nat (size temp) < D conf →
  ∃ k s p', (k < K)%nat ∧ redraw draw_fake k p = (Done s, p') ∧ s ∉ temp.

Lemma draw_rand_run p :
  crypt_ok (encryption_engine_ p) →
  ∃ r e, draw_rand p = (Done r, set_encryption_engine_ e p) ∧ crypt_ok e ∧ 0 ≤ r.
Proof.
  intros Ho. destruct (crypt_rand_ok _ Ho) as (r & e & Hr & Ho1 & Hpos). exists r, e. split; [|done].
  unfold draw_rand, on_engine, zoom. by rewrite Hr.
Qed.

(** ** The pairs kept in the cache *)
Local Abbreviation pick fuel kvs sel := (pick_cached conf fuel kvs.*1 kvs.*2 (list_to_set sel.*1) sel.*1 sel.*2).

Lemma pick_enough fuel kvs sel p : cacheCapacity conf (length kvs) ≤ Z.of_nat (length sel) →
  pick fuel kvs sel p = (Done (sel.*1, sel.*2), p).
Proof. intros Hl. destruct fuel; cbn [pick_cached]; rewrite !length_fmap, (proj2 (Z.ltb_ge _ _)) by lia; done. Qed.

Lemma pick_turn fuel kvs sel p :
  crypt_ok (encryption_engine_ p) → (∀ k v, (k, v) ∈ kvs → freqs p !! k = Some 0) →
  Z.of_nat (length sel) < cacheCapacity conf (length kvs) →
  ∃ r e k v, draw_rand p = (Done r, set_encryption_engine_ e p) ∧ crypt_ok e
  ∧ kvs !! Z.to_nat (r `mod` Z.of_nat (length kvs)) = Some (k, v)
  ∧ pick (S fuel) kvs sel p =
    if decide (k ∈ sel.*1) then pick fuel kvs sel (set_encryption_engine_ e p)
    else pick fuel kvs (sel ++ [(k, v)])
           (set_keyValueMap (delete (loc k 0) (keyValueMap p)) (set_encryption_engine_ e p)).
Proof.
  intros Ho Hf Hcap. destruct (draw_rand_run p Ho) as (r & e & Hr & Ho1 & Hpos). set (p1 := set_encryption_engine_ e p) in *.
  assert (kvs ≠ []) as Hne.
  { intros ->. unfold cacheCapacity in *. rewrite Z.mul_0_r in *. change (wrap_u64 0 / 100) with 0 in *. simpl in *. lia. }
  destruct (lookup_lt_is_Some_2 kvs (Z.to_nat (r `mod` Z.of_nat (length kvs)))) as [[k v] Hkv].
  { assert (0 < length kvs)%nat by (destruct kvs; [done|simpl; lia]).
    pose proof (Z.mod_pos_bound r (Z.of_nat (length kvs))). lia. }
  exists r, e, k, v. split; [done|]. split; [done|]. split; [done|]. cbn [pick_cached].
  rewrite !length_fmap, (proj2 (Z.ltb_lt _ _)) by lia. rewrite (mbind_run _ _ _ _ _ Hr). fold p1.
  assert (kvs.*1 !! Z.to_nat (r `mod` Z.of_nat (length kvs)) = Some k) as Hik by (by rewrite list_lookup_fmap, Hkv).
  rewrite (mbind_run _ _ _ _ _ (at_index_run _ _ _ p1 Hik)).
  destruct (decide (k ∈ (list_to_set sel.*1 : gset string))) as [Hs|Hs]; rewrite elem_of_list_to_set in Hs;
    [by rewrite decide_True|rewrite decide_False by done].
  assert (kvs.*2 !! Z.to_nat (r `mod` Z.of_nat (length kvs)) = Some v) as Hiv by (by rewrite list_lookup_fmap, Hkv).
  rewrite (mbind_run _ _ _ _ _ (at_index_run _ _ _ p1 Hiv)).
  assert (freqs p1 !! k = Some 0) as Hfk by (apply (Hf k v); by eapply list_elem_of_lookup_2).
  rewrite (mbind_run _ _ _ _ _ (real_getFrequency_run k 0 p1 Hfk)).
  rewrite (mbind_run _ _ _ _ _ (prf_run (name k 0) p1 Ho1)).
  rewrite (mbind_run _ _ _ _ _ (real_getFrequency_run k 0 p1 Hfk)).
  rewrite (mbind_run _ _ _ _ _ (prf_run (name k 0) p1 Ho1)). fold (loc k 0).
  assert ({[k]} ∪ list_to_set sel.*1 = (list_to_set (sel ++ [(k, v)]).*1 : gset string)) as ->
    by (rewrite fmap_app, list_to_set_app_L; simpl; set_solver).
  by rewrite !fmap_app.
Qed.

(** A selection of the data *)
Definition selection (kvs sel : list (string * string)) : Prop := (∀ kv, kv ∈ sel → kv ∈ kvs) ∧ NoDup sel.*1.

Lemma selection_add kvs sel k v i :
  selection kvs sel → kvs !! i = Some (k, v) → k ∉ sel.*1 → selection kvs (sel ++ [(k, v)]).
Proof.
  intros [Hsel Hnd] Hi Hk. split.
  - intros kv [?| ->%list_elem_of_singleton]%elem_of_app; [by apply Hsel|]. by eapply list_elem_of_lookup_2.
  - rewrite fmap_app. apply NoDup_app. split; [done|]. split; [|apply NoDup_singleton].
    by intros k' Hk' ->%list_elem_of_singleton.
Qed.

Lemma pick_cached_run fuel kvs sel p :
  crypt_ok (encryption_engine_ p) → (∀ k v, (k, v) ∈ kvs → freqs p !! k = Some 0) →
  selection kvs sel → Z.of_nat (length sel) ≤ cacheCapacity conf (length kvs) →
  (∀ x, x ∈ (λ k, loc k 0) <$> sel.*1 → keyValueMap p !! x = None) →
  (pick fuel kvs sel p).1 = Stop OutOfFuel
  ∨ ∃ sel' m e, pick fuel kvs sel p = (Done (sel'.*1, sel'.*2), set_keyValueMap m (set_encryption_engine_ e p))
    ∧ crypt_ok e ∧ (∀ kv, kv ∈ sel → kv ∈ sel') ∧ selection kvs sel'
    ∧ Z.of_nat (length sel') = cacheCapacity conf (length kvs)
    ∧ ∀ x, m !! x = if decide (x ∈ (λ k, loc k 0) <$> sel'.*1) then None else keyValueMap p !! x.
Proof.
  revert sel p. induction fuel as [|fuel IH]; intros sel p Ho Hf Hsel Hcap Hnone;
    destruct (Z.lt_ge_cases (Z.of_nat (length sel)) (cacheCapacity conf (length kvs))) as [Hlt|Hge].
  1: { left. cbn [pick_cached]. by rewrite !length_fmap, (proj2 (Z.ltb_lt _ _)) by lia. }
  1, 3: right; exists sel, (keyValueMap p), (encryption_engine_ p); rewrite pick_enough by done; destruct p; split; [reflexivity|];
    split; [done|]; split; [done|]; split; [done|]; split; [lia|]; intros x; case_decide; [by apply Hnone|done].
  destruct (pick_turn fuel kvs sel p Ho Hf Hlt) as (r & e1 & k & v & _ & Ho1 & Hkv & ->).
  case_decide as Hs; [by apply (IH sel (set_encryption_engine_ e1 p))|]. set (p2 := set_keyValueMap _ _).
  destruct (IH (sel ++ [(k, v)]) p2) as [Hout|(sel' & m & e & Hrun & Ho' & Hsub & Hs' & Hl' & Hm)]; try done.
  - by eapply selection_add.
  - rewrite length_app. cbn [length]. lia.
  - intros x. rewrite fmap_app, fmap_app. cbn [keyValueMap p2 set_keyValueMap].
    intros [Hx|Hx]%elem_of_app; [|apply list_elem_of_singleton in Hx as ->; apply lookup_delete_eq].
    destruct (decide (loc k 0 = x)) as [<-|]; [apply lookup_delete_eq|rewrite lookup_delete_ne by done]. by apply Hnone.
  - by left.
  - right. exists sel', m, e. split; [exact Hrun|]. split; [done|].
    split; [intros kv Hkv'; apply Hsub, elem_of_app; by left|]. split; [done|]. split; [done|].
    intros x. rewrite Hm. case_decide as Hx; [done|]. cbn. rewrite lookup_delete_ne; [done|].
    intros <-. apply Hx. apply list_elem_of_fmap. exists k. split; [done|]. apply list_elem_of_fmap. exists (k, v).
    split; [done|]. apply Hsub, elem_of_app. right. by left.
Qed.

(** There is a key left to pick. *)
Lemma key_left (kvs sel : list (string * string)) :
  NoDup kvs.*1 → (length sel < length kvs)%nat → ∃ i k v, kvs !! i = Some (k, v) ∧ k ∉ sel.*1.
Proof.
  intros Hnd Hlt. destruct (decide (Forall (λ k, k ∈ sel.*1) kvs.*1)) as [Hall|Hsome].
  - exfalso. rewrite Forall_forall in Hall. apply NoDup_submseteq in Hall; [|done]. apply submseteq_length in Hall.
    rewrite !length_fmap in Hall. lia.
  - apply not_Forall_Exists in Hsome; [|solve_decision]. apply Exists_exists in Hsome as (k & Hk & Hn).
    apply list_elem_of_fmap in Hk as ([k' v] & -> & [i Hi]%list_elem_of_lookup). by exists i, k', v.
Qed.

(** [K] turns for each key are enough. *)
Lemma pick_ends K m fuel kvs sel p :
  fair_index (length kvs) K → crypt_ok (encryption_engine_ p) → NoDup kvs.*1 →
  (∀ k v, (k, v) ∈ kvs → freqs p !! k = Some 0) → selection kvs sel →
  cacheCapacity conf (length kvs) ≤ Z.of_nat (length kvs) →
  Z.of_nat (length sel + m) = cacheCapacity conf (length kvs) → (K * m ≤ fuel)%nat →
  (pick fuel kvs sel p).1 ≠ Stop OutOfFuel.
Proof.
  intros Hfair Ho Hnd Hf Hsel Hle. revert fuel sel p Ho Hf Hsel. induction m as [|m IH]; intros fuel sel p Ho Hf Hsel Hcap Hfuel.
  { by rewrite pick_enough by lia. }
  destruct (key_left kvs sel Hnd) as (i & k0 & v0 & Hi & Hk0); [lia|].
  destruct (Hfair p i Ho) as (k & r & p' & Hk & Hr & Hri); [by eapply lookup_lt_Some|].
  assert (k + 1 + K * m ≤ fuel)%nat as Hleft by lia. clear Hk Hfuel.
  revert fuel p Ho Hf Hr Hleft. induction k as [|k IHk]; intros [|fuel] p Ho Hf Hr Hleft; try lia;
    destruct (pick_turn fuel kvs sel p Ho Hf ltac:(lia)) as (r1 & e1 & k1 & v1 & Hr1 & Ho1 & Hkv & ->);
    case_decide as Hs.
  - cbn [redraw] in Hr. rewrite Hr1 in Hr. injection Hr as -> _. rewrite Hri, Hi in Hkv. injection Hkv as -> ->. done.
  - apply IH; [done|done|by eapply selection_add|rewrite length_app; simpl; lia|lia].
  - apply IHk; [done|done| |lia]. cbn [redraw] in Hr. by rewrite (mbind_run _ _ _ _ _ Hr1) in Hr.
  - apply IH; [done|done|by eapply selection_add|rewrite length_app; simpl; lia|lia].
Qed.

(** The names that the loop makes up *)
Definition fake_name (k : string) : Prop := ∃ s n, k = "fake" +:+ s ∧ (5 ≤ n ≤ 14)%nat ∧ alphanums n s.
Hypothesis fakes_ok : ∀ k, fake_name k → key_ok k.

Lemma fake_name_no_at k : fake_name k → has_char "@" k = false.
Proof. intros (s & n & -> & _ & _ & Hs). rewrite has_char_app, Hs; [done|vm_compute; reflexivity]. Qed.

Lemma canonical_has_at k : Smoother.canonical k → has_char "@" k = true.
Proof.
  intros (item & t & _ & _ & ->). unfold Smoother.ts_key. rewrite !has_char_app. by rewrite orb_true_r.
Qed.

Definition fake_entry (m : gmap string string) (k : string) (f : Z) : Prop :=
  f = 0 ∧ fake_name k ∧ ∃ c v, m !! loc k 0 = Some c ∧ cipher_of c v.

Record fakes_made (m0 : gmap string string) (b : Smoother.FrequencySmoother) (m : gmap string string) (e : W) : Prop := {
  fm_wf : Smoother.wf b ∧ Smoother.needTimeStamp b = false;
  fm_crypt : crypt_ok e;
  fm_entries k f : Smoother.accessFreqs b !! k = Some f → fake_entry m k f;
  fm_others x : (∀ k, fake_name k → x ≠ loc k 0) → m !! x = m0 !! x;
  fm_dom x : is_Some (m !! x) → is_Some (m0 !! x) ∨ ∃ k, is_Some (Smoother.accessFreqs b !! k) ∧ x = loc k 0;
}.

(** The index of fake keys with one more *)
Local Abbreviation with_fake k b :=
  (Smoother.with_accessTree (oset_insert Smoother.freqCmp (k, 0)) (Smoother.with_accessFreqs (λ m, <[k := 0]> m) b)).

Lemma fakes_made_from m0 b m e e' : fakes_made m0 b m e → crypt_ok e' → fakes_made m b m e'.
Proof. intros [[Hw Hn] Ho Hent _ _] Ho'. split; [done|done|exact Hent|done|by left]. Qed.

(** The pairs of the other fake keys are elsewhere. *)
Lemma fake_elsewhere m0 b m e k k' :
  fakes_made m0 b m e → fake_name k → Smoother.accessFreqs b !! k = None → is_Some (Smoother.accessFreqs b !! k') →
  loc k' 0 ≠ loc k 0.
Proof.
  intros Hfm Hk Hn [f' Hf']. destruct (fm_entries _ _ _ _ Hfm _ _ Hf') as (_ & Hk' & _).
  intros ->%loc0_inj; [congruence|auto..].
Qed.

Lemma fakes_made_add m0 b m e e' k c v :
  fakes_made m0 b m e → fake_name k → Smoother.accessFreqs b !! k = None → crypt_ok e' → cipher_of c v →
  fakes_made (<[loc k 0 := c]> m) (with_fake k b) (<[loc k 0 := c]> m) e'.
Proof.
  intros Hfm Hk Hn Ho Hc. pose proof Hfm as [[Hw Hnt] _ Hent _ _]. split; [|done| |done|by left].
  - split; [|done]. split; [|intros Hf; change (Smoother.needTimeStamp b = true) in Hf; congruence].
    apply Smoother.wf_tree_insert; [apply Hw|by left].
  - intros k' f'. cbn [Smoother.accessFreqs Smoother.with_accessTree Smoother.with_accessFreqs].
    intros [[<- <-]|[Hkk Hf']]%lookup_insert_Some.
    + split; [done|]. split; [done|]. exists c, v. by rewrite lookup_insert_eq.
    + destruct (Hent k' f' Hf') as (-> & Hn' & c' & v' & Hc' & Hv'). split; [done|]. split; [done|].
      exists c', v'. rewrite lookup_insert_ne; [done|]. intros Heq. symmetry in Heq. revert Heq.
      apply (fake_elsewhere _ _ _ _ _ _ Hfm); [done|done|by eexists].
Qed.

(** What is made up after the fake key [k] *)
Lemma fakes_made_more m0 b m e k c :
  fake_name k → is_Some (Smoother.accessFreqs b !! k) → fakes_made (<[loc k 0 := c]> m0) b m e → fakes_made m0 b m e.
Proof.
  intros Hk Hb [F1 F2 F3 F4 F5]. split; [done|done|done| |].
  - intros x Hx. rewrite F4 by done. rewrite lookup_insert_ne; [done|]. intros <-. by apply (Hx k).
  - intros x [Hx|?]%F5; [|by right]. apply lookup_insert_is_Some in Hx as [<-|[_ Hx]]; [|by left]. right. by exists k.
Qed.

(** One fake key, up to the state in which the loop goes on *)
Lemma make_fake_run k p :
  Smoother.needTimeStamp (fakeBst p) = false → crypt_ok (encryption_engine_ p) → ffreqs p !! k = None →
  0 ≤ object_size_ conf ≤ 4085 →
  ∃ c v e, cipher_of c v ∧ crypt_ok e ∧ ∀ K : M proxy (),
    (on_fakeBst (Smoother.insert k) ;; f ← on_fakeBst (Smoother.getFrequency k);
     tempFakeKey ← on_engine (crypt_prf (name k f)); value ← gen_random (Z.to_nat (object_size_ conf));
     fakeKeyValue ← on_engine (crypt_encrypt value);
     modify (with_keyValueMap (λ m, <[tempFakeKey := fakeKeyValue]> m)) ;; K) p
    = K (set_fakeBst (with_fake k (fakeBst p)) (set_keyValueMap (<[loc k 0 := c]> (keyValueMap p))
          (set_encryption_engine_ e p))).
Proof.
  intros Hn Ho Hk Hsz.
  assert (on_fakeBst (Smoother.insert k) p = (Done (), set_fakeBst (with_fake k (fakeBst p)) p)) as H2
    by (unfold on_fakeBst, zoom; by rewrite Smoother.insert_run_fake).
  set (p3 := set_fakeBst (with_fake k (fakeBst p)) p).
  assert (ffreqs p3 !! k = Some 0) as Hfk by apply lookup_insert_eq.
  destruct (gen_random_yields (Z.to_nat (object_size_ conf)) p3 Ho) as (v & e3 & Hv & Ho3 & Hav).
  destruct (crypt_encrypt_ok e3 v Ho3) as (c & e4 & He4 & Ho4 & Hc); [apply (alphanums_storable _ _ Hav); lia|].
  assert (on_engine (crypt_encrypt v) (set_encryption_engine_ e3 p3) = (Done c, set_encryption_engine_ e4 p3)) as H3
    by (unfold on_engine, zoom; cbn; by rewrite He4).
  exists c, v, e4. split; [done|]. split; [done|]. intros K. rewrite (mbind_run _ _ _ _ _ H2).
  rewrite (mbind_run _ _ _ _ _ (fake_getFrequency_run k 0 p3 Hfk)).
  rewrite (mbind_run _ _ _ _ _ (prf_run (name k 0) p3 Ho)). fold (loc k 0).
  by rewrite (mbind_run _ _ _ _ _ Hv), (mbind_run _ _ _ _ _ H3).
Qed.

(** The index of fake keys, and the copies, after one more fake key *)
Record fake_added (k : string) p p' : Prop := {
  fa_made : fakes_made (keyValueMap p) (fakeBst p) (keyValueMap p) (encryption_engine_ p) →
    fakes_made (keyValueMap p') (fakeBst p') (keyValueMap p') (encryption_engine_ p');
  fa_index : ffreqs p' = <[k := 0]> (ffreqs p);
  fa_more b m e : is_Some (Smoother.accessFreqs b !! k) → fakes_made (keyValueMap p') b m e → fakes_made (keyValueMap p) b m e;
  fa_rest b m e : set_fakeBst b (set_keyValueMap m (set_encryption_engine_ e p'))
    = set_fakeBst b (set_keyValueMap m (set_encryption_engine_ e p));
}.

Lemma draw_fake_run p :
  crypt_ok (encryption_engine_ p) →
  ∃ s e, draw_fake p = (Done s, set_encryption_engine_ e p) ∧ crypt_ok e ∧ fake_name s.
Proof.
  intros Ho. destruct (draw_rand_run p Ho) as (r & e1 & Hr & Ho1 & Hpos).
  pose proof (Z.mod_pos_bound r 10 ltac:(lia)) as Hm10.
  destruct (gen_random_yields (Z.to_nat (r `mod` 10 + 5)) (set_encryption_engine_ e1 p) Ho1) as (s & e2 & Hs & Ho2 & Hal).
  exists ("fake" +:+ s), e2. split; [|split; [done|exists s, (Z.to_nat (r `mod` 10 + 5)); split; [done|split; [lia|done]]]].
  unfold draw_fake. fold draw_rand. by rewrite (mbind_run _ _ _ _ _ Hr), (mbind_run _ _ _ _ _ Hs).
Qed.

Lemma make_fakes_draw fuel i temp p : i < D conf →
  make_fakes conf (S fuel) i temp p =
  (fakeKey ← draw_fake;
   if decide (fakeKey ∈ temp) then make_fakes conf fuel i temp
   else
     on_fakeBst (Smoother.insert fakeKey) ;;
     f ← on_fakeBst (Smoother.getFrequency fakeKey);
     tempFakeKey ← on_engine (crypt_prf (name fakeKey f));
     value ← gen_random (Z.to_nat (object_size_ conf));
     fakeKeyValue ← on_engine (crypt_encrypt value);
     modify (with_keyValueMap (λ m, <[tempFakeKey := fakeKeyValue]> m)) ;;
     make_fakes conf fuel (i + 1) ({[fakeKey]} ∪ temp)) p.
Proof.
  intros Hi. cbn [make_fakes]. rewrite (proj2 (Z.ltb_lt _ _)) by done. unfold draw_fake, mbind, M_bind.
  destruct (on_engine crypt_rand p) as [[r|?] p1]; [|done]. by destruct (gen_random _ p1) as [[s|?] p2].
Qed.

(** One turn of the loop *)
Lemma fake_turn fuel i p :
  crypt_ok (encryption_engine_ p) → Smoother.needTimeStamp (fakeBst p) = false → i < D conf → 0 ≤ object_size_ conf ≤ 4085 →
  ∃ s e, draw_fake p = (Done s, set_encryption_engine_ e p) ∧ crypt_ok e ∧
  if decide (s ∈ dom (ffreqs p))
  then make_fakes conf (S fuel) i (dom (ffreqs p)) p = make_fakes conf fuel i (dom (ffreqs p)) (set_encryption_engine_ e p)
  else ∃ p', make_fakes conf (S fuel) i (dom (ffreqs p)) p = make_fakes conf fuel (i + 1) (dom (ffreqs p')) p'
    ∧ fake_added s p p'.
Proof.
  intros Ho Hn Hi Hsz. destruct (draw_fake_run p Ho) as (s & e & Hs & Ho1 & Hk). exists s, e. split; [done|]. split; [done|].
  rewrite make_fakes_draw by done. rewrite (mbind_run _ _ _ _ _ Hs). set (p2 := set_encryption_engine_ e p).
  case_decide as Hin; [done|]. apply not_elem_of_dom in Hin.
  destruct (make_fake_run s p2) as (c & v & e4 & Hc & Ho4 & ->); [done..|].
  set (p4 := set_fakeBst _ _). exists p4. assert (ffreqs p4 = <[s := 0]> (ffreqs p)) as Hidx by reflexivity.
  split; [by rewrite Hidx, dom_insert_L|]. split; [|done| |done].
  - intros Hfm. by apply (fakes_made_add _ _ _ _ e4 s c v Hfm).
  - intros b m e' Hb. by apply (fakes_made_more _ _ _ _ s c).
Qed.

Lemma make_fakes_done fuel i temp p : D conf ≤ i → make_fakes conf fuel i temp p = (Done (), p).
Proof. intros Hi. destruct fuel; cbn [make_fakes]; by rewrite (proj2 (Z.ltb_ge _ _)) by lia. Qed.

Lemma make_fakes_run fuel i p :
  fakes_made (keyValueMap p) (fakeBst p) (keyValueMap p) (encryption_engine_ p) →
  Z.of_nat (size (ffreqs p)) = i → i ≤ D conf → 0 ≤ object_size_ conf ≤ 4085 →
  let run := make_fakes conf fuel i (dom (ffreqs p)) p in
  run.1 = Stop OutOfFuel
  ∨ ∃ b m e, run = (Done (), set_fakeBst b (set_keyValueMap m (set_encryption_engine_ e p)))
    ∧ fakes_made (keyValueMap p) b m e ∧ Z.of_nat (size (Smoother.accessFreqs b)) = D conf
    ∧ ∀ k, is_Some (ffreqs p !! k) → is_Some (Smoother.accessFreqs b !! k).
Proof.
  revert i p. induction fuel as [|fuel IH]; intros i p Hfm Hi Hle Hsz; cbv zeta; destruct (Z.lt_ge_cases i (D conf)).
  1: { left. cbn [make_fakes]. by rewrite (proj2 (Z.ltb_lt _ _)) by lia. }
  1, 3: right; exists (fakeBst p), (keyValueMap p), (encryption_engine_ p); rewrite make_fakes_done by lia;
    split; [by destruct p|]; split; [done|]; split; [unfold ffreqs in *; lia|intros k Hk; exact Hk].
  destruct (fake_turn fuel i p) as (k & e2 & _ & Ho2 & Hturn); [apply Hfm|apply Hfm|done..|].
  case_decide as Hin; [rewrite Hturn; apply (IH i (set_encryption_engine_ e2 p)); try done; apply (fakes_made_from _ _ _ _ e2 Hfm Ho2)|].
  destruct Hturn as (p' & -> & Hadd). apply not_elem_of_dom in Hin.
  destruct (IH (i + 1) p') as [Hout|(b & m & e & Hrun & Hfm' & Hsize & Hsub)].
  - by apply (fa_made _ _ _ Hadd).
  - rewrite (fa_index _ _ _ Hadd), map_size_insert_None by done. lia.
  - lia.
  - done.
  - by left.
  - right. exists b, m, e. rewrite <- (fa_rest _ _ _ Hadd). split; [exact Hrun|].
    assert (∀ k', k' = k ∨ is_Some (ffreqs p !! k') → is_Some (Smoother.accessFreqs b !! k')) as Hsub'.
    { intros k' Hk'. apply Hsub. rewrite (fa_index _ _ _ Hadd). apply lookup_insert_is_Some.
      destruct (decide (k = k')); [by left|]. right. split; [done|]. by destruct Hk' as [->|?]. }
    split; [|split; [done|auto]]. apply (fa_more _ _ _ Hadd); auto.
Qed.

(** [K] turns for each name are enough. *)
Lemma fakes_end K m fuel i p :
  fair_fake K → fakes_made (keyValueMap p) (fakeBst p) (keyValueMap p) (encryption_engine_ p) →
  Z.of_nat (size (ffreqs p)) = i → 0 ≤ object_size_ conf ≤ 4085 → i + Z.of_nat m = D conf → (K * m ≤ fuel)%nat →
  (make_fakes conf fuel i (dom (ffreqs p)) p).1 ≠ Stop OutOfFuel.
Proof.
  intros Hfair. revert fuel i p. induction m as [|m IH]; intros fuel i p Hfm Hi Hsz Hm Hfuel.
  { by rewrite make_fakes_done by lia. }
  destruct (Hfair p (dom (ffreqs p))) as (k & r & q & Hk & Hr & Hri); [apply Hfm|rewrite size_dom; lia|].
  assert (k + 1 + K * m ≤ fuel)%nat as Hleft by lia. clear Hk Hfuel.
  revert fuel p Hfm Hi Hri Hr Hleft. induction k as [|k IHk]; intros [|fuel] p Hfm Hi Hri Hr Hleft; try lia;
    destruct (fake_turn fuel i p) as (s & e & Hs & Ho & Hturn); [apply Hfm|apply Hfm|lia|done| |apply Hfm|apply Hfm|lia|done|];
    cbn [redraw] in Hr; (case_decide as Hin;
      [|destruct Hturn as (p' & -> & Hadd); apply IH; [by apply Hadd| |done|lia|lia];
        apply not_elem_of_dom in Hin; rewrite (fa_index _ _ _ Hadd), map_size_insert_None by done; lia]).
  - rewrite Hs in Hr. injection Hr as -> _. done.
  - rewrite Hturn. apply (IHk fuel (set_encryption_engine_ e p)); [apply (fakes_made_from _ _ _ _ e Hfm Ho)|done|done| |lia].
    by rewrite (mbind_run _ _ _ _ _ Hs) in Hr.
Qed.

Lemma put_bulks_run kvs fk fv p :
  storage_ok (storage_interface_ p) → length fk = length fv →
  ∃ st, put_bulks conf kvs fk fv p = (Done (), set_storage_interface_ st p) ∧ storage_ok st
    ∧ contents st = store_all (zip fk fv ++ kvs) (server p).
Proof.
  revert fk fv p. induction kvs as [|[k v] kvs IH]; intros fk fv p Ho Hl; cbn [put_bulks].
  - rewrite app_nil_r. destruct (decide (fv = [])) as [->|Hne].
    + destruct fk; [|done]. exists (storage_interface_ p). by destruct p.
    + destruct (storage_put_batch_ok _ fk fv Ho Hl) as (st & Hput & Hok & Hc). exists st.
      by rewrite (on_storage_run _ _ _ p Hput).
  - assert (length (fk ++ [k]) = length (fv ++ [v])) as Hl' by (rewrite !length_app; simpl; lia).
    assert (zip fk fv ++ (k, v) :: kvs = zip (fk ++ [k]) (fv ++ [v]) ++ kvs) as ->.
    { rewrite zip_with_app by done. by rewrite <- app_assoc. }
    destruct (Z.eqb_spec (Z.of_nat (length (fv ++ [v]))) (wrap_u64 (redisBulkLength conf))).
    + destruct (storage_put_batch_ok _ _ _ Ho Hl') as (st & Hput & Hok & Hc).
      rewrite (mbind_run _ _ _ _ _ (on_storage_run _ _ _ p Hput)).
      destruct (IH [] [] (set_storage_interface_ st p) Hok eq_refl) as (st' & Hrun & Hok' & Hc').
      exists st'. split; [exact Hrun|]. split; [done|]. rewrite Hc'. unfold server. cbn. rewrite Hc.
      unfold store_all. by rewrite fold_left_app.
    + by apply IH.
Qed.

Lemma encryption_tests_run p :
  crypt_ok (encryption_engine_ p) →
  ∃ e, encryption_tests p = (Done (), set_encryption_engine_ e p) ∧ crypt_ok e.
Proof.
  intros Ho. assert (storable "mynameissharath") as Hs by (split; [vm_compute; reflexivity|simpl; lia]).
  unfold encryption_tests, on_engine, zoom.
  destruct (crypt_encrypt_ok _ _ Ho Hs) as (c1 & e1 & He1 & Ho1 & Hc1).
  destruct (crypt_encrypt_ok _ _ Ho1 Hs) as (c2 & e2 & He2 & Ho2 & Hc2).
  destruct (crypt_decrypt_ok _ _ _ Ho2 Hc1) as (e3 & He3 & Ho3).
  destruct (crypt_decrypt_ok _ _ _ Ho3 Hc2) as (e4 & He4 & Ho4).
  run. rewrite He1. cbn. rewrite He2. cbn. rewrite He3. cbn. rewrite He4. cbn.
  rewrite !crypt_prf_ok by done. by exists e4.
Qed.

Lemma store_all_map_to_list (m : gmap string string) : store_all (map_to_list m) ∅ = m.
Proof.
  apply map_eq. intros k. destruct (m !! k) as [v|] eqn:Hk.
  - apply store_all_lookup; [apply NoDup_fst_map_to_list|by apply elem_of_map_to_list].
  - rewrite store_all_other; [done|]. intros ([k' v] & -> & Hin%elem_of_map_to_list)%list_elem_of_fmap.
    simpl in Hk. congruence.
Qed.

Lemma inserts_reverse (l acc : list (string * string)) :
  NoDup (l.*1 ++ acc.*1) → fold_left (λ l kv, Lru.insert kv.1 kv.2 l) l acc = reverse l ++ acc.
Proof.
  revert acc. induction l as [|[k v] l IH]; intros acc Hnd; [done|]. rewrite fmap_cons in Hnd. cbn [fst] in Hnd.
  apply NoDup_cons in Hnd as [Hni Hnd]. rewrite elem_of_app in Hni. cbn [fold_left fst snd].
  rewrite lru_insert_absent by tauto. rewrite IH, reverse_cons, <- app_assoc; [done|]. rewrite fmap_cons.
  apply NoDup_app in Hnd as (H1 & H2 & H3). apply NoDup_app. split; [done|]. split; [|constructor; tauto].
  intros x Hx [->|Hx']%elem_of_cons; [tauto|by apply (H2 x)].
Qed.

(** * The start *)

(** A proxy as it is constructed, connected to an empty server. *)
Record constructed p : Prop := {
  cons_real : realBst p = Smoother.new_smoother true;
  cons_fake : fakeBst p = Smoother.new_smoother true;
  cons_map : keyValueMap p = ∅;
  cons_clock : 0 ≤ timeStamp p < 2^31;
  cons_storage : storage_ok (storage_interface_ p) ∧ server p = ∅;
  cons_crypt : crypt_ok (encryption_engine_ p);
}.

(** A data set that [init] can load *)
Record data_ok (kvs : list (string * string)) : Prop := {
  data_nodup : NoDup kvs.*1;
  data_pairs k v : (k, v) ∈ kvs → Smoother.canonical k ∧ key_ok k ∧ storable v;
}.

(** The proxy after [init] on [kvs] *)
Record started (kvs : list (string * string)) p p' : Prop := {
  st_inv : pinv key_ok (dom (server p')) ∅ p';
  st_freqs k f : freqs p' !! k = Some f ↔ f = 0 ∧ k ∈ kvs.*1;
  st_values k v : (k, v) ∈ kvs → value_of p' k v;
  st_fakes : Z.of_nat (size (ffreqs p')) = D conf;
  st_fake_names k : is_Some (ffreqs p' !! k) → fake_name k;
  st_lru : Z.of_nat (length (lru p')) = cacheCapacity conf (length kvs);
  st_names x : x ∈ dom (server p') → ∃ k, x = loc k 0 ∧ key_ok k ∧ (k ∈ kvs.*1 ∨ is_Some (ffreqs p' !! k));
  st_rest : runningKeys p' = runningKeys p ∧ keys_to_be_deleted p' = keys_to_be_deleted p
            ∧ timeStamp p' = timeStamp p ∧ keysNotUsed p' = keysNotUsed p;
}.

Section started.
Context (kvs sel : list (string * string)) (m1 m2 m3 : gmap string string) (b : Smoother.FrequencySmoother) (e3 : W).
Hypotheses (Hdata : data_ok kvs) (Hholds : holds m1 kvs)
  (Hm1 : ∀ x, x ∉ (λ k, loc k 0) <$> kvs.*1 → m1 !! x = None)
  (Hsel : ∀ kv, kv ∈ sel → kv ∈ kvs) (Hnd : NoDup sel.*1)
  (Hm2 : ∀ x, m2 !! x = if decide (x ∈ (λ k, loc k 0) <$> sel.*1) then None else m1 !! x)
  (Hfm : fakes_made m2 b m3 e3).

Lemma data_key k : k ∈ kvs.*1 → Smoother.canonical k ∧ key_ok k.
Proof. intros ([k' v] & -> & Hin)%list_elem_of_fmap. destruct (data_pairs _ Hdata _ _ Hin) as (? & ? & _). done. Qed.

Lemma sel_key k : k ∈ sel.*1 → k ∈ kvs.*1.
Proof. intros ([k' v] & -> & Hin%Hsel)%list_elem_of_fmap. by apply (list_elem_of_fmap_2 fst) in Hin. Qed.

Lemma not_a_fake k : k ∈ kvs.*1 → Smoother.accessFreqs b !! k = None.
Proof.
  intros [Hc _]%data_key. apply eq_None_not_Some. intros [f Hf]. destruct (fm_entries _ _ _ _ Hfm _ _ Hf) as (_ & Hk & _).
  apply fake_name_no_at in Hk. apply canonical_has_at in Hc. congruence.
Qed.

Lemma final_real k : k ∈ kvs.*1 → m3 !! loc k 0 = if decide (k ∈ sel.*1) then None else m1 !! loc k 0.
Proof.
  intros Hk. destruct (data_key k Hk) as [Hc Hko]. rewrite (fm_others _ _ _ _ Hfm).
  - rewrite Hm2. apply decide_ext. rewrite list_elem_of_fmap. split; [|eauto].
    intros (k' & Heq & Hin). apply loc0_inj in Heq as ->; [done|done|]. by apply data_key, sel_key.
  - intros k' Hk' ->%loc0_inj; [|done|by apply fakes_ok]. apply fake_name_no_at in Hk'.
    apply canonical_has_at in Hc. congruence.
Qed.

Lemma final_dom x : is_Some (m3 !! x) →
  ∃ k, x = loc k 0 ∧ key_ok k ∧ (k ∈ kvs.*1 ∨ is_Some (Smoother.accessFreqs b !! k)).
Proof.
  intros [Hx|(k & [f Hf] & ->)]%(fm_dom _ _ _ _ Hfm).
  - rewrite Hm2 in Hx. case_decide; [by destruct Hx|].
    destruct (decide (x ∈ (λ k, loc k 0) <$> kvs.*1)) as [(k & -> & Hk)%list_elem_of_fmap|Hn].
    + exists k. split; [done|]. split; [by apply data_key|by left].
    + rewrite Hm1 in Hx by done. by destruct Hx.
  - exists k. split; [done|]. split; [|right; by eexists]. apply fakes_ok. by apply (fm_entries _ _ _ _ Hfm _ _ Hf).
Qed.

Lemma started_run p p' :
  constructed p → real_ok p' → (∀ k, freqs p' !! k = if decide (k ∈ kvs.*1) then Some 0 else None) →
  fakeBst p' = b → lru p' = reverse sel → Cache.wf (cache p') → EvictedItems.cacheMap (EvictedItems p') = ∅ →
  Z.of_nat (size (Smoother.accessFreqs b)) = D conf → Z.of_nat (length sel) = cacheCapacity conf (length kvs) →
  storage_ok (storage_interface_ p') → server p' = m3 → crypt_ok (encryption_engine_ p') →
  runningKeys p' = runningKeys p → keys_to_be_deleted p' = keys_to_be_deleted p → timeStamp p' = timeStamp p →
  keysNotUsed p' = keysNotUsed p →
  started kvs p p'.
Proof.
  intros Hcons Hr Hf Hb Hl Hc Hev Hsz Hls Hst Hserv Hcr R1 R2 R3 R4.
  assert (∀ k, k ∈ (lru p').*1 ↔ k ∈ sel.*1) as Hcached.
  { intros k. rewrite Hl, fmap_reverse. apply elem_of_reverse. }
  assert (∀ k v, in_lru p' k v ↔ (k, v) ∈ sel) as Hin.
  { intros k v. rewrite in_lru_elem, Hl by done. apply elem_of_reverse. }
  assert (∀ k f, freqs p' !! k = Some f ↔ f = 0 ∧ k ∈ kvs.*1) as Hfr.
  { intros k f. rewrite Hf. case_decide; naive_solver. }
  assert (∀ k f, ffreqs p' !! k = Some f → fake_entry m3 k f) as Hff.
  { intros k f. unfold ffreqs. rewrite Hb. apply Hfm. }
  assert (∀ k v, k ∉ sel.*1 → (k, v) ∈ kvs → on_server p' k 0 v) as Hon.
  { intros k v Hk Hkv. unfold on_server. rewrite Hserv, final_real by (by apply (list_elem_of_fmap_2 fst) in Hkv).
    rewrite decide_False by done. by apply Hholds. }
  split; [split|done| | | | | |done]; rewrite ?Hb, ?R3; try done.
  - apply Hfm.
  - intros k [[f [_ Hk]%Hfr]|[f (_ & Hk & _)%Hff]]; [by apply data_key|by apply fakes_ok].
  - intros k [f [_ Hk]%Hfr]. unfold ffreqs. rewrite Hb. by apply not_a_fake.
  - intros k v Hs%Hin. assert (k ∈ kvs.*1) as Hk by (apply Hsel in Hs; by apply (list_elem_of_fmap_2 fst) in Hs).
    split; [exists 0; by apply Hfr|]. split; [by destruct (data_pairs _ Hdata _ _ (Hsel _ Hs)) as (_ & _ & ?)|].
    intros f [-> _]%Hfr. rewrite Hserv, not_elem_of_dom, final_real, decide_True; [done| |done].
    by apply (list_elem_of_fmap_2 fst) in Hs.
  - intros k f [-> Hk]%Hfr Hnc. rewrite Hcached in Hnc. split; [apply not_elem_of_empty|].
    apply list_elem_of_fmap in Hk as ([k' v] & -> & Hk). exists v.
    split; [by destruct (data_pairs _ Hdata _ _ Hk) as (_ & _ & ?)|by apply Hon].
  - intros k f (-> & _ & c0 & v & Hc0)%Hff. split; [apply not_elem_of_empty|]. exists v, c0. by rewrite Hserv.
  - intros k f Hk. assert (f = 0) as -> by (destruct Hk as [[-> _]%Hfr|(-> & _)%Hff]; done).
    pose proof (cons_clock _ Hcons). lia.
  - apply Hcons.
  - intros x Hx%elem_of_dom. rewrite Hserv in Hx. destruct (final_dom x Hx) as (k & -> & Hk & _).
    exists k, 0. pose proof (cons_clock _ Hcons). split; [done|]. split; [done|lia].
  - intros k v Hkv. destruct (decide (k ∈ sel.*1)) as [Hs|Hs].
    + left. apply Hin. apply list_elem_of_fmap in Hs as ([k' v'] & -> & Hs).
      by rewrite (pair_unique kvs k' v v' (data_nodup _ Hdata) Hkv (Hsel _ Hs)).
    + right. rewrite Hcached. split; [done|]. exists 0. split; [|by apply Hon]. apply Hfr. split; [done|].
      by apply (list_elem_of_fmap_2 fst) in Hkv.
  - by unfold ffreqs; rewrite Hb.
  - intros k [f (_ & Hk & _)%Hff]. done.
  - by rewrite Hl, length_reverse.
  - intros x Hx%elem_of_dom. rewrite Hserv in Hx. unfold ffreqs. rewrite Hb. by apply final_dom.
Qed.
End started.

(** The two indices are new ones. *)
Definition reset p : proxy :=
  set_fakeBst (Smoother.move_assign false (fakeBst p) (Smoother.new_smoother false))
    (set_realBst (Smoother.move_assign false (realBst p) (Smoother.new_smoother true)) p).

Lemma reset_run p (K : M proxy ()) :
  (on_realBst (update (λ this, Smoother.move_assign false this (Smoother.new_smoother true))) ;;
   on_fakeBst (update (λ this, Smoother.move_assign false this (Smoother.new_smoother false))) ;; K) p = K (reset p).
Proof. done. Qed.

Lemma reset_real_ok p : constructed p → real_ok (reset p).
Proof.
  intros Hcons. unfold real_ok, reset. cbn [realBst set_fakeBst set_realBst]. rewrite (cons_real _ Hcons).
  split; [apply Smoother.wf_new|done].
Qed.

Lemma reset_no_fakes p m e :
  constructed p → crypt_ok e →
  fakes_made m (Smoother.with_needTimeStamp false (fakeBst (reset p))) m e.
Proof.
  intros Hcons Ho. unfold reset. cbn [fakeBst set_fakeBst]. rewrite (cons_fake _ Hcons).
  split; [|done| |done|by left]; [split; [split; [apply (Smoother.wf_new false)|done]|done]|].
  intros k f Hf. change (Smoother.accessFreqs _) with (∅ : gmap string Z) in Hf. by rewrite lookup_empty in Hf.
Qed.

(** The keys are stored, and some of them move to the cache. *)
Lemma load_run fuel kvs p :
  constructed p → data_ok kvs →
  let run := (load_keys 0 kvs.*1 kvs.*2 ;; pick_cached conf fuel kvs.*1 kvs.*2 ∅ [] []) (reset p) in
  (run.1 = Stop OutOfFuel ∧ ∀ K, fair_index (length kvs) K →
     cacheCapacity conf (length kvs) ≤ Z.of_nat (length kvs) →
     Z.of_nat fuel < Z.of_nat K * cacheCapacity conf (length kvs))
  ∨ ∃ b m1 m2 e sel,
      run = (Done (sel.*1, sel.*2), set_realBst b (set_keyValueMap m2 (set_encryption_engine_ e (reset p))))
    ∧ Smoother.wf b ∧ Smoother.needTimeStamp b = true ∧ crypt_ok e
    ∧ (∀ k, Smoother.accessFreqs b !! k = if decide (k ∈ kvs.*1) then Some 0 else None)
    ∧ holds m1 kvs ∧ (∀ x, x ∉ (λ k, loc k 0) <$> kvs.*1 → m1 !! x = None)
    ∧ (∀ kv, kv ∈ sel → kv ∈ kvs) ∧ NoDup sel.*1 ∧ Z.of_nat (length sel) = cacheCapacity conf (length kvs)
    ∧ ∀ x, m2 !! x = if decide (x ∈ (λ k, loc k 0) <$> sel.*1) then None else m1 !! x.
Proof.
  intros Hcons Hdata run.
  assert (∀ k, freqs (reset p) !! k = None) as Hf2 by (intros k; apply lookup_empty).
  destruct (load_keys_run kvs 0 kvs.*2 (reset p)) as (b & m1 & e1 & Hload & Hw1 & Hn1 & Ho1 & Hf1 & Hh1 & Hm1);
    [by apply reset_real_ok|apply Hcons|by rewrite drop_0|apply Hdata| |].
  { intros k v Hkv. destruct (data_pairs _ Hdata _ _ Hkv) as (? & ? & ?). done. }
  subst run. rewrite (mbind_run _ _ _ _ _ Hload). set (p3 := set_realBst b _).
  assert (∀ k v, (k, v) ∈ kvs → freqs p3 !! k = Some 0) as Hf3.
  { intros k v Hkv. change (Smoother.accessFreqs b !! k = Some 0). rewrite Hf1, decide_True; [done|].
    by apply (list_elem_of_fmap_2 fst) in Hkv. }
  assert (selection kvs []) as Hs0 by (split; [intros kv Hin; by apply not_elem_of_nil in Hin|constructor]).
  assert (0 ≤ cacheCapacity conf (length kvs)) as Hcap by (apply Z.div_pos; [apply Z.mod_pos_bound|]; lia).
  destruct (pick_cached_run fuel kvs [] p3) as [Hout|(sel & m2 & e2 & Hpick & Ho2 & _ & [Hsel Hnd] & Hlen & Hm2)];
    [done|done|done|done|intros x Hx; by apply not_elem_of_nil in Hx| |].
  - left. split; [exact Hout|]. intros K Hfair Hle. apply Z.lt_nge. intros Hfuel.
    apply (pick_ends K (Z.to_nat (cacheCapacity conf (length kvs))) fuel kvs [] p3 Hfair Ho1); try done.
    + apply Hdata.
    + cbn [length]. lia.
    + nia.
  - right. exists b, m1, m2, e2, sel. split; [exact Hpick|]. do 3 (split; [done|]).
    split; [intros k; by rewrite Hf1, Hf2|]. split; [done|]. split; [|done].
    intros x Hx. rewrite Hm1 by done. change (keyValueMap p !! x = None). by rewrite (cons_map _ Hcons), lookup_empty.
Qed.

(** The cache is made of the keys that were picked. *)
Lemma make_cache_run (sel : list (string * string)) n p (K : M proxy ()) :
  NoDup sel.*1 → ∃ c, lru (set_cache c p) = reverse sel ∧ Cache.wf c
  ∧ (c ← (let '(r, c) := Cache.make_cache sel.*1 sel.*2 n in lift_result r ;; mret c);
     on_cache (update (λ this, Cache.move_assign false this c)) ;;
     on_EvictedItems (update (λ this, EvictedItems.move_assign false this EvictedItems.new_evictedItems)) ;;
     on_fakeBst (update (Smoother.with_needTimeStamp false)) ;; K) p
    = K (set_fakeBst (Smoother.with_needTimeStamp false (fakeBst p))
          (set_EvictedItems EvictedItems.new_evictedItems (set_cache c p))).
Proof.
  intros Hnd. destruct (Cache.make_cache_inserts sel.*1 sel.*2 n) as (c & Hmake & Hcw & _ & Habs); [by rewrite !length_fmap|].
  rewrite zip_fst_snd, inserts_reverse, app_nil_r in Habs by (by rewrite app_nil_r).
  exists (Cache.move_assign false (cache p) c). split; [by destruct c|]. split; [by destruct c|].
  rewrite Hmake. unfold mbind, M_bind, lift_result, mret, M_ret. reflexivity.
Qed.

(** The made-up keys, the transfer to the server, and the tests *)
Lemma store_run fuel p :
  fakes_made (keyValueMap p) (fakeBst p) (keyValueMap p) (encryption_engine_ p) → ffreqs p = ∅ →
  0 ≤ D conf → 0 ≤ object_size_ conf ≤ 4085 → storage_ok (storage_interface_ p) → server p = ∅ →
  let run := (make_fakes conf fuel 0 ∅ ;; p ← get;
    let '(redisKeys, redisValues) := randomize_map (keyValueMap p) in
    put_bulks conf (zip redisKeys redisValues) [] [] ;; encryption_tests) p in
  (run.1 = Stop OutOfFuel ∧ ∀ K, fair_fake K → Z.of_nat fuel < Z.of_nat K * D conf)
  ∨ ∃ b m e st e', run = (Done (), set_encryption_engine_ e' (set_storage_interface_ st
        (set_fakeBst b (set_keyValueMap m p))))
    ∧ fakes_made (keyValueMap p) b m e ∧ crypt_ok e' ∧ Z.of_nat (size (Smoother.accessFreqs b)) = D conf
    ∧ storage_ok st ∧ contents st = m.
Proof.
  intros Hfm Hnone HD Hobj Hsok Hserv run.
  assert (Z.of_nat (size (ffreqs p)) = 0) as Hsize by (by rewrite Hnone).
  assert (dom (ffreqs p) = ∅) as Hdom by (by rewrite Hnone, dom_empty_L). subst run. rewrite <- Hdom.
  destruct (make_fakes_run fuel 0 p) as [Hout|(b & m & e & Hfakes & Hfm' & Hsz & _)]; [done..| |].
  { left. split; [by apply mbind_stops|]. intros K Hfair. apply Z.lt_nge. intros Hfuel.
    apply (fakes_end K (Z.to_nat (D conf)) fuel 0 p Hfair); try done; [lia|nia]. }
  right. rewrite (mbind_run _ _ _ _ _ Hfakes). set (p7 := set_fakeBst b _).
  rewrite (mbind_run get _ p7 p7 p7 eq_refl). unfold randomize_map. rewrite zip_fst_snd.
  destruct (put_bulks_run (map_to_list (keyValueMap p7)) [] [] p7) as (st & Hput & Hst & Hcont); [done|done|].
  rewrite (mbind_run _ _ _ _ _ Hput). set (p8 := set_storage_interface_ st p7).
  destruct (encryption_tests_run p8) as (e4 & Htests & Ho4); [apply (fm_crypt _ _ _ _ Hfm')|].
  exists b, m, e, st, e4. split; [exact Htests|]. do 4 (split; [done|]).
  rewrite Hcont. change (server p7) with (server p). rewrite Hserv. apply store_all_map_to_list.
Qed.

(** The fuel is below what the two loops need to make their draws, whatever
    the number [K] of draws after which every outcome comes up. *)
Definition starved (fuel n : nat) : Prop := ∀ K, fair_index n K → fair_fake K →
  cacheCapacity conf n ≤ Z.of_nat n → Z.of_nat fuel < Z.of_nat K * Z.max (cacheCapacity conf n) (D conf).

Lemma init_run fuel kvs p :
  constructed p → data_ok kvs → 0 ≤ object_size_ conf ≤ 4085 → 0 ≤ D conf →
  let run := init conf fuel kvs.*1 kvs.*2 p in
  (run.1 = Stop OutOfFuel ∧ starved fuel (length kvs)) ∨ ∃ p', run = (Done (), p') ∧ started kvs p p'.
Proof.
  intros Hcons Hdata Hobj HD. unfold init. cbv zeta. rewrite reset_run, <- mbind_assoc.
  destruct (load_run fuel kvs p Hcons Hdata)
    as [[Hout Hlow]|(b1 & m1 & m2 & e1 & sel & Hload & Hw1 & Hn1 & Ho1 & Hf1 & Hh1 & Hm1 & Hsel & Hnd & Hlen & Hm2)].
  { left. split; [by apply mbind_stops|]. intros K Hi _ Hle. specialize (Hlow K Hi Hle). nia. }
  rewrite (mbind_run _ _ _ _ _ Hload). set (p4 := set_realBst b1 _). cbn [fst snd].
  edestruct (make_cache_run sel) as (c & Hlru & Hcw & ->); [done|]. set (p6 := set_fakeBst _ _).
  destruct (store_run fuel p6) as [[Hout Hlow]|(b & m3 & e3 & st & e4 & Hrun & Hfm & Ho4 & Hsz & Hst & Hcont)];
    [by apply (reset_no_fakes p)|done|done|done|apply Hcons|apply (cons_storage _ Hcons)| |].
  { left. split; [exact Hout|]. intros K _ Hf _. specialize (Hlow K Hf). nia. }
  right. eexists. split; [exact Hrun|]. by eapply (started_run kvs sel m1 m2 m3 b e3).
Qed.

(** * Properties *)

(** C11: [init] on a data set of distinct, well-formed keys and values that can
    be encrypted, when it ends, starts the proxy in its invariant: every key
    is stored with frequency 0 and has its value, in the cache or encrypted on
    the server; [cacheCapacity] of the values are in the cache; there are [D]
    fake keys; and the server holds names of time 0 of these keys only.  It
    ends: when [cacheCapacity] keys can be cached and every outcome comes up
    within [K] draws, [K] turns for each key to cache and for each fake key are
    enough ([starved]). *)
Theorem init_starts fuel kvs p :
  constructed p → data_ok kvs → 0 ≤ object_size_ conf ≤ 4085 → 0 ≤ D conf →
  let run := init conf fuel kvs.*1 kvs.*2 p in
  (run.1 = Stop OutOfFuel ∧ starved fuel (length kvs))
  ∨ ∃ p', run = (Done (), p') ∧ pinv key_ok (dom (server p')) ∅ p'
      ∧ (∀ k f, freqs p' !! k = Some f ↔ f = 0 ∧ k ∈ kvs.*1)
      ∧ (∀ k v, k ∈ kvs.*1 → value_of p' k v ↔ (k, v) ∈ kvs)
      ∧ Z.of_nat (length (lru p')) = cacheCapacity conf (length kvs)
      ∧ Z.of_nat (size (ffreqs p')) = D conf
      ∧ ∀ x, x ∈ dom (server p') → ∃ k, x = loc k 0 ∧ (k ∈ kvs.*1 ∨ is_Some (ffreqs p' !! k)).
Proof.
  intros Hc Hd Ho HD run. destruct (init_run fuel kvs p Hc Hd Ho HD) as [|(p' & Hrun & Hst)]; [by left|right].
  exists p'. split; [exact Hrun|]. pose proof (st_inv _ _ _ Hst) as Hi. split; [done|]. split; [apply Hst|]. split.
  - intros k v Hk. split; [|apply Hst]. intros Hv. apply list_elem_of_fmap in Hk as ([k' w] & -> & Hk).
    by rewrite <- (value_unique key_ok _ _ _ _ _ _ Hi (st_values _ _ _ Hst _ _ Hk) Hv).
  - split; [apply Hst|]. split; [apply Hst|]. intros x Hx. destruct (st_names _ _ _ Hst x Hx) as (k & ? & _ & ?). by exists k.
Qed.

(** [init] never ends when more keys are to be cached than there are
    ([cacheBatches] above 100): the loop that picks them waits for a new
    one. *)
Theorem init_spins fuel kvs p :
  constructed p → data_ok kvs → 0 ≤ object_size_ conf ≤ 4085 → 0 ≤ D conf →
  Z.of_nat (length kvs) < cacheCapacity conf (length kvs) →
  fst (init conf fuel kvs.*1 kvs.*2 p) = Stop OutOfFuel.
Proof.
  intros Hc Hd Ho HD Hcap. destruct (init_run fuel kvs p Hc Hd Ho HD) as [[? _]|(p' & Hrun & Hst)]; [done|exfalso].
  pose proof (st_inv _ _ _ Hst) as Hi. pose proof (st_lru _ _ _ Hst) as Hl.
  assert (length (lru p').*1 ≤ length kvs.*1)%nat as Hle.
  { apply submseteq_length, NoDup_submseteq; [apply Cache.wf_keys_NoDup, Hi|]. intros k [v Hv]%in_lru_keys.
    destruct (pi_cached _ _ _ _ Hi k v Hv) as ([f Hf] & _). by apply (st_freqs _ _ _ Hst) in Hf as [_ ?]. }
  rewrite !length_fmap in Hle. lia.
Qed.

End correct.
End Init.
