(* ===== verification/ProxyRegister.v ===== *)
(** Registration: what the turns of [consumer_thread] (Proxy.serve) do to the
    proxy between two batches.  A GET waits for its buckets or takes them from
    the cache; a PUT displaces the oldest bucket of its item, in the cache at
    once, on the server with the next batch.  [gathering] is the invariant of
    this phase; it gives what the batch needs ([batch_pre] of BatchCorrect). *)
From S2P Require Import Prelude.
From S2P Require Import CxxString.
From S2P Require Import OrderedSet.
From S2P Require Import FrequencySmoother.
From S2P Require Import Cache.
From S2P Require Import EvictedItems.
From S2P Require Import Values.
From S2P Require Import RunningKeys.
From S2P Require Import Storage.
From S2P Require Import Encryption.
From S2P Require Import Proxy.
From S2P Require Import ProxyBatch.
From S2P Require Import BatchPhases.
From S2P Require Import BatchCorrect.
From S2P Require Import ProxyInit.

Local Open Scope Z_scope.

Module Register.
Import Proxy Batch Phases Correct.

(** * The keys of a GET *)

(** The key of a GET for the buckets of [item] from [start] to [finish] *)
Definition range_key (item : string) (start finish : Z) : string :=
  item +:+ "@" +:+ to_string start +:+ "@" +:+ to_string finish.

Lemma to_string_nonempty z : in_long z = true → to_string z ≠ "".
Proof. intros Hz Heq. pose proof (stol_to_string z Hz) as Hs. by rewrite Heq in Hs. Qed.

Lemma range_key_parts item start finish :
  has_char "@" item = false → in_long start = true → in_long finish = true →
  getline_all "@" (range_key item start finish) = [item; to_string start; to_string finish].
Proof.
  intros Hi Hs Hf. unfold getline_all, range_key. change ("@" +:+ ?t) with (String "@" t).
  rewrite getline_token by done. change ("@" +:+ ?t) with (String "@" t).
  rewrite getline_token by (by apply to_string_no_char).
  rewrite getline_last; [done|by apply to_string_no_char|]. by apply to_string_nonempty.
Qed.

Section register.
Context {St W : Type} {sto : storage_interface St} {stoS : @StorageSpec St sto}
  {cry : crypter W} {cryS : @CrypterSpec W cry}.
Variable conf : config.
Abbreviation proxy := (@waffle_proxy St W).
Implicit Types p : proxy.
Abbreviation cached p := ((lru p).*1).

Lemma if_result {S A} (b : bool) (a : A) e (s : S) :
  (if b then mret a else fail e : M S A) s = (if b then Done a else Stop e, s).
Proof. by destruct b. Qed.

Lemma get_split_keys_run item start finish p :
  has_char "@" item = false → in_long start = true → in_long finish = true →
  get_split_keys (range_key item start finish) p
  = (Done (Smoother.ts_key item <$> select_timestamps start finish (Smoother.times item (realBst p))),
     set_realBst (Smoother.touch_item item (realBst p)) p).
Proof.
  intros Hi Hs Hf. unfold get_split_keys. rewrite range_key_parts by done.
  rewrite !stol_to_string by done. unfold lift_result.
  unfold on_realBst, zoom, Smoother.get_timestamp_for_key. run. by rewrite Smoother.times_touch_item.
Qed.

(** * One bucket *)
Lemma cache_lookup_run k p :
  Cache.wf (cache p) →
  on_cache (c ← get; lift_result (Cache.getValueWithoutPositionChangeNew k c)) p
  = (Done (default "" (Lru.lookup k (lru p)), bool_decide (is_Some (Lru.lookup k (lru p)))), p).
Proof.
  intros Hw. unfold on_cache, zoom. run. rewrite Cache.getValueNew_abs by done. by rewrite set_cache_same.
Qed.

Lemma evicted_run k p :
  EvictedItems.cacheMap (EvictedItems p) = ∅ →
  on_EvictedItems (gets (EvictedItems.getValue k)) p = (Done "", p).
Proof.
  intros He. unfold on_EvictedItems, zoom, EvictedItems.getValue. run. rewrite He, lookup_empty. by destruct p.
Qed.

Lemma stored_run k p :
  on_realBst (gets (Smoother.checkIfUniqueItemWithTimeStampExists k)) p = (Done (bool_decide (is_Some (freqs p !! k))), p).
Proof.
  unfold on_realBst, zoom, Smoother.checkIfUniqueItemWithTimeStampExists, freqs. run. rewrite set_realBst_same.
  destruct (_ !! k); [by rewrite bool_decide_eq_true_2 by eauto|by rewrite bool_decide_eq_false_2 by (by intros [??])].
Qed.

(** The state after a sub-GET of [k] for the promise [q] and the request [id]. *)
Definition registered (k : string) (q : RunningKeys.promise) (id : Z) p : RunningKeys.state :=
  match Lru.lookup k (lru p) with
  | Some v => RunningKeys.with_key id k q (RunningKeys.with_get_cache (λ m, <[k := v]> m) (runningKeys p))
  | None => (RunningKeys.insertIfNotPresent_get k (Some q) id (runningKeys p)).2
  end.
(** What it adds to the storage batch *)
Definition fetched (k : string) p : list operation :=
  match Lru.lookup k (lru p) with
  | Some _ => []
  | None => if RunningKeys.is_present k (runningKeys p) then [] else [{| op_key := k; op_value := "" |}]
  end.

Lemma register_get_run k q id batch misses p :
  Cache.wf (cache p) → EvictedItems.cacheMap (EvictedItems p) = ∅ → is_Some (freqs p !! k) →
  RunningKeys.inv (runningKeys p) → RunningKeys.promise_for id q (runningKeys p) →
  (∀ v v', Lru.lookup k (lru p) = Some v → RunningKeys.get_cache (RunningKeys.tsmap (runningKeys p)) !! k = Some v' → v' = v) →
  ∃ misses', create_security_batch {| op_key := k; op_value := "" |} (Some q) batch misses id p
    = (Done (batch ++ fetched k p, misses'), set_runningKeys (registered k q id p) p)
    ∧ misses ≤ misses' ≤ misses + 1.
Proof.
  intros Hc He Hf Hinv Hpf Hv. unfold create_security_batch. cbn [op_key op_value]. rewrite decide_True by done.
  rewrite (mbind_run _ _ _ _ _ (stored_run k p)). rewrite bool_decide_eq_true_2 by done. cbn [negb].
  rewrite (mbind_run _ _ _ _ _ (cache_lookup_run k p Hc)), (mbind_run _ _ _ _ _ (evicted_run k p He)).
  unfold registered, fetched. destruct (Lru.lookup k (lru p)) as [v|] eqn:Hl; cbn [fst snd default].
  - rewrite bool_decide_eq_true_2 by eauto. exists misses. rewrite app_nil_r.
    assert (default v (RunningKeys.get_cache (RunningKeys.tsmap (runningKeys p)) !! k) = v) as Hd.
    { destruct (RunningKeys.get_cache (RunningKeys.tsmap (runningKeys p)) !! k) as [v'|] eqn:Hg; [|done].
      simpl. by apply (Hv v v'). }
    pose proof (RunningKeys.insert_cache_run id k v q _ Hinv Hpf Hd) as Hic.
    assert (catch_exceptions (on_runningKeys (RunningKeys.insert_cache id k v (Some q))) p
      = (Done (), set_runningKeys (RunningKeys.with_key id k q
          (RunningKeys.with_get_cache (λ m, <[k := v]> m) (runningKeys p))) p)) as Hcatch
      by (unfold catch_exceptions; by rewrite (on_runningKeys_run _ _ _ p Hic)).
    rewrite (mbind_run _ _ _ _ _ Hcatch). split; [done|lia].
  - rewrite bool_decide_eq_false_2 by (by intros [??]). rewrite decide_True by done.
    exists (misses + 1). split; [|lia]. unfold mbind, M_bind, on_runningKeys, zoom. cbn.
    destruct (RunningKeys.is_present k (runningKeys p)); [by rewrite app_nil_r|done].
Qed.

(** * A PUT *)

(** The state after a PUT of [v] under [ts_key item t], where [oldest] is the
    oldest bucket of the item: [doomed_now] when it is not in the cache. *)
Record put_turn (item : string) (t : Z) (v oldest : string) (q : RunningKeys.promise) p p' : Prop := {
  put_real : real_ok p';
  put_cache : Cache.wf (cache p');
  put_fake : fakeBst p' = fakeBst p;
  put_evicted : EvictedItems p' = EvictedItems p;
  put_clock : timeStamp p' = timeStamp p;
  put_storage : storage_interface_ p' = storage_interface_ p;
  put_engine : encryption_engine_ p' = encryption_engine_ p;
  put_history : keysNotUsed p' = keysNotUsed p;
  put_lru : lru p' = (Smoother.ts_key item t, v) :: Lru.remove oldest (lru p);
  put_freqs : freqs p' = <[Smoother.ts_key item t := timeStamp p]>
                           (if decide (oldest ∈ cached p) then delete oldest (freqs p) else freqs p);
  put_delete : keys_to_be_deleted p'
               = keys_to_be_deleted p ++ (if decide (oldest ∈ cached p) then [] else [oldest]);
  put_running : runningKeys p'
                = RunningKeys.with_promise q v
                    (if decide (oldest ∈ cached p) then runningKeys p
                     else (RunningKeys.insertIfNotPresent oldest (runningKeys p)).2);
}.

Definition displaced (oldest : string) p : list operation :=
  if decide (oldest ∈ cached p) then []
  else if RunningKeys.is_present oldest (runningKeys p) then [] else [{| op_key := oldest; op_value := "" |}].

Lemma oldest_run item t t0 ts p :
  Smoother.valid_item item = true → in_long t = true → Smoother.times item (realBst p) = t0 :: ts →
  on_realBst (Smoother.getOldestKey (keys_to_be_deleted p) (Smoother.ts_key item t)) p
  = (Done (Smoother.ts_key item t0), p).
Proof.
  intros Hi Ht Hts. unfold on_realBst, zoom. rewrite (Smoother.getOldestKey_run _ _ _ t0 ts) by done.
  by rewrite set_realBst_same.
Qed.

Lemma lru_remove_absent k (l : list (string * string)) : k ∉ l.*1 → Lru.remove k l = l.
Proof.
  intros Hk. apply list_filter_all. intros [k' v'] Hin. simpl. intros ->. apply Hk.
  by apply (list_elem_of_fmap_2 fst) in Hin.
Qed.

Lemma lru_remove_keys k x (l : list (string * string)) : x ∈ (Lru.remove k l).*1 ↔ x ≠ k ∧ x ∈ l.*1.
Proof.
  rewrite !list_elem_of_fmap. split.
  - intros ([k' v] & -> & [Hne Hin]%list_elem_of_filter). split; [done|]. by exists (k', v).
  - intros [Hne ([k' v] & -> & Hin)]. exists (k', v). split; [done|]. by apply list_elem_of_filter.
Qed.

(** Displacing the oldest bucket *)
Lemma remove_oldest_run item t t0 ts batch p :
  real_ok p → Cache.wf (cache p) → EvictedItems.cacheMap (EvictedItems p) = ∅ →
  Smoother.valid_item item = true → in_long t = true → Smoother.times item (realBst p) = t0 :: ts →
  let oldest := Smoother.ts_key item t0 in
  is_Some (freqs p !! oldest) →
  ∃ p', remove_oldest_data batch (Smoother.ts_key item t) p = (Done (batch ++ displaced oldest p), p')
    ∧ real_ok p' ∧ Cache.wf (cache p') ∧ fakeBst p' = fakeBst p ∧ EvictedItems p' = EvictedItems p
    ∧ timeStamp p' = timeStamp p ∧ storage_interface_ p' = storage_interface_ p
    ∧ encryption_engine_ p' = encryption_engine_ p ∧ keysNotUsed p' = keysNotUsed p
    ∧ lru p' = Lru.remove oldest (lru p)
    ∧ freqs p' = (if decide (oldest ∈ cached p) then delete oldest (freqs p) else freqs p)
    ∧ keys_to_be_deleted p' = keys_to_be_deleted p ++ (if decide (oldest ∈ cached p) then [] else [oldest])
    ∧ runningKeys p' = (if decide (oldest ∈ cached p) then runningKeys p
                        else (RunningKeys.insertIfNotPresent oldest (runningKeys p)).2).
Proof.
  intros Hr Hc He Hi Ht Hts oldest Hf. unfold remove_oldest_data.
  rewrite (mbind_run get _ p p p eq_refl). rewrite (mbind_run _ _ _ _ _ (oldest_run item t t0 ts p Hi Ht Hts)).
  fold oldest. rewrite (mbind_run _ _ _ _ _ (cache_lookup_run oldest p Hc)), (mbind_run _ _ _ _ _ (evicted_run oldest p He)).
  cbv zeta. cbn [fst snd]. rewrite !(decide_True (P := "" = "")) by done. unfold displaced.
  destruct (decide (oldest ∈ cached p)) as [Hin|Hni].
  - rewrite bool_decide_eq_true_2 by (by apply in_lru_keys). cbv iota.
    rewrite (decide_False (P := 1 = 0)), (decide_True (P := 1 = 1)) by done.
    destruct (Cache.removeKey_refines (cache p) oldest Hc) as (c & Hrun & Hcw & Ha). set (p1 := set_cache c p).
    assert (on_cache (Cache.removeKey oldest) p = (Done (bool_decide (is_Some (Lru.lookup oldest (Cache.abs (cache p))))), p1))
      as H1 by (unfold on_cache, zoom; by rewrite Hrun).
    rewrite (mbind_run _ _ _ _ _ H1).
    destruct (real_removeKey_run oldest p1 Hr Hf) as (b & Hb & Hbw & Hbn & Hbf).
    rewrite (mbind_run _ _ _ _ _ (on_realBst_run _ _ _ p1 Hb)). eexists. split; [rewrite (app_nil_r batch); reflexivity|].
    rewrite app_nil_r. by split_and!.
  - assert (Lru.lookup oldest (lru p) = None) as Hn by (by apply Lru.lookup_None).
    rewrite Hn. rewrite bool_decide_eq_false_2 by (by intros [??]). cbv iota.
    rewrite (decide_True (P := 0 = 0)) by done.
    rewrite (mbind_run _ _ _ _ _ (on_running_insert oldest p)). eexists. split.
    + unfold mbind, M_bind, modify. cbn. destruct (RunningKeys.is_present oldest (runningKeys p)); [by rewrite app_nil_r|done].
    + rewrite (lru_remove_absent oldest (lru p) Hni). by split_and!.
Qed.

Lemma put_run item t t0 ts v q batch misses p :
  real_ok p → Cache.wf (cache p) → EvictedItems.cacheMap (EvictedItems p) = ∅ →
  Smoother.valid_item item = true → in_long t = true → Smoother.times item (realBst p) = t0 :: ts →
  let k := Smoother.ts_key item t in
  let oldest := Smoother.ts_key item t0 in
  is_Some (freqs p !! oldest) → freqs p !! k = None → k ∉ cached p → v ≠ "" →
  RunningKeys.promises (runningKeys p) !! q = None →
  ∃ p', create_security_batch {| op_key := k; op_value := v |} (Some q) batch misses (-1) p
      = (Done (batch ++ displaced oldest p, misses), p')
    ∧ put_turn item t v oldest q p p'.
Proof.
  intros Hr Hc He Hi Ht Hts k oldest Hf Hk Hkc Hv Hq. unfold create_security_batch. cbn [op_key op_value].
  rewrite decide_False by done.
  destruct (remove_oldest_run item t t0 ts batch p) as (p1 & Hrun & Hr1 & Hc1 & R1 & R2 & R3 & R4 & R5 & R6 & Hl1 & Hf1 & Hd1 & Hs1);
    [done..|]. rewrite (mbind_run _ _ _ _ _ Hrun). fold oldest in Hl1, Hf1, Hd1, Hs1.
  assert (oldest ≠ k) as Hne by (intros Heq; rewrite Heq, Hk in Hf; by destruct Hf).
  assert (k ∉ cached p1) as Hkc1 by (rewrite Hl1; intros [_ ?]%lru_remove_keys; done).
  destruct (Cache.insertIntoCache_refines (cache p1) k v Hc1) as (c & Hins & Hcw & Ha & _).
  fold (lru p1) in Ha. rewrite lru_insert_absent in Ha by done. set (p2 := set_cache c p1).
  assert (on_cache (Cache.insertIntoCache k v) p1 = (Done (), p2)) as H2 by (unfold on_cache, zoom; by rewrite Hins).
  rewrite (mbind_run _ _ _ _ _ H2).
  assert (freqs p2 !! k = None) as Hk2.
  { change (freqs p1 !! k = None). rewrite Hf1. case_decide; [by rewrite lookup_delete_ne|done]. }
  destruct (Init.real_insert_run k p2 Hr1) as (b & Hb & Hbw & Hbn & Hbf); [by exists item, t|done|].
  rewrite (mbind_run _ _ _ _ _ (on_realBst_run _ _ _ p2 Hb)). set (p3 := set_realBst b p2).
  rewrite (mbind_run get _ p3 p3 p3 eq_refl). set (p4 := set_realBst (Smoother.setFrequency k (timeStamp p3) b) p3).
  assert (on_realBst (update (Smoother.setFrequency k (timeStamp p3))) p3 = (Done (), p4)) as H4 by done.
  rewrite (mbind_run _ _ _ _ _ H4).
  assert (on_cache (c ← get; lift_result (Cache.getValueWithoutPositionChange k c)) p4 = (Done v, p4)) as H5.
  { unfold on_cache, zoom. run. change (cache p4) with c. rewrite Cache.getValue_pos_abs by done.
    rewrite Ha. simpl. by rewrite decide_True. }
  rewrite (mbind_run _ _ _ _ _ H5).
  set (s := if decide (oldest ∈ cached p) then runningKeys p
            else (RunningKeys.insertIfNotPresent oldest (runningKeys p)).2) in *.
  assert (RunningKeys.promises s !! q = None) as Hq1 by (unfold s; by case_decide).
  assert (RunningKeys.set_value (Some q) v (runningKeys p4) = (Done (), RunningKeys.with_promise q v s)) as H6.
  { change (runningKeys p4) with (runningKeys p1). rewrite Hs1. unfold RunningKeys.set_value. run. by rewrite Hq1. }
  rewrite (mbind_run _ _ _ _ _ (on_runningKeys_run _ _ _ p4 H6)). eexists. split; [reflexivity|].
  split; try done.
  - split; [|done]. apply Smoother.wf_setFrequency; [done|]. rewrite Hbf. rewrite lookup_insert_eq. by eexists.
  - change (Cache.abs c = (k, v) :: Lru.remove oldest (lru p)). by rewrite Ha, Hl1.
  - change (Smoother.accessFreqs (Smoother.setFrequency k (timeStamp p1) b) = <[k := timeStamp p]>
      (if decide (oldest ∈ cached p) then delete oldest (freqs p) else freqs p)).
    rewrite Smoother.setFrequency_freqs, Hbf, insert_insert_eq, R3. change (freqs p2) with (freqs p1). by rewrite Hf1.
Qed.

(** * The invariant between two batches *)
Context (key_ok : string → Prop).
Hypothesis prf_collision_free : collision_free key_ok.

Abbreviation tsmap p := (RunningKeys.tsmap (runningKeys p)).

(** [truth] gives the value that was stored under each key; [ks] are the keys
    of the storage batch. *)
Record gathering (truth : gmap string string) (wr rd : gset string) (ks : list string) p : Prop := {
  g_inv : pinv key_ok wr rd p;
  g_clock : 0 ≤ timeStamp p;
  g_nodup : NoDup ks;
  g_keys k : k ∈ ks → is_Some (freqs p !! k) ∧ k ∉ cached p;
  g_running k : RunningKeys.is_present k (runningKeys p) = true ↔ k ∈ ks;
  g_delete k : k ∈ keys_to_be_deleted p → k ∈ ks;
  g_slack : (length (keys_to_be_deleted p) < length (lru p))%nat;
  g_reals : B conf - F conf + Z.of_nat (length (lru p)) ≤ Z.of_nat (size (freqs p));
  g_fakes : F conf ≤ Z.of_nat (size (ffreqs p));
  g_plain k : is_Some (ffreqs p !! k) → has_char "@" k = false;
  g_rinv : RunningKeys.inv (runningKeys p);
  g_tidy : RunningKeys.tidy (runningKeys p);
  g_requests id keys q :
    RunningKeys.request_map (tsmap p) !! id = Some (keys, q) →
    (∀ k, k ∈ keys → k ∈ ks ∨ is_Some (RunningKeys.get_cache (tsmap p) !! k))
    ∧ ∃ a, RunningKeys.answer_of keys truth = Done a;
  g_cached k v :
    RunningKeys.get_cache (tsmap p) !! k = Some v →
    ffreqs p !! k = None ∧ (is_Some (freqs p !! k) → k ∈ cached p) ∧ truth !! k = Some v;
  g_truth k v : value_of p k v → truth !! k = Some v;
  g_written x : x ∈ wr → ∃ k f, x = loc k f ∧ ok_name key_ok k f ∧ (is_Some (truth !! k) ∨ is_Some (ffreqs p !! k));
}.

Lemma pinv_running wr rd s p : pinv key_ok wr rd p → pinv key_ok wr rd (set_runningKeys s p).
Proof. intros []. by split. Qed.

Lemma touch_real_ok item p : real_ok p → real_ok (set_realBst (Smoother.touch_item item (realBst p)) p).
Proof. intros [Hw Hn]. split; [by apply Smoother.wf_touch_item|done]. Qed.

Lemma pinv_touch wr rd item p :
  pinv key_ok wr rd p → pinv key_ok wr rd (set_realBst (Smoother.touch_item item (realBst p)) p).
Proof. intros []. split; try done. by apply touch_real_ok. Qed.

Lemma gathering_touch truth wr rd ks item p :
  gathering truth wr rd ks p → gathering truth wr rd ks (set_realBst (Smoother.touch_item item (realBst p)) p).
Proof. intros []. split; try done. by apply pinv_touch. Qed.

(** What is known of a cached key, and of one that is not *)
Lemma cached_value truth wr rd ks p k v :
  gathering truth wr rd ks p → Lru.lookup k (lru p) = Some v → is_Some (freqs p !! k) ∧ truth !! k = Some v.
Proof.
  intros Hg Hl. split; [by apply (pi_cached _ _ _ _ (g_inv _ _ _ _ _ Hg) k v)|].
  apply (g_truth _ _ _ _ _ Hg). by left.
Qed.

Lemma uncached_no_bucket truth wr rd ks p k :
  gathering truth wr rd ks p → is_Some (freqs p !! k) → Lru.lookup k (lru p) = None →
  RunningKeys.get_cache (tsmap p) !! k = None.
Proof.
  intros Hg Hf Hl. apply eq_None_not_Some. intros [v Hv]. apply Lru.lookup_None in Hl. apply Hl.
  by apply (g_cached _ _ _ _ _ Hg k v Hv).
Qed.

Lemma promise_for_with_key id key q s :
  RunningKeys.promise_for id q s → RunningKeys.promise_for id q (RunningKeys.with_key id key q s).
Proof.
  intros [Hq Hp]. split; [done|]. intros id' keys p'. cbn.
  intros [[<- [= _ ->]]|[_ Hl]]%lookup_insert_Some; [done|by apply (Hp _ keys)].
Qed.

(** The keys that the request [id] waits for *)
Definition request_keys (id : Z) p : list string := (default ([], None) (RunningKeys.request_map (tsmap p) !! id)).1.

Lemma registered_requests k q id p :
  RunningKeys.request_map (RunningKeys.tsmap (registered k q id p))
  = <[id := (request_keys id p ++ [k], Some q)]> (RunningKeys.request_map (tsmap p))
  ∧ RunningKeys.promises (registered k q id p) = RunningKeys.promises (runningKeys p).
Proof. unfold registered, request_keys. by destruct (Lru.lookup k (lru p)). Qed.

(** The requests after one bucket [k] of the request [id] is registered *)
Lemma registered_answerable truth wr rd ks (ks' : list string) p k q id id' keys q' :
  gathering truth wr rd ks p → (∃ a, RunningKeys.answer_of (request_keys id p ++ [k]) truth = Done a) →
  (∀ x, x ∈ ks → x ∈ ks') →
  (∀ x, is_Some (RunningKeys.get_cache (tsmap p) !! x)
      → is_Some (RunningKeys.get_cache (RunningKeys.tsmap (registered k q id p)) !! x)) →
  (k ∈ ks' ∨ is_Some (RunningKeys.get_cache (RunningKeys.tsmap (registered k q id p)) !! k)) →
  RunningKeys.request_map (RunningKeys.tsmap (registered k q id p)) !! id' = Some (keys, q') →
  (∀ x, x ∈ keys → x ∈ ks' ∨ is_Some (RunningKeys.get_cache (RunningKeys.tsmap (registered k q id p)) !! x))
  ∧ ∃ a, RunningKeys.answer_of keys truth = Done a.
Proof.
  intros Hg Ha Hks Hgc Hk Hl. rewrite (proj1 (registered_requests k q id p)) in Hl.
  apply lookup_insert_Some in Hl as [[<- [= <- <-]]|[_ Hl]].
  - split; [|done]. intros x [Hx| ->%list_elem_of_singleton]%elem_of_app; [|done]. unfold request_keys in Hx.
    destruct (RunningKeys.request_map (tsmap p) !! id) as [[keys0 q0]|] eqn:Hl0; simpl in Hx; [|by apply not_elem_of_nil in Hx].
    destruct (g_requests _ _ _ _ _ Hg _ _ _ Hl0) as [H1 _]. destruct (H1 x Hx); [left|right]; auto.
  - destruct (g_requests _ _ _ _ _ Hg _ _ _ Hl) as [H1 H2]. split; [|done]. intros x Hx.
    destruct (H1 x Hx); [left|right]; auto.
Qed.

Lemma registered_tidy k q id p : RunningKeys.tidy (registered k q id p).
Proof. intros Hr. rewrite (proj1 (registered_requests k q id p)) in Hr. by apply insert_non_empty in Hr. Qed.

(** A bucket that is in the cache *)
Lemma registered_cached truth wr rd ks p k q id v :
  gathering truth wr rd ks p → is_Some (freqs p !! k) → Lru.lookup k (lru p) = Some v →
  (∃ a, RunningKeys.answer_of (request_keys id p ++ [k]) truth = Done a) →
  RunningKeys.promise_for id q (runningKeys p) →
  gathering truth wr rd ks (set_runningKeys (registered k q id p) p)
  ∧ RunningKeys.promise_for id q (registered k q id p).
Proof.
  intros Hg Hf Hl Ha Hpf. pose proof (registered_tidy k q id p) as Htidy.
  pose proof (λ id' keys q', registered_answerable _ _ _ _ ks _ k q id id' keys q' Hg Ha) as Hreq.
  unfold registered in *. rewrite Hl in *. destruct (cached_value _ _ _ _ _ _ _ Hg Hl) as [_ Hv].
  assert (default v (RunningKeys.get_cache (tsmap p) !! k) = v) as Hd.
  { destruct (RunningKeys.get_cache (tsmap p) !! k) as [v'|] eqn:Hc; [|done]. simpl.
    destruct (g_cached _ _ _ _ _ Hg k v' Hc) as (_ & _ & Hv'). congruence. }
  assert (k ∈ cached p) as Hin by (apply in_lru_keys; by eexists).
  split; [|by apply promise_for_with_key].
  destruct Hg as [G1 G2 G3 G4 G5 G6 G7 G8 G9 G10 G11 G12 G13 G14 G15 G16].
  split; try done; [by apply pinv_running|by apply RunningKeys.insert_cache_inv| |].
  - intros id' keys q' Hl'. apply (Hreq id' keys q'); [done| | |done].
    + intros x Hx. cbn. apply lookup_insert_is_Some. destruct (decide (k = x)); [by left|by right].
    + right. cbn. rewrite lookup_insert_eq. by eexists.
  - intros k' v'. cbn. intros [[<- <-]|[_ Hc]]%lookup_insert_Some; [|by apply G14].
    split; [by apply (pi_disjoint _ _ _ _ G1)|]. split; [by intros _|done].
Qed.

(** The keys of the batch when a bucket that is not cached is asked for *)
Lemma fetched_keys truth wr rd ks p k x :
  gathering truth wr rd ks p → Lru.lookup k (lru p) = None →
  x ∈ ks ++ (op_key <$> fetched k p) ↔ x ∈ ks ∨ x = k.
Proof.
  intros Hg Hl. unfold fetched. rewrite Hl. destruct (RunningKeys.is_present k (runningKeys p)) eqn:Hpr.
  - rewrite app_nil_r. apply (g_running _ _ _ _ _ Hg) in Hpr. split; [by left|by intros [| ->]].
  - rewrite elem_of_app. cbn. by rewrite list_elem_of_singleton.
Qed.

Lemma fetched_nodup truth wr rd ks p k :
  gathering truth wr rd ks p → NoDup (ks ++ (op_key <$> fetched k p)).
Proof.
  intros Hg. pose proof (g_nodup _ _ _ _ _ Hg) as Hnd. unfold fetched.
  destruct (Lru.lookup k (lru p)); [by rewrite app_nil_r|].
  destruct (RunningKeys.is_present k (runningKeys p)) eqn:Hpr; [by rewrite app_nil_r|].
  apply NoDup_app. split; [done|]. split; [|apply NoDup_singleton].
  intros x Hx ->%list_elem_of_singleton. apply (g_running _ _ _ _ _ Hg) in Hx. cbn in Hx. congruence.
Qed.

(** A bucket that the batch fetches *)
Lemma registered_uncached truth wr rd ks p k q id :
  gathering truth wr rd ks p → is_Some (freqs p !! k) → Lru.lookup k (lru p) = None →
  (∃ a, RunningKeys.answer_of (request_keys id p ++ [k]) truth = Done a) →
  RunningKeys.promise_for id q (runningKeys p) →
  gathering truth wr rd (ks ++ (op_key <$> fetched k p)) (set_runningKeys (registered k q id p) p)
  ∧ RunningKeys.promise_for id q (registered k q id p).
Proof.
  intros Hg Hf Hl Ha Hpf. pose proof (registered_tidy k q id p) as Htidy.
  pose proof (λ ks' id' keys q', registered_answerable _ _ _ _ ks' _ k q id id' keys q' Hg Ha) as Hreq.
  pose proof (uncached_no_bucket _ _ _ _ _ _ Hg Hf Hl) as Hnb. pose proof (proj1 (Lru.lookup_None _ _) Hl) as Hnc.
  pose proof (fetched_nodup _ _ _ _ _ k Hg) as Hnd.
  pose proof (λ x, fetched_keys _ _ _ _ _ k x Hg Hl) as Hks'. set (ks' := ks ++ (op_key <$> fetched k p)) in *.
  unfold registered in *. rewrite Hl in *.
  split; [|by apply promise_for_with_key].
  destruct Hg as [G1 G2 G3 G4 G5 G6 G7 G8 G9 G10 G11 G12 G13 G14 G15 G16]. split; try done.
  - by apply pinv_running.
  - intros x [Hx| ->]%Hks'; [by apply G4|done].
  - intros x. rewrite Hks', <- G5. unfold RunningKeys.is_present. cbn. destruct (decide (x = k)) as [->|Hne].
    + rewrite lookup_insert_eq, (bool_decide_eq_true_2 (is_Some (Some _))) by (by eexists). rewrite orb_true_r. tauto.
    + rewrite lookup_insert_ne by done. split; [by left|by intros [|]].
  - intros x Hx. apply Hks'. left. by apply G6.
  - by apply RunningKeys.insertIfNotPresent_get_inv.
  - intros id' keys q' Hl'. apply (Hreq ks' id' keys q'); [|done| |done].
    + intros x Hx. apply Hks'. by left.
    + left. apply Hks'. by right.
Qed.

(** One bucket of a GET keeps the invariant. *)
Lemma registered_gathering truth wr rd ks p k q id :
  gathering truth wr rd ks p → is_Some (freqs p !! k) → RunningKeys.promise_for id q (runningKeys p) →
  (∃ a, RunningKeys.answer_of (request_keys id p ++ [k]) truth = Done a) →
  gathering truth wr rd (ks ++ (op_key <$> fetched k p)) (set_runningKeys (registered k q id p) p)
  ∧ RunningKeys.promise_for id q (registered k q id p).
Proof.
  intros Hg Hf Hpf Ha. destruct (Lru.lookup k (lru p)) as [v|] eqn:Hl; [|by apply registered_uncached].
  assert (fetched k p = []) as -> by (unfold fetched; by rewrite Hl). rewrite app_nil_r.
  by apply (registered_cached _ _ _ _ _ _ _ _ v).
Qed.

(** All the buckets of a GET *)
Lemma register_gets_run truth wr rd db_keys q id batch misses p :
  gathering truth wr rd (op_key <$> batch) p → RunningKeys.promise_for id q (runningKeys p) →
  (∀ k, k ∈ db_keys → is_Some (freqs p !! k)) →
  (∃ a, RunningKeys.answer_of (request_keys id p ++ db_keys) truth = Done a) →
  ∃ s batch' misses', register_gets db_keys (Some q) batch misses id p
      = (Done (batch', misses'), set_runningKeys s p)
    ∧ gathering truth wr rd (op_key <$> batch') (set_runningKeys s p)
    ∧ RunningKeys.request_map (RunningKeys.tsmap s)
      = (if decide (db_keys = []) then RunningKeys.request_map (tsmap p)
         else <[id := (request_keys id p ++ db_keys, Some q)]> (RunningKeys.request_map (tsmap p)))
    ∧ RunningKeys.promises s = RunningKeys.promises (runningKeys p)
    ∧ (length batch' ≤ length batch + length db_keys)%nat
    ∧ misses ≤ misses' ≤ misses + Z.of_nat (length db_keys).
Proof.
  revert batch misses p. induction db_keys as [|k db_keys IH]; intros batch misses p Hg Hpf Hf Ha; cbn [register_gets].
  { exists (runningKeys p), batch, misses. destruct p. split_and!; first [done|cbn; lia]. }
  destruct (register_get_run k q id batch misses p) as (misses1 & Hrun & Hm1).
  { apply (pi_cache _ _ _ _ (g_inv _ _ _ _ _ Hg)). }
  { apply (pi_evicted _ _ _ _ (g_inv _ _ _ _ _ Hg)). }
  { apply Hf. by left. }
  { apply Hg. }
  { done. }
  { intros v v' Hl Hc. destruct (cached_value _ _ _ _ _ _ _ Hg Hl) as [_ Hv].
    destruct (g_cached _ _ _ _ _ Hg _ _ Hc) as (_ & _ & Hv'). congruence. }
  rewrite (mbind_run _ _ _ _ _ Hrun). cbn [fst snd].
  destruct (registered_gathering truth wr rd _ p k q id Hg) as [Hg1 Hpf1]; [apply Hf; by left|done| |].
  { destruct Ha as [a Ha]. apply (RunningKeys.answer_of_prefix _ db_keys truth a); [by destruct (request_keys id p)|].
    by rewrite <- app_assoc. }
  set (p1 := set_runningKeys (registered k q id p) p) in *.
  destruct (registered_requests k q id p) as [Hrm Hpr].
  assert (request_keys id p1 = request_keys id p ++ [k]) as Hk1
    by (unfold request_keys; change (tsmap p1) with (RunningKeys.tsmap (registered k q id p)); by rewrite Hrm, lookup_insert_eq).
  destruct (IH (batch ++ fetched k p) misses1 p1) as (s & batch' & misses' & Hrun' & Hg' & Hr' & Hp' & Hlen & Hm').
  - by rewrite fmap_app.
  - done.
  - intros k' Hk'. apply Hf. by right.
  - rewrite Hk1, <- app_assoc. done.
  - exists s, batch', misses'. split; [exact Hrun'|]. split; [exact Hg'|]. rewrite decide_False by done.
    split; [|split; [by rewrite Hp'|]].
    + rewrite Hr', Hk1, <- app_assoc. change (tsmap p1) with (RunningKeys.tsmap (registered k q id p)). rewrite Hrm.
      case_decide as Hd; [by subst|]. by rewrite insert_insert_eq.
    + split; [|cbn [length]; lia]. rewrite length_app in Hlen. cbn [length].
      assert (length (fetched k p) ≤ 1)%nat; [|lia]. unfold fetched.
      destruct (Lru.lookup k (lru p)); [simpl; lia|]. destruct (RunningKeys.is_present _ _); simpl; lia.
Qed.

(** The buckets that a GET selects *)
Definition get_keys (item : string) (start finish : Z) p : list string :=
  Smoother.ts_key item <$> select_timestamps start finish (Smoother.times item (realBst p)).

Lemma times_stored item t p :
  real_ok p → t ∈ Smoother.times item (realBst p) →
  Smoother.valid_item item = true ∧ in_long t = true ∧ is_Some (freqs p !! Smoother.ts_key item t).
Proof.
  intros [Hw Hn] Ht. pose proof (proj2 Hw Hn) as Hi. destruct (Smoother.items_valid _ Hi _ _ Ht) as [H1 H2].
  split; [done|]. split; [done|]. by apply (Smoother.items_agree _ Hi).
Qed.

Lemma get_keys_stored item start finish p k :
  real_ok p → k ∈ get_keys item start finish p → is_Some (freqs p !! k).
Proof.
  intros Hr (t & -> & Ht)%list_elem_of_fmap. apply (times_stored item t p Hr).
  eapply elem_of_submseteq; [done|]. apply sublist_submseteq, select_timestamps_sublist.
Qed.

(** A GET in the invariant: its request is registered with all its buckets,
    and nothing else that matters changes. *)
Lemma serve_get_run truth wr rd g item start finish q p :
  gathering truth wr rd (op_key <$> storage_batch g) p →
  has_char "@" item = false → in_long start = true → in_long finish = true →
  RunningKeys.promises (runningKeys p) !! q = None →
  (∀ id keys, RunningKeys.request_map (tsmap p) !! id ≠ Some (keys, Some q)) →
  RunningKeys.request_map (tsmap p) !! request_id g = None →
  let keys := get_keys item start finish p in
  (∃ a, RunningKeys.answer_of keys truth = Done a) ∨ keys = [] →
  ∃ s b g', serve {| op_key := range_key item start finish; op_value := "" |} (Some q) g p
      = (if counters_fit g' then Done (Z.of_nat (length keys), g') else Stop Undefined, set_runningKeys s (set_realBst b p))
    ∧ gathering truth wr rd (op_key <$> storage_batch g') (set_runningKeys s (set_realBst b p))
    ∧ request_id g' = request_id g + 1 ∧ Smoother.accessFreqs b = freqs p
    ∧ RunningKeys.request_map (RunningKeys.tsmap s)
      = (if decide (keys = []) then RunningKeys.request_map (tsmap p)
         else <[request_id g := (keys, Some q)]> (RunningKeys.request_map (tsmap p)))
    ∧ RunningKeys.promises s = RunningKeys.promises (runningKeys p)
    ∧ cacheMisses g ≤ cacheMisses g' ≤ cacheMisses g + Z.of_nat (length keys).
Proof.
  intros Hg Hi Hs Hf Hq Hfresh Hid keys Ha. unfold serve. cbn [op_key op_value]. rewrite decide_True by done.
  rewrite (mbind_run _ _ _ _ _ (get_split_keys_run item start finish p Hi Hs Hf)). fold (get_keys item start finish p).
  fold keys. set (p1 := set_realBst _ p).
  pose proof (pi_real _ _ _ _ (g_inv _ _ _ _ _ Hg)) as Hr. apply (gathering_touch _ _ _ _ item) in Hg. fold p1 in Hg.
  assert (request_keys (request_id g) p1 = []) as Hk0
    by (unfold request_keys; change (tsmap p1) with (tsmap p); by rewrite Hid).
  destruct (decide (keys = [])) as [Hnil|Hne].
  - rewrite Hnil. cbn [register_gets]. assert (set_runningKeys (runningKeys p) p1 = p1) as Hsame by (unfold p1; by destruct p).
    exists (runningKeys p), (Smoother.touch_item item (realBst p)). eexists. fold p1. rewrite Hsame.
    erewrite (mbind_run _ _ p1) by reflexivity. cbv zeta. split; [apply if_result|]. split_and!; (done || (cbn; lia)).
  - destruct Ha as [Ha|]; [|done].
    destruct (register_gets_run truth wr rd keys q (request_id g) (storage_batch g) (cacheMisses g) p1 Hg)
      as (s & batch' & misses' & Hrun & Hg' & Hr' & Hp' & _ & Hm).
    + split; [done|]. intros id' keys' p' Hl.
      change (RunningKeys.request_map (tsmap p) !! id' = Some (keys', Some p')) in Hl.
      split; [intros ->; congruence|]. intros ->. by destruct (Hfresh id' keys').
    + intros k Hk. change (is_Some (freqs p !! k)). by apply (get_keys_stored item start finish).
    + by rewrite Hk0.
    + rewrite (mbind_run _ _ _ _ _ Hrun). cbv zeta. eexists s, _, _. split; [apply if_result|]. split; [exact Hg'|].
      split; [done|]. split; [done|]. rewrite Hk0 in Hr'. by rewrite decide_False in Hr'.
Qed.

(** ** A PUT in the invariant *)

Lemma inv_with_promise q v s :
  RunningKeys.inv s → (∀ id keys, RunningKeys.request_map (RunningKeys.tsmap s) !! id ≠ Some (keys, Some q)) →
  RunningKeys.inv (RunningKeys.with_promise q v s).
Proof.
  intros [I1 I2 I3 I4 I5] Hq. split; try done. intros id keys p Hl.
  destruct (I1 id keys p Hl) as (Hne & q' & -> & Hq'). split; [done|]. exists q'. split; [done|]. cbn.
  rewrite lookup_insert_ne; [done|]. intros ->. by apply (Hq id keys).
Qed.

Lemma lru_remove_length k (l : list (string * string)) :
  NoDup l.*1 → (length (Lru.remove k l) + (if decide (k ∈ l.*1) then 1 else 0) = length l)%nat.
Proof.
  induction l as [|[k' v] l IH]; intros Hnd; [done|]. rewrite fmap_cons in *. cbn [fst] in *.
  apply NoDup_cons in Hnd as [Hni Hnd]. specialize (IH Hnd). unfold Lru.remove in *. rewrite filter_cons. cbn [fst].
  destruct (decide (k' = k)) as [->|Hne].
  - rewrite (decide_False (P := k ≠ k)) by tauto. rewrite decide_False in IH by done.
    rewrite (decide_True (P := k ∈ _)) by (by left). cbn [length]. lia.
  - rewrite (decide_True (P := k' ≠ k)) by done. cbn [length].
    destruct (decide (k ∈ l.*1)); [rewrite decide_True by (by right)|
      rewrite decide_False by (by intros [?|?]%elem_of_cons)]; lia.
Qed.

(** A key that nothing was ever stored under *)
Lemma new_key_facts truth wr rd ks p oldest k :
  gathering truth wr rd ks p → is_Some (freqs p !! oldest) → truth !! k = None → Smoother.canonical k →
  freqs p !! k = None ∧ k ∉ cached p ∧ ffreqs p !! k = None ∧ oldest ≠ k.
Proof.
  intros Hg Hold Hnew Hcan.
  assert (freqs p !! k = None) as Hf.
  { apply eq_None_not_Some. intros [f Hf]. destruct (decide (k ∈ cached p)) as [Hin|Hn].
    - apply in_lru_keys in Hin as [w Hw]. destruct (cached_value _ _ _ _ _ _ _ Hg Hw). congruence.
    - destruct (pi_stored _ _ _ _ (g_inv _ _ _ _ _ Hg) k f Hf Hn) as (_ & w & _ & Hon).
      assert (truth !! k = Some w); [|congruence]. apply (g_truth _ _ _ _ _ Hg). right. split; [done|]. by exists f. }
  split; [done|]. split; [|split].
  - intros [w Hw]%in_lru_keys. destruct (cached_value _ _ _ _ _ _ _ Hg Hw) as [[? ?] _]. congruence.
  - apply eq_None_not_Some. intros Hs%(g_plain _ _ _ _ _ Hg). apply Init.canonical_has_at in Hcan. congruence.
  - intros ->. rewrite Hf in Hold. by destruct Hold.
Qed.

Section put.
Context (truth : gmap string string) (wr rd : gset string) (ks : list string) (p p' : proxy)
  (item : string) (t : Z) (v oldest : string) (q : RunningKeys.promise).
Local Abbreviation k := (Smoother.ts_key item t).
Hypotheses (Hg : gathering truth wr rd ks p) (Hturn : put_turn item t v oldest q p p')
  (Hold : is_Some (freqs p !! oldest)) (Hnew : truth !! k = None)
  (Hcan : Smoother.canonical k) (Hok : key_ok k) (Hst : storable v)
  (Hq : ∀ id keys, RunningKeys.request_map (tsmap p) !! id ≠ Some (keys, Some q)).

Lemma put_new_key : freqs p !! k = None ∧ k ∉ cached p ∧ ffreqs p !! k = None ∧ oldest ≠ k.
Proof using Hg Hold Hnew Hcan. by eapply new_key_facts. Qed.

Lemma put_cached x : x ∈ cached p' ↔ x = k ∨ (x ∈ cached p ∧ x ≠ oldest).
Proof.
  rewrite (put_lru _ _ _ _ _ _ _ Hturn), fmap_cons, elem_of_cons, lru_remove_keys. tauto.
Qed.

Lemma put_lookup x w : in_lru p' x w ↔ (x = k ∧ w = v) ∨ (in_lru p x w ∧ x ≠ oldest).
Proof.
  destruct put_new_key as (_ & Hn & _ & _).
  rewrite in_lru_elem by apply Hturn. rewrite in_lru_elem by apply (pi_cache _ _ _ _ (g_inv _ _ _ _ _ Hg)).
  rewrite (put_lru _ _ _ _ _ _ _ Hturn), elem_of_cons. unfold Lru.remove. rewrite list_elem_of_filter.
  cbn [fst]. split; [intros [[= -> ->]|]; tauto|]. naive_solver.
Qed.

Lemma put_other x : x ≠ k → ¬ (x = oldest ∧ oldest ∈ cached p) → freqs p' !! x = freqs p !! x.
Proof.
  intros Hk Ho. rewrite (put_freqs _ _ _ _ _ _ _ Hturn), lookup_insert_ne by done.
  case_decide; [|done]. rewrite lookup_delete_ne; [done|]. intros <-. tauto.
Qed.

Lemma put_stored_other x : x ≠ k → is_Some (freqs p' !! x) → freqs p' !! x = freqs p !! x ∧ ¬ (x = oldest ∧ oldest ∈ cached p).
Proof.
  intros Hk Hs. assert (¬ (x = oldest ∧ oldest ∈ cached p)) as Ho; [|split; [by apply put_other|done]].
  intros [-> Hin]. rewrite (put_freqs _ _ _ _ _ _ _ Hturn), lookup_insert_ne, decide_True, lookup_delete_eq in Hs by done.
  by destruct Hs.
Qed.

Lemma put_freq_new : freqs p' !! k = Some (timeStamp p).
Proof. rewrite (put_freqs _ _ _ _ _ _ _ Hturn). apply lookup_insert_eq. Qed.

(** A key that is neither new nor cached before is where it was. *)
Lemma put_uncached x : is_Some (freqs p' !! x) → x ∉ cached p' → x ≠ k ∧ x ∉ cached p ∧ freqs p' !! x = freqs p !! x.
Proof.
  intros Hs Hc. rewrite put_cached in Hc. assert (x ≠ k) as Hk by tauto. split; [done|].
  destruct (put_stored_other x Hk Hs) as [Heq Ho]. split; [|done]. intros Hin. apply Ho.
  destruct (decide (x = oldest)) as [->|]; tauto.
Qed.

Lemma put_pinv : pinv key_ok wr rd p'.
Proof.
  destruct put_new_key as (Hf & Hnc & Hff & Hne). destruct Hg as [Hi Hclk _ _ _ _ _ _ _ _ _ _ _ _ _ Hwr].
  assert (ffreqs p' = ffreqs p) as Hffe by (unfold ffreqs; by rewrite (put_fake _ _ _ _ _ _ _ Hturn)).
  assert (server p' = server p) as Hse by (unfold server; by rewrite (put_storage _ _ _ _ _ _ _ Hturn)).
  split; rewrite ?Hffe, ?Hse, ?(put_clock _ _ _ _ _ _ _ Hturn), ?(put_evicted _ _ _ _ _ _ _ Hturn),
    ?(put_storage _ _ _ _ _ _ _ Hturn), ?(put_engine _ _ _ _ _ _ _ Hturn), ?(put_fake _ _ _ _ _ _ _ Hturn);
    try apply Hi; try apply Hturn.
  - intros x [Hx|Hx]; [|by apply (pi_known _ _ _ _ Hi); right]. destruct (decide (x = k)) as [->|Hk]; [done|].
    apply (pi_known _ _ _ _ Hi). left. by destruct (put_stored_other x Hk Hx) as [<- _].
  - intros x Hx. destruct (decide (x = k)) as [->|Hk]; [done|]. apply (pi_disjoint _ _ _ _ Hi).
    by destruct (put_stored_other x Hk Hx) as [<- _].
  - intros x w [[-> ->]|[Hw Ho]]%put_lookup.
    + rewrite put_freq_new. split; [by eexists|]. split; [done|]. intros f [= <-] (k0 & f0 & Heq & Hok0 & Hk0)%Hwr.
      apply (loc_inj key_ok prf_collision_free) in Heq as [<- _]; [|split; [done|pose proof (pi_clock _ _ _ _ Hi); lia]|done].
      destruct Hk0 as [[? ?]|[? ?]]; congruence.
    + assert (x ≠ k) as Hk by (intros ->; apply Hnc, in_lru_keys; by eexists).
      rewrite put_other by tauto. by apply (pi_cached _ _ _ _ Hi).
  - intros x f Hx Hc. destruct (put_uncached x) as (_ & Hc' & Heq); [by eexists|done|]. rewrite Heq in Hx.
    destruct (pi_stored _ _ _ _ Hi x f Hx Hc') as (Hr & w & Hsw & Hon). split; [done|]. exists w. split; [done|].
    unfold on_server. by rewrite Hse.
  - intros x f Hx. destruct (pi_stored_fake _ _ _ _ Hi x f Hx) as (Hr & w & Hon). split; [done|]. exists w.
    unfold on_server. by rewrite Hse.
  - intros x f [Hx|Hx]; [|by apply (pi_time _ _ _ _ Hi x); right].
    destruct (decide (x = k)) as [->|Hk]; [rewrite put_freq_new in Hx; injection Hx as <-; lia|].
    apply (pi_time _ _ _ _ Hi x). left. by destruct (put_stored_other x Hk) as [<- _]; [by eexists|].
Qed.

Lemma put_value x w : value_of p' x w → (x = k ∧ w = v) ∨ (x ≠ k ∧ value_of p x w).
Proof.
  destruct put_new_key as (Hf & Hnc & _ & _).
  intros [[?|[Hw Ho]]%put_lookup|(Hc & f & Hx & Hon)]; [by left| |].
  - right. split; [|by left]. intros ->. apply Hnc, in_lru_keys. by eexists.
  - destruct (put_uncached x) as (Hk & Hc' & Heq); [by eexists|done|]. right. split; [done|]. right. split; [done|].
    exists f. split; [by rewrite <- Heq|]. unfold on_server, server in *. by rewrite (put_storage _ _ _ _ _ _ _ Hturn) in Hon.
Qed.

Lemma put_value_new : value_of p' k v.
Proof. left. apply put_lookup. by left. Qed.

(** The other buckets keep their values, but for the oldest when it is
    cached. *)
Lemma put_value_kept x w : value_of p x w → ¬ (x = oldest ∧ oldest ∈ cached p) → value_of p' x w.
Proof.
  destruct put_new_key as (Hf & Hnc & _ & _). intros Hx Ho.
  assert (x ≠ k) as Hk.
  { intros ->. apply (value_stored key_ok _ _ _ _ _ (g_inv _ _ _ _ _ Hg)) in Hx. rewrite Hf in Hx. by destruct Hx. }
  destruct Hx as [Hw|(Hc & f & Hx & Hon)].
  - left. apply put_lookup. right. split; [done|]. intros ->. apply Ho. split; [done|]. apply in_lru_keys. by eexists.
  - right. rewrite put_cached. split; [tauto|]. exists f. split; [by rewrite put_other|].
    unfold on_server, server in *. by rewrite (put_storage _ _ _ _ _ _ _ Hturn).
Qed.

Lemma put_present x :
  RunningKeys.is_present x (runningKeys p') = true ↔ x ∈ ks ++ (op_key <$> displaced oldest p).
Proof.
  rewrite elem_of_app, <- (g_running _ _ _ _ _ Hg), (put_running _ _ _ _ _ _ _ Hturn). unfold displaced.
  change (RunningKeys.is_present x (RunningKeys.with_promise q v ?s)) with (RunningKeys.is_present x s).
  case_decide; [cbn; pose proof (not_elem_of_nil x); tauto|]. rewrite is_present_insert, orb_true_iff, bool_decide_eq_true.
  destruct (RunningKeys.is_present oldest (runningKeys p)) eqn:Hp; cbn.
  - split; [intros [?| ->]; by left|]. intros [?|?%not_elem_of_nil]; [by left|done].
  - by rewrite list_elem_of_singleton.
Qed.

Lemma put_requests :
  RunningKeys.request_map (tsmap p') = RunningKeys.request_map (tsmap p)
  ∧ RunningKeys.get_map (tsmap p') = RunningKeys.get_map (tsmap p)
  ∧ RunningKeys.get_cache (tsmap p') = RunningKeys.get_cache (tsmap p)
  ∧ RunningKeys.promises (runningKeys p') = <[q := v]> (RunningKeys.promises (runningKeys p)).
Proof. rewrite (put_running _ _ _ _ _ _ _ Hturn). by case_decide. Qed.

Lemma put_sizes :
  (length (lru p') + (if decide (oldest ∈ cached p) then 1 else 0) = S (length (lru p)))%nat
  ∧ (size (freqs p') + (if decide (oldest ∈ cached p) then 1 else 0) = S (size (freqs p)))%nat
  ∧ (length (keys_to_be_deleted p') + (if decide (oldest ∈ cached p) then 1 else 0)
     = S (length (keys_to_be_deleted p)))%nat.
Proof.
  destruct put_new_key as (Hf & Hnc & _ & Hne). split; [|split].
  - rewrite (put_lru _ _ _ _ _ _ _ Hturn). cbn [length].
    pose proof (lru_remove_length oldest (lru p) (lru_NoDup p (pi_cache _ _ _ _ (g_inv _ _ _ _ _ Hg)))). lia.
  - rewrite (put_freqs _ _ _ _ _ _ _ Hturn). destruct Hold as [fo Hfo]. case_decide.
    + rewrite map_size_insert_None by (by rewrite lookup_delete_ne). rewrite map_size_delete, Hfo. cbn.
      assert (size (freqs p) ≠ 0%nat); [|lia]. intros Hz%map_size_empty_inv. by rewrite Hz, lookup_empty in Hfo.
    + rewrite map_size_insert_None by done. lia.
  - rewrite (put_delete _ _ _ _ _ _ _ Hturn), length_app. case_decide; simpl; lia.
Qed.

(** The oldest bucket joins the batch, if it is not there and not cached. *)
Lemma put_displaced x :
  x ∈ op_key <$> displaced oldest p → x = oldest ∧ oldest ∉ cached p ∧ oldest ∉ ks.
Proof.
  unfold displaced. case_decide; [by intros ?%not_elem_of_nil|].
  destruct (RunningKeys.is_present oldest (runningKeys p)) eqn:Hp; [by intros ?%not_elem_of_nil|].
  cbn. intros ->%list_elem_of_singleton. split; [done|]. split; [done|].
  intros Hin%(g_running _ _ _ _ _ Hg). congruence.
Qed.

Lemma put_batch_nodup : NoDup (ks ++ (op_key <$> displaced oldest p)).
Proof.
  apply NoDup_app. split; [apply Hg|]. split.
  - intros x Hx Hd%put_displaced. by destruct Hd as (-> & _ & ?).
  - unfold displaced. case_decide; [constructor|]. destruct (RunningKeys.is_present _ _); [constructor|apply NoDup_singleton].
Qed.

Lemma put_batch_keys x : x ∈ ks ++ (op_key <$> displaced oldest p) → is_Some (freqs p' !! x) ∧ x ∉ cached p'.
Proof.
  destruct put_new_key as (Hf & Hnc & Hff & Hne). intros Hx. rewrite put_cached.
  assert (is_Some (freqs p !! x) ∧ x ∉ cached p) as [Hx1 Hx2].
  { apply elem_of_app in Hx as [Hx|Hx]; [by apply (g_keys _ _ _ _ _ Hg)|]. by destruct (put_displaced x Hx) as (-> & ? & _). }
  assert (x ≠ k) as Hk by (intros ->; rewrite Hf in Hx1; by destruct Hx1).
  rewrite put_other; [|done|by intros [-> ?]]. split; [done|]. tauto.
Qed.

Lemma put_to_delete x : x ∈ keys_to_be_deleted p' → x ∈ ks ++ (op_key <$> displaced oldest p).
Proof.
  rewrite (put_delete _ _ _ _ _ _ _ Hturn), elem_of_app. intros [Hx|Hx].
  - apply elem_of_app. left. by apply (g_delete _ _ _ _ _ Hg).
  - case_decide; [by apply not_elem_of_nil in Hx|]. apply list_elem_of_singleton in Hx as ->.
    apply put_present. rewrite (put_running _ _ _ _ _ _ _ Hturn), decide_False by done.
    change (RunningKeys.is_present ?x (RunningKeys.with_promise q v ?s)) with (RunningKeys.is_present x s).
    rewrite is_present_insert, bool_decide_eq_true_2 by done. apply orb_true_r.
Qed.

(** No request waits for the new bucket, so the requests keep their answers. *)
Lemma put_request id keys q' :
  RunningKeys.request_map (tsmap p) !! id = Some (keys, q') →
  (∀ x, x ∈ keys → x ∈ ks ++ (op_key <$> displaced oldest p) ∨ is_Some (RunningKeys.get_cache (tsmap p) !! x))
  ∧ ∃ a, RunningKeys.answer_of keys (<[k := v]> truth) = Done a.
Proof.
  destruct put_new_key as (Hf & Hnc & Hff & Hne). intros Hl.
  destruct (g_requests _ _ _ _ _ Hg id keys q' Hl) as [H1 (a & Ha)].
  assert (∀ x, x ∈ keys → x ≠ k) as Hk.
  { intros x Hx ->. destruct (H1 _ Hx) as [Hin|[w Hw]].
    - destruct (g_keys _ _ _ _ _ Hg _ Hin) as [[? ?] _]. congruence.
    - destruct (g_cached _ _ _ _ _ Hg _ _ Hw) as (_ & _ & ?). congruence. }
  split.
  - intros x Hx. destruct (H1 x Hx); [left; apply elem_of_app; by left|by right].
  - exists a. rewrite <- Ha. apply RunningKeys.answer_of_ext. intros x Hx. rewrite lookup_insert_ne; [done|].
    intros <-. by apply (Hk _ Hx).
Qed.

Lemma put_gathering : gathering (<[k := v]> truth) wr rd (ks ++ (op_key <$> displaced oldest p)) p'.
Proof.
  destruct put_new_key as (Hf & Hnc & Hff & Hne). destruct put_requests as (R1 & R2 & R3 & R4).
  destruct put_sizes as (S1 & S2 & S3). pose proof put_pinv as Hi'.
  assert (ffreqs p' = ffreqs p) as Hffe by (unfold ffreqs; by rewrite (put_fake _ _ _ _ _ _ _ Hturn)).
  pose proof Hg as [G1 G2 G3 G4 G5 G6 G7 G8 G9 G10 G11 G12 G13 G14 G15 G16].
  split; rewrite ?Hffe, ?R1, ?R3, ?(put_clock _ _ _ _ _ _ _ Hturn); try done.
  - apply put_batch_nodup.
  - apply put_batch_keys.
  - apply put_present.
  - apply put_to_delete.
  - lia.
  - lia.
  - rewrite (put_running _ _ _ _ _ _ _ Hturn). apply inv_with_promise; [|intros id keys; case_decide; apply Hq].
    case_decide; [done|]. by apply (grown_inv _ _ _ (insert_grown oldest (runningKeys p))).
  - unfold RunningKeys.tidy. by rewrite R1, R2, R3.
  - apply put_request.
  - intros x w Hc. destruct (G14 x w Hc) as (H1 & H2 & H3). assert (x ≠ k) as Hk by (intros ->; congruence).
    split; [done|]. split; [|by rewrite lookup_insert_ne].
    intros Hx. destruct (put_stored_other x Hk Hx) as [Heq Ho]. rewrite Heq in Hx. apply H2 in Hx as Hin.
    apply put_cached. right. split; [done|]. intros ->. tauto.
  - intros x w [[-> ->]|[Hk Hv]]%put_value; [apply lookup_insert_eq|]. rewrite lookup_insert_ne by done. by apply G15.
  - intros x Hx. destruct (G16 x Hx) as (k0 & f0 & ? & ? & Hk0). exists k0, f0. split; [done|]. split; [done|].
    destruct Hk0 as [Hk0|]; [left|by right]. destruct (decide (k = k0)) as [<-|]; [rewrite lookup_insert_eq; by eexists|].
    by rewrite lookup_insert_ne.
Qed.
End put.

(** A PUT of a new bucket for an item that has buckets: the oldest of them is
    displaced, and the promise is set to the value. *)
Lemma serve_put_run truth wr rd g item t v q p :
  gathering truth wr rd (op_key <$> storage_batch g) p →
  Smoother.valid_item item = true → in_long t = true → Smoother.times item (realBst p) ≠ [] →
  let k := Smoother.ts_key item t in
  key_ok k → truth !! k = None → storable v → v ≠ "" →
  RunningKeys.promises (runningKeys p) !! q = None →
  (∀ id keys, RunningKeys.request_map (tsmap p) !! id ≠ Some (keys, Some q)) →
  ∃ t0 g' p', serve {| op_key := k; op_value := v |} (Some q) g p = (Done (1, g'), p')
    ∧ head (Smoother.times item (realBst p)) = Some t0
    ∧ put_turn item t v (Smoother.ts_key item t0) q p p'
    ∧ storage_batch g' = storage_batch g ++ displaced (Smoother.ts_key item t0) p
    ∧ request_id g' = request_id g ∧ cacheMisses g' = cacheMisses g
    ∧ gathering (<[k := v]> truth) wr rd (op_key <$> storage_batch g') p'.
Proof.
  intros Hg Hi Ht Hts k Hok Hnew Hst Hv Hq Hfresh. unfold serve. cbn [op_key op_value].
  destruct (Smoother.times item (realBst p)) as [|t0 ts] eqn:Htimes; [done|]. rewrite decide_False by done.
  assert (is_Some (freqs p !! Smoother.ts_key item t0)) as Hold.
  { apply (times_stored item t0); [apply (pi_real _ _ _ _ (g_inv _ _ _ _ _ Hg))|rewrite Htimes; by left]. }
  assert (Smoother.canonical k) as Hcan by (by exists item, t).
  destruct (new_key_facts truth wr rd _ p _ k Hg Hold Hnew Hcan) as (Hf & Hnc & _ & _).
  destruct (put_run item t t0 ts v q (storage_batch g) (cacheMisses g) p) as (p' & Hrun & Hturn);
    [apply (g_inv _ _ _ _ _ Hg)..|done|done|done|done|done|done|done|done|].
  rewrite (mbind_run _ _ _ _ _ Hrun). exists t0. eexists _, p'. split; [reflexivity|].
  do 5 (split; [done|]). cbn [storage_batch fst]. rewrite fmap_app.
  eapply put_gathering; try done.
Qed.

(** ** Before the batch *)

Lemma pinv_same_truth truth wr rd ks p keys vals :
  gathering truth wr rd ks p → agree p keys vals → ∀ x, x ∈ keys → vals !! x = truth !! x.
Proof.
  intros Hg Ha x Hx. specialize (Ha x Hx).
  destruct (RunningKeys.get_cache (tsmap p) !! x) as [w|] eqn:Hc.
  - destruct (g_cached _ _ _ _ _ Hg x w Hc) as (_ & _ & ->). done.
  - destruct Ha as (w & Hw & ->). by rewrite (g_truth _ _ _ _ _ Hg x w Hw).
Qed.

(** What [tryClearAllPromises] makes [s] of the running keys of [p]. *)
Record cleared (p : proxy) (s : RunningKeys.state) : Prop := {
  cl_inv : RunningKeys.inv s;
  cl_running : RunningKeys.m_map_ (RunningKeys.tsmap s) = RunningKeys.m_map_ (tsmap p);
  cl_emptied : RunningKeys.kept_or_emptied (runningKeys p) s;
  cl_outcome : ∀ id keys q, RunningKeys.request_map (tsmap p) !! id = Some (keys, Some q) →
    RunningKeys.request_outcome (RunningKeys.complete keys (RunningKeys.get_cache (tsmap p)))
      (RunningKeys.get_cache (tsmap p)) (runningKeys p) s id keys q;
  cl_kept : ∀ id kp, RunningKeys.request_map (RunningKeys.tsmap s) !! id = Some kp →
    RunningKeys.request_map (tsmap p) !! id = Some kp
    ∧ RunningKeys.complete kp.1 (RunningKeys.get_cache (tsmap p)) = false;
  cl_frame : ∀ q, (∀ id keys, RunningKeys.request_map (tsmap p) !! id ≠ Some (keys, Some q)) →
    RunningKeys.promises s !! q = RunningKeys.promises (runningKeys p) !! q
}.

(** The known buckets have the values of the truth. *)
Lemma cached_answer truth wr rd ks p keys :
  gathering truth wr rd ks p → RunningKeys.complete keys (RunningKeys.get_cache (tsmap p)) = true →
  RunningKeys.answer_of keys (RunningKeys.get_cache (tsmap p)) = RunningKeys.answer_of keys truth.
Proof.
  intros Hg Hc. apply RunningKeys.answer_of_ext. intros x Hx.
  apply (proj1 (RunningKeys.complete_spec _ _) Hc) in Hx as [w Hw]. rewrite Hw.
  by destruct (g_cached _ _ _ _ _ Hg x w Hw) as (_ & _ & ->).
Qed.

Lemma clear_run truth wr rd ks p :
  gathering truth wr rd ks p → ∃ s, RunningKeys.tryClearAllPromises (runningKeys p) = (Done (), s) ∧ cleared p s.
Proof.
  intros Hg. pose proof (g_rinv _ _ _ _ _ Hg) as Hinv.
  destruct (RunningKeys.tryClearAllPromises_run (runningKeys p) Hinv) as (s & Hrun & Hs & Hmm & Hke & Hout & Hnone & Hfr).
  { intros id keys q Hl Hc. rewrite (cached_answer _ _ _ _ _ _ Hg) by done. by apply (g_requests _ _ _ _ _ Hg id keys q). }
  exists s. split; [done|]. split; try done.
  exact (RunningKeys.outcomes_kept (λ keys, RunningKeys.complete keys _) _ _ _ Hinv Hout Hnone).
Qed.

(** A key that a request still waits for is in the batch. *)
Lemma cleared_index truth wr rd ks p s x ids :
  gathering truth wr rd ks p → cleared p s → RunningKeys.get_map (tsmap p) !! x = Some ids →
  x ∈ ks ∧ RunningKeys.request_map (RunningKeys.tsmap s) ≠ ∅.
Proof.
  intros Hg Hcl Hx. pose proof (g_rinv _ _ _ _ _ Hg) as Hinv. assert (x ∈ ks) as Hin.
  { apply (g_running _ _ _ _ _ Hg). unfold RunningKeys.is_present. rewrite orb_true_iff, !bool_decide_eq_true. right. by eexists. }
  split; [done|]. destruct (g_keys _ _ _ _ _ Hg x Hin) as [Hfx Hcx].
  pose proof (uncached_no_bucket _ _ _ _ _ _ Hg Hfx (proj2 (Lru.lookup_None _ _) Hcx)) as Hnb.
  destruct (RunningKeys.inv_sorted _ Hinv _ _ Hx) as [_ Hne]. destruct ids as [|id ids]; [done|].
  destruct (RunningKeys.inv_waiting _ Hinv x (id :: ids) id Hx) as (keys & q & Hl & Hk); [by left|done|].
  destruct (RunningKeys.inv_request _ Hinv _ _ _ Hl) as (_ & q1 & -> & _).
  pose proof (cl_outcome _ _ Hcl _ _ _ Hl) as Ho. unfold RunningKeys.request_outcome in Ho.
  destruct (RunningKeys.complete keys _) eqn:Hc.
  - rewrite RunningKeys.complete_spec in Hc. destruct (Hc x Hk). congruence.
  - intros Hr. rewrite Hr, lookup_empty in Ho. by destruct Ho.
Qed.

(** The same keys are marked as running. *)
Lemma cleared_present truth wr rd ks p s x :
  gathering truth wr rd ks p → cleared p s → RunningKeys.is_present x s = RunningKeys.is_present x (runningKeys p).
Proof.
  intros Hg Hcl. unfold RunningKeys.is_present. rewrite (cl_running _ _ Hcl). f_equal.
  destruct (cl_emptied _ _ Hcl) as [(-> & _ & _)|(Hr & -> & _)]; [done|].
  rewrite lookup_empty, !bool_decide_eq_false_2; [done| |by intros [??]].
  intros [ids Hx]. by destruct (cleared_index _ _ _ _ _ _ _ _ Hg Hcl Hx).
Qed.

Lemma cleared_cache p s x w :
  cleared p s → RunningKeys.get_cache (RunningKeys.tsmap s) !! x = Some w → RunningKeys.get_cache (tsmap p) !! x = Some w.
Proof. intros Hcl. destruct (cl_emptied _ _ Hcl) as [(_ & -> & _)|(_ & _ & ->)]; [done|by rewrite lookup_empty]. Qed.

Lemma cleared_tidy p s : cleared p s → RunningKeys.tidy (runningKeys p) → RunningKeys.tidy s.
Proof.
  intros Hcl Ht Hr. destruct (cl_emptied _ _ Hcl) as [(Hg & Hc & Hr1)|(_ & ? & ?)]; [|done].
  rewrite Hg, Hc. by apply Ht, Hr1.
Qed.

(** A request that is left still misses a bucket that the batch fetches. *)
Lemma cleared_request truth wr rd ks p s id keys q :
  gathering truth wr rd ks p → cleared p s → RunningKeys.request_map (RunningKeys.tsmap s) !! id = Some (keys, q) →
  RunningKeys.complete keys (RunningKeys.get_cache (RunningKeys.tsmap s)) = false
  ∧ (∀ x, x ∈ keys → x ∈ ks ∨ is_Some (RunningKeys.get_cache (RunningKeys.tsmap s) !! x))
  ∧ ∃ a, RunningKeys.answer_of keys truth = Done a.
Proof.
  intros Hg Hcl Hl. destruct (cl_kept _ _ Hcl _ _ Hl) as [Hl0 Hc0].
  destruct (g_requests _ _ _ _ _ Hg id keys q Hl0) as [Hk Ha].
  by destruct (cl_emptied _ _ Hcl) as [(_ & -> & _)|(Hr & _ & _)]; [|rewrite Hr, lookup_empty in Hl].
Qed.

Lemma cleared_gathering truth wr rd ks p s :
  gathering truth wr rd ks p → cleared p s → gathering truth wr rd ks (set_runningKeys s p).
Proof.
  intros Hg Hcl. pose proof Hg as [G1 G2 G3 G4 G5 G6 G7 G8 G9 G10 G11 G12 G13 G14 G15 G16]. split; try done.
  - by apply pinv_running.
  - intros x. rewrite <- G5. cbn. by rewrite (cleared_present _ _ _ _ _ _ _ Hg Hcl).
  - apply Hcl.
  - by apply (cleared_tidy p).
  - intros id keys q Hl. by apply (cleared_request _ _ _ _ _ _ _ _ _ Hg Hcl Hl).
  - intros x w Hc. apply G14. by apply (cleared_cache p s).
Qed.

Lemma cleared_batch_pre truth wr rd ks p s :
  gathering truth wr rd ks p → cleared p s → 0 ≤ F conf → Z.of_nat (length ks) + F conf ≤ B conf < 2^31 →
  timeStamp p < 2^31 - 1 → 0 ≤ object_size_ conf ≤ 4085 → batch_pre conf ks (set_runningKeys s p).
Proof.
  intros Hg Hcl HF HB Hclk Hobj. pose proof (cleared_gathering _ _ _ _ _ _ Hg Hcl) as Hg'.
  pose proof Hg' as [G1 G2 G3 G4 G5 G6 G7 G8 G9 G10 G11 G12 G13 G14 G15 G16]. split; try done.
  - intros id keys q Hl. destruct (cleared_request _ _ _ _ _ _ _ _ _ Hg Hcl Hl) as (Hc & Hk & a & Ha).
    split; [done|]. split; [done|]. intros vals Hag. exists a. rewrite <- Ha. apply RunningKeys.answer_of_ext.
    by apply (pinv_same_truth _ _ _ _ _ _ _ Hg').
  - intros x [w Hc]. destruct (G14 x w Hc) as (? & ? & _). done.
Qed.

(** A request is still waiting, or it is answered and its promise is free. *)
Lemma cleared_outcome truth wr rd ks p s id keys q :
  gathering truth wr rd ks p → cleared p s → RunningKeys.request_map (tsmap p) !! id = Some (keys, Some q) →
  RunningKeys.request_map (RunningKeys.tsmap s) !! id = Some (keys, Some q)
  ∨ (∃ a, RunningKeys.answer_of keys truth = Done a ∧ RunningKeys.promises s !! q = Some a
       ∧ ∀ id' keys', RunningKeys.request_map (RunningKeys.tsmap s) !! id' ≠ Some (keys', Some q)).
Proof.
  intros Hg Hcl Hl. pose proof (cl_outcome _ _ Hcl _ _ _ Hl) as Ho. unfold RunningKeys.request_outcome in Ho.
  destruct (RunningKeys.complete keys _) eqn:Hc; [right|by left; apply Ho].
  destruct Ho as [Hn (a & Ha & Hq)]. exists a. rewrite <- (cached_answer _ _ _ _ _ _ Hg) by done.
  split; [done|]. split; [done|]. apply (RunningKeys.promise_gone (runningKeys p) s id keys q); [apply Hg| |done|done].
  intros ???. by apply (cl_kept _ _ Hcl).
Qed.

(** Requests whose buckets are all at hand are answered, and what the batch
    needs holds. *)
Lemma clear_before_batch truth wr rd ks p :
  gathering truth wr rd ks p → 0 ≤ F conf → Z.of_nat (length ks) + F conf ≤ B conf < 2^31 →
  timeStamp p < 2^31 - 1 → 0 ≤ object_size_ conf ≤ 4085 →
  ∃ s, on_runningKeys RunningKeys.tryClearAllPromises p = (Done (), set_runningKeys s p) ∧ cleared p s
    ∧ gathering truth wr rd ks (set_runningKeys s p) ∧ batch_pre conf ks (set_runningKeys s p).
Proof.
  intros Hg HF HB Hclk Hobj. destruct (clear_run _ _ _ _ _ Hg) as (s & Hrun & Hcl). exists s.
  split; [by apply on_runningKeys_run|]. split; [done|]. split; [by apply cleared_gathering|].
  by apply (cleared_batch_pre truth wr rd).
Qed.

(** * Properties *)

(** C12: [get_split_keys] on a well-formed index gives, in the order of time,
    the stored buckets of the item that start in the range, and the last
    bucket that starts before it, if that one does not start after the end. *)
Theorem get_split_keys_selects item start finish p :
  real_ok p → Smoother.valid_item item = true → in_long start = true → in_long finish = true →
  ∃ ts p', get_split_keys (range_key item start finish) p = (Done (Smoother.ts_key item <$> ts), p')
    ∧ freqs p' = freqs p ∧ oset_sorted Z.ltb ts
    ∧ ∀ t, in_long t = true →
        t ∈ ts ↔ is_Some (freqs p !! Smoother.ts_key item t) ∧ t ≤ finish
                 ∧ ∀ u, in_long u = true → is_Some (freqs p !! Smoother.ts_key item u) → u < start → u ≤ t.
Proof.
  intros [Hw Hn] Hi Hs Hf. pose proof (proj2 Hw Hn) as Hit.
  pose proof (proj1 (proj1 (Smoother.valid_item_spec item) Hi)) as Hat.
  exists (select_timestamps start finish (Smoother.times item (realBst p))), (set_realBst (Smoother.touch_item item (realBst p)) p).
  split; [by apply get_split_keys_run|]. split; [done|]. pose proof (Smoother.items_sorted _ Hit item) as Hsort.
  split.
  - eapply oset_sorted_sublist; [apply select_timestamps_sublist|done].
  - intros t Ht. rewrite select_timestamps_spec by done. rewrite (Smoother.items_agree _ Hit) by done.
    apply and_iff_compat_l, and_iff_compat_l. split.
    + intros Hall u Hu Hin. by apply Hall, (Smoother.items_agree _ Hit).
    + intros Hall u Hin. destruct (Smoother.items_valid _ Hit _ _ Hin) as [_ Hu].
      apply Hall; [done|]. by apply (Smoother.items_agree _ Hit).
Qed.

(** A range that ends before every bucket of its item, or that is inverted and
    has a later bucket before its start for each that it could get, selects nothing. *)
Lemma get_keys_nil item start finish p :
  real_ok p →
  (∀ t, t ∈ Smoother.times item (realBst p) →
     finish < t ∨ ∃ u, u ∈ Smoother.times item (realBst p) ∧ u < start ∧ t < u) →
  get_keys item start finish p = [].
Proof.
  intros [Hw Hn] Hnone. pose proof (proj2 Hw Hn) as Hit. unfold get_keys.
  destruct (select_timestamps start finish (Smoother.times item (realBst p))) as [|t ts] eqn:Hsel; [done|]. exfalso.
  assert (t ∈ select_timestamps start finish (Smoother.times item (realBst p))) as Ht by (rewrite Hsel; by left).
  apply select_timestamps_spec in Ht as (Ht & Hle & Hlast); [|apply (Smoother.items_sorted _ Hit)].
  destruct (Hnone t Ht) as [?|(u & Hu & Hus & Htu)]; [lia|]. specialize (Hlast u Hu Hus). lia.
Qed.

(** C37: a PUT for an item of which no bucket is stored is undefined: there is
    no oldest bucket to displace. *)
Theorem put_of_new_item_undefined item t v promise g p :
  Smoother.valid_item item = true → in_long t = true → v ≠ "" → Smoother.times item (realBst p) = [] →
  fst (serve {| op_key := Smoother.ts_key item t; op_value := v |} promise g p) = Stop Undefined.
Proof.
  intros Hi Ht Hv Hts. unfold serve, create_security_batch, remove_oldest_data. cbn [op_key op_value].
  rewrite !(decide_False (P := v = "")) by done.
  assert (on_realBst (Smoother.getOldestKey (keys_to_be_deleted p) (Smoother.ts_key item t)) p
    = (Stop Undefined, set_realBst (Smoother.touch_item item (realBst p)) p)) as Hstop.
  { unfold on_realBst, zoom, Smoother.getOldestKey. run. rewrite Smoother.split_ts_key by done. simpl.
    by rewrite Smoother.times_touch_item, Hts. }
  erewrite mbind_stop; [done|]. apply mbind_stop. rewrite (mbind_run get _ p p p eq_refl).
  exact (mbind_stop _ _ _ _ _ Hstop).
Qed.

End register.
End Register.
