(* ===== verification/ProxySystem.v ===== *)
(** The proxy as a transition system: the consumer thread registers operations
    and executes batches ([consumer_thread] of proxy/src/waffle_proxy.cpp),
    the clear thread deletes the names that were read ([clearThread]), in any
    interleaving of these steps.  The storage server keeps a log of what it is
    asked ([logged] of Storage), so that the theorems can say what the server
    sees.  Two histories are kept beside the proxy: the value stored under each
    key, and the buckets each GET asked for. *)
From S2P Require Import Prelude.
From S2P Require Import CxxString.
From S2P Require Import OrderedSet.
From S2P Require Import FrequencySmoother.
From S2P Require Import Cache.
From S2P Require Import EvictedItems.
From S2P Require Import Values.
From S2P Require Import RunningKeys.
From S2P Require Import Storage.
From S2P Require Import Encryption.
From S2P Require Import Proxy.
From S2P Require Import ProxyBatch.
From S2P Require Import BatchPhases.
From S2P Require Import BatchCorrect.
From S2P Require Import ProxyInit.
From S2P Require Import ProxyRegister.

Local Open Scope Z_scope.

Module System.
Import Proxy Batch Phases Correct Register.

(** * The threads *)
Section threads.
Context {St W : Type} `{storage_interface St} `{crypter W}.
Variable conf : config.
Abbreviation proxy := (@waffle_proxy St W).

(** The end of a turn of the loop [while (!finished_)]: some requests can be
    answered from the cache, then the batch is executed. *)
Definition finish_round (fuel : nat) (g : gathered) : M proxy () :=
  on_runningKeys RunningKeys.tryClearAllPromises ;;
  execute_batch conf fuel (storage_batch g).

(** A turn of that loop: [request_id] is kept from turn to turn.  Returns it
    and what is left in the queue. *)
Definition consumer_round (fuel : nat) (finished : bool) (ops : list (operation * RunningKeys.shared_promise))
    (id : Z) : M proxy (Z * list (operation * RunningKeys.shared_promise)) :=
  r ← gather conf finished 0 ops (nothing_gathered id);
  finish_round fuel r.1 ;;
  mret (request_id r.1, r.2).

(** A turn of [clearThread]: [pop] waits for a vector of keys. *)
Definition clearThread : M proxy () :=
  p ← get;
  match keysNotUsed p with
  | [] => fail Blocked
  | keyVectorNotUsed :: rest =>
      modify (set_keysNotUsed rest) ;;
      if (0 <? length keyVectorNotUsed)%nat then on_storage (storage_delete_batch keyVectorNotUsed) else mret ()
  end.

End threads.

(** * What the server sees *)
Definition written_names (l : list request) : list string :=
  l ≫= λ r, match r with PutBatch keys _ => keys | _ => [] end.
Definition read_names (l : list request) : list string :=
  l ≫= λ r, match r with GetBatch keys => keys | _ => [] end.
Definition deleted_names (l : list request) : list string :=
  l ≫= λ r, match r with DeleteBatch keys => keys | _ => [] end.

(** A batch asks for [B] names, and stores [B]. *)
Definition batch_sized (b : Z) (r : request) : Prop :=
  match r with
  | GetBatch keys => Z.of_nat (length keys) = b
  | PutBatch keys _ => Z.of_nat (length keys) = b
  | DeleteBatch _ => True
  end.

Section system.
Context {St W : Type} {sto : storage_interface St} {stoS : @StorageSpec St sto}
  {cry : crypter W} {cryS : @CrypterSpec W cry}.
Variable conf : config.
Abbreviation proxy := (@waffle_proxy (St * list request) W).
Abbreviation cached p := ((lru p).*1).
Abbreviation tsmap p := (RunningKeys.tsmap (runningKeys p)).
Abbreviation log p := ((storage_interface_ p).2).

Record system := {
  sys_proxy : proxy;
  sys_gathered : gathered;
  (** the value that was stored under each key *)
  sys_truth : gmap string string;
  (** the buckets of each GET that has some *)
  sys_asked : gmap RunningKeys.promise (list string);
}.

Context (key_ok : string → Prop).

(** A promise that nobody has used *)
Definition new_promise (q : RunningKeys.promise) (s : system) : Prop :=
  RunningKeys.promises (runningKeys (sys_proxy s)) !! q = None ∧ sys_asked s !! q = None.

(** A GET: the sum over its buckets fits in an [int]. *)
Record get_allowed (item : string) (start finish : Z) (q : RunningKeys.promise) (s : system) : Prop := {
  get_item : has_char "@" item = false;
  get_range : in_long start = true ∧ in_long finish = true;
  get_new : new_promise q s;
  get_sum : get_keys item start finish (sys_proxy s) = [] ∨
    ∃ a, RunningKeys.answer_of (get_keys item start finish (sys_proxy s)) (sys_truth s) = Done a;
}.

(** A PUT: a new bucket of an item that has buckets. *)
Record put_allowed (item : string) (t : Z) (v : string) (q : RunningKeys.promise) (s : system) : Prop := {
  put_item : Smoother.valid_item item = true ∧ in_long t = true;
  put_old : Smoother.times item (realBst (sys_proxy s)) ≠ [];
  put_key : key_ok (Smoother.ts_key item t) ∧ sys_truth s !! Smoother.ts_key item t = None;
  put_val : storable v ∧ v ≠ "";
  put_new : new_promise q s;
}.

(** A batch: what was gathered fits, and the clock does not overflow. *)
Record batch_allowed (fuel : nat) (s : system) : Prop := {
  batch_fits : 0 ≤ F conf ∧ Z.of_nat (length (storage_batch (sys_gathered s))) + F conf ≤ B conf < 2^31;
  batch_clock : timeStamp (sys_proxy s) < 2^31 - 1;
  batch_object : 0 ≤ object_size_ conf ≤ 4085;
  batch_fuel : (Z.to_nat (F conf) ≤ fuel)%nat;
}.

Definition after_get (item : string) (start finish : Z) (q : RunningKeys.promise) (g : gathered) (p : proxy)
    (s : system) : system :=
  let keys := get_keys item start finish (sys_proxy s) in
  {| sys_proxy := p; sys_gathered := g; sys_truth := sys_truth s;
     sys_asked := if decide (keys = []) then sys_asked s else <[q := keys]> (sys_asked s) |}.

Definition after_put (item : string) (t : Z) (v : string) (g : gathered) (p : proxy) (s : system) : system :=
  {| sys_proxy := p; sys_gathered := g; sys_truth := <[Smoother.ts_key item t := v]> (sys_truth s);
     sys_asked := sys_asked s |}.

Definition after_batch (p : proxy) (s : system) : system :=
  {| sys_proxy := p; sys_gathered := nothing_gathered (request_id (sys_gathered s));
     sys_truth := sys_truth s; sys_asked := sys_asked s |}.

Definition after_clear (p : proxy) (s : system) : system :=
  {| sys_proxy := p; sys_gathered := sys_gathered s; sys_truth := sys_truth s; sys_asked := sys_asked s |}.

(** The steps are runs of the code. *)
Inductive sys_step (s : system) : system → Prop :=
  | step_get item start finish q i g p :
      get_allowed item start finish q s →
      serve {| op_key := range_key item start finish; op_value := "" |} (Some q) (sys_gathered s) (sys_proxy s)
      = (Done (i, g), p) →
      sys_step s (after_get item start finish q g p s)
  | step_put item t v q i g p :
      put_allowed item t v q s →
      serve {| op_key := Smoother.ts_key item t; op_value := v |} (Some q) (sys_gathered s) (sys_proxy s)
      = (Done (i, g), p) →
      sys_step s (after_put item t v g p s)
  | step_batch fuel p :
      batch_allowed fuel s →
      finish_round conf fuel (sys_gathered s) (sys_proxy s) = (Done (), p) →
      sys_step s (after_batch p s)
  | step_clear p :
      keysNotUsed (sys_proxy s) ≠ [] →
      clearThread (sys_proxy s) = (Done (), p) →
      sys_step s (after_clear p s).

(** The system after [init] on the data [kvs]. *)
Definition started_system (kvs : list (string * string)) (p : proxy) : system :=
  {| sys_proxy := p; sys_gathered := nothing_gathered 0; sys_truth := list_to_map kvs; sys_asked := ∅ |}.

Record sys_start (kvs : list (string * string)) (p0 p : proxy) : Prop := {
  start_data : Init.data_ok key_ok kvs;
  start_started : Init.started conf key_ok kvs p0 p;
  start_bookkeeping : RunningKeys.tsmap (runningKeys p) = RunningKeys.new_map
                      ∧ keys_to_be_deleted p = [] ∧ keysNotUsed p = [] ∧ 0 ≤ timeStamp p;
  (** something is cached, and enough is not *)
  start_cache : (0 < length (lru p))%nat;
  start_sizes : B conf - F conf + Z.of_nat (length (lru p)) ≤ Z.of_nat (length kvs) ∧ F conf ≤ D conf;
}.

Inductive reachable (s0 : system) : system → Prop :=
  | reach_start : reachable s0 s0
  | reach_step s s' : reachable s0 s → sys_step s s' → reachable s0 s'.

(** * The invariant *)

(** [l] is what the server was asked since the start, when it had the names
    [n0]. *)
Record sys_inv (n0 : gset string) (l : list request) (s : system) : Prop := {
  si_gathering : gathering conf key_ok (sys_truth s) (n0 ∪ list_to_set (written_names l)) (list_to_set (read_names l))
                   (op_key <$> storage_batch (sys_gathered s)) (sys_proxy s);
  si_writes : NoDup (written_names l) ∧ ∀ x, x ∈ written_names l → x ∉ n0;
  si_reads : NoDup (read_names l);
  si_sizes r : r ∈ l → batch_sized (B conf) r;
  si_deleted x : x ∈ deleted_names l → x ∈ read_names l;
  si_history ks x : ks ∈ keysNotUsed (sys_proxy s) → x ∈ ks → x ∈ read_names l;
  si_counters : 0 ≤ cacheMisses (sys_gathered s) ∧ 0 ≤ request_id (sys_gathered s);
  si_ids id kp : RunningKeys.request_map (tsmap (sys_proxy s)) !! id = Some kp → id < request_id (sys_gathered s);
  si_waiting id keys q : RunningKeys.request_map (tsmap (sys_proxy s)) !! id = Some (keys, Some q) →
    sys_asked s !! q = Some keys;
  si_asked q keys : sys_asked s !! q = Some keys →
    (∀ k, k ∈ keys → is_Some (sys_truth s !! k))
    ∧ ((∃ id, RunningKeys.request_map (tsmap (sys_proxy s)) !! id = Some (keys, Some q))
       ∨ ∃ a, RunningKeys.answer_of keys (sys_truth s) = Done a
              ∧ RunningKeys.promises (runningKeys (sys_proxy s)) !! q = Some a);
}.

Hypothesis prf_collision_free : collision_free key_ok.

Lemma new_promise_waits n0 l s q :
  sys_inv n0 l s → new_promise q s →
  ∀ id keys, RunningKeys.request_map (tsmap (sys_proxy s)) !! id ≠ Some (keys, Some q).
Proof. intros Hs [_ Hq] id keys Hl%(si_waiting _ _ _ Hs). congruence. Qed.

(** The keys that a GET selects have values. *)
Lemma get_keys_truth truth wr rd ks item start finish (p : proxy) k :
  gathering conf key_ok truth wr rd ks p → k ∈ get_keys item start finish p → is_Some (truth !! k).
Proof.
  intros Hg Hk%get_keys_stored; [|apply (pi_real _ _ _ _ (g_inv _ _ _ _ _ _ _ Hg))].
  destruct (value_exists key_ok _ _ _ _ (g_inv _ _ _ _ _ _ _ Hg) Hk) as [v Hv].
  exists v. by apply (g_truth _ _ _ _ _ _ _ Hg).
Qed.

(** The counters of the consumer thread have room for a GET. *)
Definition get_counted (item : string) (start finish : Z) (s : system) : Prop :=
  request_id (sys_gathered s) + 1 < 2^31
  ∧ cacheMisses (sys_gathered s) + Z.of_nat (length (get_keys item start finish (sys_proxy s))) < 2^31.

Lemma get_keeps n0 l s item start finish q :
  sys_inv n0 l s → get_allowed item start finish q s →
  ∃ i g p, serve {| op_key := range_key item start finish; op_value := "" |} (Some q) (sys_gathered s) (sys_proxy s)
      = (if counters_fit g then Done (i, g) else Stop Undefined, p)
    ∧ (get_counted item start finish s → counters_fit g = true)
    ∧ sys_inv n0 l (after_get item start finish q g p s) ∧ log p = log (sys_proxy s)
    ∧ RunningKeys.promises (runningKeys p) = RunningKeys.promises (runningKeys (sys_proxy s)).
Proof.
  intros Hs [Hi [Hst Hfi] Hnew Hsum]. pose proof (new_promise_waits _ _ _ _ Hs Hnew) as Hfresh.
  set (keys := get_keys item start finish (sys_proxy s)) in *.
  destruct (serve_get_run conf key_ok (sys_truth s) _ _ (sys_gathered s) item start finish q (sys_proxy s)
    (si_gathering _ _ _ Hs) Hi Hst Hfi) as (rk & b & g' & Hrun & Hg & Hid & Hb & Hrm & Hpr & Hcm).
  { apply Hnew. }
  { done. }
  { apply eq_None_not_Some. intros [kp Hl]. apply (si_ids _ _ _ Hs) in Hl. lia. }
  { by destruct Hsum; [right|left]. }
  fold keys in Hrun, Hrm, Hcm. exists (Z.of_nat (length keys)), g'. eexists. split; [exact Hrun|].
  pose proof (si_counters _ _ _ Hs) as [Hc0 Hi0]. split; [|split; [|split; [done|exact Hpr]]].
  { intros [H1 H2]. fold keys in H2. unfold counters_fit, in_int. rewrite Hid. lia. }
  assert (∀ id kp, RunningKeys.request_map (RunningKeys.tsmap rk) !! id = Some kp →
    RunningKeys.request_map (tsmap (sys_proxy s)) !! id = Some kp
    ∨ (keys ≠ [] ∧ id = request_id (sys_gathered s) ∧ kp = (keys, Some q))) as Hcases.
  { intros id kp. rewrite Hrm. case_decide; [by left|].
    intros [[<- <-]|[_ Hl]]%lookup_insert_Some; [by right|by left]. }
  split; cbn [sys_proxy sys_gathered sys_truth sys_asked after_get]; try apply Hs; fold keys.
  - exact Hg.
  - rewrite Hid. lia.
  - rewrite Hid. intros id kp [Hl|(_ & -> & _)]%Hcases; [apply (si_ids _ _ _ Hs) in Hl; lia|lia].
  - intros id keys' q' [Hl|(Hne & -> & [= -> ->])]%Hcases.
    + apply (si_waiting _ _ _ Hs) in Hl as Ha. case_decide; [done|]. rewrite lookup_insert_ne; [done|].
      intros <-. by apply (Hfresh id keys').
    + rewrite decide_False by done. apply lookup_insert_eq.
  - assert (∀ q' keys', sys_asked s !! q' = Some keys' → q' ≠ q) as Hne by (intros q' keys' Hq' ->; destruct Hnew; congruence).
    assert (∀ q' keys', sys_asked s !! q' = Some keys' →
      (∀ k, k ∈ keys' → is_Some (sys_truth s !! k))
      ∧ ((∃ id, RunningKeys.request_map (RunningKeys.tsmap rk) !! id = Some (keys', Some q'))
         ∨ ∃ a, RunningKeys.answer_of keys' (sys_truth s) = Done a ∧ RunningKeys.promises rk !! q' = Some a)) as Hold.
    { intros q' keys' Hq'. destruct (si_asked _ _ _ Hs q' keys' Hq') as [Ht [[id Hl]|Ha]]; split; [done| |done|].
      - left. exists id. rewrite Hrm. case_decide; [done|]. rewrite lookup_insert_ne; [done|].
        apply (si_ids _ _ _ Hs) in Hl. lia.
      - right. by rewrite Hpr. }
    case_decide as Hd; [done|]. intros q' keys' [[<- <-]|[_ Hq']]%lookup_insert_Some; [|by apply Hold].
    split; [intros k Hk; by apply (get_keys_truth _ _ _ _ _ _ _ _ _ (si_gathering _ _ _ Hs) Hk)|].
    left. exists (request_id (sys_gathered s)). cbn. rewrite Hrm. apply lookup_insert_eq.
Qed.

Lemma put_keeps n0 l s item t v q :
  sys_inv n0 l s → put_allowed item t v q s →
  ∃ i g p, serve {| op_key := Smoother.ts_key item t; op_value := v |} (Some q) (sys_gathered s) (sys_proxy s)
      = (Done (i, g), p)
    ∧ sys_inv n0 l (after_put item t v g p s) ∧ log p = log (sys_proxy s)
    ∧ RunningKeys.promises (runningKeys p) = <[q := v]> (RunningKeys.promises (runningKeys (sys_proxy s))).
Proof.
  intros Hs [[Hi Ht] Hold [Hok Htr] [Hst Hv] Hnew]. pose proof (new_promise_waits _ _ _ _ Hs Hnew) as Hfresh.
  destruct (serve_put_run conf key_ok prf_collision_free (sys_truth s) _ _ (sys_gathered s) item t v q (sys_proxy s)
    (si_gathering _ _ _ Hs) Hi Ht Hold Hok Htr Hst Hv (proj1 Hnew) Hfresh)
    as (t0 & g' & p' & Hrun & _ & Hturn & _ & Hid & Hcm & Hg).
  destruct (put_requests _ _ _ _ _ _ _ Hturn) as (R1 & _ & _ & R4).
  exists 1, g', p'. split; [exact Hrun|].
  split; [|split; [by rewrite (put_storage _ _ _ _ _ _ _ Hturn)|exact R4]].
  split; cbn [sys_proxy sys_gathered sys_truth sys_asked after_put]; try apply Hs; rewrite ?R1, ?Hid, ?Hcm,
    ?(put_history _ _ _ _ _ _ _ Hturn); try apply Hs.
  - exact Hg.
  - intros q' keys Hq'. destruct (si_asked _ _ _ Hs q' keys Hq') as [Hk Hcase].
    assert (∀ k, k ∈ keys → k ≠ Smoother.ts_key item t) as Hne.
    { intros k Hin ->. destruct (Hk _ Hin) as [w Hw]. congruence. }
    split.
    + intros k Hin. rewrite lookup_insert_ne by (intros <-; by apply (Hne _ Hin)). by apply Hk.
    + destruct Hcase as [?|(a & Ha & Hpa)]; [by left|]. right. exists a. split.
      * rewrite <- Ha. apply RunningKeys.answer_of_ext. intros k Hin.
        by rewrite lookup_insert_ne by (intros <-; by apply (Hne _ Hin)).
      * rewrite R4, lookup_insert_ne; [done|]. intros <-. destruct Hnew. congruence.
Qed.

(** ** The batch *)

(** After a batch, the phase of registration starts again. *)
Lemma batch_gathering truth wr rd ks reads writes (p p' : proxy) :
  gathering conf key_ok truth wr rd ks p → batch_effect conf key_ok wr rd p ks reads writes p' →
  timeStamp p < 2^31 - 1 →
  gathering conf key_ok truth (wr ∪ list_to_set writes) (rd ∪ list_to_set reads) [] p'.
Proof.
  intros Hg He Hclk. pose proof Hg as [G1 G2 G3 G4 G5 G6 G7 G8 G9 G10 G11 G12 G13 G14 G15 G16].
  pose proof (be_inv _ _ _ _ _ _ _ _ _ He) as Hi'. pose proof (be_settled _ _ _ _ _ _ _ _ _ He) as Hset.
  pose proof (settled_empty _ _ Hset) as Hts.
  assert (∀ k, is_Some (ffreqs p' !! k) ↔ is_Some (ffreqs p !! k)) as Hff.
  { intros k. by rewrite <- !elem_of_dom, (be_fakes _ _ _ _ _ _ _ _ _ He). }
  assert (keys_to_be_deleted p' = []) as Hd.
  { destruct (keys_to_be_deleted p') as [|k l] eqn:Hk; [done|].
    destruct (be_delete _ _ _ _ _ _ _ _ _ He k) as [H1 H2]; [rewrite Hk; by left|]. by destruct H2; apply G6. }
  destruct (be_lru _ _ _ _ _ _ _ _ _ He) as (n & Hn & Hl & Hf).
  assert (∀ k v, value_of p' k v → truth !! k = Some v) as Htruth.
  { intros k v Hv. apply (value_stored key_ok _ _ _ _ _ Hi') in Hv as Hk. apply (be_keys _ _ _ _ _ _ _ _ _ He) in Hk as Hk0.
    destruct (value_exists key_ok _ _ _ _ G1 Hk0) as [v0 Hv0]. rewrite (G15 _ _ Hv0). f_equal.
    destruct (be_values _ _ _ _ _ _ _ _ _ He k v0 Hv0) as [Hv'|[_ Hn']]; [|rewrite Hn' in Hk; by destruct Hk].
    by apply (value_unique key_ok _ _ _ _ _ _ Hi' Hv' Hv). }
  split; rewrite ?Hts, ?Hd; try done.
  - rewrite (be_clock _ _ _ _ _ _ _ _ _ He). lia.
  - constructor.
  - intros k Hk. by apply not_elem_of_nil in Hk.
  - intros k. unfold RunningKeys.is_present. rewrite Hts. cbn. rewrite !lookup_empty.
    split; [|by intros ?%not_elem_of_nil]. by rewrite !bool_decide_eq_false_2 by (by intros [??]).
  - cbn [length]. lia.
  - lia.
  - rewrite <- size_dom, (be_fakes _ _ _ _ _ _ _ _ _ He), size_dom. done.
  - intros k Hk%Hff. by apply G10.
  - destruct (runningKeys p') as [ts pr]. cbn in Hts. subst ts. split; cbn; intros *; rewrite ?lookup_empty; done.
  - intros _. by rewrite Hts.
  - intros x [Hx|Hx%elem_of_list_to_set]%elem_of_union.
    + destruct (G16 x Hx) as (k & f & ? & ? & Hk). exists k, f. split; [done|]. split; [done|]. by rewrite Hff.
    + destruct (be_written _ _ _ _ _ _ _ _ _ He x Hx) as (k & f & ? & ? & Hk). exists k, f. split; [done|]. split; [done|].
      rewrite Hff. destruct Hk as [Hk|]; [left|by right].
      destruct (value_exists key_ok _ _ _ _ G1 Hk) as [v Hv]. exists v. by apply G15.
Qed.

Lemma names_app (f : request → list string) l r : (l ++ r) ≫= f = (l ≫= f) ++ (r ≫= f).
Proof. apply bind_app. Qed.

Lemma union_names (a : gset string) (l r : list string) :
  a ∪ list_to_set l ∪ list_to_set r = a ∪ list_to_set (l ++ r).
Proof. rewrite list_to_set_app_L. set_solver. Qed.

Lemma storage_pair_log reads writes cws values (st0 st st1 : St * list request) u :
  storage_get_batch reads st0 = (Done values, st) → storage_put_batch writes cws st = (Done u, st1) →
  st1.2 = st0.2 ++ [GetBatch reads; PutBatch writes cws].
Proof.
  intros Hg Hp. pose proof (logged_get_batch reads st0) as H1. rewrite Hg in H1.
  pose proof (logged_put_batch writes cws st) as H2. rewrite Hp in H2. cbn in H1, H2.
  by rewrite H2, H1, <- app_assoc.
Qed.

(** The end of a round: the requests that have everything are answered, then
    the batch runs. *)
Lemma finish_round_run n0 l s fuel :
  sys_inv n0 l s → batch_allowed fuel s →
  let wr := n0 ∪ list_to_set (written_names l) in
  let rd := list_to_set (read_names l) in
  let ks := op_key <$> storage_batch (sys_gathered s) in
  ∃ rk p reads writes, finish_round conf fuel (sys_gathered s) (sys_proxy s) = (Done (), p)
    ∧ gathering conf key_ok (sys_truth s) wr rd ks (set_runningKeys rk (sys_proxy s))
    ∧ batch_effect conf key_ok wr rd (set_runningKeys rk (sys_proxy s)) ks reads writes p
    ∧ gathering conf key_ok (sys_truth s) (wr ∪ list_to_set writes) (rd ∪ list_to_set reads) [] p
    ∧ cleared (sys_proxy s) rk.
Proof.
  intros Hs [[HF HB] Hclk Hobj Hfuel] wr rd ks. pose proof (si_gathering _ _ _ Hs) as Hg.
  destruct (clear_before_batch conf key_ok (sys_truth s) _ _ ks (sys_proxy s) Hg HF)
    as (rk & Hclear & Hcl & Hg1 & Hpre); [by unfold ks; rewrite length_fmap|done|done|].
  set (p1 := set_runningKeys rk (sys_proxy s)) in *.
  destruct (batch_run conf key_ok prf_collision_free _ _ p1 (storage_batch (sys_gathered s)) fuel
    (g_inv _ _ _ _ _ _ _ Hg1) Hpre Hfuel) as (p' & reads & writes & Hrun & He). fold ks in He.
  exists rk, p', reads, writes. split; [unfold finish_round; by rewrite (mbind_run _ _ _ _ _ Hclear)|].
  split; [done|]. split; [exact He|]. split; [by apply (batch_gathering _ _ _ ks reads writes p1 p')|done].
Qed.

(** After the batch every GET that was asked has its answer. *)
Lemma batch_answers n0 l s rk (p' : proxy) wr rd ks :
  sys_inv n0 l s → cleared (sys_proxy s) rk →
  gathering conf key_ok (sys_truth s) wr rd ks (set_runningKeys rk (sys_proxy s)) →
  settled (set_runningKeys rk (sys_proxy s)) (runningKeys p') →
  ∀ q keys, sys_asked s !! q = Some keys →
    ∃ a, RunningKeys.answer_of keys (sys_truth s) = Done a ∧ RunningKeys.promises (runningKeys p') !! q = Some a.
Proof.
  intros Hs Hcl Hg1 Hset q keys Hq. pose proof (si_gathering _ _ _ Hs) as Hg.
  destruct (si_asked _ _ _ Hs q keys Hq) as [_ [[id Hl]|(a & Ha & Hpa)]].
  - destruct (cleared_outcome _ _ _ _ _ _ _ _ _ _ _ Hg Hcl Hl) as [Hl'|(a & Ha & Hpa & Hgone)].
    + destruct (settled_answers _ _ Hset id keys q Hl') as (vals & a & Hag & Ha & Hpa).
      exists a. split; [|done]. rewrite <- Ha. apply RunningKeys.answer_of_ext. intros x Hx. symmetry.
      by apply (pinv_same_truth _ _ _ _ _ _ _ _ _ Hg1 Hag).
    + exists a. split; [done|]. rewrite (settled_others _ _ Hset); [done|exact Hgone].
  - exists a. split; [done|].
    assert (∀ id' keys', RunningKeys.request_map (tsmap (sys_proxy s)) !! id' ≠ Some (keys', Some q)) as Hno.
    { intros id' keys' Hl'. destruct (RunningKeys.inv_request _ (g_rinv _ _ _ _ _ _ _ Hg) _ _ _ Hl') as (_ & q' & [= <-] & Hq').
      congruence. }
    rewrite (settled_others _ _ Hset); [by rewrite <- Hpa; apply (cl_frame _ _ Hcl)|].
    intros id' keys' Hl'. apply (Hno id' keys'). by apply (cl_kept _ _ Hcl).
Qed.

Lemma batch_keeps n0 l s fuel :
  sys_inv n0 l s → batch_allowed fuel s →
  ∃ p reads writes values, finish_round conf fuel (sys_gathered s) (sys_proxy s) = (Done (), p)
    ∧ sys_inv n0 (l ++ [GetBatch reads; PutBatch writes values]) (after_batch p s)
    ∧ log p = log (sys_proxy s) ++ [GetBatch reads; PutBatch writes values]
    ∧ tsmap p = RunningKeys.new_map
    ∧ ∀ q, sys_asked s !! q = None →
        RunningKeys.promises (runningKeys p) !! q = RunningKeys.promises (runningKeys (sys_proxy s)) !! q.
Proof.
  intros Hs Hallowed. pose proof (si_gathering _ _ _ Hs) as Hg.
  destruct (finish_round_run n0 l s fuel Hs Hallowed)
    as (rk & p' & reads & writes & Hrun & Hg1 & He & Hg' & Hcl).
  set (ks := op_key <$> storage_batch (sys_gathered s)) in *. set (p1 := set_runningKeys rk (sys_proxy s)) in *.
  destruct (be_asked _ _ _ _ _ _ _ _ _ He) as (values & st & cws & Hget & Hput).
  exists p', reads, writes, cws. split; [|split; [|split; [|split]]].
  - done.
  - pose proof (be_settled _ _ _ _ _ _ _ _ _ He) as Hset. pose proof (settled_empty _ _ Hset) as Hts.
    destruct (be_reads _ _ _ _ _ _ _ _ _ He) as (Hrn & Hrl & Hrx).
    destruct (be_writes _ _ _ _ _ _ _ _ _ He) as (Hwn & Hwl & Hwx).
    assert (written_names (l ++ [GetBatch reads; PutBatch writes cws]) = written_names l ++ writes) as HW
      by (unfold written_names; rewrite names_app; cbn; by rewrite app_nil_r).
    assert (read_names (l ++ [GetBatch reads; PutBatch writes cws]) = read_names l ++ reads) as HR
      by (unfold read_names; rewrite names_app; cbn; by rewrite app_nil_r).
    assert (deleted_names (l ++ [GetBatch reads; PutBatch writes cws]) = deleted_names l) as HD
      by (unfold deleted_names; rewrite names_app; cbn; by rewrite app_nil_r).
    split; rewrite ?HW, ?HR, ?HD; cbn [sys_proxy sys_gathered sys_truth sys_asked after_batch].
    + by rewrite <- union_names, list_to_set_app_L.
    + destruct (si_writes _ _ _ Hs) as [Hw1 Hw2]. split.
      * apply NoDup_app. split; [done|]. split; [|done]. intros x Hx Hx'%Hwx. apply Hx', elem_of_union. right.
        by apply elem_of_list_to_set.
      * intros x [Hx|Hx%Hwx]%elem_of_app; [by apply Hw2|]. intros Hn. apply Hx, elem_of_union. by left.
    + apply NoDup_app. split; [apply Hs|]. split; [|done]. intros x Hx Hx'%Hrx. apply Hx'. by apply elem_of_list_to_set.
    + intros r [Hr|[->|[->|Hr]%elem_of_cons]%elem_of_cons]%elem_of_app; [by apply (si_sizes _ _ _ Hs)|done|done|].
      by apply not_elem_of_nil in Hr.
    + intros x Hx. apply elem_of_app. left. by apply (si_deleted _ _ _ Hs).
    + intros ks' x. rewrite (be_history _ _ _ _ _ _ _ _ _ He). change (keysNotUsed p1) with (keysNotUsed (sys_proxy s)).
      intros [Hk| ->%list_elem_of_singleton]%elem_of_app Hx; apply elem_of_app; [left|by right].
      by apply (si_history _ _ _ Hs ks').
    + split; [done|]. apply (si_counters _ _ _ Hs).
    + intros id kp. rewrite Hts. cbn. by rewrite lookup_empty.
    + intros id keys q. rewrite Hts. cbn. by rewrite lookup_empty.
    + intros q keys Hq. split; [by apply (si_asked _ _ _ Hs q keys)|]. right.
      by apply (batch_answers _ _ _ _ _ _ _ _ Hs Hcl Hg1 Hset).
  - exact (storage_pair_log _ _ _ _ _ _ _ _ Hget Hput).
  - exact (settled_empty _ _ (be_settled _ _ _ _ _ _ _ _ _ He)).
  - intros q Hq. pose proof (settled_others _ _ (be_settled _ _ _ _ _ _ _ _ _ He) q) as Hframe.
    assert (∀ id keys, RunningKeys.request_map (tsmap (sys_proxy s)) !! id ≠ Some (keys, Some q)) as Hnone
      by (intros id keys Hl%(si_waiting _ _ _ Hs); congruence).
    rewrite Hframe by (intros id keys [Hl _]%(cl_kept _ _ Hcl); by apply (Hnone id keys)). by apply (cl_frame _ _ Hcl).
Qed.

(** ** The clear thread *)

(** Names that were read are dead: deleting them changes no value. *)
Lemma clear_gathering truth wr rd ks (p : proxy) keys rest st :
  gathering conf key_ok truth wr rd ks p → (∀ x, x ∈ keys → x ∈ rd) →
  storage_ok st → contents st = remove_all keys (server p) →
  let p' := set_storage_interface_ st (set_keysNotUsed rest p) in
  gathering conf key_ok truth wr rd ks p' ∧ ∀ k v, value_of p k v ↔ value_of p' k v.
Proof.
  intros Hg Hdead Hok Hc p'. pose proof Hg as [G1 G2 G3 G4 G5 G6 G7 G8 G9 G10 G11 G12 G13 G14 G15 G16].
  assert (server p' = remove_all keys (server p)) as Hse by exact Hc.
  assert (∀ k f v, on_server p' k f v → on_server p k f v) as Hback.
  { intros k f v (c & Hs & Hv). exists c. split; [|done]. rewrite Hse, remove_all_lookup in Hs. by case_decide. }
  assert (∀ k f v, loc k f ∉ rd → on_server p k f v → on_server p' k f v) as Hforth.
  { intros k f v Hn (c & Hs & Hv). exists c. split; [|done]. rewrite Hse, remove_all_lookup.
    rewrite decide_False; [done|]. intros Hin. by apply Hn, Hdead. }
  assert (pinv key_ok wr rd p') as Hi'.
  { pose proof G1 as []. split; try done.
    - intros k f Hf Hcc. destruct (pi_stored _ _ _ _ G1 k f Hf Hcc) as (Hn & v & Hs & Hon). split; [done|]. exists v. auto.
    - intros k f Hf. destruct (pi_stored_fake _ _ _ _ G1 k f Hf) as (Hn & v & Hon). split; [done|]. exists v. auto.
    - etrans; [|exact (pi_server _ _ _ _ G1)]. intros x. rewrite !elem_of_dom, Hse, remove_all_lookup.
      case_decide; [by intros [??]|done]. }
  assert (∀ k v, value_of p k v ↔ value_of p' k v) as Hval.
  { intros k v. split.
    - intros [Hl|(Hn & f & Hf & Hon)]; [by left|right]. split; [done|]. exists f. split; [done|].
      apply Hforth; [|done]. by destruct (pi_stored _ _ _ _ G1 k f Hf Hn).
    - intros [Hl|(Hn & f & Hf & Hon)]; [by left|right]. split; [done|]. exists f. split; [done|]. by apply Hback. }
  split; [|done]. split; try done. intros k v Hv. by apply G15, Hval.
Qed.

Lemma clear_keeps n0 l s :
  sys_inv n0 l s → keysNotUsed (sys_proxy s) ≠ [] →
  ∃ p r, clearThread (sys_proxy s) = (Done (), p)
    ∧ sys_inv n0 (l ++ r) (after_clear p s) ∧ log p = log (sys_proxy s) ++ r.
Proof.
  intros Hs Hne. pose proof (si_gathering _ _ _ Hs) as Hg. set (p0 := sys_proxy s) in *.
  destruct (keysNotUsed p0) as [|keys rest] eqn:Hk; [done|].
  assert (∀ x, x ∈ keys → x ∈ read_names l) as Hdead.
  { intros x Hx. apply (si_history _ _ _ Hs keys); [|done]. fold p0. rewrite Hk. by left. }
  assert (∃ st r, clearThread p0 = (Done (), set_storage_interface_ st (set_keysNotUsed rest p0))
    ∧ storage_ok st ∧ contents st = remove_all keys (server p0) ∧ st.2 = log p0 ++ r
    ∧ written_names r = [] ∧ read_names r = [] ∧ (∀ x, x ∈ deleted_names r → x ∈ keys)
    ∧ ∀ q, q ∈ r → batch_sized (B conf) q) as (st & r & Hrun & Hok & Hc & Hlog & Hw & Hr & Hd & Hsz).
  { unfold clearThread. rewrite (mbind_run get _ p0 p0 p0 eq_refl), Hk.
    assert (modify (set_keysNotUsed rest) p0 = (Done (), set_keysNotUsed rest p0)) as H1 by done.
    rewrite (mbind_run _ _ _ _ _ H1). destruct (Nat.ltb_spec 0 (length keys)) as [Hl|Hl].
    - destruct (storage_delete_batch_ok (storage_interface_ p0) keys) as (st & Hdel & Hok & Hc);
        [apply (pi_storage _ _ _ _ (g_inv _ _ _ _ _ _ _ Hg))|].
      exists st, [DeleteBatch keys]. split; [by apply on_storage_run|]. split; [done|]. split; [done|].
      assert (st.2 = log p0 ++ [DeleteBatch keys]) as ->
        by (pose proof (logging_log [DeleteBatch keys] (storage_delete_batch keys) (storage_interface_ p0)) as Hx;
            change (logging _ _ _) with (storage_delete_batch keys (storage_interface_ p0)) in Hx; by rewrite Hdel in Hx).
      split; [done|]. cbn. rewrite app_nil_r. split_and!; [done..|].
      intros q ->%list_elem_of_singleton. exact I.
    - destruct keys; [|simpl in Hl; lia]. exists (storage_interface_ p0), []. split; [by destruct p0|].
      split; [apply (pi_storage _ _ _ _ (g_inv _ _ _ _ _ _ _ Hg))|]. rewrite app_nil_r. split_and!; try done.
      intros q Hq. by apply not_elem_of_nil in Hq. }
  destruct (clear_gathering _ _ _ _ p0 keys rest st Hg) as [Hg' _]; [|done|done|].
  { intros x Hx. by apply elem_of_list_to_set, Hdead. }
  exists (set_storage_interface_ st (set_keysNotUsed rest p0)), r. split; [done|]. split; [|exact Hlog].
  assert (written_names (l ++ r) = written_names l) as HW by (unfold written_names in *; by rewrite names_app, Hw, app_nil_r).
  assert (read_names (l ++ r) = read_names l) as HR by (unfold read_names in *; by rewrite names_app, Hr, app_nil_r).
  split; rewrite ?HW, ?HR; cbn [sys_proxy sys_gathered sys_truth sys_asked after_clear]; try apply Hs.
  - exact Hg'.
  - intros q [Hq|Hq]%elem_of_app; [by apply (si_sizes _ _ _ Hs)|by apply Hsz].
  - intros x. unfold deleted_names. rewrite names_app, elem_of_app.
    intros [Hx|Hx]; [by apply (si_deleted _ _ _ Hs)|by apply Hdead, Hd].
  - intros ks x Hks Hx. apply (si_history _ _ _ Hs ks); [|done]. fold p0. rewrite Hk. by right.
Qed.

(** ** The start and the steps *)

Lemma sys_inv_start kvs p0 p : sys_start kvs p0 p → sys_inv (dom (server p)) [] (started_system kvs p).
Proof.
  intros [Hdata Hst (Hts & Hdel & Hkn & Hclk) Hl [Hsz HF]].
  pose proof (Init.st_inv _ _ _ _ _ Hst) as Hi.
  assert (∀ k, k ∈ kvs.*1 ↔ is_Some (freqs p !! k)) as Hkeys.
  { intros k. split; [intros Hk; exists 0; by apply (Init.st_freqs _ _ _ _ _ Hst)|]. by intros [f [_ Hk]%(Init.st_freqs _ _ _ _ _ Hst)]. }
  assert (size (freqs p) = length kvs) as Hsize.
  { rewrite <- (length_fmap fst kvs), <- (size_list_to_set (C := gset string)) by apply Hdata. rewrite <- size_dom.
    f_equal. apply set_eq. intros k. by rewrite elem_of_dom, elem_of_list_to_set, Hkeys. }
  assert (∀ k v, value_of p k v → (list_to_map kvs : gmap string string) !! k = Some v) as Htruth.
  { intros k v Hv. apply (value_stored key_ok _ _ _ _ _ Hi) in Hv as Hk. apply Hkeys in Hk.
    apply list_elem_of_fmap in Hk as ([k' v'] & -> & Hk).
    rewrite <- (value_unique key_ok _ _ _ _ _ _ Hi (Init.st_values _ _ _ _ _ Hst _ _ Hk) Hv).
    apply elem_of_list_to_map_1; [apply Hdata|done]. }
  split; cbn [sys_proxy sys_gathered sys_truth sys_asked started_system nothing_gathered storage_batch]; try done.
  - replace (dom (server p) ∪ list_to_set (written_names [])) with (dom (server p)) by (cbn; set_solver).
    split; rewrite ?Hts, ?Hdel; try done.
    + constructor.
    + intros k Hk. by apply not_elem_of_nil in Hk.
    + intros k. unfold RunningKeys.is_present. rewrite Hts. cbn. rewrite !lookup_empty.
      split; [|by intros ?%not_elem_of_nil]. by rewrite !bool_decide_eq_false_2 by (by intros [??]).
    + lia.
    + pose proof (Init.st_fakes _ _ _ _ _ Hst). lia.
    + intros k Hk. by apply Init.fake_name_no_at, (Init.st_fake_names _ _ _ _ _ Hst).
    + destruct (runningKeys p) as [ts pr]. cbn in Hts. subst ts. split; cbn; intros *; rewrite ?lookup_empty; done.
    + intros _. by rewrite Hts.
    + intros x Hx. destruct (Init.st_names _ _ _ _ _ Hst x Hx) as (k & -> & Hk & Hin). exists k, 0. split; [done|].
      split; [by apply Init.zero_ok|]. destruct Hin as [Hin|]; [left|by right].
      apply list_elem_of_fmap in Hin as ([k' v] & -> & Hin). exists v. apply elem_of_list_to_map_1; [apply Hdata|done].
  - split; [constructor|]. intros x Hx. by apply not_elem_of_nil in Hx.
  - constructor.
  - intros r Hr. by apply not_elem_of_nil in Hr.
  - intros ks x. rewrite Hkn. by intros ?%not_elem_of_nil.
  - intros id kp. rewrite Hts. cbn. by rewrite lookup_empty.
  - intros id keys q. rewrite Hts. cbn. by rewrite lookup_empty.
Qed.

Lemma step_inv n0 l s s' :
  sys_inv n0 l s → sys_step s s' → ∃ r, sys_inv n0 (l ++ r) s' ∧ log (sys_proxy s') = log (sys_proxy s) ++ r.
Proof.
  intros Hs [item start finish q i g p Ha Hrun|item t v q i g p Ha Hrun|fuel p Ha Hrun|p Ha Hrun].
  - destruct (get_keeps n0 l s _ _ _ _ Hs Ha) as (i' & g' & p' & Hrun' & _ & Hs' & Hlog & _). rewrite Hrun in Hrun'.
    destruct (counters_fit g'); [|done]. injection Hrun' as <- <- <-. exists []. by rewrite !app_nil_r.
  - destruct (put_keeps n0 l s _ _ _ _ Hs Ha) as (i' & g' & p' & Hrun' & Hs' & Hlog & _). rewrite Hrun in Hrun'.
    injection Hrun' as <- <- <-. exists []. by rewrite !app_nil_r.
  - destruct (batch_keeps n0 l s fuel Hs Ha) as (p' & reads & writes & values & Hrun' & Hs' & Hlog & _).
    rewrite Hrun in Hrun'. injection Hrun' as <-. eexists. split; [exact Hs'|exact Hlog].
  - destruct (clear_keeps n0 l s Hs Ha) as (p' & r & Hrun' & Hs' & Hlog).
    rewrite Hrun in Hrun'. injection Hrun' as <-. exists r. split; [exact Hs'|exact Hlog].
Qed.

Lemma reachable_inv kvs p0 p s :
  sys_start kvs p0 p → reachable (started_system kvs p) s →
  ∃ l, sys_inv (dom (server p)) l s ∧ log (sys_proxy s) = log p ++ l.
Proof.
  intros Hst. induction 1 as [|s s' _ (l & Hs & Hl) Hstep].
  - exists []. split; [by apply (sys_inv_start _ p0)|by rewrite app_nil_r].
  - destruct (step_inv _ _ _ _ Hs Hstep) as (r & Hs' & Hl'). exists (l ++ r). split; [done|].
    by rewrite Hl', Hl, app_assoc.
Qed.

(** * Properties *)

(** C1: in every run, whatever is asked of the proxy and whenever the clear
    thread runs, what the server sees does not repeat a name: no name is read
    twice, no name is stored twice nor under a name that was there at the
    start, only stored names are read and only read names are deleted, and
    every batch reads exactly [B] names and stores exactly [B]. *)
Theorem server_names_used_once kvs p0 p s :
  sys_start kvs p0 p → reachable (started_system kvs p) s →
  ∃ l, log (sys_proxy s) = log p ++ l
    ∧ NoDup (read_names l) ∧ NoDup (written_names l) ∧ (∀ x, x ∈ written_names l → x ∉ dom (server p))
    ∧ (∀ x, x ∈ read_names l → x ∈ dom (server p) ∨ x ∈ written_names l)
    ∧ (∀ x, x ∈ deleted_names l → x ∈ read_names l)
    ∧ ∀ r, r ∈ l → batch_sized (B conf) r.
Proof.
  intros Hst Hr. destruct (reachable_inv _ _ _ _ Hst Hr) as (l & Hs & Hl). exists l. split; [done|].
  destruct (si_writes _ _ _ Hs) as [H1 H2]. split_and!; try done; try apply Hs.
  intros x Hx. pose proof (pi_read _ _ _ _ (g_inv _ _ _ _ _ _ _ (si_gathering _ _ _ Hs))) as Hsub.
  assert (x ∈ (list_to_set (read_names l) : gset string)) as Hx' by (by apply elem_of_list_to_set).
  apply Hsub, elem_of_union in Hx' as [?|Hx'%elem_of_list_to_set]; [by left|by right].
Qed.

(** C5: in every run, each stored bucket has exactly one value, in the cache
    or encrypted on the server under its current name, and this is the value
    that was put under the key. *)
Theorem buckets_keep_values kvs p0 p s k :
  sys_start kvs p0 p → reachable (started_system kvs p) s → is_Some (freqs (sys_proxy s) !! k) →
  ∃ v, sys_truth s !! k = Some v ∧ ∀ w, value_of (sys_proxy s) k w ↔ w = v.
Proof.
  intros Hst Hr Hk. destruct (reachable_inv _ _ _ _ Hst Hr) as (l & Hs & _). pose proof (si_gathering _ _ _ Hs) as Hg.
  destruct (value_exists key_ok _ _ _ _ (g_inv _ _ _ _ _ _ _ Hg) Hk) as [v Hv]. exists v.
  split; [by apply (g_truth _ _ _ _ _ _ _ Hg)|]. intros w. split; [|by intros ->].
  intros Hw. by apply (value_unique key_ok _ _ _ _ _ _ (g_inv _ _ _ _ _ _ _ Hg) Hw Hv).
Qed.

Lemma asked_are_answered kvs p0 p s fuel :
  sys_start kvs p0 p → reachable (started_system kvs p) s → batch_allowed fuel s →
  ∃ p', finish_round conf fuel (sys_gathered s) (sys_proxy s) = (Done (), p')
    ∧ ∀ q keys, sys_asked s !! q = Some keys →
        ∃ a, RunningKeys.answer_of keys (sys_truth s) = Done a
             ∧ RunningKeys.promises (runningKeys p') !! q = Some a.
Proof.
  intros Hst Hr Ha. destruct (reachable_inv _ _ _ _ Hst Hr) as (l & Hs & _).
  destruct (batch_keeps _ _ _ fuel Hs Ha) as (p' & reads & writes & values & Hrun & Hs' & _ & Hts & _).
  exists p'. split; [done|]. intros q keys Hq.
  destruct (si_asked _ _ _ Hs' q keys Hq) as [_ [[id Hl]|Hdone]]; [|done].
  cbn [sys_proxy after_batch] in Hl. rewrite Hts in Hl. cbn in Hl. by rewrite lookup_empty in Hl.
Qed.

(** C2: in every run, the next batch succeeds and then every GET that was ever
    registered has been answered with the sum of the values of the buckets it
    selected. *)
Theorem gets_are_answered kvs p0 p s fuel :
  sys_start kvs p0 p → reachable (started_system kvs p) s → batch_allowed fuel s →
  ∃ p', finish_round conf fuel (sys_gathered s) (sys_proxy s) = (Done (), p')
    ∧ ∀ q keys, sys_asked s !! q = Some keys →
        ∃ a, RunningKeys.answer_of keys (sys_truth s) = Done a
             ∧ RunningKeys.promises (runningKeys p') !! q = Some a.
Proof. apply asked_are_answered. Qed.

(** C8: in every run, no operation that is allowed gets stuck: a GET is
    registered as long as the counters of the consumer thread have room for it
    ([request_id] counts the GETs of the whole run and overflows after 2^31 - 1
    of them, which is undefined), a PUT is registered, a batch is executed to its
    end, and the clear thread deletes what it is given. *)
Theorem allowed_steps_run kvs p0 p s :
  sys_start kvs p0 p → reachable (started_system kvs p) s →
  (∀ item start finish q, get_allowed item start finish q s → get_counted item start finish s →
     ∃ i g p', serve {| op_key := range_key item start finish; op_value := "" |} (Some q)
                 (sys_gathered s) (sys_proxy s) = (Done (i, g), p'))
  ∧ (∀ item t v q, put_allowed item t v q s →
       ∃ i g p', serve {| op_key := Smoother.ts_key item t; op_value := v |} (Some q)
                   (sys_gathered s) (sys_proxy s) = (Done (i, g), p'))
  ∧ (∀ fuel, batch_allowed fuel s →
       ∃ p', finish_round conf fuel (sys_gathered s) (sys_proxy s) = (Done (), p'))
  ∧ (keysNotUsed (sys_proxy s) ≠ [] → ∃ p', clearThread (sys_proxy s) = (Done (), p')).
Proof.
  intros Hst Hr. destruct (reachable_inv _ _ _ _ Hst Hr) as (l & Hs & _). split_and!.
  - intros item start finish q Ha Hc. destruct (get_keeps _ _ _ _ _ _ _ Hs Ha) as (i & g & p' & Hrun & Hfit & _).
    rewrite (Hfit Hc) in Hrun. eauto.
  - intros item t v q Ha. destruct (put_keeps _ _ _ _ _ _ _ Hs Ha) as (i & g & p' & Hrun & _). eauto.
  - intros fuel Ha. destruct (batch_keeps _ _ _ _ Hs Ha) as (p' & reads & writes & values & Hrun & _). eauto.
  - intros Ha. destruct (clear_keeps _ _ _ Hs Ha) as (p' & r & Hrun & _). eauto.
Qed.

(** C7: in every run, a PUT of a new bucket is answered at once with its
    value and stores it; its item gives up its oldest bucket, at once if that
    one is cached, and otherwise with the next batch, for which it is marked;
    no other bucket changes its value. *)
Theorem put_displaces_oldest kvs p0 p s item t v q :
  sys_start kvs p0 p → reachable (started_system kvs p) s → put_allowed item t v q s →
  ∃ t0 i g p', serve {| op_key := Smoother.ts_key item t; op_value := v |} (Some q)
      (sys_gathered s) (sys_proxy s) = (Done (i, g), p')
    ∧ head (Smoother.times item (realBst (sys_proxy s))) = Some t0
    ∧ RunningKeys.promises (runningKeys p') !! q = Some v
    ∧ value_of p' (Smoother.ts_key item t) v
    ∧ (if decide (Smoother.ts_key item t0 ∈ cached (sys_proxy s)) then freqs p' !! Smoother.ts_key item t0 = None
       else Smoother.ts_key item t0 ∈ keys_to_be_deleted p' ∧ Smoother.ts_key item t0 ∈ op_key <$> storage_batch g)
    ∧ ∀ k w, k ≠ Smoother.ts_key item t0 → value_of (sys_proxy s) k w → value_of p' k w.
Proof.
  intros Hst Hr Ha. destruct (reachable_inv _ _ _ _ Hst Hr) as (l & Hs & _).
  destruct Ha as [[Hi Ht] Hold [Hok Htr] [Hsto Hv] Hnew]. pose proof (new_promise_waits _ _ _ _ Hs Hnew) as Hfresh.
  pose proof (si_gathering _ _ _ Hs) as Hg.
  destruct (serve_put_run conf key_ok prf_collision_free (sys_truth s) _ _ (sys_gathered s) item t v q (sys_proxy s)
    Hg Hi Ht Hold Hok Htr Hsto Hv (proj1 Hnew) Hfresh) as (t0 & g' & p' & Hrun & Hhd & Hturn & _ & _ & _ & Hg').
  set (oldest := Smoother.ts_key item t0) in *. set (k := Smoother.ts_key item t) in *.
  assert (is_Some (freqs (sys_proxy s) !! oldest)) as Hfo.
  { apply (times_stored item t0); [apply (pi_real _ _ _ _ (g_inv _ _ _ _ _ _ _ Hg))|].
    destruct (Smoother.times _ _); [done|]. injection Hhd as ->. by left. }
  assert (Smoother.canonical k) as Hcan by (by exists item, t).
  destruct (put_requests _ _ _ _ _ _ _ Hturn) as (_ & _ & _ & Hpr).
  exists t0, 1, g', p'. split; [done|]. split; [done|]. split; [rewrite Hpr; apply lookup_insert_eq|].
  split; [exact (put_value_new conf key_ok _ _ _ _ _ _ item t v oldest q Hg Hturn Hfo Htr Hcan)|]. split.
  - pose proof (put_delete _ _ _ _ _ _ _ Hturn) as Hdel. pose proof (put_freqs _ _ _ _ _ _ _ Hturn) as Hpf.
    change (Smoother.ts_key item t0) with oldest. destruct (decide (oldest ∈ cached (sys_proxy s))) as [Hc|Hc].
    + destruct (new_key_facts _ _ _ _ _ _ _ _ _ Hg Hfo Htr Hcan) as (_ & _ & _ & Hne).
      rewrite Hpf, lookup_insert_ne by done. apply lookup_delete_eq.
    + assert (oldest ∈ keys_to_be_deleted p') as Hin by (rewrite Hdel; apply elem_of_app; right; by left).
      split; [done|]. by apply (g_delete _ _ _ _ _ _ _ Hg').
  - intros x w Hx Hw. apply (put_value_kept conf key_ok _ _ _ _ _ _ item t v oldest q Hg Hturn Hfo Htr Hcan x w Hw).
    intros [-> _]. done.
Qed.

(** C6: in every run, a batch gives up the buckets that were marked, unmarks
    them, and keeps the value of every other bucket; it makes no bucket up. *)
Theorem batch_keeps_values kvs p0 p s fuel :
  sys_start kvs p0 p → reachable (started_system kvs p) s → batch_allowed fuel s →
  ∃ p', finish_round conf fuel (sys_gathered s) (sys_proxy s) = (Done (), p')
    ∧ keys_to_be_deleted p' = []
    ∧ (∀ k, is_Some (freqs p' !! k) ↔ is_Some (freqs (sys_proxy s) !! k) ∧ k ∉ keys_to_be_deleted (sys_proxy s))
    ∧ (∀ k v, k ∉ keys_to_be_deleted (sys_proxy s) → value_of (sys_proxy s) k v ↔ value_of p' k v).
Proof.
  intros Hst Hr Ha. destruct (reachable_inv _ _ _ _ Hst Hr) as (l & Hs & _).
  destruct (finish_round_run _ l s fuel Hs Ha) as (rk & p' & reads & writes & Hrun & Hg1 & He & Hg' & _).
  pose proof (g_inv _ _ _ _ _ _ _ Hg1) as Hi. pose proof (g_inv _ _ _ _ _ _ _ Hg') as Hi'.
  assert (∀ k v, k ∉ keys_to_be_deleted (sys_proxy s) → value_of (sys_proxy s) k v → value_of p' k v) as Hkeep.
  { intros k v Hk Hv. by destruct (be_values _ _ _ _ _ _ _ _ _ He k v Hv) as [?|[? _]]. }
  exists p'. split; [done|]. split; [|split].
  - destruct (keys_to_be_deleted p') as [|k ks] eqn:Hk; [done|].
    destruct (not_elem_of_nil k). apply (g_delete _ _ _ _ _ _ _ Hg'). rewrite Hk. by left.
  - intros k. split.
    + intros Hk. split; [by apply (be_keys _ _ _ _ _ _ _ _ _ He)|]. intros Hd.
      rewrite (be_deleted _ _ _ _ _ _ _ _ _ He k) in Hk; [by destruct Hk| |exact Hd].
      by apply (g_delete _ _ _ _ _ _ _ Hg1).
    + intros [Hk Hd]. destruct (value_exists key_ok _ _ _ _ Hi Hk) as [v Hv].
      apply (value_stored key_ok _ _ _ _ v Hi'). by apply Hkeep.
  - intros k v Hd. split; [by apply Hkeep|]. intros Hv. apply (value_stored key_ok _ _ _ _ _ Hi') in Hv as Hk.
    apply (be_keys _ _ _ _ _ _ _ _ _ He) in Hk. destruct (value_exists key_ok _ _ _ _ Hi Hk) as [w Hw].
    by rewrite (value_unique key_ok _ _ _ _ _ _ Hi' Hv (Hkeep _ _ Hd Hw)).
Qed.

End system.
End System.
