(* ===== verification/Server.v ===== *)
(** The start of the proxy server (server/src/proxy_server.cpp up to the end of
    [init]): the options of the command line, the parameters, and the data the
    proxy starts with.  The files are a function from their names to what is in
    them.  ServerMain goes on from here.

    Not modelled: the prints. *)
From S2P Require Import Prelude.
From S2P Require Import CxxString.
From S2P Require Import Config.
From S2P Require Import Getopt.
From S2P Require Import OrderedSet.
From S2P Require Import FrequencySmoother.
From S2P Require Import Cache.
From S2P Require Import EvictedItems.
From S2P Require Import Values.
From S2P Require Import KeyMaster.
From S2P Require Import RunningKeys.
From S2P Require Import Storage.
From S2P Require Import Encryption.
From S2P Require Import Proxy.
From S2P Require Import ProxyBatch.
From S2P Require Import BatchPhases.
From S2P Require Import BatchCorrect.
From S2P Require Import ProxyInit.
From S2P Require Import ProxyRegister.
From S2P Require Import ProxySystem.

Local Open Scope Z_scope.

Module Server.

(** The members of [waffle_proxy] that the server sets, and [testing] and
    [recording_alpha], which it passes to [init] *)
Record settings := {
  server_host_name_ : string;
  server_port_ : Z;
  security_batch_size_ : Z;
  p_threads_ : Z;
  output_location_ : string;
  trace_location_ : string;
  latency : bool;
  num_cores : Z;
  N : Z;
  object_size : Z;
  testing : bool;
  conf : config;
}.

(** As a new [waffle_proxy] has them *)
Definition new_settings : settings := {|
  server_host_name_ := "192.168.252.110"; server_port_ := 6379; security_batch_size_ := 3; p_threads_ := 20;
  output_location_ := "log"; trace_location_ := ""; latency := false; num_cores := 1; N := 100000;
  object_size := 1024; testing := false;
  conf := {| R := 50; B := 50; F := 25; D := 100000; cacheBatches := 50; redisBulkLength := 52870;
             object_size_ := 1024; recording_alpha := false |} |}.

Definition set_host (x : string) (s : settings) : settings :=
  {| server_host_name_ := x; server_port_ := server_port_ s; security_batch_size_ := security_batch_size_ s;
     p_threads_ := p_threads_ s; output_location_ := output_location_ s; trace_location_ := trace_location_ s;
     latency := latency s; num_cores := num_cores s; N := N s; object_size := object_size s; testing := testing s;
     conf := conf s |}.
Definition set_port (x : Z) (s : settings) : settings :=
  {| server_host_name_ := server_host_name_ s; server_port_ := x; security_batch_size_ := security_batch_size_ s;
     p_threads_ := p_threads_ s; output_location_ := output_location_ s; trace_location_ := trace_location_ s;
     latency := latency s; num_cores := num_cores s; N := N s; object_size := object_size s; testing := testing s;
     conf := conf s |}.
Definition set_testing (x : bool) (s : settings) : settings :=
  {| server_host_name_ := server_host_name_ s; server_port_ := server_port_ s;
     security_batch_size_ := security_batch_size_ s; p_threads_ := p_threads_ s;
     output_location_ := output_location_ s; trace_location_ := trace_location_ s; latency := latency s;
     num_cores := num_cores s; N := N s; object_size := object_size s; testing := x; conf := conf s |}.
Definition set_conf (x : config) (s : settings) : settings :=
  {| server_host_name_ := server_host_name_ s; server_port_ := server_port_ s;
     security_batch_size_ := security_batch_size_ s; p_threads_ := p_threads_ s;
     output_location_ := output_location_ s; trace_location_ := trace_location_ s; latency := latency s;
     num_cores := num_cores s; N := N s; object_size := object_size s; testing := testing s; conf := x |}.
Definition set_recording_alpha (x : bool) (s : settings) : settings :=
  let c := conf s in
  set_conf {| R := R c; B := B c; F := F c; D := D c; cacheBatches := cacheBatches c;
    redisBulkLength := redisBulkLength c; object_size_ := object_size_ c; recording_alpha := x |} s.

(** * The options *)

(** The option characters; one that a [:] follows takes an argument. *)
Definition optstring : string := "h:p:s:n:v:b:c:t:o:d:z:q:l:m:r:y:f:a:i:e:g".

(** The [switch] over the options *)
Fixpoint read_options (options : list (ascii * string)) (s : settings) : result settings :=
  match options with
  | [] => Done s
  | (o, optarg) :: options =>
      if decide (o = "h"%char) then read_options options (set_host optarg s)
      else if decide (o = "p"%char) then port ← atoi optarg; read_options options (set_port port s)
      else if decide (o = "e"%char) then read_options options (set_testing true s)
      else if decide (o = "g"%char) then read_options options (set_recording_alpha true s)
      else Stop (Exit (-1))
  end.

(** The parameters of the configuration; [object_size] is set, and not
    [object_size_], which the proxy uses. *)
Definition configure (s : settings) : settings := {|
  server_host_name_ := server_host_name_ s;
  server_port_ := server_port_ s;
  num_cores := 1;
  security_batch_size_ := waffleConfig.security_batch_size;
  p_threads_ := waffleConfig.p_threads;
  output_location_ := waffleConfig.output_location;
  trace_location_ := waffleConfig.trace_location;
  latency := waffleConfig.latency;
  N := waffleConfig.N;
  object_size := waffleConfig.object_size;
  testing := testing s;
  conf := {| R := waffleConfig.R; B := waffleConfig.B; F := waffleConfig.F; D := waffleConfig.D;
             cacheBatches := waffleConfig.cacheBatches; redisBulkLength := redisBulkLength (conf s);
             object_size_ := object_size_ (conf s); recording_alpha := recording_alpha (conf s) |}
|}.

(** * The data *)
Section data.
(** what is in a file that can be opened *)
Variable files : string → option string.
(** are assertions compiled in? *)
Variable assertions : bool.

(** The lines that [std::getline] reads; none if the file is not there *)
Definition file_contents (name : string) : string := default "" (files name).

(** The key and the value of a line [SET key value]; [find] returns [npos],
    and [npos + 1] is 0, when there is no space. *)
Definition read_line (line : string) : string * string :=
  let key := match find_char " " line with Some i => str_drop (S i) line | None => line end in
  match find_char " " key with
  | Some i => (str_take i key, str_drop (S i) key)
  | None => (key, "")
  end.

Fixpoint read_lines (lines : list string) : result (list string * list string) :=
  match lines with
  | [] => Done ([], [])
  | line :: lines =>
      let '(key, val) := read_line line in
      if assertions && (bool_decide (val = "") || bool_decide (key = "SET")) then Stop AssertFail
      else kvs ← read_lines lines; Done (key :: kvs.1, val :: kvs.2)
  end.

Definition getKeysValues (trace_location : string) : result (list string * list string) :=
  read_lines (getline_all "010" (file_contents trace_location)).

(** The [i]th bucket of an item: as long as [object_size], filled up with
    ['a'] *)
Definition initial_pair (object_size : Z) (item : string) (i : Z) : result (string * string) :=
  let key := item +:+ "@" +:+ to_string (1700000000 - i - 1) in
  value ← string_of_size (wrap_u64 (object_size - Z.of_nat (String.length key))) "a";
  Done (key, key +:+ value).

Fixpoint item_pairs (object_size : Z) (item : string) (numbers : list Z) : result (list (string * string)) :=
  match numbers with
  | [] => Done []
  | i :: numbers => kv ← initial_pair object_size item i; kvs ← item_pairs object_size item numbers; Done (kv :: kvs)
  end.

Fixpoint initial_data (object_size num_per_item : Z) (items : list string) : result (list (string * string)) :=
  match items with
  | [] => Done []
  | item :: items =>
      kvs ← item_pairs object_size item (seqZ 0 num_per_item);
      kvs' ← initial_data object_size num_per_item items;
      Done (kvs ++ kvs')
  end.

(** [keys] and [values] of [main] *)
Definition load (s : settings) : result (list string * list string) :=
  if decide (trace_location_ s = "") then
    let num_items := benchmarkConfig.no_items in
    let num_per_item := Z.quot (N s) num_items in
    let items := ItemIdGenerator.read_item_ids [] (file_contents "tracefiles/TS_ItemID_10000.txt") num_items in
    kvs ← initial_data (object_size s) num_per_item items;
    Done (kvs.*1, kvs.*2)
  else getKeysValues (trace_location_ s).

(** [main] until the proxy is initialised; it returns the settings *)
Definition start {St W} `{storage_interface St} `{crypter W} (fuel : nat) (args : list string)
    : M (@Proxy.waffle_proxy St W) settings :=
  s ← lift_result (read_options (getopt optstring args) new_settings);
  let s := configure s in
  kvs ← lift_result (load s);
  Init.init (conf s) fuel kvs.1 kvs.2 ;;
  mret s.

End data.

(** * What is loaded *)
Import ItemIdGenerator.

(** A line of a trace file *)
Lemma read_line_set key val : has_char " " key = false → read_line ("SET " +:+ key +:+ " " +:+ val) = (key, val).
Proof.
  intros Hk. unfold read_line. change ("SET " +:+ key +:+ " " +:+ val) with ("SET" +:+ String " " (key +:+ " " +:+ val)).
  rewrite find_char_app by done. rewrite (str_drop_app_S "SET").
  change (key +:+ " " +:+ val) with (key +:+ String " " val). rewrite find_char_app by done.
  by rewrite str_take_app, str_drop_app_S.
Qed.

(** The [i]th bucket of an item *)
Definition bucket (object_size : Z) (item : string) (i : Z) : string * string :=
  let key := Smoother.ts_key item (1700000000 - i - 1) in
  (key, key +:+ rep "a" (Z.to_nat (object_size - Z.of_nat (String.length key)))).
Definition buckets (object_size num_per_item : Z) (items : list string) : list (string * string) :=
  items ≫= λ item, bucket object_size item <$> seqZ 0 num_per_item.

(** The names that are made, and the numbers of their buckets *)
Definition made_item (item : string) : Prop := ∃ i, 0 ≤ i < 2^31 ∧ item_name i item.
Definition short (i : Z) : Prop := 0 ≤ i < 1700000000.

Lemma bucket_key_length item i :
  made_item item → short i → (String.length (Smoother.ts_key item (1700000000 - i - 1)) ≤ 162)%nat.
Proof.
  intros (j & Hj & Hid) Hi. pose proof (item_name_length _ _ Hid Hj).
  pose proof (to_string_length (1700000000 - i - 1) ltac:(unfold short in Hi; lia)).
  unfold Smoother.ts_key. rewrite !str_length_app. cbn [String.length]. lia.
Qed.

Lemma bucket_run os item i :
  made_item item → short i → 162 ≤ os < 2^31 → initial_pair os item i = Done (bucket os item i).
Proof.
  intros Hm Hi Hos. pose proof (bucket_key_length item i Hm Hi) as Hl. unfold initial_pair, bucket, Smoother.ts_key in *.
  set (key := item +:+ _) in *. unfold wrap_u64. rewrite Z.mod_small by lia.
  unfold string_of_size. by rewrite (proj2 (Z.leb_le _ _)) by lia.
Qed.

Lemma item_pairs_run os item numbers :
  made_item item → (∀ i, i ∈ numbers → short i) → 162 ≤ os < 2^31 →
  item_pairs os item numbers = Done (bucket os item <$> numbers).
Proof.
  intros Hm Hi Hos. induction numbers as [|i numbers IH]; [done|]. cbn [item_pairs].
  rewrite bucket_run by (done || (apply Hi; by left)). rewrite IH; [done|]. intros j Hj. apply Hi. by right.
Qed.

Lemma initial_data_run os n items :
  (∀ item, item ∈ items → made_item item) → n ≤ 1700000000 → 162 ≤ os < 2^31 →
  initial_data os n items = Done (buckets os n items).
Proof.
  intros Hm Hn Hos. induction items as [|item items IH]; [done|]. cbn [initial_data].
  rewrite item_pairs_run; [|apply Hm; by left| |done].
  - rewrite IH; [done|]. intros x Hx. apply Hm. by right.
  - intros i Hi%elem_of_seqZ. unfold short. lia.
Qed.

Lemma length_buckets os n items : Z.of_nat (length (buckets os n items)) = Z.of_nat (length items) * Z.max 0 n.
Proof.
  unfold buckets. induction items as [|item items IH]; [done|].
  rewrite bind_cons, length_app, length_fmap, length_seqZ, Nat2Z.inj_add, IH. simpl length. lia.
Qed.

Lemma elem_of_buckets os n items k v :
  (k, v) ∈ buckets os n items ↔ ∃ item i, item ∈ items ∧ 0 ≤ i < n ∧ (k, v) = bucket os item i.
Proof.
  unfold buckets. rewrite list_elem_of_bind. split.
  - intros (item & (i & Heq & Hi%elem_of_seqZ)%list_elem_of_fmap & Hit). exists item, i. split; [done|]. split; [lia|done].
  - intros (item & i & Hit & Hi & Heq). exists item. split; [|done]. rewrite Heq. apply list_elem_of_fmap_2, elem_of_seqZ. lia.
Qed.

Lemma buckets_keys os n items :
  (buckets os n items).*1 = items ≫= λ item, (λ i, Smoother.ts_key item (1700000000 - i - 1)) <$> seqZ 0 n.
Proof.
  unfold buckets. induction items as [|item items IH]; [done|].
  by rewrite !bind_cons, fmap_app, IH, <- list_fmap_compose.
Qed.

Lemma ts_key_in_buckets os n items item t :
  Smoother.ts_key item t ∈ (buckets os n items).*1 ↔ item ∈ items ∧ 1700000000 - n ≤ t < 1700000000.
Proof.
  rewrite buckets_keys, list_elem_of_bind. split.
  - intros (it & (i & [-> ->]%Smoother.ts_key_inj & Hi%elem_of_seqZ)%list_elem_of_fmap & Hit). split; [done|lia].
  - intros [Hit Ht]. exists item. split; [|done]. apply list_elem_of_fmap. exists (1700000000 - t - 1).
    split; [f_equal; lia|apply elem_of_seqZ; lia].
Qed.

Lemma buckets_NoDup os n items : NoDup items → NoDup (buckets os n items).*1.
Proof.
  intros Hnd. rewrite buckets_keys. apply NoDup_bind; [| |done].
  - intros x1 x2 k _ _ (i1 & -> & _)%list_elem_of_fmap (i2 & Heq & _)%list_elem_of_fmap.
    by apply Smoother.ts_key_inj in Heq as [? _].
  - intros item _. apply NoDup_fmap_2_strong; [|apply NoDup_seqZ].
    intros i j _ _ [_ Heq]%Smoother.ts_key_inj. lia.
Qed.

(** ** They are buckets that can be stored *)
Lemma bucket_value_length os item i :
  made_item item → short i → 162 ≤ os → Z.of_nat (String.length (bucket os item i).2) = os.
Proof.
  intros Hm Hi Hos. pose proof (bucket_key_length item i Hm Hi). unfold bucket. cbn [snd].
  rewrite str_length_app, rep_length. lia.
Qed.

Lemma bucket_value_all P os item i :
  made_item item → words_all P = true → (∀ a, is_digit a = true → P a = true) → str_all P "-_&@a" = true →
  str_all P (bucket os item i).2 = true.
Proof.
  intros (j & _ & Hid) Hw Hd Hm. cbn [str_all] in Hm. rewrite !andb_true_iff in Hm. destruct Hm as (H1 & H2 & H3 & H4 & H5 & _).
  unfold bucket, Smoother.ts_key. cbn [snd]. rewrite !str_all_app, to_string_all, str_all_rep by done.
  rewrite (item_name_all _ _ _ Hid) by (try done; cbn [str_all]; by rewrite H1, H2, H3).
  cbn [str_all]. by rewrite H4.
Qed.

Lemma bucket_no_nul os item i : made_item item → has_char nul (bucket os item i).2 = false.
Proof.
  intros Hm. apply negb_true_iff. rewrite <- str_all_no_char. apply bucket_value_all; [done|vm_compute; reflexivity| |vm_compute; reflexivity].
  intros a Ha. apply negb_true_iff, bool_decide_eq_false. by intros ->.
Qed.

Lemma bucket_text os item i : made_item item → str_all BinarySerializer.text (bucket os item i).2 = true.
Proof.
  intros Hm. apply bucket_value_all; [done|vm_compute; reflexivity| |vm_compute; reflexivity].
  intros a Ha. unfold is_digit, BinarySerializer.text in *. rewrite andb_true_iff, !Z.leb_le in Ha. apply N.ltb_lt. lia.
Qed.

Lemma bucket_canonical os item i : made_item item → short i → Smoother.canonical (bucket os item i).1.
Proof.
  intros (j & _ & Hid) Hi. exists item, (1700000000 - i - 1). split; [by eapply item_name_valid|]. split; [|done].
  unfold short, in_long, long_min, long_max in *. rewrite andb_true_iff, !Z.leb_le. lia.
Qed.

Lemma buckets_data_ok (key_ok : string → Prop) os n items :
  (∀ k, Smoother.canonical k → key_ok k) → NoDup items → (∀ item, item ∈ items → made_item item) →
  n ≤ 1700000000 → 162 ≤ os ≤ 4085 → Init.data_ok key_ok (buckets os n items).
Proof.
  intros Hok Hnd Hm Hn Hos. split; [by apply buckets_NoDup|].
  intros k v (item & i & Hit%Hm & Hi & Heq)%elem_of_buckets.
  assert (short i) as Hs by (unfold short; lia).
  pose proof (bucket_canonical os item i Hit Hs) as Hc. pose proof (bucket_no_nul os item i Hit) as Hnul.
  pose proof (bucket_value_length os item i Hit Hs ltac:(lia)) as Hl. rewrite <- Heq in *. cbn [fst snd] in *.
  split; [done|]. split; [by apply Hok|]. split; [done|]. lia.
Qed.

(** ** They are text *)

Import BinarySerializer.

(** The bytes of a bucket, and eight of its filling among them *)
Lemma bucket_bytes os item i :
  made_item item → short i → 200 ≤ os →
  ∃ pre n, bytes_of (bucket os item i).2 = pre ++ replicate 8 97 ++ replicate n 97 ∧ length pre = (4 * 41)%nat.
Proof.
  intros Hm Hi Hos. pose proof (bucket_key_length item i Hm Hi) as Hk. unfold bucket. cbn [snd]. set (key := Smoother.ts_key _ _) in *.
  exists (bytes_of (key +:+ rep "a" (164 - String.length key))), (Z.to_nat os - 172)%nat. split.
  - rewrite !bytes_of_app, !bytes_of_rep, <- !app_assoc, <- !replicate_add. do 2 f_equal. lia.
  - rewrite length_bytes_of, str_length_app, rep_length. lia.
Qed.

Lemma wrap32_words l : Forall (λ w, 0 ≤ w < 2^31) l → wrap32 <$> l = l.
Proof. induction 1 as [|w l Hw Hl IH]; [done|]. rewrite fmap_cons, IH, wrap32_in_range by lia. done. Qed.

(** Added up as [int]s, a bucket does not fit. *)
Lemma bucket_words os item i :
  made_item item → short i → 200 ≤ os → os `mod` 4 = 0 →
  let l := deserialize_int (bucket os item i).2 in Forall (λ z, 0 ≤ z) l ∧ 2^31 ≤ sum l.
Proof.
  intros Hm Hi Hos Hmod. pose proof (bucket_value_length os item i Hm Hi ltac:(lia)) as Hl.
  pose proof (words_of_text _ (bytes_of_text _ (bucket_text os item i Hm))) as Hw.
  destruct (bucket_bytes os item i Hm Hi Hos) as (pre & n & Hb & Hpre).
  pose proof (Z.div_mod os 4 ltac:(lia)). unfold deserialize_int. cbv zeta.
  rewrite (deserialize_words_aligned (Z.to_nat (os / 4))), wrap32_words by (done || lia).
  assert (Forall (λ z, 0 ≤ z) (words_of (bytes_of (bucket os item i).2))) as Hpos
    by (eapply Forall_impl; [exact Hw|]; simpl; lia).
  split; [done|]. rewrite Hb, (words_of_app 41), (words_of_app 2) in * by done.
  rewrite !sum_app. apply Forall_app in Hpos as [H1 [H2 H3]%Forall_app].
  apply sum_nonneg in H1, H3. change (sum (words_of (replicate 8 97))) with 3267543746. lia.
Qed.

Lemma buckets_lookup os n items k v :
  NoDup items → (k, v) ∈ buckets os n items → (list_to_map (buckets os n items) : gmap string string) !! k = Some v.
Proof. intros Hnd Hin. apply elem_of_list_to_map_1; [by apply buckets_NoDup|done]. Qed.

Lemma int_buckets_overflow os n items keys :
  NoDup items → (∀ item, item ∈ items → made_item item) → n ≤ 1700000000 → 200 ≤ os → os `mod` 4 = 0 →
  keys ≠ [] → (∀ k, k ∈ keys → k ∈ (buckets os n items).*1 ∧ DataType.get_data_type k = Done "int") →
  RunningKeys.answer_of keys (list_to_map (buckets os n items)) = Stop Undefined.
Proof.
  intros Hnd Hm Hn Hos Hmod Hne Hk. destruct keys as [|k keys]; [done|]. unfold RunningKeys.answer_of.
  rewrite (proj2 (Hk k ltac:(by left))). cbn [mbind result_bind]. rewrite decide_True by done.
  set (f := λ k, deserialize_int (default "" ((list_to_map (buckets os n items) : gmap string string) !! k))).
  assert (∀ k', k' ∈ k :: keys → Forall (λ z, 0 ≤ z) (f k') ∧ 2^31 ≤ sum (f k')) as Hf.
  { intros k' [([k0 v] & -> & Hin)%list_elem_of_fmap _]%Hk. unfold f. rewrite (buckets_lookup _ _ _ _ v) by done.
    apply elem_of_buckets in Hin as (item & i & Hit%Hm & Hi & Heq). cbn [default from_option].
    replace v with (bucket os item i).2 by (by rewrite <- Heq). apply bucket_words; [done|unfold short; lia|done|done]. }
  rewrite Sums.sum_ints_overflow; [done|lia| |].
  - apply Forall_bind, Forall_forall. intros k' Hk'. by apply Hf.
  - rewrite bind_cons, sum_app. destruct (Hf k) as [_ Hs]; [by left|]. enough (0 ≤ sum (keys ≫= f)) by (lia).
    apply sum_nonneg, Forall_bind, Forall_forall. intros k' Hk'. apply Hf. by right.
Qed.

(** * The parameters *)

(** The options do not change what the configuration leaves alone. *)
Lemma read_options_conf options s s' :
  read_options options s = Done s' →
  object_size_ (conf s') = object_size_ (conf s) ∧ redisBulkLength (conf s') = redisBulkLength (conf s).
Proof.
  revert s. induction options as [|[o optarg] options IH]; intros s; cbn [read_options]; [by intros [= ->]|].
  case_decide; [by intros ?%IH|]. case_decide; [destruct (atoi optarg) as [port|]; [by intros ?%IH|done]|].
  case_decide; [by intros ?%IH|]. case_decide; [by intros ?%IH|done].
Qed.

Lemma server_conf args s :
  read_options (getopt optstring args) new_settings = Done s →
  conf (configure s) = {| R := 800; B := 1200; F := 100; D := 100000; cacheBatches := 2; redisBulkLength := 52870;
    object_size_ := 1024; recording_alpha := recording_alpha (conf s) |}.
Proof. intros [Ho Hr]%read_options_conf. unfold configure. cbn. by rewrite Ho, Hr. Qed.

(** The file that generate_TS_ItemID itself writes is another one: with this
    file only, the server starts without data. *)
Lemma generated_file_is_not_read {G} `{RandomSpec G} assertions fuel (g : G) s :
  (Z.to_nat num_items ≤ fuel)%nat →
  ∃ name file g', generate_TS_ItemID fuel g = (Done (name, file), g')
    ∧ load (λ f, if decide (f = name) then Some file else None) assertions (configure s) = Done ([], []).
Proof.
  intros Hfuel. unfold generate_TS_ItemID.
  destruct (generate_go_run fuel num_items ∅ [] 0 0 0 g made_nothing) as (ids & g' & Hrun & _);
    [unfold num_items; lia|unfold num_items in *; lia|vm_compute; lia..|].
  fold (generate_item_ids fuel num_items) in Hrun. eexists _, _, g'. split; [by rewrite (mbind_run _ _ _ _ _ Hrun)|].
  unfold load. rewrite decide_True by done. unfold file_contents. rewrite decide_False by (vm_compute; discriminate). done.
Qed.

Section start.
Variable files : string → option string.
Variable assertions : bool.

(** The items of a file that generate_TS_ItemID has written *)
Lemma load_generated {G} `{RandomSpec G} n gfuel (g g' : G) ids s :
  0 ≤ n < 2^31 → (Z.to_nat n ≤ gfuel)%nat → generate_item_ids gfuel n g = (Done ids, g') →
  files "tracefiles/TS_ItemID_10000.txt" = Some (write_item_ids ids) →
  let items := take 1000 ids in let kvs := buckets 1024 100 items in
  load files assertions (configure s) = Done (kvs.*1, kvs.*2)
  ∧ NoDup items ∧ (∀ item, item ∈ items → made_item item) ∧ Z.of_nat (length items) = Z.min n 1000.
Proof.
  intros Hn Hfuel Hrun Hfile items kvs. pose proof (generate_item_ids_made n gfuel ids g g' Hn Hfuel Hrun) as Hm.
  assert (∀ item, item ∈ ids → made_item item) as Hids.
  { intros item (i & Hi & Hid)%(made_names _ _ _ Hm). exists i. split; [lia|done]. }
  assert (∀ item, item ∈ items → made_item item) as Hitems by (intros item Hin%elem_of_take_in; by apply Hids).
  split; [|split; [|split; [done|]]].
  - assert (file_contents files "tracefiles/TS_ItemID_10000.txt" = write_item_ids ids) as Hc
      by (unfold file_contents; by rewrite Hfile).
    unfold load. rewrite decide_True by done. rewrite Hc.
    change (Z.quot (N (configure s)) benchmarkConfig.no_items) with 100. change (object_size (configure s)) with 1024.
    rewrite read_written_ids by (intros id (i & _ & Hid)%Hids; by exists i).
    change (Z.to_nat benchmarkConfig.no_items) with 1000%nat. rewrite initial_data_run by (done || lia). done.
  - eapply sublist_NoDup; [apply (made_nodup _ _ _ Hm)|]. apply sublist_take.
  - unfold items. rewrite length_take. pose proof (made_length _ _ _ Hm). lia.
Qed.

Context {St W : Type} {sto : storage_interface St} {stoS : @StorageSpec St sto}
  {cry : crypter W} {cryS : @CrypterSpec W cry}.
Context {G : Type} `{RandomSpec G}.
Abbreviation proxy := (@Proxy.waffle_proxy (St * list request) W).

Context (key_ok : string → Prop).
Hypothesis prf_collision_free : Correct.collision_free key_ok.
Hypothesis fakes_ok : ∀ k, Init.fake_name k → key_ok k.
Hypothesis buckets_ok : ∀ k, Smoother.canonical k → key_ok k.

(** Nothing is registered yet. *)
Definition fresh (p : proxy) : Prop :=
  RunningKeys.tsmap (Proxy.runningKeys p) = RunningKeys.new_map
  ∧ Proxy.keys_to_be_deleted p = [] ∧ Proxy.keysNotUsed p = [].

(** The server starts: when its item file is one that generate_TS_ItemID
    has written with at least 12 names, and the options are accepted, the
    proxy is initialised with 100 buckets for each of the first 1000 items,
    and is in a state from which every run of the proxy has its properties
    ([sys_start]).  It ends: when every outcome of a random draw comes up
    within [K] draws, [K] turns for each of the keys to cache (two of the 100
    buckets of each item) or each fake key, whichever are more, are enough. *)
Lemma server_starts n gfuel (g g' : G) ids args s fuel (p0 : proxy) :
  12 ≤ n < 2^31 → (Z.to_nat n ≤ gfuel)%nat → generate_item_ids gfuel n g = (Done ids, g') →
  files "tracefiles/TS_ItemID_10000.txt" = Some (write_item_ids ids) →
  read_options (getopt optstring args) new_settings = Done s → Init.constructed p0 → fresh p0 →
  let kvs := buckets 1024 100 (take 1000 ids) in
  let run := start files assertions fuel args p0 in
  (run.1 = Stop OutOfFuel ∧ ∀ K, Init.fair_index (St := St * list request) (length kvs) K →
     Init.fair_fake (St := St * list request) (conf (configure s)) K →
     Z.of_nat fuel < Z.of_nat K * Z.max (2 * Z.min n 1000) (Proxy.D (conf (configure s))))
  ∨ ∃ p, run = (Done (configure s), p) ∧ System.sys_start (conf (configure s)) key_ok kvs p0 p
      ∧ Z.of_nat (length kvs) = 100 * Z.min n 1000.
Proof.
  intros Hn Hfuel Hgen Hfile Hopt Hcons (Hrk & Hdel & Hnu) kvs run.
  destruct (load_generated n gfuel g g' ids s ltac:(lia) Hfuel Hgen Hfile) as (Hload & Hnd & Hm & Hlen).
  fold kvs in Hload. pose proof (server_conf args s Hopt) as Hconf. set (c := conf (configure s)) in *.
  assert (Init.data_ok key_ok kvs) as Hdata by (apply buckets_data_ok; done || lia).
  assert (Z.of_nat (length kvs) = 100 * Z.min n 1000) as Hl by (unfold kvs; rewrite length_buckets, Hlen; lia).
  assert (run = (Init.init c fuel kvs.*1 kvs.*2 ;; mret (configure s)) p0) as ->.
  { unfold run, start, lift_result, mbind at 1, M_bind at 1. rewrite Hopt.
    unfold mbind at 1, M_bind at 1. rewrite Hload. reflexivity. }
  assert (Init.cacheCapacity c (length kvs) = 2 * Z.min n 1000) as Hcap.
  { unfold Init.cacheCapacity. rewrite Hconf, Hl. cbn [cacheBatches]. unfold wrap_u64. rewrite Z.mod_small by lia.
    symmetry. apply Z.div_unique_exact; lia. }
  destruct (Init.init_run c key_ok prf_collision_free fakes_ok fuel kvs p0 Hcons Hdata) as [[Hout Hlow]|(p & Hrun & Hst)];
    [by rewrite Hconf; cbn|by rewrite Hconf; cbn| |right].
  { left. split; [by apply mbind_stops|]. intros K Hi Hf. rewrite <- Hcap. apply (Hlow K Hi Hf). rewrite Hcap, Hl. lia. }
  exists p. split; [by rewrite (mbind_run _ _ _ _ _ Hrun)|]. split; [|done].
  destruct (Init.st_rest _ _ _ _ _ Hst) as (H1 & H2 & H3 & H4). pose proof (Init.st_lru _ _ _ _ _ Hst) as Hlru.
  rewrite Hcap in Hlru. split; [done|done| | |].
  - rewrite H1, H2, H3, H4. pose proof (Init.cons_clock _ Hcons). split; [done|]. split; [done|]. split; [done|]. lia.
  - lia.
  - rewrite Hconf. cbn [B F D]. lia.
Qed.

(** C31: the data the server starts with is text: a GET of buckets of an [int]
    item adds up words above 2^30 and overflows, which is undefined. *)
Theorem initial_int_buckets_overflow n gfuel (g g' : G) ids s keys :
  0 ≤ n < 2^31 → (Z.to_nat n ≤ gfuel)%nat → generate_item_ids gfuel n g = (Done ids, g') →
  files "tracefiles/TS_ItemID_10000.txt" = Some (write_item_ids ids) →
  let kvs := buckets 1024 100 (take 1000 ids) in
  keys ≠ [] → (∀ k, k ∈ keys → k ∈ kvs.*1 ∧ DataType.get_data_type k = Done "int") →
  load files assertions (configure s) = Done (kvs.*1, kvs.*2)
  ∧ RunningKeys.answer_of keys (list_to_map kvs) = Stop Undefined.
Proof.
  intros Hn Hfuel Hgen Hfile kvs Hne Hk.
  destruct (load_generated n gfuel g g' ids s Hn Hfuel Hgen Hfile) as (Hload & Hnd & Hm & _).
  split; [exact Hload|]. by apply int_buckets_overflow.
Qed.

(** C30: from an item file of [n] names that generate_TS_ItemID has written
    the server loads, without an error, 100 buckets for each of the first
    1000 names and nothing else: the keys are distinct and are those names
    with each of the time stamps 1699999900 to 1699999999.  Every key is of
    a data type the proxy can add up, and every value is [object_size] bytes
    long and begins with its own key. *)
Theorem initial_data_typed n gfuel (g g' : G) ids s :
  0 ≤ n < 2^31 → (Z.to_nat n ≤ gfuel)%nat → generate_item_ids gfuel n g = (Done ids, g') →
  files "tracefiles/TS_ItemID_10000.txt" = Some (write_item_ids ids) →
  ∃ keys values, load files assertions (configure s) = Done (keys, values)
  ∧ length values = length keys ∧ Z.of_nat (length keys) = 100 * Z.min n 1000 ∧ NoDup keys
  ∧ (∀ item t, Smoother.ts_key item t ∈ keys ↔ item ∈ take 1000 ids ∧ 1699999900 ≤ t < 1700000000)
  ∧ ∀ i k v, keys !! i = Some k → values !! i = Some v →
      Smoother.canonical k ∧ (∃ ty, ty ∈ data_types ∧ DataType.get_data_type k = Done ty)
      ∧ Z.of_nat (String.length v) = object_size (configure s) ∧ ∃ pad, v = k +:+ pad.
Proof.
  intros Hn Hfuel Hgen Hfile. destruct (load_generated n gfuel g g' ids s Hn Hfuel Hgen Hfile) as (Hload & Hnd & Hm & Hlen).
  eexists _, _. split; [exact Hload|]. rewrite !length_fmap, length_buckets, Hlen.
  split; [done|]. split; [lia|]. split; [by apply buckets_NoDup|]. split; [intros item t; apply ts_key_in_buckets|].
  intros j k v Hk Hv. rewrite list_lookup_fmap in Hk, Hv.
  destruct (buckets _ _ _ !! j) as [[k' v']|] eqn:Hj; [|done]. injection Hk as <-. injection Hv as <-.
  apply list_elem_of_lookup_2, elem_of_buckets in Hj as (item & i & Hit%Hm & Hi & Heq).
  assert (short i) as Hs by (unfold short; lia).
  pose proof (bucket_canonical 1024 item i Hit Hs) as Hc. pose proof (bucket_value_length 1024 item i Hit Hs ltac:(lia)) as Hl.
  rewrite <- Heq in Hc, Hl. cbn [fst snd] in *. split; [done|]. split; [|split; [done|]].
  - destruct Hit as (m & _ & Hid). destruct (item_name_type _ _ Hid) as (ty & Hty & Ht). exists ty. split; [done|].
    injection Heq as -> _. apply Ht.
  - injection Heq as -> ->. eexists. reflexivity.
Qed.

(** Only [-h], [-p], [-e] and [-g] are understood: with any other option
    the server exits before anything is started, whatever else is given.  The
    option string has seventeen more, and [usage] explains ten of them. *)
Theorem other_options_exit args fuel (p0 : proxy) o x :
  (∀ port, ("p"%char, port) ∈ getopt optstring args → ∃ z, atoi port = Done z) →
  (o, x) ∈ getopt optstring args → o ∉ ["h"; "p"; "e"; "g"]%char →
  start files assertions fuel args p0 = (Stop (Exit (-1)), p0).
Proof.
  intros Hports Hin Ho. unfold start, lift_result, mbind, M_bind.
  enough (∀ s, read_options (getopt optstring args) s = Stop (Exit (-1))) as -> by done.
  rewrite !not_elem_of_cons in Ho. destruct Ho as (Hh & Hp & He & Hg & _).
  induction (getopt optstring args) as [|[o' y] options IH]; intros s; [by apply not_elem_of_nil in Hin|]. cbn [read_options].
  assert (o' = "p"%char → ∃ z, atoi y = Done z) as Hy by (intros ->; apply Hports; by left).
  apply elem_of_cons in Hin as [[= <- <-]|Hin]; [by rewrite !decide_False|].
  assert (∀ s, read_options options s = Stop (Exit (-1))) as IH'
    by (apply IH; [intros port Hport; apply Hports; by right|done]).
  repeat case_decide; try apply IH'; [|done]. destruct Hy as [z ->]; [done|]. apply IH'.
Qed.

End start.
End Server.
