(* ===== verification/ProxyExample.v ===== *)
(** A concrete proxy: [init] on four buckets, a batch of two rounds with GETs
    and a PUT, and a turn of the clear thread, over the instances of Storage
    (one redis server) and Encryption (an engine and its copy, over a cipher
    that only pads).  The runs are evaluated, and the hypotheses of the
    theorems on the proxy are shown to hold in them. *)
From S2P Require Import Prelude.
From S2P Require Import CxxString.
From S2P Require Import OrderedSet.
From S2P Require Import FrequencySmoother.
From S2P Require Import Cache.
From S2P Require Import EvictedItems.
From S2P Require Import Values.
From S2P Require Import RunningKeys.
From S2P Require Import Storage.
From S2P Require Import Encryption.
From S2P Require Import Proxy.
From S2P Require Import ProxyBatch.
From S2P Require Import BatchPhases.
From S2P Require Import BatchCorrect.
From S2P Require Import ProxyInit.
From S2P Require Import ProxyRegister.
From S2P Require Import ProxySystem.

Local Open Scope Z_scope.

Module Example.
Import Redis Encryption EngineCrypter Proxy Batch Phases Correct Init Register System.

(** * The instances *)
#[local] Existing Instances plain_redis plain_redis_spec plain_random plain_ssl plain_ssl_spec.
#[local] Instance example_engine : crypter world := engine_crypter true 1.
#[local] Instance example_engine_spec : CrypterSpec world :=
  engine_crypter_spec true 1 (rep "0" 32) (rep "0" 16) (rep "0" 32).

Definition any_key (k : string) : Prop := True.

Lemma example_collision_free : collision_free any_key.
Proof. intros k1 f1 k2 f2 _ _ Heq. by apply str_app_inj_l in Heq. Qed.

(** * The start *)
Definition conf : config :=
  {| R := 3; B := 4; F := 1; D := 1; cacheBatches := 25; redisBulkLength := 2; object_size_ := 3;
     recording_alpha := true |}.
(** The same with more keys to be cached than there are *)
Definition greedy : config :=
  {| R := 3; B := 4; F := 1; D := 1; cacheBatches := 200; redisBulkLength := 2; object_size_ := 3;
     recording_alpha := true |}.

(** A bucket with one [int] *)
Definition one_int (n : Z) : string := BinarySerializer.serialize_int [16843008 + n].
Definition data : list (string * string) :=
  [("a&int&@1", one_int 1); ("a&int&@2", one_int 2); ("b&int&@1", one_int 3); ("b&int&@3", one_int 4)].

Definition p0 : waffle_proxy := {|
  realBst := Smoother.new_smoother true; fakeBst := Smoother.new_smoother true; cache := Cache.new_cache;
  EvictedItems := EvictedItems.new_evictedItems; runningKeys := {| RunningKeys.tsmap := RunningKeys.new_map;
  RunningKeys.promises := ∅ |}; keys_to_be_deleted := []; timeStamp := 0; keyValueMap := ∅;
  storage_interface_ := ([∅ : gmap string string] : redis, [] : list request); encryption_engine_ := example_world; keysNotUsed := [] |}.

Definition p1 : waffle_proxy := (init conf 20 data.*1 data.*2 p0).2.

Lemma init_done : (init conf 20 data.*1 data.*2 p0).1 = Done ().
Proof. vm_compute. reflexivity. Qed.

Lemma p0_constructed : constructed p0.
Proof.
  split; [reflexivity|reflexivity|reflexivity|vm_compute; split; [discriminate|reflexivity]| |].
  - split; [|reflexivity]. by exists ∅.
  - vm_compute. split; [reflexivity|]. eexists. split; reflexivity.
Qed.

Lemma data_is_ok : data_ok any_key data.
Proof.
  split.
  - apply (bool_decide_unpack _). vm_compute. reflexivity.
  - intros k v Hin.
    assert (∃ item t, Smoother.valid_item item = true ∧ in_long t = true ∧ k = Smoother.ts_key item t) as Hk.
    { repeat apply elem_of_cons in Hin as [[= -> ->]|Hin]; [exists "a&int&", 1|exists "a&int&", 2|exists "b&int&", 1|
        exists "b&int&", 3|by apply not_elem_of_nil in Hin]; by vm_compute. }
    split; [done|]. split; [done|].
    repeat apply elem_of_cons in Hin as [[= -> ->]|Hin]; [..|by apply not_elem_of_nil in Hin];
      (split; [vm_compute; reflexivity|vm_compute; discriminate]).
Qed.

Lemma example_start : sys_start conf any_key data p0 p1.
Proof.
  destruct (init_run conf any_key example_collision_free (λ _ _, I) 20 data p0 p0_constructed data_is_ok)
    as [[Hout _]|(p & Hrun & Hst)]; [split; vm_compute; discriminate|vm_compute; discriminate| |].
  { pose proof init_done as Hd. rewrite Hout in Hd. discriminate. }
  assert (p1 = p) as Heq by (unfold p1; by rewrite Hrun). rewrite Heq.
  split; [exact data_is_ok|exact Hst| |rewrite <- Heq; vm_compute; lia|rewrite <- Heq; vm_compute; split; discriminate].
  destruct (st_rest _ _ _ _ _ Hst) as (-> & -> & -> & ->). split; [reflexivity|]. split; [reflexivity|].
  split; [reflexivity|]. vm_compute. discriminate.
Qed.

(** ** The draws *)

(** The generator of the example counts: four draws in a row give every
    index of the four buckets. *)
Lemma redraw_counts k (p : @waffle_proxy (redis * list request) world) :
  ∃ p', redraw draw_rand k p = (Done (Z.of_nat (rand_calls (encryption_engine_ p) + k)), p').
Proof.
  revert p. induction k as [|k IH]; intros p; cbn [redraw].
  - rewrite Nat.add_0_r. by eexists.
  - assert (draw_rand p = (Done (Z.of_nat (rand_calls (encryption_engine_ p))),
      set_encryption_engine_ (rand (encryption_engine_ p)).2 p)) as Hd by reflexivity.
    rewrite (mbind_run _ _ _ _ _ Hd). destruct (IH (set_encryption_engine_ (rand (encryption_engine_ p)).2 p)) as [p' Hp].
    exists p'. rewrite Hp. do 2 f_equal. cbn. lia.
Qed.

Lemma counting_is_fair : fair_index (St := redis * list request) (length data) 4.
Proof.
  intros p i _ Hi. change (length data) with 4%nat in *. set (x := Z.of_nat (rand_calls (encryption_engine_ p))).
  exists (Z.to_nat ((Z.of_nat i - x) mod 4)). pose proof (Z.mod_pos_bound (Z.of_nat i - x) 4 ltac:(lia)) as Hb.
  destruct (redraw_counts (Z.to_nat ((Z.of_nat i - x) mod 4)) p) as [p' Hp]. eexists _, p'.
  split; [lia|]. split; [exact Hp|]. rewrite Nat2Z.inj_add, Z2Nat.id by lia. fold x.
  change (Z.of_nat 4) with 4. rewrite Z.add_mod_idemp_r by lia. replace (x + (Z.of_nat i - x)) with (Z.of_nat i) by lia.
  rewrite Z.mod_small by lia. lia.
Qed.

Lemma one_fake_is_fair : fair_fake (St := redis * list request) conf 4.
Proof.
  intros p temp Ho Hsz. change (D conf) with 1 in Hsz. destruct (draw_fake_run p Ho) as (s & e & Hs & _).
  exists 0%nat, s, (set_encryption_engine_ e p). split; [lia|]. split; [exact Hs|].
  assert (temp = ∅) as -> by (apply leibniz_equiv, size_empty_inv; lia). apply not_elem_of_empty.
Qed.

(** 20 turns are more than [init] needs. *)
Lemma not_starved : ¬ starved (St := redis * list request) conf 20 (length data).
Proof.
  intros Hs. specialize (Hs 4%nat counting_is_fair one_fake_is_fair). vm_compute in Hs.
  assert (Gt = Lt → False) as Hn by discriminate. apply Hn. apply Hs. discriminate.
Qed.

(** * Steps *)
Abbreviation system := (@system redis world).
Definition s1 : system := started_system data p1.

Definition do_get (item : string) (start finish : Z) (q : RunningKeys.promise) (s : system) : system :=
  match serve {| op_key := range_key item start finish; op_value := "" |} (Some q) (sys_gathered s) (sys_proxy s) with
  | (Done (_, g), p) => after_get item start finish q g p s
  | _ => s
  end.
Definition do_put (item : string) (t : Z) (v : string) (q : RunningKeys.promise) (s : system) : system :=
  match serve {| op_key := Smoother.ts_key item t; op_value := v |} (Some q) (sys_gathered s) (sys_proxy s) with
  | (Done (_, g), p) => after_put item t v g p s
  | _ => s
  end.
Definition do_batch (fuel : nat) (s : system) : system :=
  match finish_round conf fuel (sys_gathered s) (sys_proxy s) with (Done _, p) => after_batch p s | _ => s end.
Definition do_clear (s : system) : system :=
  match clearThread (sys_proxy s) with (Done _, p) => after_clear p s | _ => s end.

Abbreviation reached := (reachable conf any_key s1).

Lemma reach_get item start finish q s :
  reached s → get_allowed item start finish q s → reached (do_get item start finish q s).
Proof.
  intros Hr Ha. unfold do_get. destruct (serve _ _ _ _) as [[[i g]|] p] eqn:Hrun; [|done].
  eapply reach_step; [done|]. by eapply step_get.
Qed.

Lemma reach_put item t v q s : reached s → put_allowed any_key item t v q s → reached (do_put item t v q s).
Proof.
  intros Hr Ha. unfold do_put. destruct (serve _ _ _ _) as [[[i g]|] p] eqn:Hrun; [|done].
  eapply reach_step; [done|]. by eapply step_put.
Qed.

Lemma reach_batch fuel s : reached s → batch_allowed conf fuel s → reached (do_batch fuel s).
Proof.
  intros Hr Ha. unfold do_batch. destruct (finish_round _ _ _ _) as [[[]|] p] eqn:Hrun; [|done].
  eapply reach_step; [done|]. by eapply step_batch.
Qed.

Lemma reach_clear s : reached s → keysNotUsed (sys_proxy s) ≠ [] → reached (do_clear s).
Proof.
  intros Hr Ha. unfold do_clear. destruct (clearThread _) as [[[]|] p] eqn:Hrun; [|done].
  eapply reach_step; [done|]. by eapply step_clear.
Qed.

(** A round with a GET of two buckets and a PUT, a round with a GET of the
    buckets left of the other item, and a turn of the clear thread. *)
Definition s2 := do_get "a&int&" 1 2 0%nat s1.
Definition s3 := do_put "b&int&" 5 (one_int 9) 1%nat s2.
Definition s4 := do_batch 1 s3.
Definition s5 := do_get "b&int&" 0 9 2%nat s4.
Definition s6 := do_batch 1 s5.
Definition s7 := do_clear s6.

Lemma allowed_1 : get_allowed "a&int&" 1 2 0%nat s1.
Proof.
  split; [reflexivity|split; reflexivity|split; vm_compute; reflexivity|].
  right. eexists. vm_compute. reflexivity.
Qed.

Lemma allowed_2 : put_allowed any_key "b&int&" 5 (one_int 9) 1%nat s2.
Proof.
  split; [split; reflexivity|vm_compute; discriminate|split; [exact I|vm_compute; reflexivity]| |split; vm_compute; reflexivity].
  split; [split; [vm_compute; reflexivity|vm_compute; discriminate]|vm_compute; discriminate].
Qed.

Lemma allowed_3 : batch_allowed conf 1 s3.
Proof. split; vm_compute; repeat split; (discriminate || lia). Qed.

Lemma allowed_4 : get_allowed "b&int&" 0 9 2%nat s4.
Proof.
  split; [reflexivity|split; reflexivity|split; vm_compute; reflexivity|].
  right. eexists. vm_compute. reflexivity.
Qed.

Lemma allowed_5 : batch_allowed conf 1 s5.
Proof. split; vm_compute; repeat split; (discriminate || lia). Qed.

Lemma reached_2 : reached s2.
Proof. apply reach_get; [apply reach_start|exact allowed_1]. Qed.
Lemma reached_3 : reached s3.
Proof. apply reach_put; [exact reached_2|exact allowed_2]. Qed.
Lemma reached_7 : reached s7.
Proof.
  apply reach_clear; [|vm_compute; discriminate]. apply reach_batch; [|exact allowed_5].
  apply reach_get; [|exact allowed_4]. apply reach_batch; [exact reached_3|exact allowed_3].
Qed.

(** The answers of the three operations: the sum of the two buckets, the value
    put, and the sum of the buckets [b&int&@3] and [b&int&@5]. *)
Example answers :
  RunningKeys.promises (runningKeys (sys_proxy s7)) !! 0%nat = Some "33686019"
  ∧ RunningKeys.promises (runningKeys (sys_proxy s7)) !! 1%nat = Some (one_int 9)
  ∧ RunningKeys.promises (runningKeys (sys_proxy s7)) !! 2%nat = Some "33686029".
Proof. vm_compute. done. Qed.

(** * The hypotheses hold *)

Lemma server_names_used_once_witness :
  ∃ l, (storage_interface_ (sys_proxy s7)).2 = (storage_interface_ p1).2 ++ l
    ∧ NoDup (read_names l) ∧ NoDup (written_names l).
Proof.
  destruct (server_names_used_once conf any_key example_collision_free data p0 p1 s7 example_start reached_7)
    as (l & Hl & Hr & Hw & _). exists l. split; [exact Hl|split; [exact Hr|exact Hw]].
Defined.

Lemma buckets_keep_values_witness :
  value_of (sys_proxy s7) "b&int&@5" (one_int 9) ∧ ¬ value_of (sys_proxy s7) "b&int&@5" (one_int 4).
Proof.
  destruct (buckets_keep_values conf any_key example_collision_free data p0 p1 s7 "b&int&@5" example_start reached_7)
    as (v & Ht & Hv); [eexists; vm_compute; reflexivity|].
  assert (v = one_int 9) as -> by (vm_compute in Ht; by injection Ht).
  split; [by apply Hv|]. intros H4%Hv. vm_compute in H4. discriminate.
Defined.

Lemma gets_are_answered_witness :
  ∃ p', finish_round conf 1 (sys_gathered s3) (sys_proxy s3) = (Done (), p')
    ∧ RunningKeys.promises (runningKeys p') !! 0%nat = Some "33686019".
Proof.
  destruct (gets_are_answered conf any_key example_collision_free data p0 p1 s3 1 example_start reached_3 allowed_3)
    as (p' & Hrun & Ha). exists p'. split; [exact Hrun|].
  destruct (Ha 0%nat ["a&int&@1"; "a&int&@2"]) as (a & Hans & Hp); [vm_compute; reflexivity|].
  rewrite Hp. f_equal. vm_compute in Hans. by injection Hans.
Defined.

Lemma allowed_steps_run_witness :
  ∃ i g p', serve {| op_key := range_key "a&int&" 1 2; op_value := "" |} (Some 0%nat) (sys_gathered s1) (sys_proxy s1)
            = (Done (i, g), p').
Proof.
  destruct (allowed_steps_run conf any_key example_collision_free data p0 p1 s1 example_start (reach_start _ _ _))
    as [Hget _]. refine (Hget "a&int&" 1 2 0%nat allowed_1 _). split; vm_compute; reflexivity.
Defined.

Lemma put_displaces_oldest_witness :
  ∃ p', (∃ i g, serve {| op_key := "b&int&@5"; op_value := one_int 9 |} (Some 1%nat)
                  (sys_gathered s2) (sys_proxy s2) = (Done (i, g), p'))
    ∧ RunningKeys.promises (runningKeys p') !! 1%nat = Some (one_int 9)
    ∧ value_of p' "b&int&@5" (one_int 9).
Proof.
  destruct (put_displaces_oldest conf any_key example_collision_free data p0 p1 s2 "b&int&" 5 (one_int 9) 1%nat
    example_start reached_2 allowed_2) as (t0 & i & g & p' & Hrun & _ & Hp & Hv & _).
  exists p'. split; [exists i, g; exact Hrun|split; [exact Hp|exact Hv]].
Defined.

Lemma batch_keeps_values_witness :
  ∃ p', finish_round conf 1 (sys_gathered s3) (sys_proxy s3) = (Done (), p')
    ∧ freqs p' !! "b&int&@1" = None.
Proof.
  destruct (batch_keeps_values conf any_key example_collision_free data p0 p1 s3 1 example_start reached_3 allowed_3)
    as (p' & Hrun & _ & Hk & _). exists p'. split; [exact Hrun|].
  apply eq_None_not_Some. intros [_ Hn]%Hk. apply Hn. vm_compute. by left.
Defined.

Lemma init_starts_witness :
  (init conf 20 data.*1 data.*2 p0).1 = Done ()
  ∧ ∀ v, value_of p1 "b&int&@3" v ↔ ("b&int&@3", v) ∈ data.
Proof.
  destruct (init_starts conf any_key example_collision_free (λ _ _, I) 20 data p0 p0_constructed data_is_ok)
    as [[_ Hlow]|(p & Hrun & _ & _ & Hv & _)]; [split; vm_compute; discriminate|vm_compute; discriminate| |].
  { destruct (not_starved Hlow). }
  split; [by rewrite Hrun|]. assert (p1 = p) as Heq by (unfold p1; by rewrite Hrun). rewrite Heq. intros v. apply Hv. right. right. right. by left.
Defined.

Lemma init_spins_witness : (init greedy 1000 data.*1 data.*2 p0).1 = Stop OutOfFuel.
Proof.
  apply (init_spins greedy any_key example_collision_free (λ _ _, I) 1000 data p0 p0_constructed data_is_ok);
    [split; vm_compute; discriminate|vm_compute; discriminate|vm_compute; reflexivity].
Defined.

Lemma p1_real_ok : real_ok p1.
Proof. exact (pi_real _ _ _ _ (st_inv _ _ _ _ _ (start_started _ _ _ _ _ example_start))). Qed.

(** A GET from 2 to 2 gets [b&int&@1] and not [b&int&@3]. *)
Lemma get_split_keys_selects_witness :
  ∃ ts p', get_split_keys (range_key "b&int&" 2 2) p1 = (Done (Smoother.ts_key "b&int&" <$> ts), p')
    ∧ 1 ∈ ts ∧ 3 ∉ ts.
Proof.
  destruct (get_split_keys_selects "b&int&" 2 2 p1 p1_real_ok) as (ts & p' & Hrun & _ & _ & Hts);
    [reflexivity|reflexivity|reflexivity|]. exists ts, p'. split; [exact Hrun|]. split.
  - apply Hts; [reflexivity|]. split; [eexists; vm_compute; reflexivity|]. split; [lia|].
    intros u Hu Hin Hlt. apply Z.lt_le_pred in Hlt. exact Hlt.
  - intros H3. apply Hts in H3 as (_ & Hle & _); [lia|reflexivity].
Defined.

Lemma put_of_new_item_undefined_witness :
  (serve {| op_key := "c&int&@1"; op_value := one_int 1 |} (Some 0%nat) (nothing_gathered 0) p1).1 = Stop Undefined.
Proof.
  apply (put_of_new_item_undefined "c&int&" 1 (one_int 1) (Some 0%nat) (nothing_gathered 0) p1);
    [reflexivity|reflexivity|vm_compute; discriminate|vm_compute; reflexivity].
Defined.

(** The only fake key of [p1] is running. *)
Definition p1_busy : waffle_proxy :=
  set_runningKeys (RunningKeys.insertIfNotPresent "fakeHIJKLMNOPQR" (runningKeys p1)).2 p1.

Lemma fake_loop_spins_witness :
  (read_fakes conf 1000 0 {| storage_keys := []; readBatchMap := ∅ |} p1_busy).1 = Stop OutOfFuel.
Proof.
  apply (fake_loop_spins conf 1000 0 _ "fakeHIJKLMNOPQR" 0 [] p1_busy);
    [vm_compute; reflexivity|vm_compute; reflexivity|vm_compute; reflexivity].
Defined.

End Example.
