(* ===== verification/ServerExample.v ===== *)
(** What the proxy server loads from files made with the counting generator of
    KeyMaster, over the instances of ProxyExample, and with the command lines
    of the documentation and of start_proxy.sh. *)
From S2P Require Import Prelude.
From S2P Require Import CxxString.
From S2P Require Import Config.
From S2P Require Import Getopt.
From S2P Require Import OrderedSet.
From S2P Require Import FrequencySmoother.
From S2P Require Import Cache.
From S2P Require Import EvictedItems.
From S2P Require Import Values.
From S2P Require Import KeyMaster.
From S2P Require Import RunningKeys.
From S2P Require Import Storage.
From S2P Require Import Encryption.
From S2P Require Import Proxy.
From S2P Require Import ProxyBatch.
From S2P Require Import BatchPhases.
From S2P Require Import BatchCorrect.
From S2P Require Import ProxyInit.
From S2P Require Import ProxyRegister.
From S2P Require Import ProxySystem.
From S2P Require Import Server.
From S2P Require Import ProxyExample.

Local Open Scope Z_scope.

Module ServerExample.
Import Redis Encryption EngineCrypter Server ItemIdGenerator Example.

#[local] Existing Instances plain_redis plain_redis_spec plain_random plain_ssl plain_ssl_spec.
#[local] Existing Instances example_engine example_engine_spec.

(** * The files *)
Definition ids : list string :=
  match generate_item_ids 12 12 0 with (Done ids, _) => ids | _ => [] end.
Definition files (name : string) : option string :=
  if decide (name = "tracefiles/TS_ItemID_10000.txt") then Some (write_item_ids ids) else None.

Lemma ids_made : ∃ g', generate_item_ids 12 12 0 = (Done ids, g').
Proof. eexists. vm_compute. reflexivity. Qed.

(** * The command lines *)

(** Of ReadMe.md *)
Definition readme_args : list string := ["-h"; "localhost"; "-p"; "6379"].
(** Of start_proxy.sh *)
Definition script_args : list string :=
  ["-y"; "-a"; "1"; "-t"; "1"; "-b"; "120"; "-r"; "80"; "-f"; "10"; "-d"; "1000"; "-n"; "1000"; "-i"; "1000"; "-c"; "65";
   "-s"; "1024"; "-h"; "localhost"; "-p"; "6379"].

Example script_options :
  getopt optstring script_args
  = zip (String.list_ascii_of_string "ytbrfdnicshp")
      ["-a"; "1"; "120"; "80"; "10"; "1000"; "1000"; "1000"; "65"; "1024"; "localhost"; "6379"].
Proof. vm_compute. reflexivity. Qed.

Example clustered_options : getopt optstring ["-gh"; "host"; "other"; "-p80"; "--"; "-e"] 
  = zip (String.list_ascii_of_string "ghp") [""; "host"; "80"].
Proof. vm_compute. reflexivity. Qed.

Definition readme_settings : settings := set_port 6379 (set_host "localhost" new_settings).

Lemma readme_accepted : read_options (getopt optstring readme_args) new_settings = Done readme_settings.
Proof. vm_compute. reflexivity. Qed.

(** * The hypotheses hold *)
Lemma initial_int_buckets_overflow_witness :
  RunningKeys.answer_of ["CPU_TEMP_1_102&int&@1699999999"] (list_to_map (buckets 1024 100 (take 1000 ids))) = Stop Undefined.
Proof.
  destruct ids_made as [g' Hids].
  apply (initial_int_buckets_overflow files true 12 12 0 g' ids new_settings ["CPU_TEMP_1_102&int&@1699999999"]);
    [lia|vm_compute; lia|exact Hids|reflexivity|discriminate|].
  intros k ->%list_elem_of_singleton. split; [|vm_compute; reflexivity].
  rewrite buckets_keys. apply list_elem_of_bind. exists "CPU_TEMP_1_102&int&". split.
  - apply list_elem_of_fmap. exists 0. split; [vm_compute; reflexivity|]. apply elem_of_seqZ. lia.
  - apply (list_elem_of_lookup_2 _ 1). vm_compute. reflexivity.
Defined.

Lemma initial_data_typed_witness :
  ∃ keys values, load files true (configure new_settings) = Done (keys, values)
  ∧ length values = length keys ∧ Z.of_nat (length keys) = 1200 ∧ NoDup keys
  ∧ (∀ item t, Smoother.ts_key item t ∈ keys ↔ item ∈ take 1000 ids ∧ 1699999900 ≤ t < 1700000000)
  ∧ ∀ i k v, keys !! i = Some k → values !! i = Some v →
      Smoother.canonical k ∧ (∃ ty, ty ∈ data_types ∧ DataType.get_data_type k = Done ty)
      ∧ Z.of_nat (String.length v) = 1024 ∧ ∃ pad, v = k +:+ pad.
Proof.
  destruct ids_made as [g' Hids].
  apply (initial_data_typed files true 12 12 0 g' ids new_settings); [lia|vm_compute; lia|exact Hids|reflexivity].
Defined.

Lemma other_options_exit_witness : start files true 1000 script_args p0 = (Stop (Exit (-1)), p0).
Proof.
  apply (other_options_exit files true script_args 1000 p0 "y"%char "-a").
  - intros port. rewrite script_options. intros Hin. exists 6379. vm_compute in Hin.
    repeat apply elem_of_cons in Hin as [Heq|Hin]; try discriminate Heq; [|by apply not_elem_of_nil in Hin].
    injection Heq as ->. reflexivity.
  - rewrite script_options. by left.
  - apply (bool_decide_unpack _). vm_compute. exact I.
Defined.

End ServerExample.
