(* ===== verification/Thrift.v ===== *)
(** The messages of the proxy service: [sequence_id] (service/src/proxy_types.cpp)
    and the shape that the argument and result structs of
    service/src/waffle_thrift.cpp and waffle_thrift_response.cpp share: a
    table of fields, which [write] writes in order and [read] reads in any
    order, skipping what it does not know.

    The protocol (TBinaryProtocol over a framed transport) is a parameter:
    [TProtocol] lists its methods, [TProtocolSpec] what is relied on, as a
    stream of tokens in each direction.  The numbers of bytes that the methods
    return are summed in the sources and never used; they are not modelled,
    nor are the recursion trackers.  The names of fields and structs are
    passed to the protocol, but a reader does not look at them. *)
From S2P Require Import Prelude.

Local Open Scope Z_scope.

Inductive TType := T_STOP | T_I32 | T_I64 | T_STRING | T_STRUCT | T_LIST | T_OTHER (code : Z).
Inductive TMessageType := T_CALL | T_REPLY | T_EXCEPTION | T_ONEWAY.

#[export] Instance TType_eq_dec : EqDecision TType.
Proof. solve_decision. Defined.
#[export] Instance TMessageType_eq_dec : EqDecision TMessageType.
Proof. solve_decision. Defined.

(** The kinds of [TProtocolException] and [TApplicationException] in use *)
Definition INVALID_DATA : Z := 1.
Definition UNKNOWN : Z := 0.
Definition UNKNOWN_METHOD : Z := 1.
Definition MISSING_RESULT : Z := 5.

(** * The protocol *)
Class TProtocol (P : Type) := {
  writeMessageBegin : string → TMessageType → Z → M P ();
  writeMessageEnd : M P ();
  writeStructBegin : string → M P ();
  writeStructEnd : M P ();
  writeFieldBegin : string → TType → Z → M P ();
  writeFieldEnd : M P ();
  writeFieldStop : M P ();
  writeListBegin : TType → Z → M P ();
  writeListEnd : M P ();
  writeI32 : Z → M P ();
  writeI64 : Z → M P ();
  writeString : string → M P ();
  (** [TApplicationException::write] *)
  writeException : Z → string → M P ();
  (** [getTransport()->writeEnd()] and [flush()] *)
  writeEnd : M P ();
  flush : M P ();
  readMessageBegin : M P (string * TMessageType * Z);
  readMessageEnd : M P ();
  readStructBegin : M P ();
  readStructEnd : M P ();
  readFieldBegin : M P (TType * Z);
  readFieldEnd : M P ();
  readListBegin : M P (TType * Z);
  readListEnd : M P ();
  readI32 : M P Z;
  readI64 : M P Z;
  readString : M P string;
  readException : M P (Z * string);
  readEnd : M P ();
  skip : TType → M P ();
}.

(** What is on the wire *)
Inductive token :=
  | MessageBegin (name : string) (type : TMessageType) (seqid : Z)
  | MessageEnd
  | StructBegin | StructEnd
  | FieldBegin (type : TType) (id : Z) | FieldEnd | FieldStop
  | ListBegin (type : TType) (size : Z) | ListEnd
  | I32 (z : Z) | I64 (z : Z) | Str (s : string)
  | Exn (type : Z) (message : string)
  | Opaque (code : Z).

(** A value, as it is on the wire.  [VOther] stands for a value of one of the
    types that the service does not use. *)
Inductive value :=
  | VI32 (z : Z)
  | VI64 (z : Z)
  | VString (s : string)
  | VList (type : TType) (vs : list value)
  | VStruct (fields : list (Z * value))
  | VOther (code : Z).

Definition type_of (v : value) : TType :=
  match v with
  | VI32 _ => T_I32
  | VI64 _ => T_I64
  | VString _ => T_STRING
  | VList _ _ => T_LIST
  | VStruct _ => T_STRUCT
  | VOther code => T_OTHER code
  end.

Fixpoint tokens (v : value) : list token :=
  match v with
  | VI32 z => [I32 z]
  | VI64 z => [I64 z]
  | VString s => [Str s]
  | VList t vs => ListBegin t (Z.of_nat (length vs)) :: (vs ≫= tokens) ++ [ListEnd]
  | VStruct fs => StructBegin :: (fs ≫= λ f, FieldBegin (type_of f.2) f.1 :: tokens f.2 ++ [FieldEnd])
                  ++ [FieldStop; StructEnd]
  | VOther code => [Opaque code]
  end.

(** The tokens of a field *)
Definition field_tokens (f : Z * value) : list token := FieldBegin (type_of f.2) f.1 :: tokens f.2 ++ [FieldEnd].

Class TProtocolSpec (P : Type) `{TProtocol P} := {
  (** what is still to be read, and what was written *)
  incoming : P → list token;
  outgoing : P → list token;
  writes (m : M P ()) (ts : list token) : Prop :=
    ∀ p, ∃ p', m p = (Done (), p') ∧ outgoing p' = outgoing p ++ ts ∧ incoming p' = incoming p;
  reads {A} (m : M P A) (ts : list token) (a : A) : Prop :=
    ∀ p r, incoming p = ts ++ r → ∃ p', m p = (Done a, p') ∧ incoming p' = r ∧ outgoing p' = outgoing p;
  writeMessageBegin_ok name t id : in_int id = true → writes (writeMessageBegin name t id) [MessageBegin name t id];
  writeMessageEnd_ok : writes writeMessageEnd [MessageEnd];
  writeStructBegin_ok name : writes (writeStructBegin name) [StructBegin];
  writeStructEnd_ok : writes writeStructEnd [StructEnd];
  writeFieldBegin_ok name t id : - 2^15 ≤ id < 2^15 → writes (writeFieldBegin name t id) [FieldBegin t id];
  writeFieldEnd_ok : writes writeFieldEnd [FieldEnd];
  writeFieldStop_ok : writes writeFieldStop [FieldStop];
  writeListBegin_ok t n : 0 ≤ n < 2^31 → writes (writeListBegin t n) [ListBegin t n];
  writeListEnd_ok : writes writeListEnd [ListEnd];
  writeI32_ok z : in_int z = true → writes (writeI32 z) [I32 z];
  writeI64_ok z : in_long z = true → writes (writeI64 z) [I64 z];
  writeString_ok s : Z.of_nat (String.length s) < 2^31 → writes (writeString s) [Str s];
  writeException_ok t s : in_int t = true → Z.of_nat (String.length s) < 2^31 → writes (writeException t s) [Exn t s];
  writeEnd_ok : writes writeEnd [];
  flush_ok : writes flush [];
  readMessageBegin_ok name t id : reads readMessageBegin [MessageBegin name t id] (name, t, id);
  readMessageEnd_ok : reads readMessageEnd [MessageEnd] ();
  readStructBegin_ok : reads readStructBegin [StructBegin] ();
  readStructEnd_ok : reads readStructEnd [StructEnd] ();
  readFieldBegin_ok t id : reads readFieldBegin [FieldBegin t id] (t, id);
  (** the stop of a struct is read as a field of type [T_STOP] *)
  readFieldStop_ok : reads readFieldBegin [FieldStop] (T_STOP, 0);
  readFieldEnd_ok : reads readFieldEnd [FieldEnd] ();
  readListBegin_ok t n : reads readListBegin [ListBegin t n] (t, n);
  readListEnd_ok : reads readListEnd [ListEnd] ();
  readI32_ok z : reads readI32 [I32 z] z;
  readI64_ok z : reads readI64 [I64 z] z;
  readString_ok s : reads readString [Str s] s;
  readException_ok t s : reads readException [Exn t s] (t, s);
  readEnd_ok : reads readEnd [] ();
  skip_ok v : reads (skip (type_of v)) (tokens v) ();
}.

Create HintDb thrift.
#[export] Hint Resolve writeMessageBegin_ok writeMessageEnd_ok writeStructBegin_ok writeStructEnd_ok
  writeFieldBegin_ok writeFieldEnd_ok writeFieldStop_ok writeListBegin_ok writeListEnd_ok writeI32_ok writeI64_ok
  writeString_ok writeException_ok writeEnd_ok flush_ok : thrift.
#[export] Hint Resolve readMessageBegin_ok readMessageEnd_ok readStructBegin_ok readStructEnd_ok readFieldBegin_ok
  readFieldEnd_ok readListBegin_ok readListEnd_ok readI32_ok readI64_ok readString_ok readException_ok readEnd_ok
  skip_ok : thrift.

Module Thrift.
(** * Structs *)

Record sequence_id := { client_id : Z; client_seq_no : Z; server_seq_no : Z }.
Definition new_sequence_id : sequence_id := {| client_id := 0; client_seq_no := 0; server_seq_no := 0 |}.
#[export] Instance sequence_id_eq_dec : EqDecision sequence_id.
Proof. solve_decision. Defined.

Definition set_client_id (val : Z) (this : sequence_id) : sequence_id :=
  {| client_id := val; client_seq_no := client_seq_no this; server_seq_no := server_seq_no this |}.
Definition set_client_seq_no (val : Z) (this : sequence_id) : sequence_id :=
  {| client_id := client_id this; client_seq_no := val; server_seq_no := server_seq_no this |}.
Definition set_server_seq_no (val : Z) (this : sequence_id) : sequence_id :=
  {| client_id := client_id this; client_seq_no := client_seq_no this; server_seq_no := val |}.

(** The types of the fields *)
Inductive ty := ty_i32 | ty_i64 | ty_string | ty_strings | ty_sequence_id.
Definition ttype (t : ty) : TType :=
  match t with ty_i32 => T_I32 | ty_i64 => T_I64 | ty_string => T_STRING | ty_strings => T_LIST | ty_sequence_id => T_STRUCT end.
Definition tval (t : ty) : Type :=
  match t with
  | ty_i32 | ty_i64 => Z
  | ty_string => string
  | ty_strings => list string
  | ty_sequence_id => sequence_id
  end.
Definition default_value (t : ty) : tval t :=
  match t with
  | ty_i32 | ty_i64 => 0
  | ty_string => ""
  | ty_strings => []
  | ty_sequence_id => new_sequence_id
  end.

Record field := { f_name : string; f_id : Z; f_ty : ty }.
Record struct_def := { s_name : string; s_fields : list field }.

(** The values of the fields, and the fields with their [__isset] flags *)
Fixpoint values (fs : list field) : Type :=
  match fs with [] => () | f :: fs => (tval (f_ty f) * values fs)%type end.
Fixpoint struct (fs : list field) : Type :=
  match fs with [] => () | f :: fs => ((bool * tval (f_ty f)) * struct fs)%type end.

Fixpoint new_struct (fs : list field) : struct fs :=
  match fs with [] => () | f :: fs => ((false, default_value (f_ty f)), new_struct fs) end.
Fixpoint with_all_set (fs : list field) : values fs → struct fs :=
  match fs with [] => λ v, v | f :: fs => λ v, ((true, v.1), with_all_set fs v.2) end.
Fixpoint fields_of (fs : list field) : struct fs → values fs :=
  match fs with [] => λ s, s | f :: fs => λ s, (s.1.2, fields_of fs s.2) end.

Section coder.
Context {P : Type} `{TProtocol P}.
(** The fuel of the loops over the fields of a message: one for each field of
    the message and one for the stop. *)
Variable fuel : nat.

(** [while (true) { readFieldBegin; if (ftype == T_STOP) break; ... }] *)
Fixpoint read_loop {A} (read_field : Z → TType → A → M P A) (fuel : nat) (this : A) : M P A :=
  match fuel with
  | O => fail OutOfFuel
  | S fuel =>
      tf ← readFieldBegin;
      if decide (tf.1 = T_STOP) then mret this
      else
        this ← read_field tf.2 tf.1 this;
        readFieldEnd ;;
        read_loop read_field fuel this
  end.

Definition read_struct {A} (read_field : Z → TType → A → M P A) (this : A) : M P A :=
  readStructBegin ;;
  this ← read_loop read_field fuel this;
  readStructEnd ;;
  mret this.

(** [sequence_id::read]: all fields are required. *)
Definition sequence_id_field (fid : Z) (ftype : TType) (this : sequence_id * (bool * bool * bool))
    : M P (sequence_id * (bool * bool * bool)) :=
  let '(seq, (isset_client_id, isset_client_seq_no, isset_server_seq_no)) := this in
  if decide (fid = 1) then
    if decide (ftype = T_I64) then
      v ← readI64; mret (set_client_id v seq, (true, isset_client_seq_no, isset_server_seq_no))
    else skip ftype ;; mret this
  else if decide (fid = 2) then
    if decide (ftype = T_I64) then
      v ← readI64; mret (set_client_seq_no v seq, (isset_client_id, true, isset_server_seq_no))
    else skip ftype ;; mret this
  else if decide (fid = 3) then
    if decide (ftype = T_I64) then
      v ← readI64; mret (set_server_seq_no v seq, (isset_client_id, isset_client_seq_no, true))
    else skip ftype ;; mret this
  else skip ftype ;; mret this.

Definition sequence_id_read (this : sequence_id) : M P sequence_id :=
  r ← read_struct sequence_id_field (this, (false, false, false));
  let '(seq, (isset_client_id, isset_client_seq_no, isset_server_seq_no)) := r in
  if negb isset_client_id then fail (Throw (TProtocolException INVALID_DATA))
  else if negb isset_client_seq_no then fail (Throw (TProtocolException INVALID_DATA))
  else if negb isset_server_seq_no then fail (Throw (TProtocolException INVALID_DATA))
  else mret seq.

Definition sequence_id_write (this : sequence_id) : M P () :=
  writeStructBegin "sequence_id" ;;
  writeFieldBegin "client_id" T_I64 1 ;; writeI64 (client_id this) ;; writeFieldEnd ;;
  writeFieldBegin "client_seq_no" T_I64 2 ;; writeI64 (client_seq_no this) ;; writeFieldEnd ;;
  writeFieldBegin "server_seq_no" T_I64 3 ;; writeI64 (server_seq_no this) ;; writeFieldEnd ;;
  writeFieldStop ;;
  writeStructEnd.

(** The strings of a list; the type of the elements is not looked at. *)
Fixpoint read_strings (n : nat) : M P (list string) :=
  match n with
  | O => mret []
  | S n => s ← readString; l ← read_strings n; mret (s :: l)
  end.

Definition read_value (t : ty) : tval t → M P (tval t) :=
  match t with
  | ty_i32 => λ _, readI32
  | ty_i64 => λ _, readI64
  | ty_string => λ _, readString
  | ty_strings => λ _,
      ts ← readListBegin;
      l ← read_strings (Z.to_nat ts.2);
      readListEnd ;;
      mret l
  | ty_sequence_id => sequence_id_read
  end.

Definition write_value (t : ty) : tval t → M P () :=
  match t with
  | ty_i32 => writeI32
  | ty_i64 => writeI64
  | ty_string => writeString
  | ty_strings => λ l,
      writeListBegin T_STRING (wrap_u32 (Z.of_nat (length l))) ;;
      for_each l writeString ;;
      writeListEnd
  | ty_sequence_id => sequence_id_write
  end.

(** [switch (fid)] *)
Fixpoint read_field (fs : list field) (fid : Z) (ftype : TType) : struct fs → M P (struct fs) :=
  match fs with
  | [] => λ this, skip ftype ;; mret this
  | f :: fs => λ this,
      if decide (fid = f_id f) then
        if decide (ftype = ttype (f_ty f)) then
          v ← read_value (f_ty f) this.1.2;
          mret ((true, v), this.2)
        else skip ftype ;; mret this
      else rest ← read_field fs fid ftype this.2; mret (this.1, rest)
  end.

(** [read] of the argument and result structs, into an object [this] *)
Definition read_into (d : struct_def) (this : struct (s_fields d)) : M P (struct (s_fields d)) :=
  read_struct (read_field (s_fields d)) this.
Definition read (d : struct_def) : M P (struct (s_fields d)) := read_into d (new_struct (s_fields d)).

Definition write_field (f : field) (v : tval (f_ty f)) : M P () :=
  writeFieldBegin (f_name f) (ttype (f_ty f)) (f_id f) ;;
  write_value (f_ty f) v ;;
  writeFieldEnd.

(** [write] of the argument structs: every field is written. *)
Fixpoint write_fields (fs : list field) : values fs → M P () :=
  match fs with
  | [] => λ _, mret ()
  | f :: fs => λ this, write_field f this.1 ;; write_fields fs this.2
  end.
Definition write_args (d : struct_def) (this : values (s_fields d)) : M P () :=
  writeStructBegin (s_name d) ;;
  write_fields (s_fields d) this ;;
  writeFieldStop ;;
  writeStructEnd.

(** [write] of the result structs: a field is written if it is set. *)
Fixpoint write_set_fields (fs : list field) : struct fs → M P () :=
  match fs with
  | [] => λ _, mret ()
  | f :: fs => λ this, (if this.1.1 : bool then write_field f this.1.2 else mret ()) ;; write_set_fields fs this.2
  end.
Definition write_result (d : struct_def) (this : struct (s_fields d)) : M P () :=
  writeStructBegin (s_name d) ;;
  write_set_fields (s_fields d) this ;;
  writeFieldStop ;;
  writeStructEnd.

End coder.

(** * What a message means *)

(** What a value means as a value of type [t], if anything *)
Definition decode_string (v : value) : option string := match v with VString s => Some s | _ => None end.

(** The effect of the fields of a message, in order *)
Fixpoint fold_fields {A} (step : Z * value → A → option A) (l : list (Z * value)) (this : A) : option A :=
  match l with [] => Some this | f :: l => step f this ≫= fold_fields step l end.

Definition sequence_id_step (this : sequence_id * (bool * bool * bool)) (f : Z * value)
    : sequence_id * (bool * bool * bool) :=
  match f.2 with
  | VI64 z =>
      let '(seq, (b1, b2, b3)) := this in
      if decide (f.1 = 1) then (set_client_id z seq, (true, b2, b3))
      else if decide (f.1 = 2) then (set_client_seq_no z seq, (b1, true, b3))
      else if decide (f.1 = 3) then (set_server_seq_no z seq, (b1, b2, true))
      else this
  | _ => this
  end.
Definition decode_sequence_id (old : sequence_id) (l : list (Z * value)) : option sequence_id :=
  match fold_left sequence_id_step l (old, (false, false, false)) with
  | (seq, (true, true, true)) => Some seq
  | _ => None
  end.

Definition decode (t : ty) : tval t → value → option (tval t) :=
  match t with
  | ty_i32 => λ _ v, match v with VI32 z => Some z | _ => None end
  | ty_i64 => λ _ v, match v with VI64 z => Some z | _ => None end
  | ty_string => λ _ v, decode_string v
  | ty_strings => λ _ v, match v with VList _ vs => mapM decode_string vs | _ => None end
  | ty_sequence_id => λ old v, match v with VStruct l => decode_sequence_id old l | _ => None end
  end.

(** The effect of a field of a message: unknown fields and fields of another
    type than expected are ignored; [None] if the value makes no sense. *)
Fixpoint apply_field (fs : list field) (f : Z * value) : struct fs → option (struct fs) :=
  match fs with
  | [] => λ this, Some this
  | g :: fs => λ this,
      if decide (f.1 = f_id g) then
        if decide (type_of f.2 = ttype (f_ty g)) then
          (λ v, ((true, v), this.2)) <$> decode (f_ty g) this.1.2 f.2
        else Some this
      else (λ rest, (this.1, rest)) <$> apply_field fs f this.2
  end.
Definition apply_fields (fs : list field) : list (Z * value) → struct fs → option (struct fs) :=
  fold_fields (apply_field fs).

(** The value that stands for a field *)
Definition encode (t : ty) : tval t → value :=
  match t with
  | ty_i32 => VI32
  | ty_i64 => VI64
  | ty_string => VString
  | ty_strings => λ l, VList T_STRING (VString <$> l)
  | ty_sequence_id => λ seq, VStruct [(1, VI64 (client_id seq)); (2, VI64 (client_seq_no seq)); (3, VI64 (server_seq_no seq))]
  end.
Fixpoint encode_fields (fs : list field) : values fs → list (Z * value) :=
  match fs with
  | [] => λ _, []
  | f :: fs => λ this, (f_id f, encode (f_ty f) this.1) :: encode_fields fs this.2
  end.
Fixpoint encode_set_fields (fs : list field) : struct fs → list (Z * value) :=
  match fs with
  | [] => λ _, []
  | f :: fs => λ this, (if this.1.1 : bool then [(f_id f, encode (f_ty f) this.1.2)] else []) ++ encode_set_fields fs this.2
  end.

(** Values that fit their C++ types and the protocol *)
Definition string_ok (s : string) : Prop := Z.of_nat (String.length s) < 2^31.
Definition value_ok (t : ty) : tval t → Prop :=
  match t with
  | ty_i32 => λ z, in_int z = true
  | ty_i64 => λ z, in_long z = true
  | ty_string => string_ok
  | ty_strings => λ l, Z.of_nat (length l) < 2^31 ∧ Forall string_ok l
  | ty_sequence_id => λ seq, in_long (client_id seq) = true ∧ in_long (client_seq_no seq) = true ∧ in_long (server_seq_no seq) = true
  end.
Fixpoint values_ok (fs : list field) : values fs → Prop :=
  match fs with [] => λ _, True | f :: fs => λ this, value_ok (f_ty f) this.1 ∧ values_ok fs this.2 end.
Fixpoint set_ok (fs : list field) : struct fs → Prop :=
  match fs with
  | [] => λ _, True
  | f :: fs => λ this, (this.1.1 = true → value_ok (f_ty f) this.1.2) ∧ set_ok fs this.2
  end.
Definition struct_ok (fs : list field) : Prop := NoDup (f_id <$> fs) ∧ Forall (λ f, - 2^15 ≤ f_id f < 2^15) fs.

(** The loops of a reader need as much fuel as the message has fields. *)
Definition fuel_ok (fuel : nat) (l : list (Z * value)) : Prop :=
  (length l < fuel)%nat ∧ ∀ f, f ∈ l → match f.2 with VStruct inner => (length inner < fuel)%nat | _ => True end.

(** * Triples *)
Section triples.
Context {P : Type} `{TProtocolSpec P}.

Lemma writes_ret : writes (mret ()) [].
Proof. intros p. exists p. by rewrite app_nil_r. Qed.

Lemma writes_bind (m m' : M P ()) ts ts' : writes m ts → writes m' ts' → writes (m ;; m') (ts ++ ts').
Proof.
  intros Hm Hm' p. destruct (Hm p) as (p1 & H1 & Ho1 & Hi1). destruct (Hm' p1) as (p2 & H2 & Ho2 & Hi2).
  exists p2. rewrite (mbind_run _ _ _ _ _ H1). split; [done|]. rewrite Ho2, Ho1, Hi2, app_assoc. done.
Qed.

(** A step of a writer *)
Lemma writes_cons (m m' : M P ()) x ts : writes m [x] → writes m' ts → writes (m ;; m') (x :: ts).
Proof. apply (writes_bind m m' [x]). Qed.

Lemma reads_ret {A} (a : A) : reads (mret a) [] a.
Proof. intros p r Hp. by exists p. Qed.

Lemma reads_bind {A B} (m : M P A) (k : A → M P B) ts ts' a b :
  reads m ts a → reads (k a) ts' b → reads (m ≫= k) (ts ++ ts') b.
Proof.
  intros Hm Hk p r Hp. rewrite <- app_assoc in Hp. destruct (Hm _ _ Hp) as (p1 & H1 & Hi1 & Ho1).
  destruct (Hk _ _ Hi1) as (p2 & H2 & Hi2 & Ho2). exists p2. rewrite (mbind_run _ _ _ _ _ H1). split; [done|].
  split; [done|]. by rewrite Ho2.
Qed.

Lemma reads_cons {A B} (m : M P A) (k : A → M P B) x ts a b :
  reads m [x] a → reads (k a) ts b → reads (m ≫= k) (x :: ts) b.
Proof. apply (reads_bind m k [x]). Qed.

Lemma reads_skip {A B} (a : A) (k : A → M P B) ts b : reads (k a) ts b → reads (mret a ≫= k) ts b.
Proof. done. Qed.

(** The last read of a function *)
Lemma reads_last {A B} (m : M P A) (k : A → M P B) ts a b :
  reads m ts a → reads (k a) [] b → reads (m ≫= k) ts b.
Proof. intros Hm Hk. rewrite <- (app_nil_r ts). by apply (reads_bind _ _ _ _ a). Qed.

End triples.
#[export] Hint Resolve writes_ret writes_cons reads_ret : thrift.

(** * Writers *)
Section writers.
Context {P : Type} `{TProtocolSpec P}.

Lemma write_strings_writes l :
  Forall string_ok l → writes (for_each l writeString) ((VString <$> l) ≫= tokens).
Proof. induction 1 as [|s l Hs Hl IH]; simpl; auto with thrift. Qed.

Lemma sequence_id_write_writes seq :
  value_ok ty_sequence_id seq → writes (sequence_id_write seq) (tokens (encode ty_sequence_id seq)).
Proof. intros (H1 & H2 & H3). unfold sequence_id_write. simpl. repeat apply writes_cons; auto with thrift lia. Qed.

Lemma write_value_writes t v : value_ok t v → writes (write_value t v) (tokens (encode t v)).
Proof.
  destruct t; intros Hv; simpl in v; [apply writeI32_ok, Hv | apply writeI64_ok, Hv | apply writeString_ok, Hv
    | | by apply sequence_id_write_writes].
  destruct Hv as [Hn Hs]. simpl. rewrite length_fmap. unfold wrap_u32. rewrite Z.mod_small by lia.
  apply writes_cons; [apply writeListBegin_ok; lia|]. apply writes_bind; [by apply write_strings_writes|].
  apply writeListEnd_ok.
Qed.

Lemma field_writes f v :
  - 2^15 ≤ f_id f < 2^15 → value_ok (f_ty f) v →
  writes (write_field f v) (field_tokens (f_id f, encode (f_ty f) v)).
Proof.
  intros Hid Hv. unfold field_tokens, write_field. simpl.
  replace (type_of (encode (f_ty f) v)) with (ttype (f_ty f)) by (by destruct (f_ty f)).
  apply writes_cons; [auto with thrift|]. apply writes_bind; [by apply write_value_writes|auto with thrift].
Qed.

Lemma write_fields_writes fs v :
  Forall (λ f, - 2^15 ≤ f_id f < 2^15) fs → values_ok fs v →
  writes (write_fields fs v) (encode_fields fs v ≫= field_tokens).
Proof.
  intros Hfs. induction Hfs as [|f fs Hf Hfs IH]; [simpl; auto with thrift|]. intros [Hv Hvs].
  cbn [write_fields encode_fields]. rewrite bind_cons.
  apply writes_bind; [by apply field_writes|by apply IH].
Qed.

Lemma write_set_fields_writes fs s :
  Forall (λ f, - 2^15 ≤ f_id f < 2^15) fs → set_ok fs s →
  writes (write_set_fields fs s) (encode_set_fields fs s ≫= field_tokens).
Proof.
  intros Hfs. induction Hfs as [|f fs Hf Hfs IH]; [simpl; auto with thrift|]. destruct s as [[b v] s].
  intros [Hv Hvs]. destruct b; cbn [write_set_fields encode_set_fields fst snd app].
  - rewrite bind_cons. apply writes_bind; [by apply field_writes, Hv|by apply IH].
  - apply (writes_bind _ _ []); [apply writes_ret|by apply IH].
Qed.

Lemma struct_writes name (m : M P ()) l :
  writes m (l ≫= field_tokens) →
  writes (writeStructBegin name ;; m ;; writeFieldStop ;; writeStructEnd) (tokens (VStruct l)).
Proof.
  intros Hm. simpl. apply writes_cons; [auto with thrift|]. apply writes_bind; [done|].
  apply writes_cons; auto with thrift.
Qed.

Lemma write_args_writes d v :
  struct_ok (s_fields d) → values_ok (s_fields d) v →
  writes (write_args d v) (tokens (VStruct (encode_fields (s_fields d) v))).
Proof. intros [_ Hd] Hv. apply struct_writes. by apply write_fields_writes. Qed.

Lemma write_result_writes d s :
  struct_ok (s_fields d) → set_ok (s_fields d) s →
  writes (write_result d s) (tokens (VStruct (encode_set_fields (s_fields d) s))).
Proof. intros [_ Hd] Hs. apply struct_writes. by apply write_set_fields_writes. Qed.

End writers.

(** * Readers *)
Section readers.
Context {P : Type} `{TProtocolSpec P}.
Variable fuel : nat.

Lemma fold_fields_total {A} (step : A → Z * value → A) l a :
  fold_fields (λ f a, Some (step a f)) l a = Some (fold_left step l a).
Proof. revert a. by induction l; simpl. Qed.

(** A loop whose turns follow [step] follows its fold. *)
Lemma read_loop_reads {A} (rf : Z → TType → A → M P A) (step : Z * value → A → option A) n l a a' :
  (∀ f b b', f ∈ l → step f b = Some b' → reads (rf f.1 (type_of f.2) b) (tokens f.2) b') →
  (length l < n)%nat → fold_fields step l a = Some a' →
  reads (read_loop rf n a) ((l ≫= field_tokens) ++ [FieldStop]) a'.
Proof.
  revert n a. induction l as [|f l IH]; intros n a Hrf Hn Hf; (destruct n as [|n]; [simpl in Hn; lia|]).
  - simpl in *. simplify_eq. apply (reads_last _ _ _ (T_STOP, 0)); [apply readFieldStop_ok|]. apply reads_ret.
  - cbn [fold_fields] in Hf. apply bind_Some in Hf as (b & Hb & Hf). rewrite bind_cons. unfold field_tokens at 1.
    rewrite <- app_assoc. cbn [app read_loop]. eapply (reads_cons _ _ _ _ (type_of f.2, f.1)); [apply readFieldBegin_ok|].
    simpl fst. simpl snd. rewrite decide_False by (by destruct f.2). rewrite <- app_assoc.
    apply (reads_bind _ _ _ _ b); [apply Hrf; [by left|done]|]. apply (reads_cons _ _ _ _ ()); [apply readFieldEnd_ok|].
    apply IH; [|simpl in Hn; lia|done]. intros g c c' Hg. apply Hrf. by right.
Qed.

Lemma read_struct_reads {A} (rf : Z → TType → A → M P A) (step : Z * value → A → option A) l a a' :
  (∀ f b b', f ∈ l → step f b = Some b' → reads (rf f.1 (type_of f.2) b) (tokens f.2) b') →
  (length l < fuel)%nat → fold_fields step l a = Some a' →
  reads (read_struct fuel rf a) (tokens (VStruct l)) a'.
Proof.
  intros Hrf Hn Hf. unfold read_struct. simpl. apply (reads_cons _ _ _ _ ()); [apply readStructBegin_ok|].
  change [FieldStop; StructEnd] with ([FieldStop] ++ [StructEnd]). rewrite app_assoc.
  apply (reads_bind _ _ _ _ a'); [by eapply read_loop_reads|].
  apply (reads_last _ _ _ ()); [apply readStructEnd_ok|apply reads_ret].
Qed.

Lemma sequence_id_field_reads f st :
  reads (sequence_id_field f.1 (type_of f.2) st) (tokens f.2) (sequence_id_step st f).
Proof.
  destruct f as [id v], st as [seq [[b1 b2] b3]]. unfold sequence_id_field, sequence_id_step. simpl fst. simpl snd.
  assert (Hskip : reads (skip (type_of v) ;; mret (seq, (b1, b2, b3))) (tokens v) (seq, (b1, b2, b3))).
  { apply (reads_last _ _ _ ()); [apply skip_ok|apply reads_ret]. }
  destruct (decide (type_of v = T_I64)) as [Ht|Ht].
  - destruct v; simplify_eq. repeat case_decide; try done;
      (apply (reads_last _ _ _ z); [apply readI64_ok|apply reads_ret]).
  - destruct v; try done; repeat case_decide; done.
Qed.

Lemma sequence_id_fields_read l (seq : sequence_id) st :
  (length l < fuel)%nat → fold_left sequence_id_step l (seq, (false, false, false)) = st →
  reads (read_struct fuel sequence_id_field (seq, (false, false, false))) (tokens (VStruct l)) st.
Proof.
  intros Hl <-. apply (read_struct_reads _ (λ f st, Some (sequence_id_step st f))); [|done|apply fold_fields_total].
  intros f b b' _ [= <-]. apply sequence_id_field_reads.
Qed.

Lemma sequence_id_read_reads l old seq :
  (length l < fuel)%nat → decode_sequence_id old l = Some seq →
  reads (sequence_id_read fuel old) (tokens (VStruct l)) seq.
Proof.
  intros Hl Hd. unfold decode_sequence_id in Hd. unfold sequence_id_read.
  destruct (fold_left _ l _) as [seq' [[b1 b2] b3]] eqn:Hf.
  eapply reads_last; [by apply sequence_id_fields_read|]. simpl. destruct b1, b2, b3; simplify_eq. apply reads_ret.
Qed.

(** A required field is missing: the struct is read to its end, then rejected. *)
Lemma sequence_id_read_rejects l old p r :
  (length l < fuel)%nat → decode_sequence_id old l = None → incoming p = tokens (VStruct l) ++ r →
  ∃ p', sequence_id_read fuel old p = (Stop (Throw (TProtocolException INVALID_DATA)), p')
    ∧ incoming p' = r ∧ outgoing p' = outgoing p.
Proof.
  intros Hl Hd Hp. unfold decode_sequence_id in Hd. unfold sequence_id_read.
  destruct (fold_left _ l _) as [seq' [[b1 b2] b3]] eqn:Hf.
  destruct (sequence_id_fields_read l old _ Hl Hf p r Hp) as (p' & Hrun & Hin & Hout).
  exists p'. rewrite (mbind_run _ _ _ _ _ Hrun). simpl. by destruct b1, b2, b3.
Qed.

Lemma read_strings_reads vs l :
  mapM decode_string vs = Some l → reads (read_strings (length vs)) (vs ≫= tokens) l.
Proof.
  revert l. induction vs as [|v vs IH]; intros l Hl; simpl in *; [injection Hl as <-; apply reads_ret|].
  apply bind_Some in Hl as (s & Hs & Hl). apply bind_Some in Hl as (l' & Hl' & [= <-]).
  destruct v; simplify_eq/=. apply (reads_cons _ _ _ _ s); [apply readString_ok|].
  apply (reads_last _ _ _ l'); [by apply IH|apply reads_ret].
Qed.

Definition value_fuel_ok (v : value) : Prop := match v with VStruct l => (length l < fuel)%nat | _ => True end.

Lemma read_value_reads t old v a :
  value_fuel_ok v → decode t old v = Some a → reads (read_value fuel t old) (tokens v) a.
Proof.
  intros Hfuel Hd. destruct t, v; simplify_eq/=; auto with thrift.
  - apply (reads_cons _ _ _ _ (type, Z.of_nat (length vs))); [apply readListBegin_ok|]. simpl. rewrite Nat2Z.id.
    apply (reads_bind _ _ _ _ a); [by apply read_strings_reads|].
    apply (reads_last _ _ _ ()); [apply readListEnd_ok|apply reads_ret].
  - by apply sequence_id_read_reads.
Qed.

Lemma skip_reads {A} v (a : A) : reads (skip (type_of v) ;; mret a) (tokens v) a.
Proof. apply (reads_last _ _ _ ()); [apply skip_ok|apply reads_ret]. Qed.

Lemma read_field_reads fs f s s' :
  value_fuel_ok f.2 → apply_field fs f s = Some s' →
  reads (read_field fuel fs f.1 (type_of f.2) s) (tokens f.2) s'.
Proof.
  intros Hfuel. induction fs as [|g fs IH]; intros Hf; simpl in *.
  { simplify_eq. apply skip_reads. }
  destruct (decide (f.1 = f_id g)) as [Hid|Hid].
  - destruct (decide (type_of f.2 = ttype (f_ty g))) as [Ht|Ht]; [|simplify_eq; apply skip_reads].
    apply fmap_Some in Hf as (v & Hv & ->). apply (reads_last _ _ _ v); [by apply read_value_reads|apply reads_ret].
  - apply fmap_Some in Hf as (rest & Hrest & ->). apply (reads_last _ _ _ rest); [by apply IH|apply reads_ret].
Qed.

Lemma read_reads d l this s :
  fuel_ok fuel l → apply_fields (s_fields d) l this = Some s →
  reads (read_into fuel d this) (tokens (VStruct l)) s.
Proof.
  intros [Hl Hfuel] Hs. apply (read_struct_reads _ (apply_field (s_fields d))); [|done|done].
  intros f b b' Hf. apply read_field_reads. apply (Hfuel f Hf).
Qed.

End readers.

(** * What is written is read back *)

(** What reading the fields that [s] has set does to [this] *)
Fixpoint overlay (fs : list field) : struct fs → struct fs → struct fs :=
  match fs with
  | [] => λ s this, this
  | f :: fs => λ s this, (if s.1.1 : bool then s.1 else this.1, overlay fs s.2 this.2)
  end.

Lemma decode_strings_encode l : mapM decode_string (VString <$> l) = Some l.
Proof. induction l as [|s l IH]; [done|]. rewrite fmap_cons. simpl. by rewrite IH. Qed.

Lemma decode_encode t old v : decode t old (encode t v) = Some v.
Proof. destruct t; simpl; auto using decode_strings_encode. by destruct v. Qed.

Lemma type_of_encode t v : type_of (encode t v) = ttype t.
Proof. by destruct t. Qed.

(** A field that comes first in the struct is left alone by the others. *)
Lemma apply_fields_skip f fs l s0 s s' :
  Forall (λ g, g.1 ≠ f_id f) l → apply_fields fs l s = Some s' →
  apply_fields (f :: fs) l (s0, s) = Some (s0, s').
Proof.
  intros Hl. revert s. induction Hl as [|g l Hg Hl IH]; intros s Hs; [by injection Hs as <-|].
  apply bind_Some in Hs as (s1 & H1 & Hs). unfold apply_fields. cbn [fold_fields apply_field fst snd]. rewrite decide_False, H1 by done. simpl. by apply IH.
Qed.

Lemma encode_set_ids fs s : Forall (λ g, g.1 ∈ f_id <$> fs) (encode_set_fields fs s).
Proof.
  induction fs as [|f fs IH]; simpl; [constructor|]. apply Forall_app. split.
  - destruct s.1.1; [|constructor]. constructor; [by left|constructor].
  - eapply Forall_impl; [apply IH|]. simpl. intros g Hg. by right.
Qed.

Lemma apply_encode_set fs s this :
  NoDup (f_id <$> fs) → apply_fields fs (encode_set_fields fs s) this = Some (overlay fs s this).
Proof.
  induction fs as [|f fs IH]; intros Hn; [done|]. inversion Hn as [|?? Hf Hn']; subst.
  destruct s as [[b v] s], this as [old this]. specialize (IH s this Hn').
  assert (Hskip : Forall (λ g, g.1 ≠ f_id f) (encode_set_fields fs s)).
  { eapply Forall_impl; [apply encode_set_ids|]. simpl. intros g Hg Heq. by rewrite Heq in Hg. }
  cbn [encode_set_fields overlay fst snd]. destruct b; [|by apply apply_fields_skip].
  unfold apply_fields. cbn [app fold_fields]. cbn [apply_field fst snd]. rewrite decide_True by done.
  rewrite type_of_encode, decide_True by done. rewrite decode_encode. simpl. by apply apply_fields_skip.
Qed.

Lemma encode_with_all_set fs v : encode_set_fields fs (with_all_set fs v) = encode_fields fs v.
Proof. induction fs as [|f fs IH]; simpl; [done|]. by rewrite IH. Qed.
Lemma overlay_all_set fs v this : overlay fs (with_all_set fs v) this = with_all_set fs v.
Proof. induction fs as [|f fs IH]; simpl; [by destruct v, this|]. by rewrite IH. Qed.
Lemma fields_of_all_set fs v : fields_of fs (with_all_set fs v) = v.
Proof. induction fs as [|f fs IH]; simpl; [done|]. rewrite IH. by destruct v. Qed.

Lemma encode_inner_fields fuel t v : (3 < fuel)%nat → value_fuel_ok fuel (encode t v).
Proof. by destruct t. Qed.

(** The structs have at most three fields, and so has [sequence_id]. *)
Lemma fuel_ok_encode fuel fs s : (length fs `max` 3 < fuel)%nat → fuel_ok fuel (encode_set_fields fs s).
Proof.
  intros Hfuel. split.
  - assert (length (encode_set_fields fs s) ≤ length fs)%nat; [|lia]. clear Hfuel.
    induction fs as [|f fs IH]; simpl; [done|]. rewrite length_app. specialize (IH s.2). destruct s.1.1; simpl; lia.
  - induction fs as [|f fs IH]; simpl; intros g; [by intros ?%elem_of_nil|]. rewrite elem_of_app. intros [Hg|Hg].
    + destruct s.1.1; [|by apply elem_of_nil in Hg]. apply list_elem_of_singleton in Hg as ->.
      simpl. apply encode_inner_fields. lia.
    + apply (IH s.2); [simpl in Hfuel; lia|done].
Qed.

Section round_trip.
Context {P : Type} `{TProtocolSpec P} (fuel : nat).

Lemma read_encoded d s this :
  struct_ok (s_fields d) → (length (s_fields d) `max` 3 < fuel)%nat →
  reads (read_into fuel d this) (tokens (VStruct (encode_set_fields (s_fields d) s))) (overlay _ s this).
Proof. intros [Hn _] Hf. apply read_reads; [by apply fuel_ok_encode|by apply apply_encode_set]. Qed.

Lemma read_encoded_args d v :
  struct_ok (s_fields d) → (length (s_fields d) `max` 3 < fuel)%nat →
  reads (read fuel d) (tokens (VStruct (encode_fields (s_fields d) v))) (with_all_set (s_fields d) v).
Proof.
  intros Hd Hf. rewrite <- encode_with_all_set. rewrite <- (overlay_all_set _ v (new_struct _)) at 2.
  by apply read_encoded.
Qed.

End round_trip.
End Thrift.
