(* ===== verification/WaffleThrift.v ===== *)
(** The service of the proxy: service/src/waffle_thrift.cpp and .h.  The
    argument and result structs are tables for the readers and writers of
    Thrift.v; the client, the processor and the classes of the interface
    follow the sources function by function.

    No event handler is ever set, so the calls to it are left out.  [iprot]
    and [oprot] are the two directions of one connection [P]. *)
From S2P Require Import Prelude.
From S2P Require Import Thrift.
Import Thrift.

Local Open Scope Z_scope.

(** * The structs *)
Module Structs.
Definition fld (name : string) (t : ty) (id : Z) : field := {| f_name := name; f_id := id; f_ty := t |}.

Definition get_client_id_args : struct_def :=
  {| s_name := "waffle_thrift_get_client_id_args"; s_fields := [] |}.
Definition get_client_id_pargs : struct_def :=
  {| s_name := "waffle_thrift_get_client_id_pargs"; s_fields := [] |}.
Definition get_client_id_result : struct_def :=
  {| s_name := "waffle_thrift_get_client_id_result"; s_fields := [fld "success" ty_i64 0] |}.
Definition get_client_id_presult : struct_def :=
  {| s_name := "waffle_thrift_get_client_id_presult"; s_fields := [fld "success" ty_i64 0] |}.
Definition register_client_id_args : struct_def :=
  {| s_name := "waffle_thrift_register_client_id_args"; s_fields := [fld "block_id" ty_i32 1; fld "client_id" ty_i64 2] |}.
Definition register_client_id_pargs : struct_def :=
  {| s_name := "waffle_thrift_register_client_id_pargs"; s_fields := [fld "block_id" ty_i32 1; fld "client_id" ty_i64 2] |}.
Definition register_client_id_result : struct_def :=
  {| s_name := "waffle_thrift_register_client_id_result"; s_fields := [] |}.
Definition register_client_id_presult : struct_def :=
  {| s_name := "waffle_thrift_register_client_id_presult"; s_fields := [] |}.
Definition async_get_args : struct_def :=
  {| s_name := "waffle_thrift_async_get_args"; s_fields := [fld "seq_id" ty_sequence_id 1; fld "key" ty_string 2] |}.
Definition async_get_pargs : struct_def :=
  {| s_name := "waffle_thrift_async_get_pargs"; s_fields := [fld "seq_id" ty_sequence_id 1; fld "key" ty_string 2] |}.
Definition async_put_args : struct_def :=
  {| s_name := "waffle_thrift_async_put_args"; s_fields := [fld "seq_id" ty_sequence_id 1; fld "key" ty_string 2; fld "value" ty_string 3] |}.
Definition async_put_pargs : struct_def :=
  {| s_name := "waffle_thrift_async_put_pargs"; s_fields := [fld "seq_id" ty_sequence_id 1; fld "key" ty_string 2; fld "value" ty_string 3] |}.
Definition async_get_batch_args : struct_def :=
  {| s_name := "waffle_thrift_async_get_batch_args"; s_fields := [fld "seq_id" ty_sequence_id 1; fld "keys" ty_strings 2] |}.
Definition async_get_batch_pargs : struct_def :=
  {| s_name := "waffle_thrift_async_get_batch_pargs"; s_fields := [fld "seq_id" ty_sequence_id 1; fld "keys" ty_strings 2] |}.
Definition async_put_batch_args : struct_def :=
  {| s_name := "waffle_thrift_async_put_batch_args"; s_fields := [fld "seq_id" ty_sequence_id 1; fld "keys" ty_strings 2; fld "values" ty_strings 3] |}.
Definition async_put_batch_pargs : struct_def :=
  {| s_name := "waffle_thrift_async_put_batch_pargs"; s_fields := [fld "seq_id" ty_sequence_id 1; fld "keys" ty_strings 2; fld "values" ty_strings 3] |}.
Definition get_args : struct_def :=
  {| s_name := "waffle_thrift_get_args"; s_fields := [fld "key" ty_string 1] |}.
Definition get_pargs : struct_def :=
  {| s_name := "waffle_thrift_get_pargs"; s_fields := [fld "key" ty_string 1] |}.
Definition get_result : struct_def :=
  {| s_name := "waffle_thrift_get_result"; s_fields := [fld "success" ty_string 0] |}.
Definition get_presult : struct_def :=
  {| s_name := "waffle_thrift_get_presult"; s_fields := [fld "success" ty_string 0] |}.
Definition put_args : struct_def :=
  {| s_name := "waffle_thrift_put_args"; s_fields := [fld "key" ty_string 1; fld "value" ty_string 2] |}.
Definition put_pargs : struct_def :=
  {| s_name := "waffle_thrift_put_pargs"; s_fields := [fld "key" ty_string 1; fld "value" ty_string 2] |}.
Definition put_result : struct_def :=
  {| s_name := "waffle_thrift_put_result"; s_fields := [] |}.
Definition put_presult : struct_def :=
  {| s_name := "waffle_thrift_put_presult"; s_fields := [] |}.
Definition get_batch_args : struct_def :=
  {| s_name := "waffle_thrift_get_batch_args"; s_fields := [fld "keys" ty_strings 1] |}.
Definition get_batch_pargs : struct_def :=
  {| s_name := "waffle_thrift_get_batch_pargs"; s_fields := [fld "keys" ty_strings 1] |}.
Definition get_batch_result : struct_def :=
  {| s_name := "waffle_thrift_get_batch_result"; s_fields := [fld "success" ty_strings 0] |}.
Definition get_batch_presult : struct_def :=
  {| s_name := "waffle_thrift_get_batch_presult"; s_fields := [fld "success" ty_strings 0] |}.
Definition put_batch_args : struct_def :=
  {| s_name := "waffle_thrift_put_batch_args"; s_fields := [fld "keys" ty_strings 1; fld "values" ty_strings 2] |}.
Definition put_batch_pargs : struct_def :=
  {| s_name := "waffle_thrift_put_batch_pargs"; s_fields := [fld "keys" ty_strings 1; fld "values" ty_strings 2] |}.
Definition put_batch_result : struct_def :=
  {| s_name := "waffle_thrift_put_batch_result"; s_fields := [] |}.
Definition put_batch_presult : struct_def :=
  {| s_name := "waffle_thrift_put_batch_presult"; s_fields := [] |}.
Definition search_args : struct_def :=
  {| s_name := "waffle_thrift_search_args"; s_fields := [fld "keys" ty_string 1] |}.
Definition search_pargs : struct_def :=
  {| s_name := "waffle_thrift_search_pargs"; s_fields := [fld "keys" ty_string 1] |}.
Definition search_result : struct_def :=
  {| s_name := "waffle_thrift_search_result"; s_fields := [fld "success" ty_strings 0] |}.
Definition search_presult : struct_def :=
  {| s_name := "waffle_thrift_search_presult"; s_fields := [fld "success" ty_strings 0] |}.

End Structs.
Import Structs.

(** * The interface *)
Module waffle_thriftIf.
(** What an object with state [H] implements.  A parameter [_return] stands
    for the reference to the result; the function gives its final value. *)
Record t (H : Type) := {
  get_client_id : M H Z;
  register_client_id (block_id : Z) (client_id : Z) : M H ();
  async_get (seq_id : sequence_id) (key : string) : M H ();
  async_put (seq_id : sequence_id) (key : string) (value : string) : M H ();
  async_get_batch (seq_id : sequence_id) (keys : list string) : M H ();
  async_put_batch (seq_id : sequence_id) (keys : list string) (values : list string) : M H ();
  get (_return : string) (key : string) : M H string;
  put (key : string) (value : string) : M H ();
  get_batch (_return : list string) (keys : list string) : M H (list string);
  put_batch (keys : list string) (values : list string) : M H ();
  search (_return : list string) (keys : string) : M H (list string);
}.
Arguments get_client_id {H}.
Arguments register_client_id {H}.
Arguments async_get {H}.
Arguments async_put {H}.
Arguments async_get_batch {H}.
Arguments async_put_batch {H}.
Arguments get {H}.
Arguments put {H}.
Arguments get_batch {H}.
Arguments put_batch {H}.
Arguments search {H}.
End waffle_thriftIf.
Abbreviation waffle_thriftIf := waffle_thriftIf.t.

(** [waffle_thriftNull] answers nothing. *)
Definition waffle_thriftNull (H : Type) : waffle_thriftIf H := {|
  waffle_thriftIf.get_client_id := mret 0;
  waffle_thriftIf.register_client_id block_id client_id := mret ();
  waffle_thriftIf.async_get seq_id key := mret ();
  waffle_thriftIf.async_put seq_id key value := mret ();
  waffle_thriftIf.async_get_batch seq_id keys := mret ();
  waffle_thriftIf.async_put_batch seq_id keys values := mret ();
  waffle_thriftIf.get _return key := mret _return;
  waffle_thriftIf.put key value := mret ();
  waffle_thriftIf.get_batch _return keys := mret _return;
  waffle_thriftIf.put_batch keys values := mret ();
  waffle_thriftIf.search _return keys := mret _return;
|}.

(** [waffle_thriftMultiface] calls each of its interfaces in order.  They are
    shared objects, parts of one state [H].  Without any, [sz - 1] wraps and
    the loop starts with [ifaces_[0]]. *)
Module waffle_thriftMultiface.
Section multiface.
Context {H : Type}.
Variable ifaces_ : list (waffle_thriftIf H).

(** [call iface _return] gives the new [_return]. *)
Fixpoint call_each {A} (ifaces : list (waffle_thriftIf H)) (call : waffle_thriftIf H → A → M H A) (_return : A) : M H A :=
  match ifaces with
  | [] => fail Undefined
  | [iface] => call iface _return
  | iface :: ifaces => _return ← call iface _return; call_each ifaces call _return
  end.
Definition call_all (call : waffle_thriftIf H → M H ()) : M H () := call_each ifaces_ (λ iface _, call iface) ().

Definition multiface : waffle_thriftIf H := {|
  waffle_thriftIf.get_client_id := call_each ifaces_ (λ iface _, waffle_thriftIf.get_client_id iface) 0;
  waffle_thriftIf.register_client_id block_id client_id :=
    call_all (λ iface, waffle_thriftIf.register_client_id iface block_id client_id);
  waffle_thriftIf.async_get seq_id key := call_all (λ iface, waffle_thriftIf.async_get iface seq_id key);
  waffle_thriftIf.async_put seq_id key value := call_all (λ iface, waffle_thriftIf.async_put iface seq_id key value);
  waffle_thriftIf.async_get_batch seq_id keys := call_all (λ iface, waffle_thriftIf.async_get_batch iface seq_id keys);
  waffle_thriftIf.async_put_batch seq_id keys values :=
    call_all (λ iface, waffle_thriftIf.async_put_batch iface seq_id keys values);
  waffle_thriftIf.get _return key := call_each ifaces_ (λ iface _return, waffle_thriftIf.get iface _return key) _return;
  waffle_thriftIf.put key value := call_all (λ iface, waffle_thriftIf.put iface key value);
  waffle_thriftIf.get_batch _return keys :=
    call_each ifaces_ (λ iface _return, waffle_thriftIf.get_batch iface _return keys) _return;
  waffle_thriftIf.put_batch keys values := call_all (λ iface, waffle_thriftIf.put_batch iface keys values);
  waffle_thriftIf.search _return keys :=
    call_each ifaces_ (λ iface _return, waffle_thriftIf.search iface _return keys) _return;
|}.
End multiface.
End waffle_thriftMultiface.

(** * The client *)
Module waffle_thriftClient.
Section client.
Context {P : Type} `{TProtocol P}.
Variable fuel : nat.

Definition send_message (name : string) (type : TMessageType) (write_args : M P ()) : M P () :=
  let cseqid := 0 in
  writeMessageBegin name type cseqid ;;
  write_args ;;
  writeMessageEnd ;;
  writeEnd ;;
  flush.

Definition skip_message : M P () := skip T_STRUCT ;; readMessageEnd ;; readEnd.

Definition recv_message (name : string) (d : struct_def) (result : struct (s_fields d)) : M P (struct (s_fields d)) :=
  m ← readMessageBegin;
  let '(fname, mtype, rseqid) := m in
  (if decide (mtype = T_EXCEPTION) then
     x ← readException;
     readMessageEnd ;;
     readEnd ;;
     fail (Throw (TApplicationException x.1 x.2))
   else mret ()) ;;
  (if decide (mtype = T_REPLY) then mret () else skip_message) ;;
  (if decide (fname = name) then mret () else skip_message) ;;
  result ← read_into fuel d result;
  readMessageEnd ;;
  readEnd ;;
  mret result.

Definition unwrap_success {A} (name : string) (success : bool * A) : M P A :=
  if success.1 then mret success.2
  else fail (Throw (TApplicationException MISSING_RESULT (name +:+ " failed: unknown result"))).

Definition send_get_client_id : M P () :=
  send_message "get_client_id" T_CALL (write_args get_client_id_pargs ()).
Definition recv_get_client_id : M P Z :=
  (* [_return] is not initialised, and only used if it is filled *)
  result ← recv_message "get_client_id" get_client_id_presult ((false, 0), ());
  unwrap_success "get_client_id" result.1.
Definition get_client_id : M P Z := send_get_client_id ;; recv_get_client_id.

Definition send_register_client_id (block_id : Z) (client_id : Z) : M P () :=
  send_message "register_client_id" T_CALL (write_args register_client_id_pargs (block_id, (client_id, ()))).
Definition recv_register_client_id : M P () := recv_message "register_client_id" register_client_id_presult () ;; mret ().
Definition register_client_id (block_id : Z) (client_id : Z) : M P () :=
  send_register_client_id block_id client_id ;; recv_register_client_id.

Definition send_async_get (seq_id : sequence_id) (key : string) : M P () :=
  send_message "async_get" T_ONEWAY (write_args async_get_pargs (seq_id, (key, ()))).
Definition async_get (seq_id : sequence_id) (key : string) : M P () := send_async_get seq_id key.

Definition send_async_put (seq_id : sequence_id) (key : string) (value : string) : M P () :=
  send_message "async_put" T_ONEWAY (write_args async_put_pargs (seq_id, (key, (value, ())))).
Definition async_put (seq_id : sequence_id) (key : string) (value : string) : M P () := send_async_put seq_id key value.

Definition send_async_get_batch (seq_id : sequence_id) (keys : list string) : M P () :=
  send_message "async_get_batch" T_ONEWAY (write_args async_get_batch_pargs (seq_id, (keys, ()))).
Definition async_get_batch (seq_id : sequence_id) (keys : list string) : M P () := send_async_get_batch seq_id keys.

Definition send_async_put_batch (seq_id : sequence_id) (keys : list string) (values : list string) : M P () :=
  send_message "async_put_batch" T_ONEWAY (write_args async_put_batch_pargs (seq_id, (keys, (values, ())))).
Definition async_put_batch (seq_id : sequence_id) (keys : list string) (values : list string) : M P () := send_async_put_batch seq_id keys values.

Definition send_get (key : string) : M P () :=
  send_message "get" T_CALL (write_args get_pargs (key, ())).
Definition recv_get (_return : string) : M P string :=
  result ← recv_message "get" get_presult ((false, _return), ());
  unwrap_success "get" result.1.
Definition get (_return : string) (key : string) : M P string := send_get key ;; recv_get _return.

Definition send_put (key : string) (value : string) : M P () :=
  send_message "put" T_CALL (write_args put_pargs (key, (value, ()))).
Definition recv_put : M P () := recv_message "put" put_presult () ;; mret ().
Definition put (key : string) (value : string) : M P () := send_put key value ;; recv_put.

Definition send_get_batch (keys : list string) : M P () :=
  send_message "get_batch" T_CALL (write_args get_batch_pargs (keys, ())).
Definition recv_get_batch (_return : list string) : M P (list string) :=
  result ← recv_message "get_batch" get_batch_presult ((false, _return), ());
  unwrap_success "get_batch" result.1.
Definition get_batch (_return : list string) (keys : list string) : M P (list string) :=
  send_get_batch keys ;; recv_get_batch _return.

Definition send_put_batch (keys : list string) (values : list string) : M P () :=
  send_message "put_batch" T_CALL (write_args put_batch_pargs (keys, (values, ()))).
Definition recv_put_batch : M P () := recv_message "put_batch" put_batch_presult () ;; mret ().
Definition put_batch (keys : list string) (values : list string) : M P () :=
  send_put_batch keys values ;; recv_put_batch.

Definition send_search (keys : string) : M P () :=
  send_message "search" T_CALL (write_args search_pargs (keys, ())).
Definition recv_search (_return : list string) : M P (list string) :=
  result ← recv_message "search" search_presult ((false, _return), ());
  unwrap_success "search" result.1.
Definition search (_return : list string) (keys : string) : M P (list string) :=
  send_search keys ;; recv_search _return.

End client.
End waffle_thriftClient.

(** * The processor *)
Module waffle_thriftProcessor.
Section processor.
Context {P : Type} {prot : TProtocol P} {H : Type}.
Variable fuel : nat.
Variable what : exn → string.
Variable iface : waffle_thriftIf H.

Definition on_iface {A} (m : M H A) : M (H * P) A := zoom fst (λ h s, (h, s.2)) m.
Definition on_prot {A} (m : M P A) : M (H * P) A := zoom snd (λ p s, (s.1, p)) m.

Definition send_exception (name : string) (seqid : Z) (type : Z) (message : string) : M P () :=
  writeMessageBegin name T_EXCEPTION seqid ;;
  writeException type message ;;
  writeMessageEnd ;;
  writeEnd ;;
  flush.

Definition read_call (args : struct_def) : M P (values (s_fields args)) :=
  a ← read fuel args;
  readMessageEnd ;;
  readEnd ;;
  mret (fields_of _ a).

(** A turn of [process_X] for a method with a reply *)
Definition process_call (name : string) (args result : struct_def)
    (call : values (s_fields args) → M H (struct (s_fields result))) (seqid : Z) : M (H * P) () :=
  a ← on_prot (read_call args);
  r ← try_catch (r ← on_iface (call a); mret (inl r)) (λ e, mret (inr e));
  match r with
  | inr e => on_prot (send_exception name seqid UNKNOWN (what e))
  | inl r => on_prot (
      writeMessageBegin name T_REPLY seqid ;;
      write_result result r ;;
      writeMessageEnd ;;
      writeEnd ;;
      flush)
  end.

(** A turn of [process_X] for a method without a reply *)
Definition process_oneway (args : struct_def) (call : values (s_fields args) → M H ()) : M (H * P) () :=
  a ← on_prot (read_call args);
  try_catch (on_iface (call a)) (λ e, mret ()).

Definition process_get_client_id : Z → M (H * P) () :=
  process_call "get_client_id" get_client_id_args get_client_id_result
    (λ args, success ← waffle_thriftIf.get_client_id iface; mret ((true, success), ())).
Definition process_register_client_id : Z → M (H * P) () :=
  process_call "register_client_id" register_client_id_args register_client_id_result
    (λ args, waffle_thriftIf.register_client_id iface args.1 args.2.1).
Definition process_async_get (seqid : Z) : M (H * P) () :=
  process_oneway async_get_args (λ args, waffle_thriftIf.async_get iface args.1 args.2.1).
Definition process_async_put (seqid : Z) : M (H * P) () :=
  process_oneway async_put_args (λ args, waffle_thriftIf.async_put iface args.1 args.2.1 args.2.2.1).
Definition process_async_get_batch (seqid : Z) : M (H * P) () :=
  process_oneway async_get_batch_args (λ args, waffle_thriftIf.async_get_batch iface args.1 args.2.1).
Definition process_async_put_batch (seqid : Z) : M (H * P) () :=
  process_oneway async_put_batch_args (λ args, waffle_thriftIf.async_put_batch iface args.1 args.2.1 args.2.2.1).
Definition process_get : Z → M (H * P) () :=
  process_call "get" get_args get_result
    (λ args, success ← waffle_thriftIf.get iface "" args.1; mret ((true, success), ())).
Definition process_put : Z → M (H * P) () :=
  process_call "put" put_args put_result (λ args, waffle_thriftIf.put iface args.1 args.2.1).
Definition process_get_batch : Z → M (H * P) () :=
  process_call "get_batch" get_batch_args get_batch_result
    (λ args, success ← waffle_thriftIf.get_batch iface [] args.1; mret ((true, success), ())).
Definition process_put_batch : Z → M (H * P) () :=
  process_call "put_batch" put_batch_args put_batch_result (λ args, waffle_thriftIf.put_batch iface args.1 args.2.1).
Definition process_search : Z → M (H * P) () :=
  process_call "search" search_args search_result
    (λ args, success ← waffle_thriftIf.search iface [] args.1; mret ((true, success), ())).

Definition processMap_ : gmap string (Z → M (H * P) ()) :=
  list_to_map [("get_client_id", process_get_client_id);
    ("register_client_id", process_register_client_id);
    ("async_get", process_async_get);
    ("async_put", process_async_put);
    ("async_get_batch", process_async_get_batch);
    ("async_put_batch", process_async_put_batch);
    ("get", process_get);
    ("put", process_put);
    ("get_batch", process_get_batch);
    ("put_batch", process_put_batch);
    ("search", process_search)].

Definition dispatchCall (fname : string) (seqid : Z) : M (H * P) bool :=
  match processMap_ !! fname with
  | None =>
      on_prot (skip T_STRUCT ;; readMessageEnd ;; readEnd) ;;
      on_prot (send_exception fname seqid UNKNOWN_METHOD ("Invalid method name: '" +:+ fname +:+ "'")) ;;
      mret true
  | Some process => process seqid ;; mret true
  end.

End processor.
End waffle_thriftProcessor.
