(* ===== verification/ThriftRpc.v ===== *)
(** Remote procedure calls through the client and the processor of
    service/src/waffle_thrift.cpp: what the caller of a method of the client
    gets is what the handler at the other end answers. *)
From S2P Require Import Prelude.
From S2P Require Import Thrift.
From S2P Require Import WaffleThrift.
Import Thrift WaffleThrift.Structs.

Local Open Scope Z_scope.

Module Rpc.
(** * The calls of the interface *)
Inductive request :=
  | Get_client_id
  | Register_client_id (block_id client_id : Z)
  | Async_get (seq_id : sequence_id) (key : string)
  | Async_put (seq_id : sequence_id) (key value : string)
  | Async_get_batch (seq_id : sequence_id) (keys : list string)
  | Async_put_batch (seq_id : sequence_id) (keys values : list string)
  | Get (_return key : string)
  | Put (key value : string)
  | Get_batch (_return keys : list string)
  | Put_batch (keys values : list string)
  | Search (_return : list string) (keys : string).
Inductive reply := Void | Id (id : Z) | One (s : string) | Many (l : list string).

Definition name (q : request) : string :=
  match q with
  | Get_client_id => "get_client_id"
  | Register_client_id _ _ => "register_client_id"
  | Async_get _ _ => "async_get"
  | Async_put _ _ _ => "async_put"
  | Async_get_batch _ _ => "async_get_batch"
  | Async_put_batch _ _ _ => "async_put_batch"
  | Get _ _ => "get"
  | Put _ _ => "put"
  | Get_batch _ _ => "get_batch"
  | Put_batch _ _ => "put_batch"
  | Search _ _ => "search"
  end.
Definition oneway (q : request) : bool :=
  match q with Async_get _ _ | Async_put _ _ _ | Async_get_batch _ _ | Async_put_batch _ _ _ => true | _ => false end.

Definition strings_ok (l : list string) : Prop := value_ok ty_strings l.
Definition seq_id_ok (seq : sequence_id) : Prop := value_ok ty_sequence_id seq.
Definition request_ok (q : request) : Prop :=
  match q with
  | Get_client_id => True
  | Register_client_id block_id client_id => in_int block_id = true ∧ in_long client_id = true
  | Async_get seq_id key => seq_id_ok seq_id ∧ string_ok key
  | Async_put seq_id key value => seq_id_ok seq_id ∧ string_ok key ∧ string_ok value
  | Async_get_batch seq_id keys => seq_id_ok seq_id ∧ strings_ok keys
  | Async_put_batch seq_id keys values => seq_id_ok seq_id ∧ strings_ok keys ∧ strings_ok values
  | Get _ key => string_ok key
  | Put key value => string_ok key ∧ string_ok value
  | Get_batch _ keys => strings_ok keys
  | Put_batch keys values => strings_ok keys ∧ strings_ok values
  | Search _ keys => string_ok keys
  end.
Definition reply_ok (a : reply) : Prop :=
  match a with Void => True | Id z => in_long z = true | One s => string_ok s | Many l => strings_ok l end.

Definition fmapM {S A B} (f : A → B) (m : M S A) : M S B := a ← m; mret (f a).

(** ** at the client *)
Section client.
Context {P : Type} `{TProtocol P} (fuel : nat).
Import waffle_thriftClient.

Definition send (q : request) : M P () :=
  match q with
  | Get_client_id => send_get_client_id
  | Register_client_id block_id client_id => send_register_client_id block_id client_id
  | Async_get seq_id key => send_async_get seq_id key
  | Async_put seq_id key value => send_async_put seq_id key value
  | Async_get_batch seq_id keys => send_async_get_batch seq_id keys
  | Async_put_batch seq_id keys values => send_async_put_batch seq_id keys values
  | Get _ key => send_get key
  | Put key value => send_put key value
  | Get_batch _ keys => send_get_batch keys
  | Put_batch keys values => send_put_batch keys values
  | Search _ keys => send_search keys
  end.
Definition recv (q : request) : M P reply :=
  match q with
  | Get_client_id => fmapM Id (recv_get_client_id fuel)
  | Register_client_id _ _ => fmapM (λ _, Void) (recv_register_client_id fuel)
  | Async_get _ _ | Async_put _ _ _ | Async_get_batch _ _ | Async_put_batch _ _ _ => mret Void
  | Get _return _ => fmapM One (recv_get fuel _return)
  | Put _ _ => fmapM (λ _, Void) (recv_put fuel)
  | Get_batch _return _ => fmapM Many (recv_get_batch fuel _return)
  | Put_batch _ _ => fmapM (λ _, Void) (recv_put_batch fuel)
  | Search _return _ => fmapM Many (recv_search fuel _return)
  end.
End client.

(** ** at the handler *)
Definition handle {H} (iface : waffle_thriftIf H) (q : request) : M H reply :=
  match q with
  | Get_client_id => fmapM Id (waffle_thriftIf.get_client_id iface)
  | Register_client_id block_id client_id => fmapM (λ _, Void) (waffle_thriftIf.register_client_id iface block_id client_id)
  | Async_get seq_id key => fmapM (λ _, Void) (waffle_thriftIf.async_get iface seq_id key)
  | Async_put seq_id key value => fmapM (λ _, Void) (waffle_thriftIf.async_put iface seq_id key value)
  | Async_get_batch seq_id keys => fmapM (λ _, Void) (waffle_thriftIf.async_get_batch iface seq_id keys)
  | Async_put_batch seq_id keys values => fmapM (λ _, Void) (waffle_thriftIf.async_put_batch iface seq_id keys values)
  (* the processor passes a fresh result *)
  | Get _ key => fmapM One (waffle_thriftIf.get iface "" key)
  | Put key value => fmapM (λ _, Void) (waffle_thriftIf.put iface key value)
  | Get_batch _ keys => fmapM Many (waffle_thriftIf.get_batch iface [] keys)
  | Put_batch keys values => fmapM (λ _, Void) (waffle_thriftIf.put_batch iface keys values)
  | Search _ keys => fmapM Many (waffle_thriftIf.search iface [] keys)
  end.
(** * What is sent *)
Definition args_of (q : request) : {fs : list field & values fs} :=
  match q with
  | Get_client_id => existT (s_fields get_client_id_args) ()
  | Register_client_id block_id client_id => existT (s_fields register_client_id_args) (block_id, (client_id, ()))
  | Async_get seq_id key => existT (s_fields async_get_args) (seq_id, (key, ()))
  | Async_put seq_id key value => existT (s_fields async_put_args) (seq_id, (key, (value, ())))
  | Async_get_batch seq_id keys => existT (s_fields async_get_batch_args) (seq_id, (keys, ()))
  | Async_put_batch seq_id keys values => existT (s_fields async_put_batch_args) (seq_id, (keys, (values, ())))
  | Get _ key => existT (s_fields get_args) (key, ())
  | Put key value => existT (s_fields put_args) (key, (value, ()))
  | Get_batch _ keys => existT (s_fields get_batch_args) (keys, ())
  | Put_batch keys values => existT (s_fields put_batch_args) (keys, (values, ()))
  | Search _ keys => existT (s_fields search_args) (keys, ())
  end.
Definition args_tokens (q : request) : list token :=
  tokens (VStruct (encode_fields (projT1 (args_of q)) (projT2 (args_of q)))) ++ [MessageEnd].
Definition request_tokens (q : request) : list token :=
  MessageBegin (name q) (if oneway q then T_ONEWAY else T_CALL) 0 :: args_tokens q.

(** The replies that fit a request *)
Definition kind_ok (q : request) (r : result reply) : Prop :=
  match q, r with
  | _, Stop _ | Get_client_id, Done (Id _) | Get _ _, Done (One _)
  | (Get_batch _ _ | Search _ _), Done (Many _)
  | (Register_client_id _ _ | Async_get _ _ | Async_put _ _ _ | Async_get_batch _ _ | Async_put_batch _ _ _
    | Put _ _ | Put_batch _ _), Done Void => True
  | _, _ => False
  end.

(** What is answered *)
Definition success_fields (a : reply) : list (Z * value) :=
  match a with
  | Void => []
  | Id z => [(0, encode ty_i64 z)]
  | One s => [(0, encode ty_string s)]
  | Many l => [(0, encode ty_strings l)]
  end.
Definition reply_tokens (what : exn → string) (q : request) (seqid : Z) (r : result reply) : list token :=
  if oneway q then []
  else match r with
    | Done a => MessageBegin (name q) T_REPLY seqid :: tokens (VStruct (success_fields a)) ++ [MessageEnd]
    | Stop (Throw e) => [MessageBegin (name q) T_EXCEPTION seqid; Exn UNKNOWN (what e); MessageEnd]
    | Stop _ => []
    end.

Section correct.
Context {P : Type} `{TProtocolSpec P}.
Lemma struct_ok_nil : struct_ok [].
Proof. split; constructor. Qed.
Lemma struct_ok_success t : struct_ok [fld "success" t 0].
Proof. split; [apply NoDup_singleton|]. constructor; [simpl; lia|constructor]. Qed.

Lemma args_struct_ok q : struct_ok (projT1 (args_of q)).
Proof. destruct q; split; apply (bool_decide_unpack _); vm_compute; exact I. Qed.

Lemma args_values_ok q : request_ok q → values_ok (projT1 (args_of q)) (projT2 (args_of q)).
Proof. destruct q; simpl; naive_solver. Qed.

Lemma name_ok q : string_ok (name q).
Proof. by destruct q. Qed.

Lemma send_message_writes n t (m : M P ()) ts :
  writes m ts → writes (waffle_thriftClient.send_message n t m) (MessageBegin n t 0 :: ts ++ [MessageEnd]).
Proof.
  intros Hm. unfold waffle_thriftClient.send_message. apply writes_cons; [by apply writeMessageBegin_ok|].
  apply writes_bind; [done|]. apply writes_cons; [auto with thrift|].
  apply (writes_bind _ _ [] []); auto with thrift.
Qed.

Lemma send_writes q : request_ok q → writes (send q) (request_tokens q).
Proof.
  intros Hq. pose proof (args_struct_ok q) as Hs. pose proof (args_values_ok q Hq) as Hv.
  destruct q; apply send_message_writes; (apply write_args_writes; [exact Hs|exact Hv]).
Qed.

Variable fuel : nat.
Hypothesis Hfuel : (3 < fuel)%nat.

Lemma args_few q : (length (projT1 (args_of q)) `max` 3 < fuel)%nat.
Proof using Hfuel. destruct q; simpl; lia. Qed.

(** ** At the processor *)
Section processor.
Import waffle_thriftProcessor.
Context {H' : Type}.
Variable what : exn → string.
Variable iface : waffle_thriftIf H'.

Lemma on_prot_run {A} (m : M P A) (h : H') p a p' : m p = (Done a, p') → on_prot m (h, p) = (Done a, (h, p')).
Proof. intros Hm. unfold on_prot, zoom. simpl. by rewrite Hm. Qed.
Lemma on_iface_run {A} (m : M H' A) h (p : P) r h' : m h = (r, h') → on_iface m (h, p) = (r, (h', p)).
Proof. intros Hm. unfold on_iface, zoom. simpl. by rewrite Hm. Qed.

Lemma read_call_reads d v :
  struct_ok (s_fields d) → (length (s_fields d) `max` 3 < fuel)%nat →
  reads (read_call fuel d) (tokens (VStruct (encode_fields (s_fields d) v)) ++ [MessageEnd]) v.
Proof.
  intros Hd Hn. unfold read_call. apply (reads_bind _ _ _ _ (with_all_set _ v)); [by apply read_encoded_args|].
  apply (reads_cons _ _ _ _ ()); [apply readMessageEnd_ok|]. apply (reads_last _ _ _ ()); [apply readEnd_ok|].
  rewrite fields_of_all_set. apply reads_ret.
Qed.

Lemma send_exception_writes n seqid t msg :
  in_int seqid = true → in_int t = true → string_ok msg →
  writes (send_exception n seqid t msg) [MessageBegin n T_EXCEPTION seqid; Exn t msg; MessageEnd].
Proof.
  intros Hs Ht Hm. unfold send_exception. do 3 (apply writes_cons; [auto with thrift|]).
  apply (writes_bind _ _ [] []); auto with thrift.
Qed.

(** What the call of a handler may do for its answer to get through *)
Definition answers {A} (ok : A → Prop) (r : result A) : Prop :=
  match r with Done a => ok a | Stop (Throw e) => string_ok (what e) | Stop _ => False end.

Lemma process_call_runs n args res v seqid (call : values (s_fields args) → M H' (struct (s_fields res))) h r h' p rest :
  struct_ok (s_fields args) → (length (s_fields args) `max` 3 < fuel)%nat → struct_ok (s_fields res) →
  in_int seqid = true → call v h = (r, h') → answers (set_ok (s_fields res)) r →
  incoming p = tokens (VStruct (encode_fields (s_fields args) v)) ++ [MessageEnd] ++ rest →
  ∃ p', process_call fuel what n args res call seqid (h, p) = (Done (), (h', p')) ∧ incoming p' = rest ∧
    outgoing p' = outgoing p ++
      match r with
      | Done a => MessageBegin n T_REPLY seqid :: tokens (VStruct (encode_set_fields (s_fields res) a)) ++ [MessageEnd]
      | Stop (Throw e) => [MessageBegin n T_EXCEPTION seqid; Exn UNKNOWN (what e); MessageEnd]
      | Stop _ => []
      end.
Proof.
  intros Hargs Hn Hres Hid Hcall Hr Hp. rewrite app_assoc in Hp.
  destruct (read_call_reads args v Hargs Hn p rest Hp) as (p1 & H1 & Hi1 & Ho1).
  unfold process_call. rewrite (mbind_run _ _ _ _ _ (on_prot_run _ h _ _ _ H1)). rewrite <- Ho1, <- Hi1. clear H1 Hi1 Ho1.
  assert (Hreply : ∀ m ts, writes m ts →
    ∃ p', on_prot m (h', p1) = (Done (), (h', p')) ∧ incoming p' = incoming p1 ∧ outgoing p' = outgoing p1 ++ ts).
  { intros m ts Hm. destruct (Hm p1) as (p2 & H2 & Ho2 & Hi2). exists p2. split; [by apply on_prot_run|done]. }
  unfold try_catch. destruct r as [a|[e| | | | | |]]; try done.
  - rewrite (mbind_run _ _ _ (inl a) (h', p1)); [|by rewrite (mbind_run _ _ _ _ _ (on_iface_run _ _ _ _ _ Hcall))].
    apply Hreply. apply writes_cons; [by apply writeMessageBegin_ok|].
    apply writes_bind; [by apply write_result_writes|]. apply writes_cons; [auto with thrift|].
    apply (writes_bind _ _ [] []); auto with thrift.
  - rewrite (mbind_run _ _ _ (inr e) (h', p1)); [|by rewrite (mbind_stop _ _ _ _ _ (on_iface_run _ _ _ _ _ Hcall))].
    by apply Hreply, send_exception_writes.
Qed.

Lemma process_oneway_runs args v (call : values (s_fields args) → M H' ()) h r h' p rest :
  struct_ok (s_fields args) → (length (s_fields args) `max` 3 < fuel)%nat →
  call v h = (r, h') → answers (λ _, True) r →
  incoming p = tokens (VStruct (encode_fields (s_fields args) v)) ++ [MessageEnd] ++ rest →
  ∃ p', process_oneway fuel args call (h, p) = (Done (), (h', p')) ∧ incoming p' = rest ∧ outgoing p' = outgoing p.
Proof.
  intros Hargs Hn Hcall Hr Hp. rewrite app_assoc in Hp.
  destruct (read_call_reads args v Hargs Hn p rest Hp) as (p1 & H1 & Hi1 & Ho1). exists p1.
  unfold process_oneway. rewrite (mbind_run _ _ _ _ _ (on_prot_run _ h _ _ _ H1)).
  unfold try_catch. rewrite (on_iface_run _ _ _ _ _ Hcall). by destruct r as [[]|[e| | | | | |]].
Qed.

(** The library reads the header of a message before it calls [dispatchCall]. *)
Definition serve : M (H' * P) bool :=
  m ← on_prot readMessageBegin;
  dispatchCall fuel what iface m.1.1 m.2.

Definition process (q : request) : Z → M (H' * P) () :=
  match q with
  | Get_client_id => process_get_client_id fuel what iface
  | Register_client_id _ _ => process_register_client_id fuel what iface
  | Async_get _ _ => process_async_get fuel iface
  | Async_put _ _ _ => process_async_put fuel iface
  | Async_get_batch _ _ => process_async_get_batch fuel iface
  | Async_put_batch _ _ _ => process_async_put_batch fuel iface
  | Get _ _ => process_get fuel what iface
  | Put _ _ => process_put fuel what iface
  | Get_batch _ _ => process_get_batch fuel what iface
  | Put_batch _ _ => process_put_batch fuel what iface
  | Search _ _ => process_search fuel what iface
  end.

Lemma processMap_name q : processMap_ fuel what iface !! name q = Some (process q).
Proof. by destruct q. Qed.

Lemma fmapM_run {S A B} (f : A → B) (m : M S A) s r s' :
  fmapM f m s = (r, s') → ∃ r0, m s = (r0, s') ∧ r = match r0 with Done a => Done (f a) | Stop e => Stop e end.
Proof. unfold fmapM, mbind, M_bind. destruct (m s) as [[a|e] s1]; intros [= <- <-]; eauto. Qed.
Lemma fmapM_of {S A B} (f : A → B) (m : M S A) s r s' :
  m s = (r, s') → fmapM f m s = (match r with Done a => Done (f a) | Stop e => Stop e end, s').
Proof. unfold fmapM, mbind, M_bind. intros ->. by destruct r. Qed.

(** The cases of [process] for a method with and without a reply *)
Lemma process_call_reply {A} q n args res v call seqid (m : M H' A) (wrap : A → struct (s_fields res)) (f : A → reply) h r h' p rest :
  incoming p = tokens (VStruct (encode_fields (s_fields args) v)) ++ [MessageEnd] ++ rest →
  fmapM f m h = (r, h') → struct_ok (s_fields args) → (length (s_fields args) `max` 3 < fuel)%nat → struct_ok (s_fields res) →
  n = name q → oneway q = false → call v h = fmapM wrap m h →
  (∀ a, encode_set_fields _ (wrap a) = success_fields (f a)) → (∀ a, reply_ok (f a) → set_ok _ (wrap a)) →
  in_int seqid = true → answers reply_ok r →
  ∃ p', process_call fuel what n args res call seqid (h, p) = (Done (), (h', p')) ∧
    incoming p' = rest ∧ outgoing p' = outgoing p ++ reply_tokens what q seqid r.
Proof.
  intros Hp Hm Hargs Hn Hres -> Hq Hcall Henc Hok Hid Hr. apply fmapM_run in Hm as (r0 & Hm & ->).
  destruct (process_call_runs (name q) args res v seqid call h
    (match r0 with Done a => Done (wrap a) | Stop e => Stop e end) h' p rest) as (p' & Hrun & Hin & Hout); try done.
  - rewrite Hcall. by apply fmapM_of.
  - destruct r0; [by apply Hok|done].
  - exists p'. unfold reply_tokens. rewrite Hq. destruct r0; [rewrite <- Henc|]; done.
Qed.

Lemma process_oneway_reply q args v call seqid (m : M H' ()) h r h' p rest :
  incoming p = tokens (VStruct (encode_fields (s_fields args) v)) ++ [MessageEnd] ++ rest →
  fmapM (λ _, Void) m h = (r, h') → struct_ok (s_fields args) → (length (s_fields args) `max` 3 < fuel)%nat →
  oneway q = true → call v = m → answers reply_ok r →
  ∃ p', process_oneway fuel args call (h, p) = (Done (), (h', p')) ∧
    incoming p' = rest ∧ outgoing p' = outgoing p ++ reply_tokens what q seqid r.
Proof.
  intros Hp Hm Hargs Hn Hq Hcall Hr. apply fmapM_run in Hm as (r0 & Hm & ->).
  unfold reply_tokens. rewrite Hq, app_nil_r. apply (process_oneway_runs args v call h r0 h' p rest); try done.
  - by rewrite Hcall.
  - by destruct r0.
Qed.

Lemma unit_fmapM (m : M H' ()) h : m h = fmapM (λ _, ()) m h.
Proof. unfold fmapM, mbind, M_bind. by destruct (m h) as [[[]|] ?]. Qed.

Lemma process_runs q seqid h r h' p rest :
  in_int seqid = true → handle iface q h = (r, h') → answers reply_ok r → incoming p = args_tokens q ++ rest →
  ∃ p', process q seqid (h, p) = (Done (), (h', p')) ∧ incoming p' = rest ∧
    outgoing p' = outgoing p ++ reply_tokens what q seqid r.
Proof.
  intros Hid Hh Hr Hp. pose proof (args_struct_ok q) as Hs. pose proof (args_few q) as Hf.
  unfold args_tokens in Hp. rewrite <- app_assoc in Hp.
  destruct q; cbn [process]; [unfold process_get_client_id|unfold process_register_client_id|unfold process_async_get
    |unfold process_async_put|unfold process_async_get_batch|unfold process_async_put_batch|unfold process_get
    |unfold process_put|unfold process_get_batch|unfold process_put_batch|unfold process_search].
  3-6: by eapply process_oneway_reply; [exact Hp|exact Hh|exact Hs|exact Hf|done|done|exact Hr].
  all: eapply process_call_reply; [exact Hp|exact Hh|exact Hs|exact Hf
    |first [apply struct_ok_nil|apply struct_ok_success]|done|done
    |first [apply unit_fmapM|reflexivity]|done|by intros|done|exact Hr].
Qed.
End processor.

(** ** Back at the client *)
Ltac got H :=
  destruct H as (p' & Hrun & Hin & Hout);
  [first [apply struct_ok_success|apply struct_ok_nil]|simpl; lia|assumption|]; exists p'; split; [|done].
Ltac got_value H := got H; (eapply mbind_run_to; [eapply mbind_run_to; [eassumption|reflexivity]|reflexivity]).
Ltac got_void H := got H; do 2 (eapply mbind_run_to; [|reflexivity]); eassumption.

Section receiver.
Import waffle_thriftClient.

Lemma recv_message_reads n d s this seqid :
  struct_ok (s_fields d) → (length (s_fields d) `max` 3 < fuel)%nat →
  reads (recv_message fuel n d this)
    (MessageBegin n T_REPLY seqid :: tokens (VStruct (encode_set_fields (s_fields d) s)) ++ [MessageEnd]) (overlay _ s this).
Proof.
  intros Hd Hn. unfold recv_message. apply (reads_cons _ _ _ _ (n, T_REPLY, seqid)); [apply readMessageBegin_ok|].
  cbn beta iota. rewrite (decide_False (P := T_REPLY = T_EXCEPTION)), !decide_True by done.
  do 3 apply reads_skip.
  apply (reads_bind _ _ _ _ (overlay _ s this)); [by apply read_encoded|].
  apply (reads_cons _ _ _ _ ()); [apply readMessageEnd_ok|]. apply (reads_last _ _ _ ()); [apply readEnd_ok|].
  apply reads_ret.
Qed.

Lemma recv_message_throws n d this seqid t msg p rest :
  incoming p = [MessageBegin n T_EXCEPTION seqid; Exn t msg; MessageEnd] ++ rest →
  ∃ p', recv_message fuel n d this p = (Stop (Throw (TApplicationException t msg)), p') ∧ incoming p' = rest ∧
    outgoing p' = outgoing p.
Proof.
  intros Hp. destruct (readMessageBegin_ok n T_EXCEPTION seqid _ _ Hp) as (p1 & H1 & Hi1 & Ho1).
  destruct (readException_ok t msg _ (MessageEnd :: rest) Hi1) as (p2 & H2 & Hi2 & Ho2).
  destruct (readMessageEnd_ok _ rest Hi2) as (p3 & H3 & Hi3 & Ho3).
  destruct (readEnd_ok _ rest Hi3) as (p4 & H4 & Hi4 & Ho4). exists p4.
  split; [|split; [done|congruence]]. unfold recv_message. rewrite (mbind_run _ _ _ _ _ H1). cbn beta iota.
  rewrite (decide_True (P := T_EXCEPTION = T_EXCEPTION)) by done. apply mbind_stop. rewrite (mbind_run _ _ _ _ _ H2), (mbind_run _ _ _ _ _ H3).
  by rewrite (mbind_run _ _ _ _ _ H4).
Qed.

(** What the caller gets for the answer [r] of the handler *)
Definition outcome (what : exn → string) (q : request) (r : result reply) : result reply :=
  if oneway q then Done Void
  else match r with Stop (Throw e) => Stop (Throw (TApplicationException UNKNOWN (what e))) | r => r end.

Lemma recv_result_runs d n s this seqid p rest :
  struct_ok (s_fields d) → (length (s_fields d) `max` 3 < fuel)%nat →
  incoming p = MessageBegin n T_REPLY seqid :: tokens (VStruct (encode_set_fields (s_fields d) s)) ++ MessageEnd :: rest →
  ∃ p', recv_message fuel n d this p = (Done (overlay _ s this), p') ∧ incoming p' = rest ∧ outgoing p' = outgoing p.
Proof.
  intros Hd Hn Hp. apply (recv_message_reads n d s this seqid Hd Hn p rest). rewrite Hp.
  cbn [app]. by rewrite <- app_assoc.
Qed.

Lemma recv_reply_runs what q seqid a p rest :
  kind_ok q (Done a) → oneway q = false → incoming p = reply_tokens what q seqid (Done a) ++ rest →
  ∃ p', recv fuel q p = (Done a, p') ∧ incoming p' = rest ∧ outgoing p' = outgoing p.
Proof using Hfuel.
  intros Hk Hq Hp. unfold reply_tokens in Hp. rewrite Hq in Hp. cbn [app] in Hp. rewrite <- app_assoc in Hp.
  destruct q, a; try done; simpl in Hk, Hq.
  - got_value (recv_result_runs get_client_id_presult "get_client_id" ((true, id), ()) ((false, 0), ()) seqid p rest).
  - got_void (recv_result_runs register_client_id_presult "register_client_id" () () seqid p rest).
  - got_value (recv_result_runs get_presult "get" ((true, s), ()) ((false, _return), ()) seqid p rest).
  - got_void (recv_result_runs put_presult "put" () () seqid p rest).
  - got_value (recv_result_runs get_batch_presult "get_batch" ((true, l), ()) ((false, _return), ()) seqid p rest).
  - got_void (recv_result_runs put_batch_presult "put_batch" () () seqid p rest).
  - got_value (recv_result_runs search_presult "search" ((true, l), ()) ((false, _return), ()) seqid p rest).
Qed.

Lemma fmapM_stops {A B C} (f : B → C) (m : M P A) (k : A → M P B) p e (Q : P → Prop) :
  (∃ p', m p = (Stop e, p') ∧ Q p') → ∃ p', fmapM f (m ≫= k) p = (Stop e, p') ∧ Q p'.
Proof. intros (p' & Hm & HQ). exists p'. split; [|done]. by do 2 apply mbind_stop. Qed.

Lemma recv_exception_runs what q seqid e p rest :
  oneway q = false → incoming p = reply_tokens what q seqid (Stop (Throw e)) ++ rest →
  ∃ p', recv fuel q p = (Stop (Throw (TApplicationException UNKNOWN (what e))), p') ∧ incoming p' = rest ∧
    outgoing p' = outgoing p.
Proof.
  intros Hq Hp. unfold reply_tokens in Hp. rewrite Hq in Hp.
  destruct q; try done; cbn [recv];
    unfold recv_get_client_id, recv_register_client_id, recv_get, recv_put, recv_get_batch, recv_put_batch, recv_search;
    apply fmapM_stops;
    match goal with |- ∃ p', recv_message _ ?n ?d ?this _ = _ ∧ _ => apply (recv_message_throws n d this seqid), Hp end.
Qed.

Lemma recv_runs what q seqid r p rest :
  kind_ok q r → answers what reply_ok r → incoming p = reply_tokens what q seqid r ++ rest →
  ∃ p', recv fuel q p = (outcome what q r, p') ∧ incoming p' = rest ∧ outgoing p' = outgoing p.
Proof using Hfuel.
  intros Hk Hr Hp. unfold outcome. destruct (oneway q) eqn:Hq.
  { exists p. unfold reply_tokens in Hp. rewrite Hq in Hp. by destruct q. }
  destruct r as [a|[e| | | | | |]]; try done; [by apply (recv_reply_runs what q seqid)|].
  by apply (recv_exception_runs what q seqid).
Qed.
End receiver.

Section theorems.
Context {H' : Type}.
Variable what : exn → string.
Variable iface : waffle_thriftIf H'.

Lemma handle_kind q h r h' : handle iface q h = (r, h') → kind_ok q r.
Proof. destruct q; intros (r0 & _ & ->)%fmapM_run; by destruct r0. Qed.

Lemma serve_runs q h r h' ps rest :
  handle iface q h = (r, h') → answers what reply_ok r → incoming ps = request_tokens q ++ rest →
  ∃ ps1, serve what iface (h, ps) = (Done true, (h', ps1)) ∧ incoming ps1 = rest ∧
    outgoing ps1 = outgoing ps ++ reply_tokens what q 0 r.
Proof using Hfuel.
  intros Hh Hr Hps. destruct (readMessageBegin_ok _ _ _ _ _ Hps) as (ps0 & Hr0 & Hi0 & Ho0).
  destruct (process_runs what iface q 0 h r h' ps0 rest eq_refl Hh Hr Hi0) as (ps1 & Hp & Hi2 & Ho2).
  exists ps1. split; [|by rewrite Ho2, Ho0].
  unfold serve. rewrite (mbind_run _ _ _ _ _ (on_prot_run _ h _ _ _ Hr0)). simpl.
  unfold waffle_thriftProcessor.dispatchCall. rewrite processMap_name. by rewrite (mbind_run _ _ _ _ _ Hp).
Qed.

(** C13: a call through the client and the processor is a call of the
    handler: the processor reads exactly what the client sent, calls the
    method of the same name once with the same arguments, and the client reads
    exactly what the processor answered and gets the handler's result, or an
    exception that carries the text of the handler's exception; a call without
    a reply returns at once, whatever the handler does. *)
Theorem calls_are_transparent q h r h' pc :
  request_ok q → handle iface q h = (r, h') → answers what reply_ok r →
  ∃ pc1 sent, send q pc = (Done (), pc1) ∧ outgoing pc1 = outgoing pc ++ sent ∧ incoming pc1 = incoming pc ∧
  ∀ ps rest, incoming ps = sent ++ rest →
  ∃ ps1 replied, serve what iface (h, ps) = (Done true, (h', ps1)) ∧ incoming ps1 = rest ∧
    outgoing ps1 = outgoing ps ++ replied ∧
  ∀ pc2 rest', incoming pc2 = replied ++ rest' →
  ∃ pc3, recv fuel q pc2 = (outcome what q r, pc3) ∧ incoming pc3 = rest' ∧ outgoing pc3 = outgoing pc2.
Proof using Hfuel.
  intros Hq Hh Hr. destruct (send_writes q Hq pc) as (pc1 & H1 & Ho1 & Hi1). exists pc1, (request_tokens q).
  do 3 (split; [done|]). intros ps rest Hps.
  destruct (serve_runs q h r h' ps rest Hh Hr Hps) as (ps1 & Hs & Hi2 & Ho2).
  exists ps1, (reply_tokens what q 0 r). do 3 (split; [done|]). intros pc2 rest' Hpc2.
  by apply (recv_runs what q 0 r pc2 rest' (handle_kind q h r h' Hh) Hr).
Qed.

(** A call of a method that the processor does not know leaves the handler
    alone, and is answered with an exception that names the method. *)
Theorem unknown_method_is_reported fname type seqid fields h ps rest :
  waffle_thriftProcessor.processMap_ fuel what iface !! fname = None → in_int seqid = true →
  string_ok ("Invalid method name: '" +:+ fname +:+ "'") →
  incoming ps = MessageBegin fname type seqid :: tokens (VStruct fields) ++ MessageEnd :: rest →
  ∃ ps1, serve what iface (h, ps) = (Done true, (h, ps1)) ∧ incoming ps1 = rest ∧
    outgoing ps1 = outgoing ps ++
      [MessageBegin fname T_EXCEPTION seqid;
       Exn UNKNOWN_METHOD ("Invalid method name: '" +:+ fname +:+ "'"); MessageEnd].
Proof.
  intros Hf Hid Hs Hps.
  assert (Hskip : reads (skip T_STRUCT ;; readMessageEnd ;; readEnd) (tokens (VStruct fields) ++ [MessageEnd]) ()).
  { apply (reads_bind _ _ _ _ ()); [apply (skip_ok (VStruct fields))|].
    apply (reads_last _ _ _ ()); [apply readMessageEnd_ok|apply readEnd_ok]. }
  change (MessageEnd :: rest) with ([MessageEnd] ++ rest) in Hps. rewrite app_assoc in Hps.
  destruct (readMessageBegin_ok _ _ _ _ _ Hps) as (ps0 & H0' & Hi0 & Ho0).
  destruct (Hskip _ _ Hi0) as (ps1 & H1 & Hi1 & Ho1).
  destruct (send_exception_writes fname seqid UNKNOWN_METHOD _ Hid eq_refl Hs ps1) as (ps2 & H2 & Ho2 & Hi2).
  exists ps2. split; [|split; [congruence|]]; [|by rewrite Ho2, Ho1, Ho0].
  unfold serve. rewrite (mbind_run _ _ _ _ _ (on_prot_run _ h _ _ _ H0')). simpl.
  unfold waffle_thriftProcessor.dispatchCall. rewrite Hf.
  rewrite (mbind_run _ _ _ _ _ (on_prot_run _ h _ _ _ H1)).
  by rewrite (mbind_run _ _ _ _ _ (on_prot_run _ h _ _ _ H2)).
Qed.

End theorems.
End correct.
End Rpc.
