(* ===== verification/ConcurrentClient.v ===== *)
(** The concurrent client of the service (service/src/waffle_thrift.cpp,
    [waffle_thriftConcurrentClient]): threads share one connection, a call
    sends its request under a number of its own, and whichever thread holds the
    read lock reads the next answer and hands it on when it belongs to another.

    [TConcurrentClientSyncInfo] of the Thrift library is a parameter, with what
    the generated code relies on ([SyncSpec]).  A turn of the loop of [recv_X]
    keeps the read lock, and is one step; so is the sending of a message, which
    keeps the write lock.  A whole call is its sending and turns of the loop, with
    what other threads do in between as a parameter. *)
From S2P Require Import Prelude.
From S2P Require Import Thrift.
From S2P Require Import WaffleThrift.
From S2P Require Import ThriftRpc.
Import Thrift WaffleThrift.Structs.

Local Open Scope Z_scope.

(** * The library *)

(** The header of a message that was read by a thread it was not meant for *)
Definition header : Type := string * TMessageType * Z.

Class TConcurrentClientSyncInfo (Y : Type) := {
  generateSeqId : M Y Z;
  getPending : M Y (option header);
  updatePending : header → M Y ();
  (** returns when the caller may look for work *)
  waitForWork : Z → M Y ();
  (** the destructors of the sentries; was [commit] called? *)
  recv_sentry_end : Z → bool → M Y ();
  send_sentry_end : bool → M Y ();
}.

Class SyncSpec (Y : Type) `{TConcurrentClientSyncInfo Y} := {
  (** the numbers in use, the header that waits for its owner, and whether
      some waiting thread may go on *)
  in_use : Y → gset Z;
  pending : Y → option header;
  woken : Y → bool;
  (** no sentry was left without [commit] *)
  alive : Y → Prop;
  generateSeqId_ok y seqid y' : alive y → generateSeqId y = (Done seqid, y') →
    seqid ∉ in_use y ∧ in_int seqid = true ∧ in_use y' = {[seqid]} ∪ in_use y ∧ pending y' = pending y
    ∧ woken y' = woken y ∧ alive y';
  getPending_ok y : alive y → ∃ y', getPending y = (Done (pending y), y')
    ∧ in_use y' = in_use y ∧ pending y' = None ∧ alive y';
  updatePending_ok y h : alive y → h.2 ∈ in_use y → ∃ y', updatePending h y = (Done (), y')
    ∧ in_use y' = in_use y ∧ pending y' = Some h ∧ alive y';
  waitForWork_ok y seqid : alive y →
    waitForWork seqid y =
      (if decide (woken y = true ∨ snd <$> pending y = Some seqid) then (Done (), y) else (Stop Blocked, y));
  recv_sentry_end_ok y seqid : alive y → seqid ∈ in_use y → ∃ y', recv_sentry_end seqid true y = (Done (), y')
    ∧ in_use y' = in_use y ∖ {[seqid]} ∧ pending y' = pending y ∧ woken y' = true ∧ alive y';
  send_sentry_end_ok y : alive y → send_sentry_end true y = (Done (), y);
}.

Module waffle_thriftConcurrentClient.
Section client.
Context {Y P : Type} `{TConcurrentClientSyncInfo Y} `{TProtocol P}.
Variable fuel : nat.

Record client := { sync_ : Y; prot_ : P }.
Definition on_sync {A} : M Y A → M client A := zoom sync_ (λ y s, {| sync_ := y; prot_ := prot_ s |}).
Definition on_prot {A} : M P A → M client A := zoom prot_ (λ p s, {| sync_ := sync_ s; prot_ := p |}).

(** ** Sending *)

(** [TConcurrentSendSentry] around [m]; [commit] is the last call. *)
Definition with_send_sentry (m : M client ()) : M client () := λ s,
  match m s with
  | (Done _, s) => on_sync (send_sentry_end true) s
  | (Stop (Throw e), s) => (on_sync (send_sentry_end false) ;; fail (Throw e)) s
  | (Stop e, s) => (Stop e, s)
  end.

Definition write_message (name : string) (type : TMessageType) (cseqid : Z) (write_args : M P ()) : M client () :=
  with_send_sentry (on_prot (
    writeMessageBegin name type cseqid ;;
    write_args ;;
    writeMessageEnd ;;
    writeEnd ;;
    flush)).

Definition send_call (name : string) (write_args : M P ()) : M client Z :=
  cseqid ← on_sync generateSeqId;
  write_message name T_CALL cseqid write_args ;;
  mret cseqid.
Definition send_oneway (name : string) (write_args : M P ()) : M client () :=
  let cseqid := 0 in
  write_message name T_ONEWAY cseqid write_args.

(** ** Receiving *)

(** [TConcurrentRecvSentry] around a turn of the loop: [Some r] when the call
    ends with [r] after [commit], [None] when it waits, an exception when it
    ends without. *)
Definition with_recv_sentry {A} (seqid : Z) (m : M client (option (result A))) : M client (option A) := λ s,
  match m s with
  | (Done (Some r), s) => (on_sync (recv_sentry_end seqid true) ;; a ← lift_result r; mret (Some a)) s
  | (Done None, s) => (Done None, s)
  | (Stop (Throw e), s) => (on_sync (recv_sentry_end seqid false) ;; fail (Throw e)) s
  | (Stop e, s) => (Stop e, s)
  end.

Definition next_message : M client header :=
  h ← on_sync getPending;
  match h with Some h => mret h | None => on_prot readMessageBegin end.

(** What is done with an answer of one's own.  [get_result] is the test of
    [__isset] at the end. *)
Definition recv_answer {A} (name : string) (d : struct_def) (this : struct (s_fields d))
    (get_result : struct (s_fields d) → result A) (fname : string) (mtype : TMessageType) : M P (result A) :=
  if decide (mtype = T_EXCEPTION) then
    x ← readException;
    readMessageEnd ;;
    readEnd ;;
    mret (Stop (Throw (TApplicationException x.1 x.2)))
  else
    (if decide (mtype = T_REPLY) then mret () else waffle_thriftClient.skip_message) ;;
    if decide (fname = name) then
      result ← read_into fuel d this;
      readMessageEnd ;;
      readEnd ;;
      match get_result result with Done a => mret (Done a) | Stop e => fail e end
    else waffle_thriftClient.skip_message ;; fail (Throw (TProtocolException INVALID_DATA)).

(** A turn of the loop; [waiting]: does it begin after [waitForWork]? *)
Definition recv_turn {A} (name : string) (d : struct_def) (this : struct (s_fields d))
    (get_result : struct (s_fields d) → result A) (seqid : Z) (waiting : bool) : M client (option A) :=
  with_recv_sentry seqid (
    (if waiting then on_sync (waitForWork seqid) else mret ()) ;;
    h ← next_message;
    let '(fname, mtype, rseqid) := h in
    if decide (seqid = rseqid) then
      r ← on_prot (recv_answer name d this get_result fname mtype);
      mret (Some r)
    else
      on_sync (updatePending h) ;;
      mret None).

Definition get_success {A} (name : string) (r : (bool * A) * ()) : result A :=
  if r.1.1 then Done r.1.2
  else Stop (Throw (TApplicationException MISSING_RESULT (name +:+ " failed: unknown result"))).
Definition no_result (r : ()) : result () := Done r.

(** ** The methods *)
Definition send_get_client_id : M client Z := send_call "get_client_id" (write_args get_client_id_pargs ()).
Definition recv_get_client_id : Z → bool → M client (option Z) :=
  recv_turn "get_client_id" get_client_id_presult ((false, 0), ()) (get_success "get_client_id").

Definition send_register_client_id (block_id client_id : Z) : M client Z :=
  send_call "register_client_id" (write_args register_client_id_pargs (block_id, (client_id, ()))).
Definition recv_register_client_id : Z → bool → M client (option ()) :=
  recv_turn "register_client_id" register_client_id_presult () no_result.

Definition send_async_get (seq_id : sequence_id) (key : string) : M client () :=
  send_oneway "async_get" (write_args async_get_pargs (seq_id, (key, ()))).
Definition async_get (seq_id : sequence_id) (key : string) : M client () := send_async_get seq_id key.

Definition send_async_put (seq_id : sequence_id) (key value : string) : M client () :=
  send_oneway "async_put" (write_args async_put_pargs (seq_id, (key, (value, ())))).
Definition async_put (seq_id : sequence_id) (key value : string) : M client () := send_async_put seq_id key value.

Definition send_async_get_batch (seq_id : sequence_id) (keys : list string) : M client () :=
  send_oneway "async_get_batch" (write_args async_get_batch_pargs (seq_id, (keys, ()))).
Definition async_get_batch (seq_id : sequence_id) (keys : list string) : M client () := send_async_get_batch seq_id keys.

Definition send_async_put_batch (seq_id : sequence_id) (keys values : list string) : M client () :=
  send_oneway "async_put_batch" (write_args async_put_batch_pargs (seq_id, (keys, (values, ())))).
Definition async_put_batch (seq_id : sequence_id) (keys values : list string) : M client () :=
  send_async_put_batch seq_id keys values.

Definition send_get (key : string) : M client Z := send_call "get" (write_args get_pargs (key, ())).
Definition recv_get (_return : string) : Z → bool → M client (option string) :=
  recv_turn "get" get_presult ((false, _return), ()) (get_success "get").

Definition send_put (key value : string) : M client Z := send_call "put" (write_args put_pargs (key, (value, ()))).
Definition recv_put : Z → bool → M client (option ()) := recv_turn "put" put_presult () no_result.

Definition send_get_batch (keys : list string) : M client Z := send_call "get_batch" (write_args get_batch_pargs (keys, ())).
Definition recv_get_batch (_return : list string) : Z → bool → M client (option (list string)) :=
  recv_turn "get_batch" get_batch_presult ((false, _return), ()) (get_success "get_batch").

Definition send_put_batch (keys values : list string) : M client Z :=
  send_call "put_batch" (write_args put_batch_pargs (keys, (values, ()))).
Definition recv_put_batch : Z → bool → M client (option ()) := recv_turn "put_batch" put_batch_presult () no_result.

Definition send_search (keys : string) : M client Z := send_call "search" (write_args search_pargs (keys, ())).
Definition recv_search (_return : list string) : Z → bool → M client (option (list string)) :=
  recv_turn "search" search_presult ((false, _return), ()) (get_success "search").

(** ** A whole call *)
(** what the other threads do before each turn *)
Variable others : M client ().
(** how many turns the loop takes at most *)
Variable turns : nat.

(** [while (true)] of [recv_X] *)
Fixpoint loop {A} (turns : nat) (turn : bool → M client (option A)) (waiting : bool) : M client A :=
  match turns with
  | O => fail OutOfFuel
  | S turns =>
      others ;;
      r ← turn waiting;
      match r with Some a => mret a | None => loop turns turn true end
  end.

Definition get_client_id : M client Z :=
  seqid ← send_get_client_id; loop turns (recv_get_client_id seqid) false.
Definition register_client_id (block_id client_id : Z) : M client () :=
  seqid ← send_register_client_id block_id client_id; loop turns (recv_register_client_id seqid) false.
Definition get (_return : string) (key : string) : M client string :=
  seqid ← send_get key; loop turns (recv_get _return seqid) false.
Definition put (key value : string) : M client () :=
  seqid ← send_put key value; loop turns (recv_put seqid) false.
Definition get_batch (_return keys : list string) : M client (list string) :=
  seqid ← send_get_batch keys; loop turns (recv_get_batch _return seqid) false.
Definition put_batch (keys values : list string) : M client () :=
  seqid ← send_put_batch keys values; loop turns (recv_put_batch seqid) false.
Definition search (_return : list string) (keys : string) : M client (list string) :=
  seqid ← send_search keys; loop turns (recv_search _return seqid) false.

End client.
Arguments client : clear implicits.
End waffle_thriftConcurrentClient.

(** * Calls of many threads *)
Module Concurrent.
Import Rpc waffle_thriftConcurrentClient.

Section calls.
Context {Y P : Type} {sync : TConcurrentClientSyncInfo Y} {prot : TProtocol P}.
Variable fuel : nat.
Abbreviation client := (client Y P).

(** The first half of a call: the number, and the message *)
Definition args_writer (q : request) : M P () :=
  match q with
  | Get_client_id => write_args get_client_id_pargs ()
  | Register_client_id block_id client_id => write_args register_client_id_pargs (block_id, (client_id, ()))
  | Async_get seq_id key => write_args async_get_pargs (seq_id, (key, ()))
  | Async_put seq_id key value => write_args async_put_pargs (seq_id, (key, (value, ())))
  | Async_get_batch seq_id keys => write_args async_get_batch_pargs (seq_id, (keys, ()))
  | Async_put_batch seq_id keys values => write_args async_put_batch_pargs (seq_id, (keys, (values, ())))
  | Get _ key => write_args get_pargs (key, ())
  | Put key value => write_args put_pargs (key, (value, ()))
  | Get_batch _ keys => write_args get_batch_pargs (keys, ())
  | Put_batch keys values => write_args put_batch_pargs (keys, (values, ()))
  | Search _ keys => write_args search_pargs (keys, ())
  end.
Definition write_request (q : request) (cseqid : Z) : M client () :=
  write_message (name q) (if oneway q then T_ONEWAY else T_CALL) cseqid (args_writer q).

Definition send (q : request) : M client (option Z) :=
  match q with
  | Get_client_id => fmapM Some send_get_client_id
  | Register_client_id block_id client_id => fmapM Some (send_register_client_id block_id client_id)
  | Async_get seq_id key => fmapM (λ _, None) (async_get seq_id key)
  | Async_put seq_id key value => fmapM (λ _, None) (async_put seq_id key value)
  | Async_get_batch seq_id keys => fmapM (λ _, None) (async_get_batch seq_id keys)
  | Async_put_batch seq_id keys values => fmapM (λ _, None) (async_put_batch seq_id keys values)
  | Get _ key => fmapM Some (send_get key)
  | Put key value => fmapM Some (send_put key value)
  | Get_batch _ keys => fmapM Some (send_get_batch keys)
  | Put_batch keys values => fmapM Some (send_put_batch keys values)
  | Search _ keys => fmapM Some (send_search keys)
  end.

(** The halves, between which other threads may run, are the whole. *)
Lemma send_halves q s :
  send q s =
    if oneway q then (write_request q 0 ;; mret None) s
    else (seqid ← on_sync generateSeqId; write_request q seqid ;; mret (Some seqid)) s.
Proof.
  destruct q; try reflexivity; cbn [send oneway name];
    unfold fmapM, send_get_client_id, send_register_client_id, send_get, send_put, send_get_batch, send_put_batch,
      send_search, send_call; rewrite mbind_assoc; apply mbind_ext; intros seqid s'; apply mbind_assoc.
Qed.

(** A turn of the second half *)
Definition recv (q : request) (seqid : Z) (waiting : bool) : M client (option reply) :=
  match q with
  | Get_client_id => fmapM (fmap Id) (recv_get_client_id fuel seqid waiting)
  | Register_client_id _ _ => fmapM (fmap (λ _, Void)) (recv_register_client_id fuel seqid waiting)
  | Async_get _ _ | Async_put _ _ _ | Async_get_batch _ _ | Async_put_batch _ _ _ => mret (Some Void)
  | Get _return _ => fmapM (fmap One) (recv_get fuel _return seqid waiting)
  | Put _ _ => fmapM (fmap (λ _, Void)) (recv_put fuel seqid waiting)
  | Get_batch _return _ => fmapM (fmap Many) (recv_get_batch fuel _return seqid waiting)
  | Put_batch _ _ => fmapM (fmap (λ _, Void)) (recv_put_batch fuel seqid waiting)
  | Search _return _ => fmapM (fmap Many) (recv_search fuel _return seqid waiting)
  end.

(** Both *)
Definition method (others : M client ()) (turns : nat) (q : request) : M client reply :=
  match q with
  | Get_client_id => fmapM Id (get_client_id fuel others turns)
  | Register_client_id block_id client_id => fmapM (λ _, Void) (register_client_id fuel others turns block_id client_id)
  | Async_get seq_id key => fmapM (λ _, Void) (async_get seq_id key)
  | Async_put seq_id key value => fmapM (λ _, Void) (async_put seq_id key value)
  | Async_get_batch seq_id keys => fmapM (λ _, Void) (async_get_batch seq_id keys)
  | Async_put_batch seq_id keys values => fmapM (λ _, Void) (async_put_batch seq_id keys values)
  | Get _return key => fmapM One (get fuel others turns _return key)
  | Put key value => fmapM (λ _, Void) (put fuel others turns key value)
  | Get_batch _return keys => fmapM Many (get_batch fuel others turns _return keys)
  | Put_batch keys values => fmapM (λ _, Void) (put_batch fuel others turns keys values)
  | Search _return keys => fmapM Many (search fuel others turns _return keys)
  end.

Lemma loop_fmap {A B} (f : A → B) others turns (turn : bool → M client (option A)) waiting s :
  fmapM f (loop others turns turn waiting) s = loop others turns (λ waiting, fmapM (fmap f) (turn waiting)) waiting s.
Proof.
  revert waiting s. induction turns as [|turns IH]; intros waiting s; [done|]. cbn [loop]. unfold fmapM.
  rewrite mbind_assoc. apply mbind_ext. intros [] s1. rewrite !mbind_assoc. apply mbind_ext. intros [a|] s2; [done|].
  apply IH.
Qed.

(** A call is its first half, and turns of the second until it returns. *)
Lemma method_halves others turns q s :
  oneway q = false →
  method others turns q s =
    (seqid ← on_sync generateSeqId; write_request q seqid ;; loop others turns (recv q seqid) false) s.
Proof.
  intros Hq. destruct q; try done; cbn [method recv];
    unfold fmapM at 1, get_client_id, register_client_id, get, put, get_batch, put_batch, search, send_get_client_id,
      send_register_client_id, send_get, send_put, send_get_batch, send_put_batch, send_search, send_call;
    rewrite !mbind_assoc; apply mbind_ext; intros seqid s1; rewrite !mbind_assoc; apply mbind_ext; intros [] s2;
    exact (loop_fmap _ _ _ _ _ _).
Qed.

(** * The system *)

(** A call that has its number: is it sent, does it wait for its answer, and
    what did the handler answer? *)
Record call := { c_request : request; c_sent : bool; c_waiting : bool; c_reply : option (result reply) }.
Definition new_call (q : request) : call := {| c_request := q; c_sent := false; c_waiting := false; c_reply := None |}.
Definition sent (c : call) : call :=
  {| c_request := c_request c; c_sent := true; c_waiting := c_waiting c; c_reply := c_reply c |}.
Definition waits (c : call) : call :=
  {| c_request := c_request c; c_sent := c_sent c; c_waiting := true; c_reply := c_reply c |}.
Definition answered (r : result reply) (c : call) : call :=
  {| c_request := c_request c; c_sent := c_sent c; c_waiting := c_waiting c; c_reply := Some r |}.

Record sys := {
  s_client : client;
  s_calls : gmap Z call;
  (** the calls that have returned, with what they returned *)
  s_finished : list (call * result reply);
}.
End calls.
Arguments sys : clear implicits.

(** * Turns *)
Section turns.
Context {Y P : Type} {sync : TConcurrentClientSyncInfo Y} {syncS : SyncSpec Y} {prot : TProtocol P} {protS : TProtocolSpec P}.
Abbreviation client := (client Y P).
Implicit Types cl : client.

(** What is still to be read: the header that waits, and what comes after *)
Definition header_token (h : header) : token := MessageBegin h.1.1 h.1.2 h.2.
Definition unread cl : list token := (header_token <$> option_list (pending (sync_ cl))) ++ incoming (prot_ cl).

(** May a thread take a turn?  One that waits has to be woken, and there has
    to be something to read. *)
Definition may_go (waiting : bool) (seqid : Z) cl : Prop :=
  waiting = true → woken (sync_ cl) = true ∨ snd <$> pending (sync_ cl) = Some seqid.

Lemma on_sync_run {A} (m : M Y A) cl r y : m (sync_ cl) = (r, y) → on_sync m cl = (r, {| sync_ := y; prot_ := prot_ cl |}).
Proof. intros Hm. unfold on_sync, zoom. by rewrite Hm. Qed.
Lemma client_prot_run {A} (m : M P A) cl r p : m (prot_ cl) = (r, p) → on_prot m cl = (r, {| sync_ := sync_ cl; prot_ := p |}).
Proof. intros Hm. unfold on_prot, zoom. by rewrite Hm. Qed.

Lemma next_message_run cl h ts :
  alive (sync_ cl) → unread cl = header_token h :: ts →
  ∃ cl', next_message cl = (Done h, cl') ∧ alive (sync_ cl') ∧ in_use (sync_ cl') = in_use (sync_ cl)
    ∧ pending (sync_ cl') = None ∧ incoming (prot_ cl') = ts ∧ outgoing (prot_ cl') = outgoing (prot_ cl).
Proof.
  intros Ha Hu. destruct (getPending_ok _ Ha) as (y & Hget & Hin & Hp & Ha'). unfold next_message.
  rewrite (mbind_run _ _ _ _ _ (on_sync_run _ cl _ _ Hget)). unfold unread in Hu.
  destruct (pending (sync_ cl)) as [[[f m] i]|]; simpl in Hu.
  - injection Hu as -> -> -> Hi. destruct h as [[f m] i]. eexists. split; [reflexivity|]. done.
  - destruct h as [[f m] i]. destruct (readMessageBegin_ok f m i _ _ Hu) as (p & Hrun & Hi & Ho).
    eexists. split; [by apply client_prot_run|]. done.
Qed.

Variable fuel : nat.

Lemma may_go_run waiting seqid cl :
  alive (sync_ cl) → may_go waiting seqid cl →
  (if waiting then on_sync (waitForWork seqid) else mret ()) cl = (Done (), cl).
Proof.
  intros Ha Hgo. destruct waiting; [|done]. pose proof (waitForWork_ok _ seqid Ha) as Hw.
  rewrite decide_True in Hw by (by apply Hgo). rewrite (on_sync_run _ _ _ _ Hw). by destruct cl.
Qed.

Section one.
Context {A : Type} (n : string) (d : struct_def) (this : struct (s_fields d)) (gr : struct (s_fields d) → result A).

(** A turn that reads an answer for another thread hands it on. *)
Lemma recv_turn_other seqid waiting cl h ts :
  alive (sync_ cl) → may_go waiting seqid cl → unread cl = header_token h :: ts → h.2 ≠ seqid → h.2 ∈ in_use (sync_ cl) →
  ∃ cl', recv_turn fuel n d this gr seqid waiting cl = (Done None, cl') ∧ alive (sync_ cl')
    ∧ in_use (sync_ cl') = in_use (sync_ cl) ∧ pending (sync_ cl') = Some h ∧ incoming (prot_ cl') = ts
    ∧ outgoing (prot_ cl') = outgoing (prot_ cl).
Proof.
  intros Ha Hgo Hu Hne Hin. destruct (next_message_run cl h ts Ha Hu) as (c1 & Hn & Ha1 & Hin1 & _ & Hi1 & Ho1).
  destruct (updatePending_ok _ h Ha1) as (y & Hup & Hin2 & Hp2 & Ha2); [by rewrite Hin1|].
  eexists. split.
  - unfold recv_turn, with_recv_sentry. rewrite (mbind_run _ _ _ _ _ (may_go_run _ _ _ Ha Hgo)), (mbind_run _ _ _ _ _ Hn).
    destruct h as [[f m] i]. simpl in Hne. rewrite decide_False by done.
    rewrite (mbind_run _ _ _ _ _ (on_sync_run _ c1 _ _ Hup)). reflexivity.
  - cbn [sync_ prot_]. rewrite Hin2. done.
Qed.

(** A turn that reads the answer of its own call ends it. *)
Lemma recv_turn_own seqid waiting cl f m ts r rest :
  alive (sync_ cl) → may_go waiting seqid cl → unread cl = header_token (f, m, seqid) :: ts → seqid ∈ in_use (sync_ cl) →
  (∀ p, incoming p = ts → ∃ p', recv_answer fuel n d this gr f m p = (Done r, p') ∧ incoming p' = rest ∧ outgoing p' = outgoing p) →
  ∃ cl', recv_turn fuel n d this gr seqid waiting cl = (a ← r; Done (Some a), cl') ∧ alive (sync_ cl')
    ∧ in_use (sync_ cl') = in_use (sync_ cl) ∖ {[seqid]} ∧ pending (sync_ cl') = None ∧ woken (sync_ cl') = true
    ∧ incoming (prot_ cl') = rest ∧ outgoing (prot_ cl') = outgoing (prot_ cl).
Proof.
  intros Ha Hgo Hu Hin Hans. destruct (next_message_run cl _ ts Ha Hu) as (c1 & Hn & Ha1 & Hin1 & Hp1 & Hi1 & Ho1).
  destruct (Hans _ Hi1) as (p & Hrun & Hi2 & Ho2).
  destruct (recv_sentry_end_ok (sync_ c1) seqid Ha1) as (y & Hend & Hin3 & Hp3 & Hw3 & Ha3); [by rewrite Hin1|].
  exists {| sync_ := y; prot_ := p |}. split.
  - unfold recv_turn, with_recv_sentry. rewrite (mbind_run _ _ _ _ _ (may_go_run _ _ _ Ha Hgo)), (mbind_run _ _ _ _ _ Hn).
    rewrite decide_True by done. rewrite (mbind_run _ _ _ _ _ (client_prot_run _ c1 _ _ Hrun)). cbn [mret M_ret].
    rewrite (mbind_run _ _ _ _ _ (on_sync_run _ {| sync_ := sync_ c1; prot_ := p |} _ _ Hend)). by destruct r.
  - cbn [sync_ prot_]. rewrite Hin3, Hin1, Hp3. split; [done|]. split; [done|]. split; [done|]. split; [done|]. split; [done|]. congruence.
Qed.
End one.

(** ** Answers *)
Section answer.
Context {A : Type} (n : string) (d : struct_def) (this : struct (s_fields d)) (gr : struct (s_fields d) → result A).
Hypotheses (Hd : struct_ok (s_fields d)) (Hfuel : (length (s_fields d) `max` 3 < fuel)%nat).

Lemma recv_answer_reply s a :
  gr (overlay _ s this) = Done a →
  reads (recv_answer fuel n d this gr n T_REPLY) (tokens (VStruct (encode_set_fields (s_fields d) s)) ++ [MessageEnd]) (Done a).
Proof using Hd Hfuel.
  intros Hgr. unfold recv_answer. rewrite (decide_False (P := T_REPLY = T_EXCEPTION)), !decide_True by done. apply reads_skip.
  apply (reads_bind _ _ _ _ (overlay _ s this)); [by apply read_encoded|].
  apply (reads_cons _ _ _ _ ()); [apply readMessageEnd_ok|]. apply (reads_last _ _ _ ()); [apply readEnd_ok|].
  rewrite Hgr. apply reads_ret.
Qed.

Lemma recv_answer_exception t msg :
  reads (recv_answer fuel n d this gr n T_EXCEPTION) [Exn t msg; MessageEnd] (Stop (Throw (TApplicationException t msg))).
Proof.
  unfold recv_answer. rewrite decide_True by done.
  apply (reads_cons _ _ _ _ (t, msg)); [apply readException_ok|]. apply (reads_cons _ _ _ _ ()); [apply readMessageEnd_ok|].
  apply (reads_last _ _ _ ()); [apply readEnd_ok|]. apply reads_ret.
Qed.
End answer.

(** ** The turns of a request *)
Variable what : exn → string.
Hypothesis Hfuel : (3 < fuel)%nat.

Definition reply_header (q : request) (seqid : Z) (r : result reply) : header :=
  (name q, match r with Done _ => T_REPLY | Stop _ => T_EXCEPTION end, seqid).
Definition reply_body (r : result reply) : list token :=
  match r with
  | Done a => tokens (VStruct (success_fields a)) ++ [MessageEnd]
  | Stop (Throw e) => [Exn UNKNOWN (what e); MessageEnd]
  | Stop _ => []
  end.

Lemma reply_tokens_split q seqid r :
  oneway q = false → answers what reply_ok r →
  reply_tokens what q seqid r = header_token (reply_header q seqid r) :: reply_body r.
Proof. intros Hq Hr. unfold reply_tokens. rewrite Hq. by destruct r as [a|[e| | | | | |]]. Qed.

(** [recv] is a turn with some result struct, that understands the replies to
    [q]. *)
Definition understands {A} (q : request) (d : struct_def) (this : struct (s_fields d))
    (gr : struct (s_fields d) → result A) (f : A → reply) : Prop :=
  ∀ r, kind_ok q r → answers what reply_ok r →
    ∃ a, (x ← a; Done (f x)) = outcome what q r
      ∧ reads (recv_answer fuel (name q) d this gr (name q) (reply_header q 0 r).1.2) (reply_body r) a.

Lemma understands_one q d this A (gr : struct (s_fields d) → result A) f :
  oneway q = false → struct_ok (s_fields d) → (length (s_fields d) `max` 3 < fuel)%nat →
  (∀ a, kind_ok q (Done a) → reply_ok a → ∃ s x, success_fields a = encode_set_fields (s_fields d) s
     ∧ gr (overlay _ s this) = Done x ∧ f x = a) →
  understands q d this gr f.
Proof.
  intros Hq Hd Hn Hs r Hk Hr. unfold outcome. rewrite Hq. destruct r as [a|[e| | | | | |]]; try done.
  - destruct (Hs a Hk Hr) as (s & x & Henc & Hgr & <-). exists (Done x). split; [done|]. cbn [reply_body]. rewrite Henc.
    by apply recv_answer_reply.
  - eexists. split; [|by apply recv_answer_exception]. done.
Qed.

Lemma recv_understands q :
  oneway q = false →
  ∃ A d this (gr : struct (s_fields d) → result A) f,
    (∀ seqid waiting cl, recv fuel q seqid waiting cl = fmapM (fmap f) (recv_turn fuel (name q) d this gr seqid waiting) cl)
    ∧ understands q d this gr f.
Proof using Hfuel.
  intros Hq. destruct q; try done.
  - exists Z, get_client_id_presult, ((false, 0), ()), (get_success "get_client_id"), Id. split; [done|].
    apply understands_one; [done|apply struct_ok_success|simpl; lia|]. intros [|z| |] Hk _; try done.
    by exists ((true, z), ()), z.
  - exists unit, register_client_id_presult, (), no_result, (λ _, Void). split; [done|].
    apply understands_one; [done|apply struct_ok_nil|simpl; lia|]. intros [] Hk _; try done. by exists (), ().
  - exists string, get_presult, ((false, _return), ()), (get_success "get"), One. split; [done|].
    apply understands_one; [done|apply struct_ok_success|simpl; lia|]. intros [| |x|] Hk _; try done.
    by exists ((true, x), ()), x.
  - exists unit, put_presult, (), no_result, (λ _, Void). split; [done|].
    apply understands_one; [done|apply struct_ok_nil|simpl; lia|]. intros [] Hk _; try done. by exists (), ().
  - exists (list string), get_batch_presult, ((false, _return), ()), (get_success "get_batch"), Many. split; [done|].
    apply understands_one; [done|apply struct_ok_success|simpl; lia|]. intros [| | |l] Hk _; try done.
    by exists ((true, l), ()), l.
  - exists unit, put_batch_presult, (), no_result, (λ _, Void). split; [done|].
    apply understands_one; [done|apply struct_ok_nil|simpl; lia|]. intros [] Hk _; try done. by exists (), ().
  - exists (list string), search_presult, ((false, _return), ()), (get_success "search"), Many. split; [done|].
    apply understands_one; [done|apply struct_ok_success|simpl; lia|]. intros [| | |l] Hk _; try done.
    by exists ((true, l), ()), l.
Qed.

(** What a call that ends returns *)
Definition some_result (res : result reply) : result (option reply) := a ← res; Done (Some a).

Lemma recv_own q seqid waiting cl r rest :
  oneway q = false → kind_ok q r → answers what reply_ok r →
  alive (sync_ cl) → may_go waiting seqid cl → seqid ∈ in_use (sync_ cl) →
  unread cl = header_token (reply_header q seqid r) :: reply_body r ++ rest →
  ∃ cl', recv fuel q seqid waiting cl = (some_result (outcome what q r), cl') ∧ alive (sync_ cl')
    ∧ in_use (sync_ cl') = in_use (sync_ cl) ∖ {[seqid]} ∧ pending (sync_ cl') = None ∧ woken (sync_ cl') = true
    ∧ incoming (prot_ cl') = rest ∧ outgoing (prot_ cl') = outgoing (prot_ cl).
Proof using Hfuel.
  intros Hq Hk Hr Ha Hgo Hin Hu. destruct (recv_understands q Hq) as (A & d & this & gr & f & Hrecv & Hund).
  destruct (Hund r Hk Hr) as (a & Hout & Hreads).
  destruct (recv_turn_own (name q) d this gr seqid waiting cl _ _ (reply_body r ++ rest) a rest Ha Hgo Hu Hin) as (cl' & Hrun & Hcl').
  { intros p Hp. by apply Hreads. }
  exists cl'. split; [|done]. rewrite Hrecv, (fmapM_of _ _ _ _ _ Hrun), <- Hout. by destruct a.
Qed.

Lemma recv_other q seqid waiting cl h ts :
  oneway q = false → alive (sync_ cl) → may_go waiting seqid cl → unread cl = header_token h :: ts → h.2 ≠ seqid →
  h.2 ∈ in_use (sync_ cl) →
  ∃ cl', recv fuel q seqid waiting cl = (Done None, cl') ∧ alive (sync_ cl')
    ∧ in_use (sync_ cl') = in_use (sync_ cl) ∧ pending (sync_ cl') = Some h ∧ incoming (prot_ cl') = ts
    ∧ outgoing (prot_ cl') = outgoing (prot_ cl).
Proof using Hfuel what.
  intros Hq Ha Hgo Hu Hne Hin. destruct (recv_understands q Hq) as (A & d & this & gr & f & Hrecv & _).
  destruct (recv_turn_other (name q) d this gr seqid waiting cl h ts Ha Hgo Hu Hne Hin) as (cl' & Hrun & Hcl').
  exists cl'. split; [|done]. by rewrite Hrecv, (fmapM_of _ _ _ _ _ Hrun).
Qed.

(** A thread that is not woken stays where it is. *)
Lemma recv_blocked q seqid cl :
  oneway q = false → alive (sync_ cl) → ¬ may_go true seqid cl → recv fuel q seqid true cl = (Stop Blocked, cl).
Proof using Hfuel what protS.
  intros Hq Ha Hgo. destruct (recv_understands q Hq) as (A & d & this & gr & f & Hrecv & _). rewrite Hrecv.
  pose proof (waitForWork_ok _ seqid Ha) as Hw. rewrite decide_False in Hw by (intros Hor; apply Hgo; by intros _).
  assert (on_sync (waitForWork seqid) cl = (Stop Blocked, cl)) as Hb by (rewrite (on_sync_run _ _ _ _ Hw); by destruct cl).
  unfold fmapM. apply mbind_stop. unfold recv_turn, with_recv_sentry. by rewrite (mbind_stop _ _ _ _ _ Hb).
Qed.

(** A message that is sent *)
Lemma args_writer_writes q : request_ok q → writes (args_writer q) (tokens (VStruct (encode_fields (projT1 (args_of q)) (projT2 (args_of q))))).
Proof.
  intros Hq. pose proof (args_struct_ok q) as Hs. pose proof (args_values_ok q Hq) as Hv.
  destruct q; (apply write_args_writes; [exact Hs|exact Hv]).
Qed.

Lemma write_request_run q seqid cl :
  request_ok q → in_int seqid = true → alive (sync_ cl) →
  ∃ p, write_request q seqid cl = (Done (), {| sync_ := sync_ cl; prot_ := p |}) ∧ incoming p = incoming (prot_ cl)
    ∧ outgoing p = outgoing (prot_ cl) ++ MessageBegin (name q) (if oneway q then T_ONEWAY else T_CALL) seqid :: args_tokens q.
Proof.
  intros Hq Hid Ha.
  assert (writes (writeMessageBegin (name q) (if oneway q then T_ONEWAY else T_CALL) seqid ;; args_writer q ;;
    writeMessageEnd ;; writeEnd ;; flush) (MessageBegin (name q) (if oneway q then T_ONEWAY else T_CALL) seqid :: args_tokens q)) as Hw.
  { apply writes_cons; [by apply writeMessageBegin_ok|]. unfold args_tokens. apply writes_bind; [by apply args_writer_writes|].
    apply writes_cons; [auto with thrift|]. apply (writes_bind _ _ [] []); auto with thrift. }
  destruct (Hw (prot_ cl)) as (p & Hrun & Ho & Hi). exists p. split; [|done].
  unfold write_request, write_message, with_send_sentry. rewrite (client_prot_run _ cl _ _ Hrun).
  unfold on_sync, zoom. cbn [sync_ prot_]. by rewrite send_sentry_end_ok.
Qed.

(** A whole call: when its answer is the next to read as soon as the thread has
    the connection again, the call returns what the handler did, and its number
    is free. *)
Theorem method_returns others turns q r rest cl seqid y :
  oneway q = false → request_ok q → kind_ok q r → answers what reply_ok r →
  alive (sync_ cl) → generateSeqId (sync_ cl) = (Done seqid, y) →
  (∀ p, outgoing p = outgoing (prot_ cl) ++ MessageBegin (name q) T_CALL seqid :: args_tokens q →
     incoming p = incoming (prot_ cl) →
     ∃ cl', others {| sync_ := y; prot_ := p |} = (Done (), cl') ∧ alive (sync_ cl') ∧ seqid ∈ in_use (sync_ cl')
       ∧ unread cl' = header_token (reply_header q seqid r) :: reply_body r ++ rest) →
  ∃ cl', method fuel others (S turns) q cl = (outcome what q r, cl') ∧ alive (sync_ cl') ∧ seqid ∉ in_use (sync_ cl')
    ∧ incoming (prot_ cl') = rest.
Proof using Hfuel.
  intros Hq Hok Hk Hr Ha Hgen Hothers. destruct (generateSeqId_ok _ _ _ Ha Hgen) as (_ & Hint & _ & _ & _ & Hay).
  destruct (write_request_run q seqid {| sync_ := y; prot_ := prot_ cl |} Hok Hint Hay) as (p & Hw & Hi & Ho). rewrite Hq in Ho.
  destruct (Hothers p Ho Hi) as (c2 & Hrun & Ha2 & Hin & Hu).
  destruct (recv_own q seqid false c2 r rest Hq Hk Hr Ha2 ltac:(done) Hin Hu) as (c3 & Hrecv & Ha3 & Hin3 & _ & _ & Hi3 & _).
  exists c3. split.
  - rewrite method_halves by done. rewrite (mbind_run _ _ _ _ _ (on_sync_run _ _ _ _ Hgen)), (mbind_run _ _ _ _ _ Hw).
    cbn [loop]. rewrite (mbind_run _ _ _ _ _ Hrun). unfold mbind, M_bind. rewrite Hrecv. by destruct (outcome what q r).
  - rewrite Hin3. split; [done|]. split; [set_solver|done].
Qed.

(** * Runs *)
Abbreviation sys := (sys Y P).

(** A call that ends returns a value or throws. *)
Definition ends (res : result reply) : Prop :=
  match res with Done _ | Stop (Throw _) => True | Stop _ => False end.

(** The steps of the threads, and the arrival of an answer: the processor at
    the other end answers each message once, in whatever order.  A turn that
    finds nothing to read waits there, and is no step. *)
Inductive step (s : sys) : sys → Prop :=
  | step_generate q seqid cl :
      request_ok q → oneway q = false → on_sync generateSeqId (s_client s) = (Done seqid, cl) →
      step s {| s_client := cl; s_calls := <[seqid := new_call q]> (s_calls s); s_finished := s_finished s |}
  | step_write seqid c cl :
      s_calls s !! seqid = Some c → c_sent c = false → write_request (c_request c) seqid (s_client s) = (Done (), cl) →
      step s {| s_client := cl; s_calls := <[seqid := sent c]> (s_calls s); s_finished := s_finished s |}
  | step_oneway q cl :
      request_ok q → oneway q = true → send q (s_client s) = (Done None, cl) →
      step s {| s_client := cl; s_calls := s_calls s; s_finished := s_finished s |}
  | step_arrive seqid c r p :
      s_calls s !! seqid = Some c → c_sent c = true → c_reply c = None →
      kind_ok (c_request c) r → answers what reply_ok r →
      incoming p = incoming (prot_ (s_client s)) ++ reply_tokens what (c_request c) seqid r →
      outgoing p = outgoing (prot_ (s_client s)) →
      step s {| s_client := {| sync_ := sync_ (s_client s); prot_ := p |};
                s_calls := <[seqid := answered r c]> (s_calls s); s_finished := s_finished s |}
  | step_finish seqid c res cl :
      s_calls s !! seqid = Some c → c_sent c = true → unread (s_client s) ≠ [] →
      recv fuel (c_request c) seqid (c_waiting c) (s_client s) = (some_result res, cl) → ends res →
      step s {| s_client := cl; s_calls := delete seqid (s_calls s); s_finished := s_finished s ++ [(c, res)] |}
  | step_wait seqid c cl :
      s_calls s !! seqid = Some c → c_sent c = true → unread (s_client s) ≠ [] →
      recv fuel (c_request c) seqid (c_waiting c) (s_client s) = (Done None, cl) →
      step s {| s_client := cl; s_calls := <[seqid := waits c]> (s_calls s); s_finished := s_finished s |}.

(** A new client *)
Record started (s : sys) : Prop := {
  start_alive : alive (sync_ (s_client s));
  start_unused : in_use (sync_ (s_client s)) = ∅;
  start_unread : unread (s_client s) = [];
  start_calls : s_calls s = ∅;
  start_finished : s_finished s = [];
}.

(** ** The invariant *)

(** The answer to a call, as it is sent *)
Definition message (calls : gmap Z call) (i : Z) : list token :=
  match calls !! i with
  | Some c => match c_reply c with Some r => reply_tokens what (c_request c) i r | None => [] end
  | None => []
  end.

Record call_ok (i : Z) (c : call) : Prop := {
  ok_request : request_ok (c_request c) ∧ oneway (c_request c) = false;
  ok_number : in_int i = true;
  ok_waiting : c_waiting c = true → c_sent c = true;
  ok_reply r : c_reply c = Some r → c_sent c = true ∧ kind_ok (c_request c) r ∧ answers what reply_ok r;
}.

(** [arrived] are the calls whose answers are still to be read, in order. *)
Record inv (arrived : list Z) (s : sys) : Prop := {
  inv_alive : alive (sync_ (s_client s));
  inv_use : in_use (sync_ (s_client s)) = dom (s_calls s);
  inv_unread : unread (s_client s) = arrived ≫= message (s_calls s);
  inv_nodup : NoDup arrived;
  inv_arrived i : i ∈ arrived ↔ ∃ c r, s_calls s !! i = Some c ∧ c_reply c = Some r;
  inv_calls i c : s_calls s !! i = Some c → call_ok i c;
  (** somebody can take the next turn *)
  inv_wake : pending (sync_ (s_client s)) = None → woken (sync_ (s_client s)) = false →
    (∀ i c, s_calls s !! i = Some c → c_waiting c = true) → s_calls s = ∅;
  inv_finished c res : (c, res) ∈ s_finished s → ∃ r, c_reply c = Some r ∧ res = outcome what (c_request c) r;
}.

Lemma threads_started_inv s : started s → inv [] s.
Proof.
  intros [Ha Hu Hr Hc Hf]. split; rewrite ?Hc, ?Hf; try done.
  - constructor.
  - intros i. rewrite lookup_empty. split; [by intros ?%not_elem_of_nil|naive_solver].
  - intros c res Hin. by apply not_elem_of_nil in Hin.
Qed.

Lemma bind_ext_in {A B} (f g : A → list B) l : (∀ x, x ∈ l → f x = g x) → l ≫= f = l ≫= g.
Proof.
  induction l as [|x l IH]; intros Hfg; [done|]. rewrite !bind_cons, Hfg by (by left). f_equal. apply IH.
  intros y Hy. apply Hfg. by right.
Qed.

(** A change of one call that keeps its answer *)
Lemma message_change calls i c c' arrived :
  calls !! i = Some c → c_reply c' = c_reply c → c_request c' = c_request c →
  arrived ≫= message (<[i := c']> calls) = arrived ≫= message calls.
Proof.
  intros Hc Hr Hq. apply bind_ext_in. intros j _. unfold message. destruct (decide (i = j)) as [<-|Hne].
  - by rewrite lookup_insert_eq, Hc, Hr, Hq.
  - by rewrite lookup_insert_ne.
Qed.

Lemma message_others calls calls' i arrived :
  (∀ j, j ≠ i → calls' !! j = calls !! j) → i ∉ arrived → arrived ≫= message calls' = arrived ≫= message calls.
Proof. intros Hj Hi. apply bind_ext_in. intros j Hin. unfold message. rewrite Hj; [done|]. by intros ->. Qed.

Lemma change_use (calls : gmap Z call) i c c' : calls !! i = Some c → dom (<[i := c']> calls) = dom calls.
Proof. intros Hc. rewrite dom_insert_L. apply elem_of_dom_2 in Hc. set_solver. Qed.

Lemma change_arrived (calls : gmap Z call) i c c' j :
  calls !! i = Some c → c_reply c' = c_reply c →
  (∃ x r, <[i := c']> calls !! j = Some x ∧ c_reply x = Some r) ↔ (∃ x r, calls !! j = Some x ∧ c_reply x = Some r).
Proof.
  intros Hc Hr. destruct (decide (i = j)) as [<-|Hne]; [|by rewrite lookup_insert_ne].
  rewrite lookup_insert_eq, Hc. split; intros (x & r & [= <-] & Hx); eexists _, r; (split; [done|congruence]).
Qed.

(** Any change of a call that keeps its answer, while the connection stays as
    it is or is only written to *)
Lemma change_keeps arrived s i c c' cl :
  inv arrived s → s_calls s !! i = Some c → c_request c' = c_request c → c_reply c' = c_reply c → c_waiting c' = c_waiting c →
  (c_sent c = true → c_sent c' = true) → sync_ cl = sync_ (s_client s) → incoming (prot_ cl) = incoming (prot_ (s_client s)) →
  inv arrived {| s_client := cl; s_calls := <[i := c']> (s_calls s); s_finished := s_finished s |}.
Proof.
  intros Hi Hc Hq Hr Hw Hs Hsync Hin. split; cbn [s_client s_calls s_finished]; rewrite ?Hsync; try apply Hi.
  - rewrite (change_use _ _ _ _ Hc). apply Hi.
  - unfold unread. rewrite Hsync, Hin, (message_change _ _ _ _ _ Hc Hr Hq). apply Hi.
  - intros j. rewrite (change_arrived _ _ _ _ _ Hc Hr). apply Hi.
  - intros j x [[<- <-]|[_ Hx]]%lookup_insert_Some; [|by apply (inv_calls _ _ Hi)].
    destruct (inv_calls _ _ Hi _ _ Hc) as [H1 H2 H3 H4]. split; rewrite ?Hq, ?Hr, ?Hw; try done.
    + intros ?. by apply Hs, H3.
    + intros r Hx. destruct (H4 r Hx) as (? & ? & ?). split; [by apply Hs|done].
  - intros Hp Hwo Hall. rewrite (inv_wake _ _ Hi Hp Hwo) in Hc; [by rewrite lookup_empty in Hc|].
    intros j x Hx. destruct (decide (i = j)) as [<-|Hne]; [|apply (Hall j); by rewrite lookup_insert_ne].
    assert (x = c) as -> by congruence. rewrite <- Hw. apply (Hall i). apply lookup_insert_eq.
Qed.

Lemma generate_keeps arrived s q seqid cl :
  inv arrived s → request_ok q → oneway q = false → on_sync generateSeqId (s_client s) = (Done seqid, cl) →
  inv arrived {| s_client := cl; s_calls := <[seqid := new_call q]> (s_calls s); s_finished := s_finished s |}.
Proof.
  intros Hi Hq Hone Hgen. unfold on_sync, zoom in Hgen.
  destruct (generateSeqId (sync_ (s_client s))) as [r y] eqn:Hrun. injection Hgen as -> <-.
  destruct (generateSeqId_ok _ _ _ (inv_alive _ _ Hi) Hrun) as (Hfresh & Hint & Huse & Hp & Hw & Ha).
  rewrite (inv_use _ _ Hi) in *. apply not_elem_of_dom in Hfresh.
  assert (∀ j x, s_calls s !! j = Some x → j ≠ seqid) as Hne by (intros j x Hx ->; congruence).
  split; cbn [s_client s_calls s_finished sync_ prot_]; try apply Hi.
  - done.
  - by rewrite Huse, dom_insert_L.
  - unfold unread. cbn [sync_ prot_]. rewrite Hp. rewrite (message_others (s_calls s) _ seqid); [apply Hi| |].
    + intros j Hj. by rewrite lookup_insert_ne.
    + intros (x & r & Hx & _)%(inv_arrived _ _ Hi). by apply (Hne _ _ Hx).
  - intros j. rewrite (inv_arrived _ _ Hi). split; intros (x & r & Hx & Hr); exists x, r; (split; [|done]).
    + rewrite lookup_insert_ne; [done|]. intros <-. by apply (Hne _ _ Hx).
    + apply lookup_insert_Some in Hx as [[_ <-]|[_ ?]]; [done|done].
  - intros j x [[<- <-]|[_ Hx]]%lookup_insert_Some; [|by apply (inv_calls _ _ Hi)]. by split.
  - intros _ _ Hall. exfalso. by specialize (Hall seqid (new_call q) (lookup_insert_eq _ _ _)).
Qed.

Lemma arrive_keeps arrived s i c r p :
  inv arrived s → s_calls s !! i = Some c → c_sent c = true → c_reply c = None → kind_ok (c_request c) r →
  answers what reply_ok r → incoming p = incoming (prot_ (s_client s)) ++ reply_tokens what (c_request c) i r →
  inv (arrived ++ [i]) {| s_client := {| sync_ := sync_ (s_client s); prot_ := p |};
                          s_calls := <[i := answered r c]> (s_calls s); s_finished := s_finished s |}.
Proof.
  intros Hi Hc Hs Hr Hk Ha Hin.
  assert (i ∉ arrived) as Hni by (intros (x & r' & Hx & ?)%(inv_arrived _ _ Hi); congruence).
  split; cbn [s_client s_calls s_finished sync_ prot_]; try apply Hi.
  - rewrite (change_use _ _ _ _ Hc). apply Hi.
  - unfold unread. cbn [sync_ prot_]. rewrite Hin, app_assoc. fold (unread (s_client s)). rewrite (inv_unread _ _ Hi), bind_app.
    f_equal.
    + symmetry. apply (message_others _ _ i); [|done]. intros j Hj. by rewrite lookup_insert_ne.
    + cbn. unfold message. rewrite lookup_insert_eq. cbn. by rewrite app_nil_r.
  - apply NoDup_app. split; [apply Hi|]. split; [|apply NoDup_singleton]. by intros j Hj ->%list_elem_of_singleton.
  - intros j. rewrite elem_of_app, list_elem_of_singleton, (inv_arrived _ _ Hi). destruct (decide (i = j)) as [<-|Hne].
    + rewrite lookup_insert_eq. split; [|by right]. intros _. by eexists (answered r c), r.
    + rewrite lookup_insert_ne by done. naive_solver.
  - intros j x [[<- <-]|[_ Hx]]%lookup_insert_Some; [|by apply (inv_calls _ _ Hi)].
    destruct (inv_calls _ _ Hi _ _ Hc) as [H1 H2 H3 _]. split; try done. by intros r' [= <-].
  - intros Hp Hw Hall. rewrite (inv_wake _ _ Hi Hp Hw) in Hc; [by rewrite lookup_empty in Hc|].
    intros j x Hx. destruct (decide (i = j)) as [<-|Hne]; [|apply (Hall j); by rewrite lookup_insert_ne].
    assert (x = c) as -> by congruence. apply (Hall i (answered r c)), lookup_insert_eq.
Qed.

(** ** Turns in a run *)

(** The next answer to be read *)
Lemma next_answer arrived s :
  inv arrived s → unread (s_client s) ≠ [] →
  ∃ j rest c r, arrived = j :: rest ∧ s_calls s !! j = Some c ∧ c_reply c = Some r
    ∧ unread (s_client s) = header_token (reply_header (c_request c) j r) :: reply_body r ++ (rest ≫= message (s_calls s)).
Proof.
  intros Hi Hu. rewrite (inv_unread _ _ Hi) in *. destruct arrived as [|j rest]; [done|].
  destruct (proj1 (inv_arrived _ _ Hi j)) as (c & r & Hc & Hr); [by left|]. exists j, rest, c, r.
  destruct (inv_calls _ _ Hi _ _ Hc) as [[_ H1] _ _ H4]. destruct (H4 r Hr) as (_ & _ & Ha).
  do 3 (split; [done|]). rewrite bind_cons. unfold message at 1. by rewrite Hc, Hr, reply_tokens_split.
Qed.

(** A turn of a thread that may go, when there is something to read: it ends
    the call with its own answer, or hands the answer on and waits. *)
Lemma turn_runs arrived s i c :
  inv arrived s → s_calls s !! i = Some c → unread (s_client s) ≠ [] → may_go (c_waiting c) i (s_client s) →
  (∃ rest r cl, arrived = i :: rest ∧ c_reply c = Some r
     ∧ recv fuel (c_request c) i (c_waiting c) (s_client s) = (some_result (outcome what (c_request c) r), cl)
     ∧ inv rest {| s_client := cl; s_calls := delete i (s_calls s);
                   s_finished := s_finished s ++ [(c, outcome what (c_request c) r)] |})
  ∨ ∃ j rest cl, arrived = j :: rest ∧ j ≠ i
     ∧ recv fuel (c_request c) i (c_waiting c) (s_client s) = (Done None, cl)
     ∧ snd <$> pending (sync_ cl) = Some j
     ∧ (c_sent c = true → inv arrived {| s_client := cl; s_calls := <[i := waits c]> (s_calls s); s_finished := s_finished s |}).
Proof using Hfuel.
  intros Hi Hc Hu Hgo. destruct (next_answer arrived s Hi Hu) as (j & rest & c' & r & Harr & Hc' & Hr & Hun).
  destruct (inv_calls _ _ Hi _ _ Hc) as [[Hq Hone] Hint Hwait Hrep]. pose proof (inv_alive _ _ Hi) as Ha.
  destruct (decide (i = j)) as [<-|Hne]; [left|right].
  - assert (c' = c) as -> by congruence. destruct (Hrep r Hr) as (_ & Hk & Hans).
    destruct (recv_own (c_request c) i (c_waiting c) (s_client s) r (rest ≫= message (s_calls s)) Hone Hk Hans Ha Hgo)
      as (cl & Hrun & Ha' & Huse & Hp & Hw & Hin & _);
      [rewrite (inv_use _ _ Hi); by eapply elem_of_dom_2|exact Hun|].
    exists rest, r, cl. do 3 (split; [done|]). rewrite Harr in Hi.
    pose proof (NoDup_cons_1_1 _ _ (inv_nodup _ _ Hi)) as Hni.
    split; cbn [s_client s_calls s_finished]; try done.
    + rewrite Huse, dom_delete_L. by rewrite (inv_use _ _ Hi).
    + unfold unread. rewrite Hp, Hin. simpl. symmetry. apply (message_others _ _ i); [|done]. intros j Hj. by rewrite lookup_delete_ne.
    + by eapply NoDup_cons_1_2, Hi.
    + intros j. destruct (decide (i = j)) as [<-|Hj].
      * rewrite lookup_delete_eq. split; [done|naive_solver].
      * rewrite lookup_delete_ne by done. rewrite <- (inv_arrived _ _ Hi), elem_of_cons. naive_solver.
    + intros j x [_ Hx]%lookup_delete_Some. by apply (inv_calls _ _ Hi).
    + congruence.
    + intros x res [Hx|[= -> ->]%list_elem_of_singleton]%elem_of_app; [by apply (inv_finished _ _ Hi)|by exists r].
  - destruct (recv_other (c_request c) i (c_waiting c) (s_client s) _ _ Hone Ha Hgo Hun) as (cl & Hrun & Ha' & Huse & Hp & Hin & _);
      [by simpl|rewrite (inv_use _ _ Hi); by eapply elem_of_dom_2|].
    exists j, rest, cl. do 3 (split; [done|]). split; [by rewrite Hp|]. intros Hsent.
    split; cbn [s_client s_calls s_finished]; try apply Hi.
    + done.
    + rewrite Huse, (change_use _ _ _ _ Hc). apply Hi.
    + unfold unread. rewrite Hp, Hin. rewrite (message_change _ _ _ _ _ Hc), <- (inv_unread _ _ Hi) by done. by rewrite Hun.
    + intros k. rewrite (change_arrived _ _ _ _ _ Hc) by done. apply Hi.
    + intros k x [[<- <-]|[_ Hx]]%lookup_insert_Some; [by split|by apply (inv_calls _ _ Hi)].
    + intros Hp'. by rewrite Hp in Hp'.
Qed.

(** Any turn of a thread: it is held back, or it runs as above. *)
Lemma may_go_or_blocked arrived s i c :
  inv arrived s → s_calls s !! i = Some c →
  may_go (c_waiting c) i (s_client s)
  ∨ (c_waiting c = true ∧ recv fuel (c_request c) i (c_waiting c) (s_client s) = (Stop Blocked, s_client s)).
Proof using Hfuel.
  intros Hi Hc. destruct (inv_calls _ _ Hi _ _ Hc) as [[_ Hone] _ _ _].
  destruct (c_waiting c) eqn:Hw; [|by left].
  destruct (decide (woken (sync_ (s_client s)) = true ∨ snd <$> pending (sync_ (s_client s)) = Some i)) as [Hgo|Hgo];
    [left; by intros _|right]. split; [done|]. apply recv_blocked; [done|apply Hi|]. intros Hm. by apply Hgo, Hm.
Qed.

Lemma some_result_inj res1 res2 : some_result res1 = some_result res2 → res1 = res2.
Proof. by destruct res1, res2; intros [= ->]. Qed.

Lemma threads_step_inv arrived s s' : inv arrived s → step s s' → ∃ arrived', inv arrived' s'.
Proof using Hfuel.
  intros Hi Hstep. destruct Hstep as [q seqid cl Hq Hone Hgen|i c cl Hc Hs Hrun|q cl Hq Hone Hrun
    |i c r p Hc Hs Hr Hk Ha Hin Hout|i c res cl Hc Hs Hu Hrun He|i c cl Hc Hs Hu Hrun].
  - exists arrived. by eapply generate_keeps.
  - destruct (inv_calls _ _ Hi _ _ Hc) as [[Hq Hone] Hint _ _].
    destruct (write_request_run (c_request c) i (s_client s) Hq Hint (inv_alive _ _ Hi)) as (p & Hrun' & Hin & _).
    rewrite Hrun' in Hrun. injection Hrun as <-. exists arrived. by apply (change_keeps arrived s i c).
  - rewrite send_halves, Hone in Hrun.
    destruct (write_request_run q 0 (s_client s) Hq eq_refl (inv_alive _ _ Hi)) as (p & Hrun' & Hin & _).
    rewrite (mbind_run _ _ _ _ _ Hrun') in Hrun. injection Hrun as <-. exists arrived.
    split; cbn [s_client s_calls s_finished sync_]; try apply Hi. unfold unread. cbn [sync_ prot_]. rewrite Hin. apply Hi.
  - exists (arrived ++ [i]). by apply arrive_keeps.
  - destruct (may_go_or_blocked arrived s i c Hi Hc) as [Hgo|[_ Hb]].
    + destruct (turn_runs arrived s i c Hi Hc Hu Hgo) as [(rest & r & cl' & _ & _ & Hrun' & Hi')|(j & rest & cl' & _ & _ & Hrun' & _)];
        rewrite Hrun' in Hrun; injection Hrun as Heq <-; [|by destruct res].
      apply some_result_inj in Heq as <-. by exists rest.
    + rewrite Hb in Hrun. injection Hrun as Heq <-. by destruct res as [|[]].
  - destruct (may_go_or_blocked arrived s i c Hi Hc) as [Hgo|[_ Hb]]; [|rewrite Hb in Hrun; discriminate].
    destruct (turn_runs arrived s i c Hi Hc Hu Hgo) as [(rest & r & cl' & _ & _ & Hrun' & _)|(j & rest & cl' & _ & _ & Hrun' & _ & Hi')];
      rewrite Hrun' in Hrun; injection Hrun as Heq; subst; [by destruct (outcome what (c_request c) r)|].
    exists arrived. by apply Hi'.
Qed.

Lemma threads_reachable_inv s0 s : started s0 → rtc step s0 s → ∃ arrived, inv arrived s.
Proof using Hfuel.
  intros Hs Hr. assert (∃ arrived, inv arrived s0) as H0 by (exists []; by apply threads_started_inv).
  clear Hs. induction Hr as [|s0 s1 s2 Hstep _ IH]; [done|]. destruct H0 as [arrived Hi].
  apply IH. by eapply threads_step_inv.
Qed.

(** ** Every call returns *)

Lemma outcome_ends q r : answers what reply_ok r → ends (outcome what q r).
Proof. intros Hr. unfold outcome. destruct (oneway q); [done|]. by destruct r as [|[]]. Qed.

(** Every call is sent, and its answer is on the way. *)
Definition all_answered (s : sys) : Prop := ∀ i c, s_calls s !! i = Some c → c_sent c = true ∧ is_Some (c_reply c).
(** One call has returned between the two states. *)
Definition one_returned (s s' : sys) : Prop :=
  length (s_finished s') = S (length (s_finished s)) ∧ size (s_calls s) = S (size (s_calls s')).

(** The thread whose answer is next ends its call, if it may go. *)
Lemma owner_finishes j rest s c :
  inv (j :: rest) s → all_answered s → s_calls s !! j = Some c → may_go (c_waiting c) j (s_client s) →
  ∃ s', step s s' ∧ inv rest s' ∧ all_answered s' ∧ one_returned s s'.
Proof using Hfuel.
  intros Hi Hall Hc Hgo. destruct (Hall _ _ Hc) as [Hs [r Hr]].
  pose proof (inv_calls _ _ Hi _ _ Hc) as Hok. destruct (ok_reply _ _ Hok r Hr) as (_ & _ & Ha).
  assert (unread (s_client s) ≠ []) as Hu.
  { rewrite (inv_unread _ _ Hi), bind_cons. unfold message at 1. rewrite Hc, Hr, reply_tokens_split; [done|apply Hok|done]. }
  destruct (turn_runs _ s j c Hi Hc Hu Hgo) as [(rest' & r' & cl & [= <-] & Hr' & Hrun & Hi')|(j' & rest' & cl & [= <- <-] & Hne & _)]; [|done].
  assert (r' = r) as -> by congruence. eexists. split; [|split; [exact Hi'|split; [|split]]]; cbn [s_calls s_finished].
  - apply (step_finish s j c _ cl Hc Hs Hu Hrun). by apply outcome_ends.
  - intros i x Hx. cbn [s_calls] in Hx. apply lookup_delete_Some in Hx as [_ Hx]. by apply Hall in Hx.
  - rewrite length_app. simpl. lia.
  - rewrite <- (insert_delete_id _ _ _ Hc) at 1. rewrite map_size_insert_None; [done|apply lookup_delete_eq].
Qed.

(** Who may take the next turn *)
Lemma next_turn j rest s c :
  inv (j :: rest) s → unread (s_client s) ≠ [] → s_calls s !! j = Some c →
  may_go (c_waiting c) j (s_client s) ∨ ∃ k c', s_calls s !! k = Some c' ∧ c_waiting c' = false.
Proof.
  intros Hi Hu Hc. destruct (decide (woken (sync_ (s_client s)) = true ∨ snd <$> pending (sync_ (s_client s)) = Some j)) as [Hgo|Hgo];
    [left; by intros _|right]. apply Decidable.not_or in Hgo as [Hw Hp]. apply not_true_is_false in Hw.
  destruct (next_answer _ _ Hi Hu) as (j' & rest' & c0 & r & [= <- <-] & _ & _ & Hun). unfold unread in Hun.
  destruct (pending (sync_ (s_client s))) as [h|] eqn:Hpend.
  { simpl in Hun. injection Hun as _ _ Hj _. simpl in Hp. congruence. }
  destruct (decide (map_Forall (λ _ c, c_waiting c = true) (s_calls s))) as [Hall|Hall].
  - rewrite (inv_wake _ _ Hi Hpend Hw) in Hc; [by rewrite lookup_empty in Hc|exact Hall].
  - apply map_not_Forall in Hall as (k & c' & Hk & Hwait); [|apply _]. exists k, c'. split; [done|]. by apply not_true_is_false.
Qed.

(** In at most two turns the next answer gets to its call. *)
Lemma next_call_returns j rest s :
  inv (j :: rest) s → all_answered s →
  ∃ s', rtc step s s' ∧ inv rest s' ∧ all_answered s' ∧ one_returned s s'.
Proof using Hfuel.
  intros Hi Hall. destruct (proj1 (inv_arrived _ _ Hi j)) as (c & r & Hc & Hr); [by left|].
  pose proof (inv_calls _ _ Hi _ _ Hc) as Hok.
  assert (unread (s_client s) ≠ []) as Hu.
  { rewrite (inv_unread _ _ Hi), bind_cons. unfold message at 1.
    rewrite Hc, Hr, reply_tokens_split; [done|apply Hok|by apply (ok_reply _ _ Hok)]. }
  destruct (next_turn j rest s c Hi Hu Hc) as [Hgo|(k & c' & Hk & Hw)].
  { destruct (owner_finishes j rest s c Hi Hall Hc Hgo) as (s' & Hstep & Hs'). exists s'. split; [by apply rtc_once|done]. }
  assert (may_go (c_waiting c') k (s_client s)) as Hgo by (rewrite Hw; by intros ?).
  destruct (decide (k = j)) as [->|Hne].
  { destruct (owner_finishes j rest s c' Hi Hall Hk Hgo) as (s' & Hstep & Hs'). exists s'. split; [by apply rtc_once|done]. }
  destruct (turn_runs _ s k c' Hi Hk Hu Hgo) as [(rest' & r' & cl & [= <-] & _)|(j' & rest' & cl & [= <- <-] & _ & Hrun & Hp & Hi')]; [done|].
  destruct (Hall _ _ Hk) as [Hs Hr']. specialize (Hi' Hs). set (s1 := {| s_client := cl; s_calls := _; s_finished := _ |}) in *.
  assert (all_answered s1) as Hall1.
  { intros i x Hx. cbn [s1 s_calls] in Hx. apply lookup_insert_Some in Hx as [[_ <-]|[_ Hx]]; [done|by apply (Hall i)]. }
  destruct (owner_finishes j rest s1 c Hi' Hall1) as (s' & Hstep & H1 & H2 & H3 & H4); [by apply lookup_insert_Some; right|by right|].
  exists s'. split; [|split; [done|split; [done|split; [done|]]]].
  - eapply rtc_l; [by apply (step_wait s k c' cl)|]. by apply rtc_once.
  - rewrite <- H4. cbn [s1 s_calls]. rewrite map_size_insert_Some; [done|by eexists].
Qed.

Lemma all_calls_return arrived s :
  inv arrived s → all_answered s →
  ∃ s', rtc step s s' ∧ s_calls s' = ∅ ∧ length (s_finished s') = (length (s_finished s) + size (s_calls s))%nat.
Proof using Hfuel.
  revert s. induction arrived as [|j rest IH]; intros s Hi Hall.
  - assert (s_calls s = ∅) as Hc.
    { apply map_empty. intros i. apply eq_None_not_Some. intros [c Hc]. destruct (Hall _ _ Hc) as [_ [r Hr]].
      eapply not_elem_of_nil, (inv_arrived _ _ Hi i). by exists c, r. }
    exists s. rewrite Hc, map_size_empty. split; [done|]. split; [done|lia].
  - destruct (next_call_returns j rest s Hi Hall) as (s1 & Hr1 & Hi1 & Hall1 & Hlen & Hsz).
    destruct (IH s1 Hi1 Hall1) as (s2 & Hr2 & Hc2 & Hl2). exists s2. split; [by etrans|]. split; [done|]. lia.
Qed.

(** * Properties *)

(** C15: in every run of calls by any number of threads over one connection,
    with answers in any order, each call that returns returns the answer to
    its own request, or an exception with the text of the handler's; no thread
    leaves the connection dead; the calls that are not done have different
    numbers; and a turn with something to read ends its call, hands the answer
    on, or waits to be woken. *)
Theorem concurrent_calls_get_their_answers s0 s :
  started s0 → rtc step s0 s →
  (∀ c res, (c, res) ∈ s_finished s → ∃ r, c_reply c = Some r ∧ res = outcome what (c_request c) r)
  ∧ alive (sync_ (s_client s)) ∧ in_use (sync_ (s_client s)) = dom (s_calls s)
  ∧ ∀ i c, s_calls s !! i = Some c → unread (s_client s) ≠ [] →
      let '(r, cl) := recv fuel (c_request c) i (c_waiting c) (s_client s) in
      r = Done None ∨ (∃ res, ends res ∧ r = some_result res) ∨ (c_waiting c = true ∧ r = Stop Blocked ∧ cl = s_client s).
Proof using Hfuel.
  intros Hs Hr. destruct (threads_reachable_inv s0 s Hs Hr) as [arrived Hi].
  split; [apply Hi|]. split; [apply Hi|]. split; [apply Hi|]. intros i c Hc Hu.
  destruct (may_go_or_blocked arrived s i c Hi Hc) as [Hgo|[Hw ->]]; [|by right; right].
  destruct (turn_runs arrived s i c Hi Hc Hu Hgo) as [(rest & r & cl & _ & Hrep & -> & _)|(j & rest & cl & _ & _ & -> & _)]; [|by left].
  right. left. eexists. split; [|done]. apply outcome_ends. by apply (ok_reply _ _ (inv_calls _ _ Hi _ _ Hc)).
Qed.

(** C18: no wakeup is lost: in every run, once all the calls are sent and
    answered, the threads can go on until every call has returned. *)
Theorem concurrent_calls_return s0 s :
  started s0 → rtc step s0 s → all_answered s →
  ∃ s', rtc step s s' ∧ s_calls s' = ∅ ∧ length (s_finished s') = (length (s_finished s) + size (s_calls s))%nat.
Proof using Hfuel.
  intros Hs Hr Hall. destruct (threads_reachable_inv s0 s Hs Hr) as [arrived Hi]. by apply (all_calls_return arrived).
Qed.

End turns.
End Concurrent.
