(* ===== verification/ThriftExample.v ===== *)
(** A protocol that satisfies what the theorems ask of one: two streams of
    tokens.  Concrete calls through the service over it. *)
From S2P Require Import Prelude.
From S2P Require Import Thrift.
From S2P Require Import WaffleThrift.
From S2P Require Import ThriftRpc.
Import Thrift.

Local Open Scope Z_scope.

Module Plain.
Record pipe := { pin : list token; pout : list token }.

Definition emit (t : token) : M pipe () := modify (λ p, {| pin := pin p; pout := pout p ++ [t] |}).
(** Read a token; any other than expected is refused. *)
Definition expect {A} (f : token → option A) : M pipe A :=
  p ← get;
  match pin p with
  | t :: r =>
      match f t with
      | Some a => put {| pin := r; pout := pout p |} ;; mret a
      | None => fail (Throw (TProtocolException INVALID_DATA))
      end
  | [] => fail (Throw TTransportException)
  end.

Definition opens (t : token) : bool := match t with StructBegin | ListBegin _ _ => true | _ => false end.
Definition closes (t : token) : bool := match t with StructEnd | ListEnd => true | _ => false end.
(** Drop tokens until the [n] structs and lists that are open are closed. *)
Fixpoint skip_tokens (n : nat) (l : list token) : option (list token) :=
  match l with
  | [] => None
  | t :: l =>
      let n' := if opens t then S n else if closes t then pred n else n in
      if decide (n' = 0%nat) then Some l else skip_tokens n' l
  end.

#[export] Instance pipe_protocol : TProtocol pipe := {
  writeMessageBegin name type id := emit (MessageBegin name type id);
  writeMessageEnd := emit MessageEnd;
  writeStructBegin _ := emit StructBegin;
  writeStructEnd := emit StructEnd;
  writeFieldBegin _ t id := emit (FieldBegin t id);
  writeFieldEnd := emit FieldEnd;
  writeFieldStop := emit FieldStop;
  writeListBegin t n := emit (ListBegin t n);
  writeListEnd := emit ListEnd;
  writeI32 z := emit (I32 z);
  writeI64 z := emit (I64 z);
  writeString s := emit (Str s);
  writeException t s := emit (Exn t s);
  writeEnd := mret ();
  flush := mret ();
  readMessageBegin := expect (λ t, match t with MessageBegin name type id => Some (name, type, id) | _ => None end);
  readMessageEnd := expect (λ t, match t with MessageEnd => Some () | _ => None end);
  readStructBegin := expect (λ t, match t with StructBegin => Some () | _ => None end);
  readStructEnd := expect (λ t, match t with StructEnd => Some () | _ => None end);
  readFieldBegin := expect (λ t, match t with FieldBegin t id => Some (t, id) | FieldStop => Some (T_STOP, 0) | _ => None end);
  readFieldEnd := expect (λ t, match t with FieldEnd => Some () | _ => None end);
  readListBegin := expect (λ t, match t with ListBegin t n => Some (t, n) | _ => None end);
  readListEnd := expect (λ t, match t with ListEnd => Some () | _ => None end);
  readI32 := expect (λ t, match t with I32 z => Some z | _ => None end);
  readI64 := expect (λ t, match t with I64 z => Some z | _ => None end);
  readString := expect (λ t, match t with Str s => Some s | _ => None end);
  readException := expect (λ t, match t with Exn t s => Some (t, s) | _ => None end);
  readEnd := mret ();
  skip _ :=
    p ← get;
    match skip_tokens 0 (pin p) with
    | Some r => put {| pin := r; pout := pout p |}
    | None => fail (Throw TTransportException)
    end;
}.

Lemma skip_tokens_value v n r :
  skip_tokens n (tokens v ++ r) = match n with O => Some r | S _ => skip_tokens n r end.
Proof.
  revert v n r. fix IH 1. intros v n r.
  assert (Hlist : ∀ vs n r, skip_tokens (S n) ((vs ≫= tokens) ++ r) = skip_tokens (S n) r).
  { clear v n r. fix IHl 1. intros [|v vs] n r; [done|]. rewrite bind_cons, <- app_assoc, IH. apply IHl. }
  assert (Hfields : ∀ fs n r, skip_tokens (S n) ((fs ≫= field_tokens) ++ r) = skip_tokens (S n) r).
  { clear v n r Hlist. fix IHl 1. intros [|[id v] fs] n r; [done|]. rewrite bind_cons, <- app_assoc.
    unfold field_tokens at 1. simpl. rewrite <- app_assoc, IH. simpl. apply IHl. }
  destruct v as [z|z|s|t vs|fs|code]; try by destruct n.
  - simpl. rewrite <- app_assoc, Hlist. by destruct n.
  - change (tokens (VStruct fs)) with (StructBegin :: (fs ≫= field_tokens) ++ [FieldStop; StructEnd]).
    simpl. rewrite <- app_assoc, Hfields. by destruct n.
Qed.

#[export] Program Instance pipe_spec : TProtocolSpec pipe := { incoming := pin; outgoing := pout }.
Solve Obligations with
  intros; try first [intros p; eexists; split; [reflexivity|done]
    | intros p; eexists; split; [reflexivity|split; [by rewrite ?app_nil_r|done]]
    | intros [pi po] r Hp; simpl in Hp; subst pi; by eexists].
Next Obligation.
  intros v [pi po] r Hp. simpl in Hp. subst pi. exists {| pin := r; pout := po |}. split; [|done].
  unfold skip. simpl. unfold mbind, M_bind, get. simpl. by rewrite skip_tokens_value.
Qed.
End Plain.

(** A handler that keeps its pairs in a map, and throws for a missing key *)
Module Calls.
Import Plain Rpc.

Definition store_iface : waffle_thriftIf (gmap string string) := {|
  waffle_thriftIf.get_client_id := mret 7;
  waffle_thriftIf.register_client_id block_id client_id := mret ();
  waffle_thriftIf.async_get seq_id key := mret ();
  waffle_thriftIf.async_put seq_id key value := modify <[key:=value]>;
  waffle_thriftIf.async_get_batch seq_id keys := mret ();
  waffle_thriftIf.async_put_batch seq_id keys values := mret ();
  waffle_thriftIf.get _return key :=
    m ← Prelude.get; match m !! key with Some v => mret v | None => fail (Throw out_of_range) end;
  waffle_thriftIf.put key value := modify <[key:=value]>;
  waffle_thriftIf.get_batch _return keys := m ← Prelude.get; mret (omap (m !!.) keys);
  waffle_thriftIf.put_batch keys values := mret ();
  waffle_thriftIf.search _return keys := mret [];
|}.
Definition what (e : exn) : string := match e with out_of_range => "map::at" | _ => "error" end.
Definition store : gmap string string := {["k" := "v"]}.
Definition idle : pipe := {| pin := []; pout := [] |}.

(** The whole of a call: the tokens that one end writes are what the other reads. *)
Definition call (q : request) : result reply :=
  let pc := (send q idle).2 in
  let ps := (serve 4 what store_iface (store, {| pin := pout pc; pout := [] |})).2.2 in
  (recv 4 q {| pin := pout ps; pout := [] |}).1.

Example call_get : call (Get "" "k") = Done (One "v").
Proof. vm_compute. reflexivity. Qed.
Example call_get_missing : call (Get "" "x") = Stop (Throw (TApplicationException UNKNOWN "map::at")).
Proof. vm_compute. reflexivity. Qed.
Example call_get_batch : call (Get_batch [] ["k"; "x"; "k"]) = Done (Many ["v"; "v"]).
Proof. vm_compute. reflexivity. Qed.

Lemma calls_are_transparent_witness :
  ∃ pc1 sent, send (Get "" "k") idle = (Done (), pc1) ∧ outgoing pc1 = outgoing idle ++ sent ∧ incoming pc1 = incoming idle ∧
  ∀ ps rest, incoming ps = sent ++ rest →
  ∃ ps1 replied, serve 4 what store_iface (store, ps) = (Done true, (store, ps1)) ∧ incoming ps1 = rest ∧
    outgoing ps1 = outgoing ps ++ replied ∧
  ∀ pc2 rest', incoming pc2 = replied ++ rest' →
  ∃ pc3, recv 4 (Get "" "k") pc2 = (Done (One "v"), pc3) ∧ incoming pc3 = rest' ∧ outgoing pc3 = outgoing pc2.
Proof. apply (calls_are_transparent 4 ltac:(lia) what store_iface (Get "" "k") store (Done (One "v")) store idle); done. Defined.

Definition del_call : pipe :=
  {| pin := [MessageBegin "del" T_CALL 3; StructBegin; FieldStop; StructEnd; MessageEnd]; pout := [] |}.
Lemma unknown_method_is_reported_witness :
  ∃ ps1, serve 4 what store_iface (store, del_call) = (Done true, (store, ps1)) ∧ incoming ps1 = [] ∧
    outgoing ps1 = outgoing del_call ++
      [MessageBegin "del" T_EXCEPTION 3; Exn UNKNOWN_METHOD ("Invalid method name: '" +:+ "del" +:+ "'"); MessageEnd].
Proof. by apply (unknown_method_is_reported 4 what store_iface "del" T_CALL 3 [] store del_call []). Defined.

Definition short_sequence_id : pipe := {| pin := tokens (VStruct [(1, VI64 5); (3, VI64 6)]); pout := [] |}.
Lemma sequence_id_read_rejects_witness :
  ∃ p', sequence_id_read 4 new_sequence_id short_sequence_id = (Stop (Throw (TProtocolException INVALID_DATA)), p') ∧
    incoming p' = [] ∧ outgoing p' = outgoing short_sequence_id.
Proof.
  apply (sequence_id_read_rejects 4 [(1, VI64 5); (3, VI64 6)] new_sequence_id short_sequence_id []); [simpl; lia|done|done].
Defined.
End Calls.
