(* ===== verification/ConcurrentExample.v ===== *)
(** Two threads share a connection: their answers come in the other order, and
    the thread that reads first hands the other's answer on.  The library's
    synchronisation is made concrete by a counter, the numbers in use, and the
    header and the flag of the specification. *)
From S2P Require Import Prelude.
From S2P Require Import Thrift.
From S2P Require Import WaffleThrift.
From S2P Require Import ThriftRpc.
From S2P Require Import ConcurrentClient.
From S2P Require Import ThriftExample.

Local Open Scope Z_scope.

Module ConcurrentExample.
Import Plain Rpc waffle_thriftConcurrentClient Concurrent.

Record sync_info := { next : Z; used : gset Z; pend : option header; flag : bool; stopped : bool }.
Definition new_sync : sync_info := {| next := 0; used := ∅; pend := None; flag := false; stopped := false |}.
(** [TApplicationException::BAD_SEQUENCE_ID] *)
Definition BAD_SEQUENCE_ID : Z := 4.

#[export] Instance counting_sync : TConcurrentClientSyncInfo sync_info := {
  generateSeqId := λ y,
    if next y <? 2^31 then
      (Done (next y), {| next := next y + 1; used := {[next y]} ∪ used y; pend := pend y; flag := flag y; stopped := stopped y |})
    else (Stop (Throw (TApplicationException BAD_SEQUENCE_ID "about to repeat a seqid")), y);
  getPending := λ y,
    (Done (pend y), {| next := next y; used := used y; pend := None; flag := false; stopped := stopped y |});
  updatePending h := λ y,
    if decide (h.2 ∈ used y) then
      (Done (), {| next := next y; used := used y; pend := Some h; flag := flag y; stopped := stopped y |})
    else (Stop (Throw (TApplicationException BAD_SEQUENCE_ID "server sent a bad seqid")), y);
  waitForWork seqid := λ y,
    if decide (flag y = true ∨ snd <$> pend y = Some seqid) then (Done (), y) else (Stop Blocked, y);
  recv_sentry_end seqid committed := λ y,
    (Done (), {| next := next y; used := used y ∖ {[seqid]}; pend := pend y; flag := true;
                 stopped := stopped y || negb committed |});
  send_sentry_end committed := λ y,
    (Done (), {| next := next y; used := used y; pend := pend y; flag := flag y || negb committed;
                 stopped := stopped y || negb committed |});
}.

#[export] Program Instance counting_sync_spec : SyncSpec sync_info := {
  in_use := used;
  pending := pend;
  woken := flag;
  alive y := stopped y = false ∧ 0 ≤ next y ∧ ∀ i, i ∈ used y → i < next y;
}.
Next Obligation.
  intros y seqid y' (Hs & Hn & Hu). cbn. destruct (Z.ltb_spec (next y) (2^31)); [|done]. intros [= <- <-]. cbn.
  split; [intros Hin; by apply Hu, Z.lt_irrefl in Hin|]. split; [unfold in_int; rewrite andb_true_iff, Z.leb_le, Z.ltb_lt; lia|].
  do 4 (split; [done || lia|]). split; [lia|]. intros i [->%elem_of_singleton|Hi%Hu]%elem_of_union; lia.
Qed.
Next Obligation. intros y Ha. by eexists. Qed.
Next Obligation. intros y h Ha Hin. cbn. rewrite decide_True by done. by eexists. Qed.
Next Obligation. done. Qed.
Next Obligation.
  intros y seqid (Hs & Hn & Hu) Hin. eexists. split; [done|]. cbn. rewrite Hs. do 4 (split; [done|]). split; [done|].
  intros i [Hi%Hu _]%elem_of_difference. done.
Qed.
Next Obligation. intros [] (Hs & _). cbn in *. by rewrite Hs, !orb_false_r. Qed.

(** * The run *)
Definition what (e : exn) : string := "map::at".
Abbreviation sys := (sys sync_info pipe).
Definition start : sys :=
  {| s_client := {| sync_ := new_sync; prot_ := {| pin := []; pout := [] |} |}; s_calls := ∅; s_finished := [] |}.

Lemma start_started : started start.
Proof. split; [split; [done|split; [done|set_solver]]|done..]. Qed.

Definition do_generate (q : request) (s : sys) : sys :=
  match on_sync generateSeqId (s_client s) with
  | (Done i, cl) => {| s_client := cl; s_calls := <[i := new_call q]> (s_calls s); s_finished := s_finished s |}
  | _ => s
  end.
Definition do_write (i : Z) (c : call) (s : sys) : sys :=
  {| s_client := (write_request (c_request c) i (s_client s)).2; s_calls := <[i := sent c]> (s_calls s);
     s_finished := s_finished s |}.
Definition do_arrive (i : Z) (c : call) (r : result reply) (s : sys) : sys :=
  {| s_client := {| sync_ := sync_ (s_client s);
       prot_ := {| pin := pin (prot_ (s_client s)) ++ reply_tokens what (c_request c) i r; pout := pout (prot_ (s_client s)) |} |};
     s_calls := <[i := answered r c]> (s_calls s); s_finished := s_finished s |}.
Definition do_turn (i : Z) (c : call) (s : sys) : sys :=
  let '(r, cl) := recv 4 (c_request c) i (c_waiting c) (s_client s) in
  match r with
  | Done None => {| s_client := cl; s_calls := <[i := waits c]> (s_calls s); s_finished := s_finished s |}
  | Done (Some a) => {| s_client := cl; s_calls := delete i (s_calls s); s_finished := s_finished s ++ [(c, Done a)] |}
  | Stop e => {| s_client := cl; s_calls := delete i (s_calls s); s_finished := s_finished s ++ [(c, Stop e)] |}
  end.

(** Thread 0 gets a key that is there, thread 1 one that is not. *)
Definition c0 : call := new_call (Get "" "k").
Definition c1 : call := new_call (Get "" "x").
Definition r0 : result reply := Done (One "v").
Definition r1 : result reply := Stop (Throw out_of_range).

Definition s1 := do_generate (c_request c0) start.
Definition s2 := do_generate (c_request c1) s1.
Definition s3 := do_write 1 c1 s2.
Definition s4 := do_write 0 c0 s3.
Definition s5 := do_arrive 1 (sent c1) r1 s4.
Definition s6 := do_arrive 0 (sent c0) r0 s5.
Definition s7 := do_turn 0 (answered r0 (sent c0)) s6.
Definition s8 := do_turn 1 (answered r1 (sent c1)) s7.
Definition s9 := do_turn 0 (waits (answered r0 (sent c0))) s8.

Lemma run_6 : rtc (step 4 what) start s6.
Proof.
  apply (rtc_l _ _ s1); [apply step_generate; vm_compute; reflexivity|].
  apply (rtc_l _ _ s2); [apply step_generate; vm_compute; reflexivity|].
  apply (rtc_l _ _ s3); [apply step_write; vm_compute; reflexivity|].
  apply (rtc_l _ _ s4); [apply step_write; vm_compute; reflexivity|].
  apply (rtc_l _ _ s5); [apply step_arrive; vm_compute; (reflexivity || exact I)|].
  apply rtc_once, step_arrive; vm_compute; (reflexivity || exact I).
Qed.

Lemma run_9 : rtc (step 4 what) start s9.
Proof.
  etrans; [exact run_6|].
  apply (rtc_l _ _ s7); [eapply step_wait; [reflexivity|reflexivity|vm_compute; discriminate|vm_compute; reflexivity]|].
  apply (rtc_l _ _ s8); [eapply (step_finish _ _ _ 1 _ (outcome what (c_request c1) r1));
    [reflexivity|reflexivity|vm_compute; discriminate|vm_compute; reflexivity|exact I]|].
  apply rtc_once. eapply (step_finish _ _ _ 0 _ (outcome what (c_request c0) r0));
    [reflexivity|reflexivity|vm_compute; discriminate|vm_compute; reflexivity|exact I].
Qed.

Example answers_in_order : (s_finished s9).*2 = [Stop (Throw (TApplicationException UNKNOWN "map::at")); Done (One "v")].
Proof. vm_compute. reflexivity. Qed.

(** * The hypotheses hold *)
Lemma concurrent_calls_get_their_answers_witness :
  (∃ r, c_reply (answered r1 (sent c1)) = Some r
     ∧ Stop (Throw (TApplicationException UNKNOWN "map::at")) = outcome what (Get "" "x") r)
  ∧ alive (sync_ (s_client s9)).
Proof.
  destruct (concurrent_calls_get_their_answers 4 what ltac:(lia) start s9 start_started run_9) as (Hf & Ha & _).
  split; [|exact Ha]. apply (Hf (answered r1 (sent c1))). vm_compute. by left.
Defined.

Lemma concurrent_calls_return_witness :
  ∃ s', rtc (step 4 what) s6 s' ∧ s_calls s' = ∅ ∧ length (s_finished s') = 2%nat.
Proof.
  apply (concurrent_calls_return 4 what ltac:(lia) start s6 start_started run_6).
  intros i c Hc%elem_of_map_to_list.
  assert (map_to_list (s_calls s6) = [(1, answered r1 (sent c1)); (0, answered r0 (sent c0))]) as Hl by (vm_compute; reflexivity).
  rewrite Hl in Hc. apply elem_of_cons in Hc as [[= _ ->]|[= _ ->]%list_elem_of_singleton];
    (split; [reflexivity|by eexists]).
Defined.

End ConcurrentExample.
