(* ===== verification/WaffleThriftResponse.v ===== *)
(** The service that carries answers back: service/src/waffle_thrift_response.cpp
    and .h.  The client of this service is at the proxy, over the connection
    that the requests came from; what it sends is read by
    libclient/src/command_response_reader.cpp, or by the processor of the
    service, which the program does not start. *)
From S2P Require Import Prelude.
From S2P Require Import Thrift.
From S2P Require Import WaffleThrift.
From S2P Require Import ThriftRpc.
From S2P Require Import ConcurrentClient.
Import Thrift.

Local Open Scope Z_scope.

Module Response.
Import WaffleThrift.Structs.

Definition async_response_args : struct_def :=
  {| s_name := "waffle_thrift_response_async_response_args";
     s_fields := [fld "seq_id" ty_sequence_id 1; fld "op_code" ty_i32 2; fld "result" ty_strings 3] |}.
Definition async_response_pargs : struct_def :=
  {| s_name := "waffle_thrift_response_async_response_pargs";
     s_fields := [fld "seq_id" ty_sequence_id 1; fld "op_code" ty_i32 2; fld "result" ty_strings 3] |}.

(** The interface has one method. *)
Definition waffle_thrift_responseIf (H : Type) : Type := sequence_id → Z → list string → M H ().

Definition waffle_thrift_responseNull (H : Type) : waffle_thrift_responseIf H := λ seq_id op_code result, mret ().

(** [waffle_thrift_responseMultiface]; without any interface, the first one is
    called all the same. *)
Fixpoint waffle_thrift_responseMultiface {H} (ifaces_ : list (waffle_thrift_responseIf H)) : waffle_thrift_responseIf H :=
  λ seq_id op_code result,
  match ifaces_ with
  | [] => fail Undefined
  | [iface] => iface seq_id op_code result
  | iface :: ifaces => iface seq_id op_code result ;; waffle_thrift_responseMultiface ifaces seq_id op_code result
  end.

(** [waffle_thrift_responseConcurrentClient] *)
Section concurrent.
Context {Y P : Type} `{TConcurrentClientSyncInfo Y} `{TProtocol P}.

Definition concurrent_send_async_response (seq_id : sequence_id) (op_code : Z) (result : list string)
    : M (waffle_thriftConcurrentClient.client Y P) () :=
  waffle_thriftConcurrentClient.send_oneway "async_response"
    (write_args async_response_pargs (seq_id, (op_code, (result, ())))).
Definition concurrent_async_response (seq_id : sequence_id) (op_code : Z) (result : list string)
    : M (waffle_thriftConcurrentClient.client Y P) () :=
  concurrent_send_async_response seq_id op_code result.
End concurrent.

Section response.
Context {P : Type} {prot : TProtocol P}.
Variable fuel : nat.

(** The client: a standard exception ends the process. *)
Definition send_async_response (seq_id : sequence_id) (op_code : Z) (result : list string) : M P () :=
  try_catch
    (waffle_thriftClient.send_message "async_response" T_ONEWAY
      (write_args async_response_pargs (seq_id, (op_code, (result, ())))))
    (λ e, fail (Exit 1)).
Definition async_response (seq_id : sequence_id) (op_code : Z) (result : list string) : M P () :=
  send_async_response seq_id op_code result.

(** The processor *)
Context {H : Type}.
Variable iface : waffle_thrift_responseIf H.

Definition process_async_response (seqid : Z) : M (H * P) () :=
  waffle_thriftProcessor.process_oneway fuel async_response_args (λ args, iface args.1 args.2.1 args.2.2.1).

Definition processMap_ : gmap string (Z → M (H * P) ()) := {["async_response" := process_async_response]}.

Definition dispatchCall (fname : string) (seqid : Z) : M (H * P) bool :=
  match processMap_ !! fname with
  | None =>
      waffle_thriftProcessor.on_prot (skip T_STRUCT ;; readMessageEnd ;; readEnd) ;;
      waffle_thriftProcessor.on_prot (waffle_thriftProcessor.send_exception fname seqid UNKNOWN_METHOD
        ("Invalid method name: '" +:+ fname +:+ "'")) ;;
      mret true
  | Some process => process seqid ;; mret true
  end.

(** * [command_response_reader] *)

(** [recv_response out]: the sequence number of the client and the new [out].
    Nothing is returned if one of the two fields is missing. *)
Definition recv_response : M P (Z * list string) :=
  m ← readMessageBegin;
  let '(fname, mtype, rseqid) := m in
  (if decide (mtype = T_EXCEPTION) then
     x ← readException;
     readMessageEnd ;;
     readEnd ;;
     fail (Throw (TApplicationException x.1 x.2))
   else mret ()) ;;
  result ← read fuel async_response_args;
  readMessageEnd ;;
  readEnd ;;
  let '((isset_seq_id, seq_id), ((_, _), ((isset_result, result), _))) := result in
  if isset_seq_id && isset_result then mret (client_seq_no seq_id, result)
  else fail Undefined.

End response.

(** * Answers reach the client *)
Section correct.
Context {P : Type} `{TProtocolSpec P}.

Definition response_ok (seq_id : sequence_id) (op_code : Z) (result : list string) : Prop :=
  value_ok ty_sequence_id seq_id ∧ in_int op_code = true ∧ value_ok ty_strings result.
Definition response_tokens (seq_id : sequence_id) (op_code : Z) (result : list string) : list token :=
  MessageBegin "async_response" T_ONEWAY 0 ::
  tokens (VStruct (encode_fields (s_fields async_response_args) (seq_id, (op_code, (result, ()))))) ++ [MessageEnd].

Lemma response_struct_ok : struct_ok (s_fields async_response_args).
Proof. split; vm_compute; repeat constructor; try set_solver; done. Qed.

Lemma async_response_writes seq_id op_code result :
  response_ok seq_id op_code result →
  writes (async_response seq_id op_code result) (response_tokens seq_id op_code result).
Proof.
  intros Hok p. set (v := (seq_id, (op_code, (result, ()))) : values (s_fields async_response_pargs)).
  assert (Hv : values_ok (s_fields async_response_pargs) v) by (destruct Hok as (? & ? & ?); do 3 (split; [done|]); done).
  destruct (Rpc.send_message_writes "async_response" T_ONEWAY _ _
    (write_args_writes async_response_pargs v response_struct_ok Hv) p) as (p' & Hrun & Hp').
  exists p'. split; [|done]. unfold async_response, send_async_response, try_catch. fold v. by rewrite Hrun.
Qed.

Variable fuel : nat.
Hypothesis Hfuel : (3 < fuel)%nat.

Lemma recv_response_reads seq_id op_code result :
  reads (recv_response fuel) (response_tokens seq_id op_code result) (client_seq_no seq_id, result).
Proof using Hfuel.
  unfold recv_response, response_tokens.
  apply (reads_cons _ _ _ _ ("async_response", T_ONEWAY, 0)); [apply readMessageBegin_ok|].
  cbn beta iota. rewrite decide_False by done. apply reads_skip.
  eapply reads_bind; [apply read_encoded_args; [exact response_struct_ok|simpl; lia]|].
  apply (reads_cons _ _ _ _ ()); [apply readMessageEnd_ok|]. apply (reads_last _ _ _ ()); [apply readEnd_ok|].
  apply reads_ret.
Qed.

End correct.

(** A standard exception while an answer is sent, such as a connection that
    the client has closed, ends the proxy: [async_respond_client] has a
    handler for it, which it never reaches. *)
Theorem failed_response_exits {P} `{TProtocol P} (seq_id : sequence_id) (op_code : Z) (result : list string) (p p' : P) e :
  waffle_thriftClient.send_message "async_response" T_ONEWAY
    (write_args async_response_pargs (seq_id, (op_code, (result, ())))) p = (Stop (Throw e), p') →
  async_response seq_id op_code result p = (Stop (Exit 1), p').
Proof. intros Hsend. unfold async_response, send_async_response, try_catch. by rewrite Hsend. Qed.
End Response.
