(* ===== verification/ThriftClasses.v ===== *)
(** The classes of the messages: service/src/proxy_types.h, waffle_thrift.h and
    waffle_thrift_response.h.  Each class of arguments or of a result has the
    fields of its table in WaffleThrift.v, a constructor, and the operators ==
    and !=.  The copies, the setters and the operator < of these classes are
    declared and nowhere defined, except the copies and the setters of
    [sequence_id] (Thrift.v).  The lemmas relate == to what is written and
    read. *)
From S2P Require Import Prelude.
From S2P Require Import CxxString.
From S2P Require Import Thrift.
From S2P Require Import WaffleThrift.
From S2P Require Import WaffleThriftResponse.
Import Thrift WaffleThrift.Structs.

Local Open Scope Z_scope.

Module Classes.
(** * The sequence id *)

(** [swap]: the fields one by one *)
Definition swap (ab : sequence_id * sequence_id) : sequence_id * sequence_id :=
  let '(a, b) := ab in
  ({| client_id := client_id b; client_seq_no := client_seq_no b; server_seq_no := server_seq_no b |},
   {| client_id := client_id a; client_seq_no := client_seq_no a; server_seq_no := server_seq_no a |}).

(** The copy constructor *)
Definition copy (other0 : sequence_id) : sequence_id :=
  {| client_id := client_id other0; client_seq_no := client_seq_no other0; server_seq_no := server_seq_no other0 |}.

(** The assignment *)
Definition assign (this other1 : sequence_id) : sequence_id :=
  set_server_seq_no (server_seq_no other1) (set_client_seq_no (client_seq_no other1)
    (set_client_id (client_id other1) this)).

(** [printTo], over the [to_string] of Thrift *)
Definition printTo (to_string : Z → string) (this : sequence_id) (out : string) : string :=
  out +:+ "sequence_id(" +:+ "client_id=" +:+ to_string (client_id this)
    +:+ ", " +:+ "client_seq_no=" +:+ to_string (client_seq_no this)
    +:+ ", " +:+ "server_seq_no=" +:+ to_string (server_seq_no this) +:+ ")".

(** * The classes of structs *)

#[export] Instance tval_eq_dec (t : ty) : EqDecision (tval t).
Proof. destruct t; simpl; apply _. Defined.

(** [operator ==]: the fields in order; [__isset] is not compared. *)
Fixpoint equal (fs : list field) : struct fs → struct fs → bool :=
  match fs with
  | [] => λ this rhs, true
  | f :: fs => λ this rhs, if negb (bool_decide (this.1.2 = rhs.1.2)) then false else equal fs this.2 rhs.2
  end.

(** What a class adds to its fields: the default constructor and the
    operators *)
Record class (fs : list field) := {
  construct : struct fs;
  operator_eq : struct fs → struct fs → bool;
  operator_ne : struct fs → struct fs → bool;
}.
Arguments construct {fs}.
Arguments operator_eq {fs}.
Arguments operator_ne {fs}.

Definition class_of (d : struct_def) : class (s_fields d) := {|
  construct := new_struct (s_fields d);
  operator_eq := equal (s_fields d);
  operator_ne this rhs := negb (equal (s_fields d) this rhs);
|}.

Definition waffle_thrift_get_client_id_args : class (s_fields get_client_id_args) := class_of get_client_id_args.
Definition waffle_thrift_get_client_id_result : class (s_fields get_client_id_result) := class_of get_client_id_result.
Definition waffle_thrift_register_client_id_args : class (s_fields register_client_id_args) := class_of register_client_id_args.
Definition waffle_thrift_register_client_id_result : class (s_fields register_client_id_result) := class_of register_client_id_result.
Definition waffle_thrift_async_get_args : class (s_fields async_get_args) := class_of async_get_args.
Definition waffle_thrift_async_put_args : class (s_fields async_put_args) := class_of async_put_args.
Definition waffle_thrift_async_get_batch_args : class (s_fields async_get_batch_args) := class_of async_get_batch_args.
Definition waffle_thrift_async_put_batch_args : class (s_fields async_put_batch_args) := class_of async_put_batch_args.
Definition waffle_thrift_get_args : class (s_fields get_args) := class_of get_args.
Definition waffle_thrift_get_result : class (s_fields get_result) := class_of get_result.
Definition waffle_thrift_put_args : class (s_fields put_args) := class_of put_args.
Definition waffle_thrift_put_result : class (s_fields put_result) := class_of put_result.
Definition waffle_thrift_get_batch_args : class (s_fields get_batch_args) := class_of get_batch_args.
Definition waffle_thrift_get_batch_result : class (s_fields get_batch_result) := class_of get_batch_result.
Definition waffle_thrift_put_batch_args : class (s_fields put_batch_args) := class_of put_batch_args.
Definition waffle_thrift_put_batch_result : class (s_fields put_batch_result) := class_of put_batch_result.
Definition waffle_thrift_search_args : class (s_fields search_args) := class_of search_args.
Definition waffle_thrift_search_result : class (s_fields search_result) := class_of search_result.
Definition waffle_thrift_response_async_response_args : class (s_fields Response.async_response_args) :=
  class_of Response.async_response_args.

(** * What == says *)

Lemma swap_swap ab : swap (swap ab) = ab.
Proof. by destruct ab as [[] []]. Qed.
Lemma copy_assign this other : copy other = other ∧ assign this other = other.
Proof. by destruct other. Qed.

(** What is printed tells two ids apart, when the numbers have no comma. *)
Lemma printTo_inj to_string this rhs :
  (∀ z, has_char "," (to_string z) = false) → (∀ z1 z2, to_string z1 = to_string z2 → z1 = z2) →
  printTo to_string this "" = printTo to_string rhs "" → this = rhs.
Proof.
  intros Hc Hinj.
  assert (∀ x, printTo to_string x "" =
    (("sequence_id(client_id=" +:+ to_string (client_id x)) +:+ String "," (" client_seq_no=" +:+ to_string (client_seq_no x)))
    +:+ String "," ((" server_seq_no=" +:+ to_string (server_seq_no x)) +:+ String ")" "")) as Hp.
  { intros x. unfold printTo. by rewrite !str_app_assoc. }
  rewrite !Hp. intros [Heq H3]%str_app_sep_inj; [|by rewrite !has_char_app, Hc..].
  apply str_app_sep_inj in Heq as [H1 H2]; [|by rewrite has_char_app, Hc..].
  apply str_app_sep_inj in H3 as [H3 _]; [|done..]. apply str_app_inj_l in H1, H2, H3.
  destruct this, rhs. f_equal; by apply Hinj.
Qed.

Example printTo_example :
  printTo to_string {| client_id := 1; client_seq_no := -2; server_seq_no := 3 |} "id: "
  = "id: sequence_id(client_id=1, client_seq_no=-2, server_seq_no=3)".
Proof. vm_compute. reflexivity. Qed.

(** == compares the values of the fields. *)
Lemma equal_spec fs this rhs : equal fs this rhs = true ↔ fields_of fs this = fields_of fs rhs.
Proof.
  induction fs as [|f fs IH]; cbn [equal fields_of]; [by destruct this, rhs|].
  specialize (IH this.2 rhs.2). case_bool_decide as Hv; cbn [negb].
  - rewrite IH, Hv. split; [by intros ->|by intros [= ?]].
  - split; [done|]. intros [= ? _]. done.
Qed.

Lemma equal_refl fs this : equal fs this this = true.
Proof. by apply equal_spec. Qed.
Lemma equal_sym fs this rhs : equal fs this rhs = equal fs rhs this.
Proof. apply eq_iff_eq_true. rewrite !equal_spec. done. Qed.

Lemma encode_inj t v1 v2 : encode t v1 = encode t v2 → v1 = v2.
Proof. intros Heq. pose proof (decode_encode t v1 v1) as H1. rewrite Heq, decode_encode in H1. by injection H1. Qed.

Lemma encode_fields_inj fs v1 v2 : encode_fields fs v1 = encode_fields fs v2 → v1 = v2.
Proof.
  induction fs as [|f fs IH]; cbn [encode_fields]; [by destruct v1, v2|].
  destruct v1 as [v1 r1], v2 as [v2 r2]. intros [= Hv%encode_inj Hr%IH]. by subst.
Qed.

(** Arguments are equal when the fields that [write] sends for them are the
    same. *)
Lemma equal_args_write_the_same fs this rhs :
  equal fs this rhs = true ↔ encode_fields fs (fields_of fs this) = encode_fields fs (fields_of fs rhs).
Proof. rewrite equal_spec. split; [by intros ->|apply encode_fields_inj]. Qed.

(** Results are written without the fields that are not set: with the same
    flags, the same holds of them. *)
Fixpoint flags (fs : list field) : struct fs → list bool :=
  match fs with [] => λ _, [] | f :: fs => λ this, this.1.1 :: flags fs this.2 end.

Lemma equal_results_write_the_same fs this rhs :
  equal fs this rhs = true → flags fs this = flags fs rhs →
  encode_set_fields fs this = encode_set_fields fs rhs.
Proof.
  rewrite equal_spec. induction fs as [|f fs IH]; cbn [fields_of flags encode_set_fields]; [done|].
  destruct this as [[b v] this], rhs as [[b' v'] rhs]. cbn [fst snd]. intros [= -> Hv] [= -> Hf]. by rewrite (IH _ _ Hv Hf).
Qed.

(** An answer without a result equals one with an empty result, and is
    written otherwise. *)
Lemma missing_result_equals_empty :
  let missing := construct waffle_thrift_get_result in
  let empty := with_all_set (s_fields get_result) ("", ()) in
  operator_eq waffle_thrift_get_result missing empty = true
  ∧ encode_set_fields _ missing = [] ∧ encode_set_fields _ empty = [(0, VString "")].
Proof. by vm_compute. Qed.

(** What is read of the written arguments equals them. *)
Lemma read_arguments_are_equal {P} `{TProtocolSpec P} fuel d this :
  struct_ok (s_fields d) → (length (s_fields d) `max` 3 < fuel)%nat →
  ∃ rhs, reads (read fuel d) (tokens (VStruct (encode_fields _ (fields_of _ this)))) rhs
    ∧ operator_eq (class_of d) this rhs = true.
Proof.
  intros Hd Hf. exists (with_all_set _ (fields_of _ this)). split; [by apply read_encoded_args|].
  apply equal_spec. by rewrite fields_of_all_set.
Qed.

End Classes.
