(* ===== verification/Queue.v ===== *)
(** The queues between threads (proxy/src/queue.h).  Each call is one step:
    the mutex is held throughout, and [size_] is only read outside of it. *)
From S2P Require Import Prelude.

Local Open Scope Z_scope.

Module Queue.
Record queue (T : Type) := { m_queue_ : list T; size_ : Z }.
Arguments m_queue_ {T}.
Arguments size_ {T}.
Definition new_queue {T} : queue T := {| m_queue_ := []; size_ := 0 |}.

Section queue.
Context {T : Type}.

(** [T pop()] waits until the queue is not empty. *)
Definition pop : M (queue T) T :=
  q ← get;
  match m_queue_ q with
  | [] => fail Blocked
  | item :: rest => put {| m_queue_ := rest; size_ := wrap32 (size_ q - 1) |} ;; mret item
  end.

(** [void pop(T &item)]: [assign item x] is [item = x]. *)
Definition pop_into (assign : T → T → T) (item : T) : M (queue T) T :=
  x ← pop;
  mret (assign item x).

Definition push (item : T) : M (queue T) () :=
  modify (λ q, {| m_queue_ := m_queue_ q ++ [item]; size_ := wrap32 (size_ q + 1) |}).

Definition size : M (queue T) Z := gets size_.

(** * First in, first out *)

(** The calls on a queue, by any threads *)
Inductive call := Push (item : T) | Pop.

Fixpoint perform (l : list call) : M (queue T) (list T) :=
  match l with
  | [] => mret []
  | Push item :: l => push item ;; perform l
  | Pop :: l => item ← pop; rest ← perform l; mret (item :: rest)
  end.

Definition pushed (l : list call) : list T := omap (λ c, match c with Push item => Some item | Pop => None end) l.

Definition counted (q : queue T) : Prop := size_ q = wrap32 (Z.of_nat (length (m_queue_ q))).

Lemma wrap32_add a b : wrap32 (wrap32 a + b) = wrap32 (a + b).
Proof. unfold wrap32. f_equal. replace ((a + 2 ^ 31) `mod` 2 ^ 32 - 2 ^ 31 + b + 2 ^ 31) with ((a + 2 ^ 31) `mod` 2 ^ 32 + b) by lia.
  rewrite Zplus_mod_idemp_l. f_equal. lia. Qed.

Lemma pop_run q item rest :
  m_queue_ q = item :: rest → pop q = (Done item, {| m_queue_ := rest; size_ := wrap32 (size_ q - 1) |}).
Proof. intros Hq. unfold pop. rewrite (mbind_run get _ q q q eq_refl). by rewrite Hq. Qed.
Lemma pop_blocks q : m_queue_ q = [] → pop q = (Stop Blocked, q).
Proof. intros Hq. unfold pop. rewrite (mbind_run get _ q q q eq_refl). by rewrite Hq. Qed.

Lemma counted_pop q item rest :
  counted q → m_queue_ q = item :: rest → counted {| m_queue_ := rest; size_ := wrap32 (size_ q - 1) |}.
Proof.
  unfold counted. intros -> ->. simpl. rewrite <- Z.add_opp_r, wrap32_add. f_equal. lia.
Qed.
Lemma counted_push q item :
  counted q → counted {| m_queue_ := m_queue_ q ++ [item]; size_ := wrap32 (size_ q + 1) |}.
Proof. unfold counted. intros ->. simpl. rewrite wrap32_add, length_app. f_equal. simpl. lia. Qed.

Lemma perform_fifo l q popped q' :
  counted q → perform l q = (Done popped, q') → popped ++ m_queue_ q' = m_queue_ q ++ pushed l ∧ counted q'.
Proof.
  revert q popped. induction l as [|[item|] l IH]; intros q popped Hq Hrun.
  - injection Hrun as <- <-. by rewrite app_nil_r.
  - apply IH in Hrun as [Heq Hq']; [|by apply counted_push]. split; [|done].
    rewrite Heq. simpl. by rewrite <- app_assoc.
  - cbn [perform] in Hrun. destruct (m_queue_ q) as [|item rest] eqn:Hmq.
    + by rewrite (mbind_stop _ _ _ _ _ (pop_blocks q Hmq)) in Hrun.
    + rewrite (mbind_run _ _ _ _ _ (pop_run q item rest Hmq)) in Hrun.
      unfold mbind, M_bind in Hrun. destruct (perform l _) as [[popped'|] q1] eqn:Hl; [|done].
      injection Hrun as <- <-. apply IH in Hl as [Heq Hq']; [|by eapply counted_pop].
      split; [|done]. simpl in *. by rewrite Heq.
Qed.

(** C27: whatever the order of the calls, items leave the queue in the order in
    which they came, none is lost or doubled, and [size()] is their number (as
    long as an [int] can hold it). *)
Theorem queue_is_fifo l popped q :
  perform l new_queue = (Done popped, q) →
  popped ++ m_queue_ q = pushed l ∧ (Z.of_nat (length (m_queue_ q)) < 2^31 → size_ q = Z.of_nat (length (m_queue_ q))).
Proof.
  intros Hrun. apply perform_fifo in Hrun as [Heq Hq]; [|done]. split; [done|]. intros Hlen.
  rewrite Hq. apply wrap32_in_range. lia.
Qed.

End queue.

Lemma queue_is_fifo_witness :
  perform [Push 1; Push 2; Pop; Push 3; Pop] new_queue = (Done [1; 2], {| m_queue_ := [3]; size_ := 1 |}) ∧
  [1; 2] ++ [3] = pushed [Push 1; Push 2; Pop; Push 3; Pop] ∧ (Z.of_nat 1 < 2^31 → 1 = Z.of_nat 1).
Proof.
  split; [reflexivity|].
  exact (queue_is_fifo [Push 1; Push 2; Pop; Push 3; Pop] [1; 2] {| m_queue_ := [3]; size_ := 1 |} eq_refl).
Defined.
End Queue.
