(* ===== verification/Frontend.v ===== *)
(** The calls of [waffle_proxy] that the service makes (proxy/src/waffle_proxy.cpp,
    from [get] to [put_future]) and the responder thread: operations go to the
    queues of the consumer threads with a promise each; the asynchronous calls
    leave the futures and the sequence id to the responder thread, in two
    separate queues.  The batch calls are made by many threads at once and are
    programs of actions: a push to a queue is one, a call several.

    The consumer threads are seen here only by what they do to this state: they
    take operations from their queues and set promises.  [respond_queue_] holds
    a reference to a [sequence_id] that is gone when the entry is read (the
    temporary pair of the call); what the responder reads there is a parameter,
    and is overwritten at once. *)
From S2P Require Import Prelude.
From S2P Require Import Queue.
From S2P Require Import Thrift.
From S2P Require Import Proxy.

Local Open Scope Z_scope.

Module Frontend.
Import Queue Thrift.

Definition GET : Z := 0.
Definition PUT : Z := 1.
Definition GET_BATCH : Z := 2.
Definition PUT_BATCH : Z := 3.

Abbreviation promise := nat.

Record frontend := {
  operation_queues_ : list (queue (operation * promise));
  respond_queue_ : queue (Z * list promise);
  sequence_queue_ : queue sequence_id;
  (** the promises that are set, and the next to be made *)
  promises : gmap promise string;
  next_promise : promise;
}.

Definition set_operation_queues_ x (s : frontend) : frontend :=
  {| operation_queues_ := x; respond_queue_ := respond_queue_ s; sequence_queue_ := sequence_queue_ s;
     promises := promises s; next_promise := next_promise s |}.
Definition set_respond_queue_ x (s : frontend) : frontend :=
  {| operation_queues_ := operation_queues_ s; respond_queue_ := x; sequence_queue_ := sequence_queue_ s;
     promises := promises s; next_promise := next_promise s |}.
Definition set_sequence_queue_ x (s : frontend) : frontend :=
  {| operation_queues_ := operation_queues_ s; respond_queue_ := respond_queue_ s; sequence_queue_ := x;
     promises := promises s; next_promise := next_promise s |}.
Definition set_promises x (s : frontend) : frontend :=
  {| operation_queues_ := operation_queues_ s; respond_queue_ := respond_queue_ s;
     sequence_queue_ := sequence_queue_ s; promises := x; next_promise := next_promise s |}.
Definition set_next_promise x (s : frontend) : frontend :=
  {| operation_queues_ := operation_queues_ s; respond_queue_ := respond_queue_ s;
     sequence_queue_ := sequence_queue_ s; promises := promises s; next_promise := x |}.

Definition on_operation_queue {A} (i : nat) (m : M (queue (operation * promise)) A) : M frontend A := λ s,
  match operation_queues_ s !! i with
  | None => (Stop Undefined, s)
  | Some q => let '(r, q') := m q in (r, set_operation_queues_ (<[i := q']> (operation_queues_ s)) s)
  end.
Definition on_respond_queue {A} : M (queue (Z * list promise)) A → M frontend A := zoom respond_queue_ set_respond_queue_.
Definition on_sequence_queue {A} : M (queue sequence_id) A → M frontend A := zoom sequence_queue_ set_sequence_queue_.

(** [std::make_shared<std::promise<std::string>>()] *)
Definition make_promise : M frontend promise :=
  p ← gets next_promise;
  modify (set_next_promise (S p)) ;;
  mret p.

(** [queue_id % operation_queues_.size()]: the [int] becomes a [size_t]. *)
Definition queue_index (queue_id : Z) (size : nat) : option nat :=
  if decide (size = 0%nat) then None
  else Some (Z.to_nat (wrap_u64 queue_id `mod` Z.of_nat size)).

Definition push_operation (queue_id : Z) (operat : operation) (prom : promise) : M frontend () :=
  queues ← gets operation_queues_;
  match queue_index queue_id (length queues) with
  | None => fail Undefined
  | Some i => on_operation_queue i (push (operat, prom))
  end.

Definition get_future (queue_id : Z) (key : string) : M frontend promise :=
  prom ← make_promise;
  push_operation queue_id {| op_key := key; op_value := "" |} prom ;;
  mret prom.

Definition put_future (queue_id : Z) (key value : string) : M frontend promise :=
  prom ← make_promise;
  push_operation queue_id {| op_key := key; op_value := value |} prom ;;
  mret prom.

Fixpoint get_futures (queue_id : Z) (keys : list string) : M frontend (list promise) :=
  match keys with
  | [] => mret []
  | key :: keys => w ← get_future queue_id key; waiters ← get_futures queue_id keys; mret (w :: waiters)
  end.

(** [values[i]] is not checked against the length of [values]. *)
Fixpoint put_futures (queue_id : Z) (keys values : list string) : M frontend (list promise) :=
  match keys, values with
  | [], _ => mret []
  | key :: keys, value :: values =>
      w ← put_future queue_id key value; waiters ← put_futures queue_id keys values; mret (w :: waiters)
  | _ :: _, [] => fail Undefined
  end.

(** [std::future::get()] waits for the promise. *)
Definition future_get (p : promise) : M frontend string :=
  s ← get;
  match promises s !! p with
  | Some v => mret v
  | None => fail Blocked
  end.

Fixpoint futures_get (waiters : list promise) : M frontend (list string) :=
  match waiters with
  | [] => mret []
  | w :: waiters => v ← future_get w; results ← futures_get waiters; mret (v :: results)
  end.

(** ** Calls that wait *)
Section synchronous.
(** what the other threads do while the caller waits *)
Variable others : M frontend ().

Definition get (queue_id : Z) (key : string) : M frontend string :=
  w ← get_future queue_id key;
  others ;;
  future_get w.
Definition put (queue_id : Z) (key value : string) : M frontend () :=
  w ← put_future queue_id key value;
  others ;;
  future_get w ;;
  mret ().
Definition get_batch (queue_id : Z) (keys : list string) : M frontend (list string) :=
  waiters ← get_futures queue_id keys;
  others ;;
  futures_get waiters.
Definition put_batch (queue_id : Z) (keys values : list string) : M frontend () :=
  waiters ← put_futures queue_id keys values;
  others ;;
  futures_get waiters ;;
  mret ().
End synchronous.

(** ** Calls that do not wait *)
Definition async_get (seq_id : sequence_id) (queue_id : Z) (key : string) : M frontend () :=
  w ← get_future queue_id key;
  on_respond_queue (push (GET, [w])).

Definition async_put (seq_id : sequence_id) (queue_id : Z) (key value : string) : M frontend () :=
  w ← put_future queue_id key value;
  on_respond_queue (push (GET, [w])).

(** The batch calls come from several threads of the server at once, and each of
    them takes the mutex of a queue for one push at a time.  They are therefore
    programs of actions that other threads cannot interrupt; between two actions
    anything can happen.  An action says what it adds to the two queues of the
    responder thread. *)
Record call := { c_op : Z; c_seq : sequence_id; c_waiters : list promise }.

Inductive event :=
  | Enqueued
  | Lined (c : call)
  | Numbered (id : sequence_id).
Definition lined (e : event) : list call := match e with Lined c => [c] | _ => [] end.
Definition numbered (e : event) : list sequence_id := match e with Numbered id => [id] | _ => [] end.

#[warnings="-register-all"]
Inductive prog :=
  | Ret
  | Atomic (e : event) (m : M frontend prog).

(** The next action *)
Definition advance (p : prog) : M frontend (event * prog) :=
  match p with
  | Ret => fail Blocked
  | Atomic e m => p ← m; mret (e, p)
  end.

(** All the actions, without interruption *)
Fixpoint run_prog (p : prog) : M frontend () :=
  match p with
  | Ret => mret ()
  | Atomic e m => λ s, match m s with (Done p, s') => run_prog p s' | (Stop why, s') => (Stop why, s') end
  end.

Fixpoint get_futures_prog (queue_id : Z) (keys : list string) (k : list promise → prog) : prog :=
  match keys with
  | [] => k []
  | key :: keys =>
      Atomic Enqueued (w ← get_future queue_id key; mret (get_futures_prog queue_id keys (λ waiters, k (w :: waiters))))
  end.

Fixpoint put_futures_prog (queue_id : Z) (keys values : list string) (k : list promise → prog) : prog :=
  match keys, values with
  | [], _ => k []
  | key :: keys, value :: values =>
      Atomic Enqueued (w ← put_future queue_id key value;
                       mret (put_futures_prog queue_id keys values (λ waiters, k (w :: waiters))))
  | _ :: _, [] => Atomic Enqueued (fail Undefined)
  end.

(** The last two actions of a call: the waiters, then the sequence id *)
Definition line_up (op : Z) (seq_id : sequence_id) (waiters : list promise) : prog :=
  Atomic (Lined {| c_op := op; c_seq := seq_id; c_waiters := waiters |})
    (on_respond_queue (push (op, waiters)) ;;
     mret (Atomic (Numbered seq_id) (on_sequence_queue (push seq_id) ;; mret Ret))).

Definition async_get_batch_prog (seq_id : sequence_id) (queue_id : Z) (keys : list string) : prog :=
  get_futures_prog queue_id keys (line_up GET_BATCH seq_id).

Definition async_put_batch_prog (seq_id : sequence_id) (queue_id : Z) (keys values : list string) : prog :=
  put_futures_prog queue_id keys values (line_up PUT_BATCH seq_id).

(** The calls, when no other thread comes between *)
Definition async_get_batch (seq_id : sequence_id) (queue_id : Z) (keys : list string) : M frontend () :=
  run_prog (async_get_batch_prog seq_id queue_id keys).
Definition async_put_batch (seq_id : sequence_id) (queue_id : Z) (keys values : list string) : M frontend () :=
  run_prog (async_put_batch_prog seq_id queue_id keys values).

(** Threads that run such programs, in the order of a schedule *)
Fixpoint interleave (schedule : list nat) (threads : list prog) : M frontend (list prog) :=
  match schedule with
  | [] => mret threads
  | i :: schedule =>
      match threads !! i with
      | None => fail Blocked
      | Some p => ep ← advance p; interleave schedule (<[i := ep.2]> threads)
      end
  end.

(** * Calls with a random queue *)
Section random.
Context {W : Type}.
(** [rand_uint32] of util.cpp, on the state [W] of the generators *)
Variable rand_uint32 : Z → Z → M W Z.
(** what the other threads do while the caller waits *)
Variable others : M frontend ().

Definition RAND_MAX : Z := 2147483647.
Definition on_fe {A} : M frontend A → M (frontend * W) A := zoom fst (λ f s, (f, s.2)).
(** The number drawn becomes an [int]. *)
Definition random_queue : M (frontend * W) Z :=
  r ← zoom snd (λ w s, (s.1, w)) (rand_uint32 0 RAND_MAX);
  mret (wrap32 r).

Definition random_get (key : string) : M (frontend * W) string :=
  queue_id ← random_queue; on_fe (get others queue_id key).
Definition random_async_get (seq_id : sequence_id) (key : string) : M (frontend * W) () :=
  queue_id ← random_queue; on_fe (async_get seq_id queue_id key).
Definition random_put (key value : string) : M (frontend * W) () :=
  queue_id ← random_queue; on_fe (put others queue_id key value).
Definition random_async_put (seq_id : sequence_id) (key value : string) : M (frontend * W) () :=
  queue_id ← random_queue; on_fe (async_put seq_id queue_id key value).
Definition random_get_batch (keys : list string) : M (frontend * W) (list string) :=
  queue_id ← random_queue; on_fe (get_batch others queue_id keys).
Definition random_async_get_batch (seq_id : sequence_id) (keys : list string) : M (frontend * W) () :=
  queue_id ← random_queue; on_fe (async_get_batch seq_id queue_id keys).
Definition random_put_batch (keys values : list string) : M (frontend * W) () :=
  queue_id ← random_queue; on_fe (put_batch others queue_id keys values).
Definition random_async_put_batch (seq_id : sequence_id) (keys values : list string) : M (frontend * W) () :=
  queue_id ← random_queue; on_fe (async_put_batch seq_id queue_id keys values).
End random.

(** * The responder thread *)

Fixpoint collect (op_code : Z) (waiters : list promise) (results : list string) : M frontend (list string) :=
  match waiters with
  | [] => mret results
  | w :: waiters =>
      if decide (op_code = PUT_BATCH) then collect op_code waiters (results ++ ["PUT SUCCESSFUL"])
      else v ← future_get w; collect op_code waiters (results ++ [v])
  end.

(** What is sent to the client: the sequence id, the operation, the results *)
Definition response : Type := sequence_id * Z * list string.

(** A turn of the loop, up to the call of [async_respond_client] *)
Definition responder_turn (dangling : sequence_id) : M frontend response :=
  tuple ← on_respond_queue pop;
  let op_code := tuple.1 in
  let seq := dangling in
  seq ← on_sequence_queue pop;
  results ← collect op_code tuple.2 [];
  mret (seq, op_code, results).

(** * Operations reach a queue *)

Lemma queue_index_bound queue_id n :
  n ≠ 0%nat → ∃ i, queue_index queue_id n = Some i ∧ (i < n)%nat.
Proof.
  intros Hn. unfold queue_index. rewrite decide_False by done. eexists. split; [done|].
  pose proof (Z.mod_pos_bound (wrap_u64 queue_id) (Z.of_nat n) ltac:(lia)). lia.
Qed.

(** The queues after operations with promises were put into queue [i] *)
Definition with_pushed (i : nat) (op : operation) (p : promise) (qs : list (queue (operation * promise))) :=
  alter (λ q, {| m_queue_ := m_queue_ q ++ [(op, p)]; size_ := wrap32 (size_ q + 1) |}) i qs.

Lemma alter_at {A} (f : A → A) i (l : list A) x : l !! i = Some x → alter f i l = <[i := f x]> l.
Proof. revert i. induction l as [|y l IH]; intros [|i]; simpl; intros ?; simplify_eq; [done|]. f_equal. by apply IH. Qed.

Lemma push_operation_run queue_id op p s i :
  queue_index queue_id (length (operation_queues_ s)) = Some i → (i < length (operation_queues_ s))%nat →
  push_operation queue_id op p s = (Done (), set_operation_queues_ (with_pushed i op p (operation_queues_ s)) s).
Proof.
  intros Hi Hlt. unfold push_operation. rewrite (mbind_run _ _ s (operation_queues_ s) s) by done. rewrite Hi.
  apply lookup_lt_is_Some in Hlt as [q Hq]. unfold on_operation_queue. rewrite Hq. unfold push, modify.
  f_equal. f_equal. unfold with_pushed. by rewrite (alter_at _ _ _ _ Hq).
Qed.

(** What a call has done to the queues of the consumers, apart from the rest *)
Definition enqueued (n : nat) (s s' : frontend) : Prop :=
  next_promise s' = (next_promise s + n)%nat ∧ promises s' = promises s ∧
  respond_queue_ s' = respond_queue_ s ∧ sequence_queue_ s' = sequence_queue_ s ∧
  length (operation_queues_ s') = length (operation_queues_ s).

Lemma enqueued_refl s : enqueued 0 s s.
Proof. repeat split; lia. Qed.
Lemma enqueued_trans n m s s' s'' : enqueued n s s' → enqueued m s' s'' → enqueued (n + m) s s''.
Proof. intros (? & ? & ? & ? & ?) (? & ? & ? & ? & ?). repeat split; try congruence. lia. Qed.

Lemma future_run queue_id op s :
  operation_queues_ s ≠ [] →
  ∃ i, queue_index queue_id (length (operation_queues_ s)) = Some i ∧ (i < length (operation_queues_ s))%nat ∧
  let s' := set_operation_queues_ (with_pushed i op (next_promise s) (operation_queues_ s))
    (set_next_promise (S (next_promise s)) s) in
  (prom ← make_promise; push_operation queue_id op prom ;; mret prom) s = (Done (next_promise s), s') ∧ enqueued 1 s s'.
Proof.
  intros Hqs. destruct (queue_index_bound queue_id (length (operation_queues_ s))) as (i & Hi & Hlt).
  { by destruct (operation_queues_ s). }
  exists i. split; [done|]. split; [done|]. cbv zeta. split.
  - erewrite (mbind_run make_promise) by done.
    by erewrite (mbind_run _ _ _ _ _ (push_operation_run queue_id op (next_promise s)
      (set_next_promise (S (next_promise s)) s) i Hi Hlt)).
  - split; [simpl; lia|]. do 3 (split; [done|]). simpl. unfold with_pushed. by rewrite length_alter.
Qed.

Lemma future_inv queue_id op s w s' :
  (prom ← make_promise; push_operation queue_id op prom ;; mret prom) s = (Done w, s') →
  w = next_promise s ∧ enqueued 1 s s'.
Proof.
  intros Hrun. destruct (decide (operation_queues_ s = [])) as [Hqs|Hqs].
  - erewrite (mbind_run make_promise) in Hrun by done. unfold push_operation in Hrun. unfold mbind, M_bind, gets in Hrun.
    simpl in Hrun. rewrite Hqs in Hrun. done.
  - destruct (future_run queue_id op s Hqs) as (i & _ & _ & Hrun' & Henq). cbv zeta in Hrun', Henq.
    rewrite Hrun' in Hrun. by injection Hrun as <- <-.
Qed.

(** C32: an operation goes to the end of exactly one of the queues, whatever the
    [queue_id], negative ones included; its promise is a new one. *)
Theorem get_future_enqueues queue_id key s :
  operation_queues_ s ≠ [] →
  ∃ i s', get_future queue_id key s = (Done (next_promise s), s') ∧ (i < length (operation_queues_ s))%nat ∧
    (0 ≤ queue_id < 2^31 → Z.of_nat i = queue_id `mod` Z.of_nat (length (operation_queues_ s))) ∧
    (∀ j, m_queue_ <$> operation_queues_ s' !! j =
       (λ q, m_queue_ q ++ (if decide (i = j) then [({| op_key := key; op_value := "" |}, next_promise s)] else []))
       <$> operation_queues_ s !! j) ∧
    enqueued 1 s s'.
Proof.
  intros Hqs. destruct (future_run queue_id {| op_key := key; op_value := "" |} s Hqs) as (i & Hi & Hlt & Hrun & Henq).
  exists i. eexists. split; [exact Hrun|]. split; [done|]. split; [|split; [|done]].
  - intros Hid. unfold queue_index in Hi. rewrite decide_False in Hi by lia. injection Hi as <-.
    unfold wrap_u64. rewrite (Z.mod_small queue_id) by lia. rewrite Z2Nat.id; [done|].
    apply Z.mod_pos_bound. lia.
  - intros j. simpl. unfold with_pushed. destruct (decide (i = j)) as [<-|Hij].
    + rewrite list_lookup_alter_eq. by destruct (operation_queues_ s !! i).
    + rewrite list_lookup_alter_ne by done. destruct (operation_queues_ s !! j); simpl; [by rewrite app_nil_r|done].
Qed.

(** * Which answer goes to which call *)

Lemma get_futures_run queue_id keys s waiters s' :
  get_futures queue_id keys s = (Done waiters, s') →
  waiters = seq (next_promise s) (length keys) ∧ enqueued (length keys) s s'.
Proof.
  revert s waiters. induction keys as [|key keys IH]; intros s waiters Hrun; cbn [get_futures] in Hrun.
  { injection Hrun as <- <-. split; [done|apply enqueued_refl]. }
  apply bind_inv in Hrun as (w & s1 & H1 & Hrun). apply bind_inv in Hrun as (ws & s2 & H2 & Hret).
  injection Hret as <- <-. apply IH in H2 as [-> Henq].
  apply future_inv in H1 as [-> H1]. split; [|by apply (enqueued_trans 1 _ s s1)]. destruct H1 as [-> _].
  simpl. f_equal. f_equal. lia.
Qed.

(** The operations of a GET batch are at the end of one queue, in order. *)
Lemma get_futures_pushed queue_id keys s :
  operation_queues_ s ≠ [] →
  ∃ i s', queue_index queue_id (length (operation_queues_ s)) = Some i ∧ (i < length (operation_queues_ s))%nat
  ∧ get_futures queue_id keys s = (Done (seq (next_promise s) (length keys)), s')
  ∧ enqueued (length keys) s s'
  ∧ ∀ j, m_queue_ <$> operation_queues_ s' !! j =
      (λ q, m_queue_ q ++ (if decide (i = j) then
          zip ((λ key, {| op_key := key; op_value := "" |}) <$> keys) (seq (next_promise s) (length keys)) else []))
      <$> operation_queues_ s !! j.
Proof.
  intros Hqs. destruct (queue_index_bound queue_id (length (operation_queues_ s))) as (i & Hi & Hlt); [by destruct (operation_queues_ s)|].
  exists i. revert s Hqs Hi Hlt. induction keys as [|key keys IH]; intros s Hqs Hi Hlt.
  - exists s. do 3 (split; [done|]). split; [apply enqueued_refl|]. intros j.
    destruct (operation_queues_ s !! j); simpl; [by case_decide; rewrite app_nil_r|done].
  - destruct (future_run queue_id {| op_key := key; op_value := "" |} s Hqs) as (i' & Hi' & _ & Hrun & Henq).
    rewrite Hi in Hi'. injection Hi' as <-. set (s1 := set_operation_queues_ _ _) in Hrun, Henq.
    pose proof Henq as (Hnp & _ & _ & _ & Hl1).
    destruct (IH s1) as (s' & _ & _ & Hrun' & Henq' & Hq').
    { intros H0. rewrite H0 in Hl1. by destruct (operation_queues_ s). }
    { by rewrite Hl1. }
    { by rewrite Hl1. }
    exists s'. do 2 (split; [done|]). split; [|split; [by apply (enqueued_trans 1 _ s s1)|]].
    + cbn [get_futures]. rewrite (mbind_run (get_future queue_id key) _ _ _ _ Hrun), (mbind_run _ _ _ _ _ Hrun').
      by rewrite Hnp, Nat.add_1_r.
    + intros j. rewrite Hq'. simpl. unfold with_pushed. destruct (decide (i = j)) as [<-|Hij].
      * rewrite list_lookup_alter_eq. destruct (operation_queues_ s !! i) as [q|]; simpl; [|done].
        by rewrite <- app_assoc.
      * rewrite list_lookup_alter_ne by done. done.
Qed.

Lemma put_futures_run queue_id keys values s waiters s' :
  put_futures queue_id keys values s = (Done waiters, s') →
  waiters = seq (next_promise s) (length keys) ∧ enqueued (length keys) s s'.
Proof.
  revert values s waiters. induction keys as [|key keys IH]; intros values s waiters Hrun; cbn [put_futures] in Hrun.
  { injection Hrun as <- <-. split; [done|apply enqueued_refl]. }
  destruct values as [|value values]; [done|].
  apply bind_inv in Hrun as (w & s1 & H1 & Hrun). apply bind_inv in Hrun as (ws & s2 & H2 & Hret).
  injection Hret as <- <-. apply IH in H2 as [-> Henq].
  apply future_inv in H1 as [-> H1]. split; [|by apply (enqueued_trans 1 _ s s1)]. destruct H1 as [-> _].
  simpl. f_equal. f_equal. lia.
Qed.

(** A batch call without interruption: its futures, then the two pushes *)
Lemma run_get_futures queue_id keys : ∀ k s,
  run_prog (get_futures_prog queue_id keys k) s = (waiters ← get_futures queue_id keys; run_prog (k waiters)) s.
Proof.
  induction keys as [|key keys IH]; intros k s; cbn [get_futures_prog get_futures run_prog]; [done|].
  unfold mbind, M_bind, mret, M_ret. destruct (get_future queue_id key s) as [[w|e] s1]; [|done].
  rewrite IH. unfold mbind, M_bind. by destruct (get_futures queue_id keys s1) as [[ws|e] s2].
Qed.

Lemma run_put_futures queue_id keys : ∀ values k s,
  run_prog (put_futures_prog queue_id keys values k) s = (waiters ← put_futures queue_id keys values; run_prog (k waiters)) s.
Proof.
  induction keys as [|key keys IH]; intros values k s; cbn [put_futures_prog put_futures run_prog]; [done|].
  destruct values as [|value values]; [done|].
  cbn [run_prog]. unfold mbind, M_bind, mret, M_ret. destruct (put_future queue_id key value s) as [[w|e] s1]; [|done].
  rewrite IH. unfold mbind, M_bind. by destruct (put_futures queue_id keys values s1) as [[ws|e] s2].
Qed.

Lemma run_line_up op seq_id waiters s :
  run_prog (line_up op seq_id waiters) s = (on_respond_queue (push (op, waiters)) ;; on_sequence_queue (push seq_id)) s.
Proof. reflexivity. Qed.

Lemma async_get_batch_run seq_id queue_id keys s :
  async_get_batch seq_id queue_id keys s =
  (waiters ← get_futures queue_id keys; on_respond_queue (push (GET_BATCH, waiters)) ;; on_sequence_queue (push seq_id)) s.
Proof. unfold async_get_batch, async_get_batch_prog. rewrite run_get_futures. apply mbind_ext, run_line_up. Qed.

Lemma async_put_batch_run seq_id queue_id keys values s :
  async_put_batch seq_id queue_id keys values s =
  (waiters ← put_futures queue_id keys values; on_respond_queue (push (PUT_BATCH, waiters)) ;; on_sequence_queue (push seq_id)) s.
Proof. unfold async_put_batch, async_put_batch_prog. rewrite run_put_futures. apply mbind_ext, run_line_up. Qed.

(** With the one queue that the server makes, the queue id does not matter. *)
Abbreviation one_queue s := (length (operation_queues_ s) = 1%nat).

Lemma queue_index_one queue_id : queue_index queue_id 1 = Some 0%nat.
Proof. unfold queue_index. simpl. by rewrite Z.mod_1_r. Qed.

Lemma future_one queue_id queue_id' op s :
  one_queue s →
  (prom ← make_promise; push_operation queue_id op prom ;; mret prom) s =
  (prom ← make_promise; push_operation queue_id' op prom ;; mret prom) s.
Proof.
  intros H1. erewrite !(mbind_run make_promise) by done.
  assert (∀ qid, push_operation qid op (next_promise s) (set_next_promise (S (next_promise s)) s)
                 = (Done (), set_operation_queues_ (with_pushed 0 op (next_promise s) (operation_queues_ s))
                     (set_next_promise (S (next_promise s)) s))) as Hp.
  { intros qid. apply (push_operation_run qid op _ (set_next_promise _ s) 0); cbn [operation_queues_ set_next_promise];
      rewrite H1; [apply queue_index_one|lia]. }
  by rewrite !(mbind_run _ _ _ _ _ (Hp _)).
Qed.

(** A GET batch is lined up in the three queues. *)
Lemma async_get_batch_pushed seq_id queue_id keys s :
  operation_queues_ s ≠ [] →
  let waiters := seq (next_promise s) (length keys) in
  ∃ i s', async_get_batch seq_id queue_id keys s = (Done (), s')
  ∧ m_queue_ (respond_queue_ s') = m_queue_ (respond_queue_ s) ++ [(GET_BATCH, waiters)]
  ∧ m_queue_ (sequence_queue_ s') = m_queue_ (sequence_queue_ s) ++ [seq_id]
  ∧ ∀ j, m_queue_ <$> operation_queues_ s' !! j =
      (λ q, m_queue_ q ++ (if decide (i = j) then zip ((λ key, {| op_key := key; op_value := "" |}) <$> keys) waiters else []))
      <$> operation_queues_ s !! j.
Proof.
  intros Hqs waiters. destruct (get_futures_pushed queue_id keys s Hqs) as (i & s1 & _ & _ & Hrun & Henq & Hpushed).
  destruct Henq as (_ & _ & Hr & Hs & _). rewrite async_get_batch_run, (mbind_run _ _ _ _ _ Hrun).
  exists i. eexists. split; [reflexivity|]. cbn. rewrite Hr, Hs. done.
Qed.

Lemma get_futures_one queue_id queue_id' keys s :
  one_queue s → get_futures queue_id keys s = get_futures queue_id' keys s.
Proof.
  revert s. induction keys as [|key keys IH]; intros s H1; [done|]. cbn [get_futures].
  unfold mbind at 1 3, M_bind at 1 3. fold (get_future queue_id key) (get_future queue_id' key).
  unfold get_future. rewrite (future_one queue_id queue_id') by done.
  destruct ((prom ← make_promise; _) s) as [[w|e] s1] eqn:Hw; [|done].
  apply future_inv in Hw as [_ (_ & _ & _ & _ & Hl)]. unfold mbind, M_bind. by rewrite IH by congruence.
Qed.

Lemma put_futures_one queue_id queue_id' keys values s :
  one_queue s → put_futures queue_id keys values s = put_futures queue_id' keys values s.
Proof.
  revert values s. induction keys as [|key keys IH]; intros values s H1; [done|]. cbn [put_futures].
  destruct values as [|value values]; [done|].
  unfold mbind at 1 3, M_bind at 1 3. fold (put_future queue_id key value) (put_future queue_id' key value).
  unfold put_future. rewrite (future_one queue_id queue_id') by done.
  destruct ((prom ← make_promise; _) s) as [[w|e] s1] eqn:Hw; [|done].
  apply future_inv in Hw as [_ (_ & _ & _ & _ & Hl)]. unfold mbind, M_bind. by rewrite IH by congruence.
Qed.

(** A call does not look at its queue id again. *)
Lemma bind_one {A B} (m : Z → M frontend A) (k : A → M frontend B) queue_id queue_id' s :
  m queue_id s = m queue_id' s → (m queue_id ≫= k) s = (m queue_id' ≫= k) s.
Proof. intros Hm. unfold mbind, M_bind. by rewrite Hm. Qed.

Lemma random_one {W A} rand (m : Z → M frontend A) queue_id (s : frontend) (w w' : W) r :
  rand 0 RAND_MAX w = (Done r, w') → m (wrap32 r) s = m queue_id s →
  (queue_id ← random_queue rand; on_fe (m queue_id)) (s, w) = on_fe (m queue_id) (s, w').
Proof.
  intros Hr Hm. unfold random_queue. unfold mbind, M_bind, zoom. simpl. rewrite Hr. unfold mret, M_ret, on_fe, zoom. simpl.
  by rewrite Hm.
Qed.

(** On a proxy with one queue, the calls with a random queue do what the
    calls with any queue id do, once the number is drawn. *)
Theorem random_queue_is_any {W} rand others queue_id (s : frontend) (w w' : W) r :
  one_queue s → rand 0 RAND_MAX w = (Done r, w') →
  (∀ key, random_get rand others key (s, w) = on_fe (get others queue_id key) (s, w')) ∧
  (∀ key value, random_put rand others key value (s, w) = on_fe (put others queue_id key value) (s, w')) ∧
  (∀ keys, random_get_batch rand others keys (s, w) = on_fe (get_batch others queue_id keys) (s, w')) ∧
  (∀ keys values, random_put_batch rand others keys values (s, w) = on_fe (put_batch others queue_id keys values) (s, w')) ∧
  (∀ seq key, random_async_get rand seq key (s, w) = on_fe (async_get seq queue_id key) (s, w')) ∧
  (∀ seq key value, random_async_put rand seq key value (s, w) = on_fe (async_put seq queue_id key value) (s, w')) ∧
  (∀ seq keys, random_async_get_batch rand seq keys (s, w) = on_fe (async_get_batch seq queue_id keys) (s, w')) ∧
  (∀ seq keys values,
    random_async_put_batch rand seq keys values (s, w) = on_fe (async_put_batch seq queue_id keys values) (s, w')).
Proof.
  intros H1 Hr. assert (∀ qid key value, put_future qid key value s = put_future queue_id key value s) as Hp
    by (intros; by apply future_one).
  assert (∀ qid key, get_future qid key s = get_future queue_id key s) as Hg by (intros; by apply future_one).
  pose proof (λ qid keys, get_futures_one qid queue_id keys s H1) as Hgs.
  pose proof (λ qid keys values, put_futures_one qid queue_id keys values s H1) as Hps.
  repeat split.
  - intros key. apply (random_one rand (λ q, get others q key) _ _ _ _ _ Hr), (bind_one (λ q, get_future q key)), Hg.
  - intros key value. apply (random_one rand (λ q, put others q key value) _ _ _ _ _ Hr), (bind_one (λ q, put_future q key value)), Hp.
  - intros keys. apply (random_one rand (λ q, get_batch others q keys) _ _ _ _ _ Hr), (bind_one (λ q, get_futures q keys)), Hgs.
  - intros keys values. apply (random_one rand (λ q, put_batch others q keys values) _ _ _ _ _ Hr), (bind_one (λ q, put_futures q keys values)), Hps.
  - intros sid key. apply (random_one rand (λ q, async_get sid q key) _ _ _ _ _ Hr), (bind_one (λ q, get_future q key)), Hg.
  - intros sid key value. apply (random_one rand (λ q, async_put sid q key value) _ _ _ _ _ Hr), (bind_one (λ q, put_future q key value)), Hp.
  - intros sid keys. apply (random_one rand (λ q, async_get_batch sid q keys) _ _ _ _ _ Hr). rewrite !async_get_batch_run.
    apply (bind_one (λ q, get_futures q keys)), Hgs.
  - intros sid keys values. apply (random_one rand (λ q, async_put_batch sid q keys values) _ _ _ _ _ Hr). rewrite !async_put_batch_run.
    apply (bind_one (λ q, put_futures q keys values)), Hps.
Qed.

(** The results of a call once its promises are set; a PUT batch needs none. *)
Definition results_of (op_code : Z) (waiters : list promise) (m : gmap promise string) : option (list string) :=
  if decide (op_code = PUT_BATCH) then Some (replicate (length waiters) "PUT SUCCESSFUL") else mapM (m !!.) waiters.

Lemma collect_run op_code waiters acc s :
  collect op_code waiters acc s =
  match results_of op_code waiters (promises s) with
  | Some results => (Done (acc ++ results), s)
  | None => (Stop Blocked, s)
  end.
Proof.
  unfold results_of. revert acc. induction waiters as [|w waiters IH]; intros acc; cbn [collect].
  { case_decide; simpl; by rewrite app_nil_r. }
  destruct (decide (op_code = PUT_BATCH)).
  - rewrite IH. simpl. by rewrite <- app_assoc.
  - simpl. destruct (promises s !! w) as [v|] eqn:Hw; simpl.
    + rewrite (mbind_run (future_get w) _ s v s) by (unfold future_get; run; by rewrite Hw). rewrite IH.
      destruct (mapM _ waiters); simpl; [by rewrite <- app_assoc|done].
    + by rewrite (mbind_stop (future_get w) _ s Blocked s) by (unfold future_get; run; by rewrite Hw).
Qed.

Lemma results_of_mono op_code waiters m p v results :
  m !! p = None → results_of op_code waiters m = Some results → results_of op_code waiters (<[p := v]> m) = Some results.
Proof.
  intros Hp. unfold results_of. case_decide; [done|]. revert results.
  induction waiters as [|w waiters IH]; intros results Hr; [done|]. simpl in *.
  destruct (m !! w) as [u|] eqn:Hw; [|done]. rewrite lookup_insert_ne by congruence. rewrite Hw. simpl in *.
  destruct (mapM _ waiters); [|done]. by rewrite (IH _ eq_refl).
Qed.

Lemma on_respond_blocks s : m_queue_ (respond_queue_ s) = [] → on_respond_queue pop s = (Stop Blocked, s).
Proof. intros Hs. unfold on_respond_queue, zoom. rewrite (pop_blocks _ Hs). by destruct s. Qed.
Lemma on_sequence_blocks s : m_queue_ (sequence_queue_ s) = [] → on_sequence_queue pop s = (Stop Blocked, s).
Proof. intros Hs. unfold on_sequence_queue, zoom. rewrite (pop_blocks _ Hs). by destruct s. Qed.

(** A turn, from the two queues *)
Lemma responder_turn_run d s op_code waiters rest seq_id seqs :
  m_queue_ (respond_queue_ s) = (op_code, waiters) :: rest → m_queue_ (sequence_queue_ s) = seq_id :: seqs →
  ∃ s', responder_turn d s =
    (match results_of op_code waiters (promises s) with Some r => Done (seq_id, op_code, r) | None => Stop Blocked end, s') ∧
    m_queue_ (respond_queue_ s') = rest ∧ m_queue_ (sequence_queue_ s') = seqs ∧ promises s' = promises s.
Proof.
  intros Hr Hs. unfold responder_turn.
  set (s1 := set_respond_queue_ {| m_queue_ := rest; size_ := wrap32 (size_ (respond_queue_ s) - 1) |} s).
  set (s2 := set_sequence_queue_ {| m_queue_ := seqs; size_ := wrap32 (size_ (sequence_queue_ s) - 1) |} s1).
  exists s2. split; [|done].
  rewrite (mbind_run _ _ s (op_code, waiters) s1) by (unfold on_respond_queue, zoom; by rewrite (pop_run _ _ _ Hr)).
  cbv zeta. rewrite (mbind_run _ _ s1 seq_id s2) by (unfold on_sequence_queue, zoom; by rewrite (pop_run (sequence_queue_ s1) _ _ Hs)).
  simpl. pose proof (collect_run op_code waiters [] s2) as Hc. change (promises s2) with (promises s) in Hc.
  destruct (results_of op_code waiters (promises s)).
  - by rewrite (mbind_run _ _ _ _ _ Hc).
  - by rewrite (mbind_stop _ _ _ _ _ Hc).
Qed.

(** ** Runs of the threads *)
Record sys := {
  fe : frontend;
  (** the calls of [async_get_batch] and [async_put_batch], in order *)
  calls : list call;
  (** the answers of the responder thread, in order *)
  responses : list response;
}.
Definition called (op : Z) (seq_id : sequence_id) (n : nat) (s : sys) (fe' : frontend) : sys :=
  {| fe := fe'; calls := calls s ++ [{| c_op := op; c_seq := seq_id; c_waiters := seq (next_promise (fe s)) n |}];
     responses := responses s |}.

(** Batch calls one at a time, consumer threads, the responder thread *)
Inductive step (s : sys) : sys → Prop :=
  | step_get_batch seq_id queue_id keys fe' :
      async_get_batch seq_id queue_id keys (fe s) = (Done (), fe') →
      step s (called GET_BATCH seq_id (length keys) s fe')
  | step_put_batch seq_id queue_id keys values fe' :
      async_put_batch seq_id queue_id keys values (fe s) = (Done (), fe') →
      step s (called PUT_BATCH seq_id (length keys) s fe')
  | step_take i item fe' :
      on_operation_queue i pop (fe s) = (Done item, fe') →
      step s {| fe := fe'; calls := calls s; responses := responses s |}
  | step_set p v :
      promises (fe s) !! p = None →
      step s {| fe := set_promises (<[p := v]> (promises (fe s))) (fe s); calls := calls s; responses := responses s |}
  | step_respond d r fe' :
      responder_turn d (fe s) = (Done r, fe') →
      step s {| fe := fe'; calls := calls s; responses := responses s ++ [r] |}.

(** A proxy whose queues are new *)
Definition start (cores : nat) : sys :=
  {| fe := {| operation_queues_ := replicate cores new_queue; respond_queue_ := new_queue; sequence_queue_ := new_queue;
              promises := ∅; next_promise := 0%nat |};
     calls := []; responses := [] |}.

Definition answers (m : gmap promise string) (r : response) (c : call) : Prop :=
  r.1.1 = c_seq c ∧ r.1.2 = c_op c ∧ results_of (c_op c) (c_waiters c) m = Some r.2.

Record paired (s : sys) (answered pending : list call) : Prop := {
  paired_calls : calls s = answered ++ pending;
  paired_responses : Forall2 (answers (promises (fe s))) (responses s) answered;
  paired_respond : m_queue_ (respond_queue_ (fe s)) = (λ c, (c_op c, c_waiters c)) <$> pending;
  paired_sequence : m_queue_ (sequence_queue_ (fe s)) = c_seq <$> pending;
}.

Lemma called_paired op seq_id ws n s fe1 answered pending :
  paired s answered pending → ws = seq (next_promise (fe s)) n → enqueued n (fe s) fe1 →
  ∃ fe', (on_respond_queue (push (op, ws)) ;; on_sequence_queue (push seq_id)) fe1 = (Done (), fe') ∧
  paired (called op seq_id n s fe') answered
    (pending ++ [{| c_op := op; c_seq := seq_id; c_waiters := seq (next_promise (fe s)) n |}]).
Proof.
  intros [Hc Hr Hq Hs] -> (_ & Hp & Hrq & Hsq & _). eexists. split; [reflexivity|]. split; simpl.
  - by rewrite Hc, <- app_assoc.
  - by rewrite Hp.
  - by rewrite Hrq, Hq, fmap_app.
  - by rewrite Hsq, Hs, fmap_app.
Qed.

Lemma step_paired s s' answered pending :
  paired s answered pending → step s s' → ∃ answered' pending', paired s' answered' pending'.
Proof.
  intros Hp Hstep. destruct Hstep as [seq_id qid keys fe' Hrun|seq_id qid keys values fe' Hrun|i item fe' Hrun|p v Hv|d r fe' Hrun].
  - rewrite async_get_batch_run in Hrun. apply bind_inv in Hrun as (ws & fe1 & H1 & Hrun). apply get_futures_run in H1 as [Hws Henq].
    destruct (called_paired GET_BATCH seq_id ws _ s fe1 _ _ Hp Hws Henq) as (fe2 & Hrun2 & Hp').
    rewrite Hrun2 in Hrun. injection Hrun as <-. eauto.
  - rewrite async_put_batch_run in Hrun. apply bind_inv in Hrun as (ws & fe1 & H1 & Hrun). apply put_futures_run in H1 as [Hws Henq].
    destruct (called_paired PUT_BATCH seq_id ws _ s fe1 _ _ Hp Hws Henq) as (fe2 & Hrun2 & Hp').
    rewrite Hrun2 in Hrun. injection Hrun as <-. eauto.
  - exists answered, pending. unfold on_operation_queue in Hrun.
    destruct (operation_queues_ (fe s) !! i) as [q|]; [|done]. destruct (pop q) as [x q']. injection Hrun as _ <-.
    by destruct Hp.
  - exists answered, pending. destruct Hp as [Hc Hr Hq Hs]. split; try done. simpl.
    eapply Forall2_impl; [exact Hr|]. intros r c (H1 & H2 & H3). split; [done|]. split; [done|]. by apply results_of_mono.
  - destruct Hp as [Hc Hr Hq Hs]. destruct pending as [|c pending].
    { unfold responder_turn in Hrun. by rewrite (mbind_stop _ _ _ _ _ (on_respond_blocks (fe s) Hq)) in Hrun. }
    destruct (responder_turn_run d (fe s) _ _ _ _ _ Hq Hs) as (fe1 & Hrun1 & H1 & H2 & H3).
    rewrite Hrun1 in Hrun. destruct (results_of _ _ _) as [res|] eqn:Hres; [|done]. injection Hrun as <- <-.
    exists (answered ++ [c]), pending. split; simpl; [by rewrite Hc, <- app_assoc| |done|done].
    apply Forall2_app; [by rewrite H3|]. constructor; [|constructor]. split; [done|]. split; [done|]. by rewrite H3.
Qed.

Lemma reachable_paired cores s : rtc step (start cores) s → ∃ answered pending, paired s answered pending.
Proof.
  intros Hrtc. remember (start cores) as s0 eqn:Hs0.
  assert (∃ a p, paired s0 a p) as Hp by (exists [], []; subst; by split).
  clear Hs0. induction Hrtc as [s|s s1 s2 Hstep _ IH]; [done|]. apply IH.
  destruct Hp as (a & p & Hp). by eapply step_paired.
Qed.

Lemma reachable_pending cores s answered pending :
  rtc step (start cores) s → calls s = answered ++ pending → length answered = length (responses s) →
  paired s answered pending.
Proof.
  intros Hrtc Hc Hlen. destruct (reachable_paired cores s Hrtc) as (a & p & Hp).
  pose proof (Forall2_length _ _ _ (paired_responses _ _ _ Hp)) as Hl. rewrite (paired_calls _ _ _ Hp) in Hc.
  apply app_inj_1 in Hc as [-> ->]; [done|congruence].
Qed.

(** C10: as long as batch calls reach the proxy one at a time, and no other
    asynchronous call does, the responder thread answers the calls in order,
    each under its own sequence id and with its own operation: a GET batch with
    the values of its promises in the order of its keys, a PUT batch with one
    message for each key, whether its operations were executed or not.  The
    next call is answered as soon as its promises are set. *)
Theorem responses_match_calls cores s :
  rtc step (start cores) s →
  ∃ answered pending, calls s = answered ++ pending ∧ Forall2 (answers (promises (fe s))) (responses s) answered ∧
  ∀ c rest d, pending = c :: rest →
    (responder_turn d (fe s)).1 =
    match results_of (c_op c) (c_waiters c) (promises (fe s)) with
    | Some results => Done (c_seq c, c_op c, results)
    | None => Stop Blocked
    end.
Proof.
  intros Hrtc. destruct (reachable_paired cores s Hrtc) as (answered & pending & [Hc Hr Hq Hs]).
  exists answered, pending. split; [done|]. split; [done|]. intros c rest d ->.
  by destruct (responder_turn_run d (fe s) _ _ _ _ _ Hq Hs) as (s' & -> & _).
Qed.

(** ** Other asynchronous calls *)

(** [async_get] leaves no sequence id: its answer goes out under the id of
    the next batch, and that batch is not answered then, whatever is set. *)
Theorem async_get_takes_next_id seq1 qid1 key seq2 qid2 keys d s s1 s2 m v :
  m_queue_ (respond_queue_ s) = [] → m_queue_ (sequence_queue_ s) = [] →
  async_get seq1 qid1 key s = (Done (), s1) → async_get_batch seq2 qid2 keys s1 = (Done (), s2) →
  m !! next_promise s = Some v →
  ∃ s3, responder_turn d (set_promises m s2) = (Done (seq2, GET, [v]), s3) ∧
  ∀ m', (responder_turn d (set_promises m' s3)).1 = Stop Blocked.
Proof.
  intros Hr Hs H1 H2 Hm.
  apply bind_inv in H1 as (w & t1 & Hw & H1). apply future_inv in Hw as [-> (_ & _ & Hr1 & Hs1 & _)]. injection H1 as <-.
  rewrite async_get_batch_run in H2. apply bind_inv in H2 as (ws & t2 & Hws & H2). apply get_futures_run in Hws as [_ (_ & _ & Hr2 & Hs2 & _)].
  injection H2 as <-. simpl in Hr2, Hs2.
  destruct (responder_turn_run d (set_promises m (set_sequence_queue_
      {| m_queue_ := m_queue_ (sequence_queue_ t2) ++ [seq2]; size_ := wrap32 (size_ (sequence_queue_ t2) + 1) |}
      (set_respond_queue_ {| m_queue_ := m_queue_ (respond_queue_ t2) ++ [(GET_BATCH, ws)];
         size_ := wrap32 (size_ (respond_queue_ t2) + 1) |} t2)))
    GET [next_promise s] [(GET_BATCH, ws)] seq2 []) as (s3 & Hrun & Hr3 & Hs3 & _).
  { simpl. by rewrite Hr2, Hr1, Hr. }
  { simpl. by rewrite Hs2, Hs1, Hs. }
  exists s3. split.
  - etransitivity; [exact Hrun|]. simpl. unfold results_of. simpl. by rewrite Hm.
  - intros m'. unfold responder_turn. erewrite mbind_run; [|].
    2: { unfold on_respond_queue, zoom. simpl. by rewrite (pop_run (respond_queue_ s3) _ _ Hr3). }
    cbv zeta. erewrite mbind_stop; [done|]. by apply on_sequence_blocks.
Qed.

(** ** Batch calls that interrupt each other *)

(** An induction on what is left of a call *)
Lemma prog_actions_ind (P : prog → Prop) :
  P Ret → (∀ e m, (∀ s p s', m s = (Done p, s') → P p) → P (Atomic e m)) → ∀ p, P p.
Proof.
  intros Hret Hatomic. fix IH 1. intros [|e m]; [exact Hret|]. apply Hatomic. intros s p s' Hrun.
  destruct (m s) as [[p'|] s1] eqn:Hm; [|discriminate Hrun].
  replace p with p' by congruence. specialize (IH p'). exact IH.
Qed.

(** The promises in the queues of the consumer threads *)
Definition queued (s : frontend) : list promise := operation_queues_ s ≫= λ q, (m_queue_ q).*2.

(** Each is there once, and was made. *)
Definition tidy (s : frontend) : Prop := NoDup (queued s) ∧ ∀ x, x ∈ queued s → (x < next_promise s)%nat.

(** More operations are queued, with new promises, and none is taken. *)
Definition fed (s s' : frontend) : Prop :=
  promises s' = promises s ∧ (next_promise s ≤ next_promise s')%nat ∧
  ∃ new, queued s' ≡ₚ new ++ queued s ∧ NoDup new ∧ ∀ x, x ∈ new → (next_promise s ≤ x < next_promise s')%nat.

Lemma fed_tidy s s' : fed s s' → tidy s → tidy s'.
Proof.
  intros (_ & Hn & new & Hq & Hnd & Hx) [Ht Hb]. split.
  - rewrite Hq. apply NoDup_app. split; [done|]. split; [|done]. intros x Hin%Hx Hin'%Hb. lia.
  - intros x. rewrite Hq. intros [Hin%Hx|Hin%Hb]%elem_of_app; lia.
Qed.

Lemma fed_not_queued x s s' : fed s s' → (x < next_promise s)%nat → x ∉ queued s → (x < next_promise s')%nat ∧ x ∉ queued s'.
Proof.
  intros (_ & Hn & new & Hq & _ & Hx) Hlt Hni. split; [lia|]. rewrite Hq. intros [Hin%Hx|?]%elem_of_app; [lia|done].
Qed.

Lemma fed_same s s' :
  promises s' = promises s → next_promise s' = next_promise s → operation_queues_ s' = operation_queues_ s → fed s s'.
Proof.
  intros H1 H2 H3. split; [done|]. split; [lia|]. exists []. unfold queued. rewrite H3. split; [done|]. split; [constructor|].
  intros x Hx. by apply not_elem_of_nil in Hx.
Qed.

(** The queues but one *)
Lemma queued_at n (qs : list (queue (operation * promise))) q :
  qs !! n = Some q → ∃ rest, ∀ q', (<[n := q']> qs ≫= λ q, (m_queue_ q).*2) ≡ₚ (m_queue_ q').*2 ++ rest.
Proof.
  revert n. induction qs as [|q0 qs IH]; intros [|n] Hn; simplify_eq/=.
  - exists (qs ≫= λ q, (m_queue_ q).*2). done.
  - destruct (IH n Hn) as [rest Hrest]. exists ((m_queue_ q0).*2 ++ rest). intros q'. cbn.
    rewrite (Hrest q'), !(assoc_L (++)). by rewrite (Permutation_app_comm (m_queue_ q0).*2).
Qed.

Lemma taken_queued n op x s s' :
  on_operation_queue n pop s = (Done (op, x), s') →
  queued s ≡ₚ x :: queued s' ∧ next_promise s' = next_promise s ∧ promises s' = promises s.
Proof.
  unfold on_operation_queue. destruct (operation_queues_ s !! n) as [q|] eqn:Hn; [|done].
  destruct (m_queue_ q) as [|y items] eqn:Hq; [by rewrite (pop_blocks _ Hq)|]. rewrite (pop_run _ _ _ Hq).
  intros Hrun. injection Hrun as -> <-. split; [|done]. destruct (queued_at n _ _ Hn) as [rest Hrest]. unfold queued. cbn.
  pose proof (Hrest q) as Hold. rewrite (list_insert_id _ _ _ Hn) in Hold. by rewrite Hrest, Hold, Hq.
Qed.

Lemma future_fed queue_id op s w s' :
  (prom ← make_promise; push_operation queue_id op prom ;; mret prom) s = (Done w, s') → fed s s'.
Proof.
  intros Hrun. destruct (decide (operation_queues_ s = [])) as [Hqs|Hqs].
  { erewrite (mbind_run make_promise) in Hrun by done. unfold push_operation in Hrun. unfold mbind, M_bind, gets in Hrun.
    simpl in Hrun. rewrite Hqs in Hrun. done. }
  destruct (future_run queue_id op s Hqs) as (i & _ & Hlt & Hrun' & _). cbv zeta in Hrun'. rewrite Hrun' in Hrun.
  injection Hrun as _ <-. split; [done|]. cbn. split; [lia|]. exists [next_promise s]. split; [|split; [apply NoDup_singleton|]].
  - apply lookup_lt_is_Some in Hlt as [q Hq]. destruct (queued_at i _ _ Hq) as [rest Hrest]. unfold queued. cbn. unfold with_pushed.
    pose proof (Hrest q) as Hold.
    rewrite (list_insert_id _ _ _ Hq) in Hold. rewrite (alter_at _ _ _ _ Hq), Hrest, Hold. cbn. rewrite fmap_app. cbn.
    by rewrite <- (Permutation_cons_append _ (next_promise s)).
  - intros x ->%list_elem_of_singleton. lia.
Qed.

Lemma responder_turn_frame d s r s' : responder_turn d s = (r, s') → fed s s'.
Proof.
  unfold responder_turn, on_respond_queue, on_sequence_queue, zoom, mbind, M_bind. destruct (pop (respond_queue_ s)) as [[t|e] q1];
    [|by intros [= _ <-]; apply fed_same]. cbv zeta.
  destruct (pop _) as [[id|e] q2]; [|by intros [= _ <-]; apply fed_same].
  rewrite collect_run. destruct (results_of _ _ _); intros [= _ <-]; by apply fed_same.
Qed.

(** The actions add to the two queues what they say. *)
Definition did (e : event) (s s' : frontend) : Prop :=
  m_queue_ (respond_queue_ s') = m_queue_ (respond_queue_ s) ++ ((λ c, (c_op c, c_waiters c)) <$> lined e)
  ∧ m_queue_ (sequence_queue_ s') = m_queue_ (sequence_queue_ s) ++ numbered e
  ∧ fed s s'.

Inductive labelled : prog → Prop :=
  | labelled_ret : labelled Ret
  | labelled_atomic e m :
      (∀ s p s', m s = (Done p, s') → did e s s') → (∀ s p s', m s = (Done p, s') → labelled p) → labelled (Atomic e m).

Lemma advance_inv p e p' s s' : advance p s = (Done (e, p'), s') → ∃ m, p = Atomic e m ∧ m s = (Done p', s').
Proof.
  destruct p as [|e1 m]; [done|]. cbn [advance]. intros (p1 & s1 & Hm & Hret)%bind_inv. injection Hret as <- <- <-. by exists m.
Qed.

Lemma advance_labelled p e p' s s' :
  labelled p → advance p s = (Done (e, p'), s') → did e s s' ∧ labelled p'.
Proof. intros Hp (m & -> & Hm)%advance_inv. inversion Hp as [|? ? Hdid Hnext]; subst. split; [by eapply Hdid|by eapply Hnext]. Qed.

Lemma line_up_labelled op seq_id waiters : labelled (line_up op seq_id waiters).
Proof.
  apply labelled_atomic; intros s p s' Hrun; injection Hrun as <- <-.
  { split; [done|]. split; [cbn; by rewrite app_nil_r|by apply fed_same]. }
  apply labelled_atomic; intros t p t' Hrun; injection Hrun as <- <-; [|constructor].
  split; [cbn; by rewrite app_nil_r|]. split; [done|by apply fed_same].
Qed.

(** To put an operation in a queue adds nothing for the responder thread. *)
Lemma enqueued_labelled (m : M frontend promise) (k : promise → prog) :
  (∀ s w s', m s = (Done w, s') → enqueued 1 s s' ∧ fed s s') → (∀ w, labelled (k w)) →
  labelled (Atomic Enqueued (w ← m; mret (k w))).
Proof.
  intros Hm Hk. apply labelled_atomic; intros s p s' (w & s1 & Hrun & Hret)%bind_inv; injection Hret as <- <-; [|apply Hk].
  apply Hm in Hrun as [(_ & _ & Hr & Hs & _) Hfed]. split; [|split; [|done]]; cbn; by rewrite ?Hr, ?Hs, app_nil_r.
Qed.

Lemma async_get_batch_labelled seq_id queue_id keys : labelled (async_get_batch_prog seq_id queue_id keys).
Proof.
  unfold async_get_batch_prog. assert (∀ ws, labelled (line_up GET_BATCH seq_id ws)) as Hk by (intros; apply line_up_labelled).
  revert Hk. generalize (line_up GET_BATCH seq_id). induction keys as [|key keys IH]; intros k Hk; [apply Hk|].
  apply enqueued_labelled; [intros s w s' Hw; split; [by apply future_inv in Hw as [_ ?]|by eapply future_fed]|]. intros w. apply IH. intros ws. apply Hk.
Qed.

Lemma async_put_batch_labelled seq_id queue_id keys values : labelled (async_put_batch_prog seq_id queue_id keys values).
Proof.
  unfold async_put_batch_prog. assert (∀ ws, labelled (line_up PUT_BATCH seq_id ws)) as Hk by (intros; apply line_up_labelled).
  revert values Hk. generalize (line_up PUT_BATCH seq_id). induction keys as [|key keys IH]; intros k values Hk; [apply Hk|].
  destruct values as [|value values]; [by apply labelled_atomic|].
  apply enqueued_labelled; [intros s w s' Hw; split; [by apply future_inv in Hw as [_ ?]|by eapply future_fed]|]. intros w. apply IH. intros ws. apply Hk.
Qed.

(** The ids that a call still owes to [sequence_queue_]: it pushes the id of what
    it has lined up, once, before it returns. *)
Definition settle (e : event) (debt : list sequence_id) : option (list sequence_id) :=
  match e, debt with
  | Enqueued, _ => Some debt
  | Lined c, _ => Some (debt ++ [c_seq c])
  | Numbered id, id' :: debt => if decide (id = id') then Some debt else None
  | Numbered _, [] => None
  end.

Inductive owes : list sequence_id → prog → Prop :=
  | owes_ret : owes [] Ret
  | owes_atomic debt e m debt' :
      settle e debt = Some debt' → (∀ s p s', m s = (Done p, s') → owes debt' p) → owes debt (Atomic e m).

Lemma settle_app e debt debt' : settle e debt = Some debt' → debt ++ (c_seq <$> lined e) = numbered e ++ debt'.
Proof. destruct e, debt as [|id' debt]; cbn; intros; simplify_option_eq; by rewrite ?app_nil_r. Qed.

Lemma line_up_owes op seq_id waiters : owes [] (line_up op seq_id waiters).
Proof.
  eapply owes_atomic; [done|]. intros s p s' Hrun. injection Hrun as <- _.
  eapply owes_atomic; [cbn; by rewrite decide_True|]. intros t p t' Hrun. injection Hrun as <- _. constructor.
Qed.

Lemma enqueued_owes (m : M frontend promise) (k : promise → prog) :
  (∀ w, owes [] (k w)) → owes [] (Atomic Enqueued (w ← m; mret (k w))).
Proof.
  intros Hk. eapply owes_atomic; [done|]. intros s p s' (w & s1 & _ & Hret)%bind_inv. injection Hret as <- _. apply Hk.
Qed.

Lemma get_futures_owes queue_id keys : ∀ k, (∀ ws, owes [] (k ws)) → owes [] (get_futures_prog queue_id keys k).
Proof.
  induction keys as [|key keys IH]; intros k Hk; [apply Hk|]. apply enqueued_owes. intros w. apply IH. intros ws. apply Hk.
Qed.

Lemma put_futures_owes queue_id keys : ∀ values k, (∀ ws, owes [] (k ws)) → owes [] (put_futures_prog queue_id keys values k).
Proof.
  induction keys as [|key keys IH]; intros values k Hk; [apply Hk|]. destruct values as [|value values].
  - by eapply owes_atomic.
  - apply enqueued_owes. intros w. apply IH. intros ws. apply Hk.
Qed.

(** A call without interruption, by its actions *)
Inductive performs : prog → frontend → list event → frontend → Prop :=
  | performs_ret s : performs Ret s [] s
  | performs_atomic e m s p s1 es s' :
      m s = (Done p, s1) → performs p s1 es s' → performs (Atomic e m) s (e :: es) s'.

Lemma get_futures_performs queue_id keys : ∀ k s waiters s1 es s',
  get_futures queue_id keys s = (Done waiters, s1) → performs (k waiters) s1 es s' →
  performs (get_futures_prog queue_id keys k) s (replicate (length keys) Enqueued ++ es) s'.
Proof.
  induction keys as [|key keys IH]; intros k s waiters s1 es s' Hrun Hk; cbn [get_futures] in Hrun.
  { by injection Hrun as <- <-. }
  apply bind_inv in Hrun as (w & s2 & H1 & Hrun). apply bind_inv in Hrun as (ws & s3 & H2 & Hret). injection Hret as <- <-.
  eapply performs_atomic; [by rewrite (mbind_run _ _ _ _ _ H1)|]. by eapply (IH (λ ws, k (w :: ws))).
Qed.

Lemma line_up_performs op seq_id waiters s s' :
  run_prog (line_up op seq_id waiters) s = (Done (), s') →
  performs (line_up op seq_id waiters) s [Lined {| c_op := op; c_seq := seq_id; c_waiters := waiters |}; Numbered seq_id] s'.
Proof.
  intros [= <-]. eapply performs_atomic; [reflexivity|]. eapply performs_atomic; [reflexivity|]. constructor.
Qed.

Lemma async_get_batch_performs seq_id queue_id keys s s' :
  async_get_batch seq_id queue_id keys s = (Done (), s') →
  performs (async_get_batch_prog seq_id queue_id keys) s
    (replicate (length keys) Enqueued ++
     [Lined {| c_op := GET_BATCH; c_seq := seq_id; c_waiters := seq (next_promise s) (length keys) |}; Numbered seq_id]) s'.
Proof.
  rewrite async_get_batch_run. intros (ws & s1 & H1 & Hrun)%bind_inv. pose proof H1 as [-> _]%get_futures_run.
  eapply get_futures_performs; [exact H1|]. by apply line_up_performs.
Qed.

(** ** Schedules *)
Lemma interleave_app l1 l2 threads s threads1 s1 :
  interleave l1 threads s = (Done threads1, s1) → interleave (l1 ++ l2) threads s = interleave l2 threads1 s1.
Proof.
  revert threads s. induction l1 as [|i l1 IH]; intros threads s Hrun; [by injection Hrun as <- <-|].
  cbn [interleave app] in *. destruct (threads !! i) as [p|]; [|done].
  apply bind_inv in Hrun as ([e p'] & s2 & Ha & Hrun). rewrite (mbind_run _ _ _ _ _ Ha). by apply IH.
Qed.

Lemma interleave_one i threads e m s p' s' :
  threads !! i = Some (Atomic e m) → m s = (Done p', s') →
  interleave [i] threads s = (Done (<[i := p']> threads), s').
Proof.
  intros Hi Hm. cbn [interleave]. rewrite Hi. cbn [advance].
  rewrite mbind_assoc, (mbind_run _ _ _ _ _ Hm). reflexivity.
Qed.

(** A thread enqueues its operations, then the two pushes. *)
Lemma interleave_futures i queue_id keys : ∀ k threads s waiters s',
  threads !! i = Some (get_futures_prog queue_id keys k) → get_futures queue_id keys s = (Done waiters, s') →
  interleave (replicate (length keys) i) threads s = (Done (<[i := k waiters]> threads), s').
Proof.
  induction keys as [|key keys IH]; intros k threads s waiters s' Hi Hrun; cbn [get_futures] in Hrun.
  { injection Hrun as <- <-. cbn. by rewrite list_insert_id. }
  apply bind_inv in Hrun as (w & s1 & H1 & Hrun). apply bind_inv in Hrun as (ws & s2 & H2 & Hret). injection Hret as <- <-.
  change (replicate (length (key :: keys)) i) with ([i] ++ replicate (length keys) i).
  assert (i < length threads)%nat as Hlt by by eapply lookup_lt_Some.
  erewrite interleave_app; [|by eapply interleave_one; [exact Hi|rewrite (mbind_run _ _ _ _ _ H1)]].
  rewrite (IH (λ ws, k (w :: ws)) _ s1 ws s2); [|by rewrite list_lookup_insert_eq|done].
  by rewrite list_insert_insert_eq.
Qed.

(** C39: a batch call can be interrupted between its two pushes.  Two threads of
    the server that make one GET batch each, of two clients, can be scheduled so
    that the answers are swapped: from a proxy whose responder thread is idle,
    after both calls have returned and whenever their values are there, the
    values that the first client has asked for go out under the id of the second,
    and the values of the second under the id of the first. *)
Theorem racing_batches_swap_answers seq1 qid1 keys1 seq2 qid2 keys2 s :
  operation_queues_ s ≠ [] → m_queue_ (respond_queue_ s) = [] → m_queue_ (sequence_queue_ s) = [] →
  let waiters1 := seq (next_promise s) (length keys1) in
  let waiters2 := seq (next_promise s + length keys1) (length keys2) in
  ∃ schedule s',
    interleave schedule [async_get_batch_prog seq1 qid1 keys1; async_get_batch_prog seq2 qid2 keys2] s
    = (Done [Ret; Ret], s') ∧
  ∀ m results1 results2 d1 d2,
    mapM (m !!.) waiters1 = Some results1 → mapM (m !!.) waiters2 = Some results2 →
  ∃ s1 s2, responder_turn d1 (set_promises m s') = (Done (seq2, GET_BATCH, results1), s1)
    ∧ responder_turn d2 s1 = (Done (seq1, GET_BATCH, results2), s2).
Proof.
  intros Hqs Hr Hs waiters1 waiters2.
  destruct (get_futures_pushed qid1 keys1 s Hqs) as (_ & s1 & _ & _ & Hrun1 & Henq1 & _).
  destruct Henq1 as (Hn1 & _ & Hr1 & Hs1 & Hl1).
  set (s2 := set_respond_queue_ {| m_queue_ := m_queue_ (respond_queue_ s1) ++ [(GET_BATCH, waiters1)];
    size_ := wrap32 (size_ (respond_queue_ s1) + 1) |} s1).
  assert (operation_queues_ s2 ≠ []) as Hqs2.
  { cbn. intros H0. rewrite H0 in Hl1. by destruct (operation_queues_ s). }
  destruct (get_futures_pushed qid2 keys2 s2 Hqs2) as (_ & s3 & _ & _ & Hrun3 & Henq3 & _).
  destruct Henq3 as (_ & _ & Hr3 & Hs3 & _). cbn in Hrun3, Hr3, Hs3. rewrite Hn1 in Hrun3. fold waiters2 in Hrun3.
  exists (replicate (length keys1) 0%nat ++ [0%nat] ++ replicate (length keys2) 1%nat ++ [1%nat] ++ [1%nat] ++ [0%nat]).
  eexists. split.
  - erewrite interleave_app; [|by eapply interleave_futures]. cbn [list_insert].
    erewrite interleave_app; [|by eapply interleave_one]. 
    erewrite interleave_app; [|by eapply interleave_futures].
    erewrite interleave_app; [|by eapply interleave_one].
    erewrite interleave_app; [|by eapply interleave_one].
    etransitivity; [by eapply interleave_one|reflexivity].
  - intros m results1 results2 d1 d2 Hm1 Hm2. set (s' := set_sequence_queue_ _ _).
    destruct (responder_turn_run d1 (set_promises m s') GET_BATCH waiters1 [(GET_BATCH, waiters2)] seq2 [seq1])
      as (t1 & Ht1 & Hq1 & Hi1 & Hp1); [cbn; by rewrite Hr3, Hr1, Hr|cbn; by rewrite Hs3, Hs1, Hs|].
    destruct (responder_turn_run d2 t1 GET_BATCH waiters2 [] seq1 []) as (t2 & Ht2 & _); [done..|].
    exists t1, t2. rewrite Ht1, Ht2, Hp1. unfold results_of. cbn [promises set_promises].
    by rewrite !decide_False, Hm1, Hm2 by done.
Qed.

End Frontend.
