(* ===== verification/Threads.v ===== *)
(** The threads that [init] starts (proxy/src/waffle_proxy.cpp): the loops of
    [consumer_thread], with a place for each point where another thread can
    come between, the loops of [responder_thread] and [clearThread] with their
    conditions and the turns of Frontend and ProxySystem as their bodies, and
    [close], which sets [finished_] and joins the threads in the order of
    [threads_].

    A turn of the responder or the clear thread is one step, and what the
    service threads do to the queues between two steps is arbitrary.  That
    [std::terminate] ends the process when a body throws, and
    [file.close()], are left out. *)
From S2P Require Import Prelude.
From S2P Require Import RunningKeys.
From S2P Require Import Storage.
From S2P Require Import Encryption.
From S2P Require Import Proxy.
From S2P Require Import ProxyBatch.
From S2P Require Import ProxySystem.
From S2P Require Import Frontend.

Local Open Scope Z_scope.

Module Threads.
Import Proxy System.

Section threads.
Context {St W : Type} `{storage_interface St} `{crypter W}.
Variable conf : config.
Variable fuel : nat.
Abbreviation proxy := (@waffle_proxy St W).
Abbreviation operations := (list (operation * RunningKeys.shared_promise)).

(** * A consumer thread *)

(** Where it is: at [while (!finished_)], at [while (i < R && !finished_)] with
    what it has gathered, or returned *)
Inductive place :=
  | Outside (request_id : Z)
  | Inside (i : Z) (g : gathered)
  | Returned.

(** A step on the proxy and on the queue of the thread *)
Inductive consumer_step (finished_ : bool) : place * (proxy * operations) → place * (proxy * operations) → Prop :=
  | consumer_enters id s :
      finished_ = false → consumer_step finished_ (Outside id, s) (Inside 0 (nothing_gathered id), s)
  | consumer_returns id s :
      finished_ = true → consumer_step finished_ (Outside id, s) (Returned, s)
  | consumer_serves i g op promise ops p n g' p' :
      i < R conf → finished_ = false → serve op promise g p = (Done (n, g'), p') → in_int (i + n) = true →
      consumer_step finished_ (Inside i g, (p, (op, promise) :: ops)) (Inside (i + n) g', (p', ops))
  | consumer_spins i g p :
      i < R conf → finished_ = false → consumer_step finished_ (Inside i g, (p, [])) (Inside i g, (p, []))
  | consumer_executes i g p ops p' :
      R conf <= i ∨ finished_ = true → finish_round conf fuel g p = (Done (), p') →
      consumer_step finished_ (Inside i g, (p, ops)) (Outside (request_id g), (p', ops)).

Lemma gather_steps ops i g p g' ops' p' :
  gather conf false i ops g p = (Done (g', ops'), p') →
  ∃ i', R conf <= i' ∧ rtc (consumer_step false) (Inside i g, (p, ops)) (Inside i' g', (p', ops')).
Proof.
  revert i g p. induction ops as [|[op promise] ops IH]; intros i g p; cbn [gather]; rewrite orb_false_r;
    destruct (Z.leb_spec (R conf) i) as [Hi|Hi].
  1, 3: intros [= <- <- <-]; exists i; by split; [|apply rtc_refl].
  - done.
  - unfold mbind, M_bind. destruct (serve op promise g p) as [[[n g1]|e] p1] eqn:Hs; [|done]. cbn [fst snd].
    destruct (in_int (i + n)) eqn:Hn; [|done]. intros (i' & Hi' & Hrun)%IH. exists i'. split; [done|].
    eapply rtc_l; [by apply (consumer_serves false i g op promise ops p n g1 p1)|done].
Qed.

(** A turn of the outer loop, as ProxySystem has it in one step, is taken in
    these steps. *)
Lemma consumer_round_steps ops id p id' ops' p' :
  consumer_round conf fuel false ops id p = (Done (id', ops'), p') →
  rtc (consumer_step false) (Outside id, (p, ops)) (Outside id', (p', ops')).
Proof.
  unfold consumer_round, mbind, M_bind. destruct (gather _ _ _ _ _ _) as [[[g ops1]|e] p1] eqn:Hg; [|done]. cbn [fst snd].
  destruct (finish_round conf fuel g p1) as [[[]|e] p2] eqn:Hf; [|done]. intros [= <- <- <-].
  apply gather_steps in Hg as (i & Hi & Hg). eapply rtc_l; [by apply consumer_enters|].
  eapply rtc_r; [exact Hg|]. apply consumer_executes; [by left|done].
Qed.

(** Once [finished_] is set, the thread returns after at most one more batch,
    of what it has gathered so far. *)
Lemma consumer_ends pl p ops :
  (∀ i g, pl = Inside i g → ∃ p', finish_round conf fuel g p = (Done (), p')) →
  ∃ p', rtc (consumer_step true) (pl, (p, ops)) (Returned, (p', ops)).
Proof.
  intros Hf. destruct pl as [id|i g|].
  - exists p. apply rtc_once. by apply consumer_returns.
  - destruct (Hf i g eq_refl) as [p' Hrun]. exists p'. eapply rtc_l; [apply consumer_executes; [by right|exact Hrun]|].
    apply rtc_once. by apply consumer_returns.
  - exists p. apply rtc_refl.
Qed.

(** * The responder thread and the clear thread *)

(** A thread at the head of its loop, in the body, or returned *)
Inductive loop_place := Head | Body | Left.

Inductive loop_step {S} (condition : bool → bool) (body : S → S → Prop) (finished_ : bool)
    : loop_place * S → loop_place * S → Prop :=
  | loop_enters s : condition finished_ = true → loop_step condition body finished_ (Head, s) (Body, s)
  | loop_turns s s' : body s s' → loop_step condition body finished_ (Body, s) (Head, s')
  | loop_leaves s : condition finished_ = false → loop_step condition body finished_ (Head, s) (Left, s).

(** [while (true)], in both *)
Definition responder_condition (finished_ : bool) : bool := true.
Definition clear_condition (finished_ : bool) : bool := true.

(** A turn, when it does not have to wait *)
Definition responder_body (fe fe' : Frontend.frontend) : Prop :=
  ∃ dangling response, Frontend.responder_turn dangling fe = (Done response, fe').
Definition clear_body (p p' : proxy) : Prop := clearThread p = (Done (), p').

Definition responder_step := loop_step responder_condition responder_body.
Definition clear_step := loop_step clear_condition clear_body.

(** * All threads, and [close] *)

(** The threads in the order of [threads_] *)
Inductive thread := Consumer (pl : place) (ops : operations) | Responder (pl : loop_place) | Clear (pl : loop_place).

(** Has the function of the thread returned? *)
Definition returned (t : thread) : bool :=
  match t with
  | Consumer Returned _ | Responder Left | Clear Left => true
  | _ => false
  end.

(** [close]: not called yet, in [threads_[i].join()], or returned *)
Inductive closing := Open | Joining (i : nat) | Closed.

Record state := {
  finished_ : bool;
  threads_ : list thread;
  closing_ : closing;
  proxy_ : proxy;
  frontend_ : Frontend.frontend;
}.

(** The threads that [init] starts on [cores] cores *)
Definition started_threads (cores : nat) (p : proxy) (fe : Frontend.frontend) : state :=
  {| finished_ := false; threads_ := replicate cores (Consumer (Outside 0) []) ++ [Responder Head; Clear Head];
     closing_ := Open; proxy_ := p; frontend_ := fe |}.

Definition with_thread (j : nat) (t : thread) (p : proxy) (fe : Frontend.frontend) (s : state) : state :=
  {| finished_ := finished_ s; threads_ := <[j := t]> (threads_ s); closing_ := closing_ s; proxy_ := p; frontend_ := fe |}.

Inductive step (s : state) : state → Prop :=
  | step_consumer j pl ops pl' p' ops' :
      threads_ s !! j = Some (Consumer pl ops) →
      consumer_step (finished_ s) (pl, (proxy_ s, ops)) (pl', (p', ops')) →
      step s (with_thread j (Consumer pl' ops') p' (frontend_ s) s)
  (** an operation is put into the queue of a consumer thread *)
  | step_arrives j pl ops op :
      threads_ s !! j = Some (Consumer pl ops) →
      step s (with_thread j (Consumer pl (ops ++ [op])) (proxy_ s) (frontend_ s) s)
  | step_responder j pl pl' fe' :
      threads_ s !! j = Some (Responder pl) → responder_step (finished_ s) (pl, frontend_ s) (pl', fe') →
      step s (with_thread j (Responder pl') (proxy_ s) fe' s)
  | step_clear j pl pl' p' :
      threads_ s !! j = Some (Clear pl) → clear_step (finished_ s) (pl, proxy_ s) (pl', p') →
      step s (with_thread j (Clear pl') p' (frontend_ s) s)
  (** whatever the threads of the service and the promises that the consumers set do to the
      queues of the responder *)
  | step_others fe' :
      step s {| finished_ := finished_ s; threads_ := threads_ s; closing_ := closing_ s; proxy_ := proxy_ s; frontend_ := fe' |}
  | step_close :
      closing_ s = Open →
      step s {| finished_ := true; threads_ := threads_ s; closing_ := Joining 0; proxy_ := proxy_ s; frontend_ := frontend_ s |}
  | step_join i t :
      closing_ s = Joining i → threads_ s !! i = Some t → returned t = true →
      step s {| finished_ := finished_ s; threads_ := threads_ s; closing_ := Joining (S i); proxy_ := proxy_ s;
                frontend_ := frontend_ s |}
  | step_closed i :
      closing_ s = Joining i → length (threads_ s) = i →
      step s {| finished_ := finished_ s; threads_ := threads_ s; closing_ := Closed; proxy_ := proxy_ s;
                frontend_ := frontend_ s |}.

Definition is_consumer (t : thread) : Prop := match t with Consumer _ _ => True | _ => False end.

Record inv (cores : nat) (s : state) : Prop := {
  inv_length : length (threads_ s) = (cores + 2)%nat;
  inv_consumers j t : threads_ s !! j = Some t → is_consumer t ↔ (j < cores)%nat;
  inv_responder : ∃ pl, threads_ s !! cores = Some (Responder pl) ∧ pl ≠ Left;
  inv_closing : match closing_ s with
                | Open => True
                | Joining i => finished_ s = true ∧ (i ≤ cores)%nat
                | Closed => False
                end;
}.

(** A loop whose condition holds whatever [finished_] is does not leave. *)
Lemma loop_stays {S} condition (body : S → S → Prop) f pl s pl' s' :
  (∀ f, condition f = true) → loop_step condition body f (pl, s) (pl', s') → pl' ≠ Left.
Proof. intros Hc Hs. inversion Hs; subst; [done..|]. congruence. Qed.

Lemma started_inv cores p fe : inv cores (started_threads cores p fe).
Proof.
  split; cbn [threads_ closing_ started_threads].
  - rewrite length_app, length_replicate. done.
  - intros j t [[-> Hj]%lookup_replicate|[Hj Ht]]%lookup_app_Some; [done|]. rewrite length_replicate in *.
    destruct (j - cores)%nat as [|[|?]]; cbn in Ht; simplify_eq; (split; [done|]); cbn; lia.
  - rewrite lookup_app_r by by rewrite length_replicate. rewrite length_replicate, Nat.sub_diag. by exists Head.
  - done.
Qed.

(** A thread goes on as the same kind of thread, and the responder thread does
    not return. *)
Lemma thread_changed cores s j t t' p fe :
  inv cores s → threads_ s !! j = Some t → is_consumer t' ↔ is_consumer t →
  (j = cores → ∃ pl, t' = Responder pl ∧ pl ≠ Left) → inv cores (with_thread j t' p fe s).
Proof.
  intros [Hl Hc Hr Hcl] Hj Hk Hres. apply lookup_lt_Some in Hj as Hlt.
  split; cbn; [by rewrite length_insert| | |done].
  - intros k t0. destruct (decide (j = k)) as [<-|Hne]; [|rewrite list_lookup_insert_ne by done; apply Hc].
    rewrite list_lookup_insert_eq by done. intros [= <-]. rewrite Hk. by apply Hc.
  - destruct (decide (j = cores)) as [->|Hne]; [|by rewrite list_lookup_insert_ne by done].
    rewrite list_lookup_insert_eq by done. destruct (Hres eq_refl) as (pl & -> & Hpl). by exists pl.
Qed.

Lemma thread_step_inv cores s s' : inv cores s → step s s' → inv cores s'.
Proof.
  intros Hi [j pl ops pl' p' ops' Hj _|j pl ops op Hj|j pl pl' fe' Hj Hs|j pl pl' p' Hj Hs|fe'|Ho|i t Hci Ht Hret|i Hci Hlen].
  1, 2, 4: eapply thread_changed; [done|exact Hj|done|];
    intros ->; destruct (inv_responder _ _ Hi) as (pl0 & Hpl & _); congruence.
  - eapply thread_changed; [done|exact Hj|done|]. intros _. exists pl'. split; [done|]. by eapply loop_stays; [|exact Hs].
  - by destruct Hi.
  - destruct Hi as [H1 H2 H3 _]. split; cbn; [done..|]. split; [done|lia].
  - destruct Hi as [H1 H2 H3 H4]. rewrite Hci in H4. destruct H4 as [Hfin Hle]. split; cbn; [done..|]. split; [done|].
    assert (i ≠ cores); [|lia]. intros ->. destruct H3 as (pl & H3 & Hpl). rewrite H3 in Ht. injection Ht as <-. by destruct pl.
  - destruct Hi as [H1 _ _ H4]. rewrite Hci in H4. lia.
Qed.

(** C29: in every run of the threads that [init] starts, [close] never returns:
    the responder thread never leaves its loop, also when [finished_] is set,
    and [close] gets as far as joining it at most. *)
Theorem close_never_returns cores p fe s :
  rtc step (started_threads cores p fe) s →
  closing_ s ≠ Closed ∧ (∀ i, closing_ s = Joining i → finished_ s = true ∧ (i ≤ cores)%nat)
  ∧ ∃ t, threads_ s !! cores = Some t ∧ returned t = false.
Proof.
  intros Hr. assert (inv cores s) as Hi.
  { revert s Hr. apply (rtc_ind_r (inv cores)); [apply started_inv|]. intros s s' _ Hstep IH. by eapply thread_step_inv. }
  pose proof (inv_closing _ _ Hi) as Hc. split; [by destruct (closing_ s)|]. split; [intros i Hci; by rewrite Hci in Hc|].
  destruct (inv_responder _ _ Hi) as (pl & Hpl & Hne). exists (Responder pl). split; [done|by destruct pl].
Qed.

(** A thread that is joined while [finished_] is set and whose batch runs can be
    joined. *)
Theorem consumers_are_joined cores s i :
  inv cores s → closing_ s = Joining i → (i < cores)%nat →
  (∀ pl ops i' g, threads_ s !! i = Some (Consumer pl ops) → pl = Inside i' g →
     ∃ p', finish_round conf fuel g (proxy_ s) = (Done (), p')) →
  ∃ s', rtc step s s' ∧ closing_ s' = Joining (S i).
Proof.
  intros Hi Hci Hlt Hf. pose proof (inv_closing _ _ Hi) as Hc. rewrite Hci in Hc. destruct Hc as [Hfin _].
  destruct (lookup_lt_is_Some_2 (threads_ s) i) as [t Ht]; [rewrite (inv_length _ _ Hi); lia|].
  pose proof (proj2 (inv_consumers _ _ Hi _ _ Ht) Hlt) as Htc. destruct t as [pl ops|pl|pl]; [|done|done].
  destruct (consumer_ends pl (proxy_ s) ops) as [p' Hrun]; [intros i' g Hpl; by eapply Hf|].
  assert (∀ x y, rtc (consumer_step true) x y → ∀ s, finished_ s = true → closing_ s = Joining i →
    threads_ s !! i = Some (Consumer x.1 x.2.2) → proxy_ s = x.2.1 →
    ∃ s', rtc step s s' ∧ finished_ s' = true ∧ closing_ s' = Joining i ∧ threads_ s' !! i = Some (Consumer y.1 y.2.2)) as Hsteps.
  { clear. intros x y Hr. induction Hr as [x|x y z Hstep _ IH]; intros s Hfin Hci Ht Hp; [by exists s; split; [apply rtc_refl|]|].
    destruct x as [pl [p ops]], y as [pl' [p' ops']]. cbn [fst snd] in *. subst p.
    destruct (IH {| finished_ := finished_ s; threads_ := <[i := Consumer pl' ops']> (threads_ s); closing_ := closing_ s;
      proxy_ := p'; frontend_ := frontend_ s |}) as (s' & Hr & Hrest); cbn; [done|done| |done|].
    - rewrite list_lookup_insert_eq; [done|by eapply lookup_lt_Some].
    - exists s'. split; [|done]. eapply rtc_l; [|exact Hr]. eapply step_consumer; [exact Ht|]. by rewrite Hfin. }
  destruct (Hsteps _ _ Hrun s Hfin Hci Ht eq_refl) as (s' & Hr & _ & Hci' & Ht').
  eexists. split; [eapply rtc_r; [exact Hr|]; by eapply step_join|done].
Qed.
End threads.
End Threads.
