(* ===== verification/Handler.v ===== *)
(** What stands between the service and the proxy: the handler of a connection
    (service/src/thrift_handler.cpp), the map from client ids to the
    connections on which answers go out (thrift_response_client_map.cpp,
    thrift_response_client.cpp), and the responder thread with it.

    The class [proxy] (proxy/src/proxy.h) is an interface, that Frontend
    implements.  The map is libcuckoo's [cuckoohash_map], a parameter. *)
From S2P Require Import Prelude.
From S2P Require Import Queue.
From S2P Require Import Thrift.
From S2P Require Import WaffleThrift.
From S2P Require Import ThriftRpc.
From S2P Require Import WaffleThriftResponse.
From S2P Require Import Frontend.

Local Open Scope Z_scope.

(** [proxy] *)
Class proxy (S : Type) := {
  proxy_get : Z → string → M S string;
  proxy_put : Z → string → string → M S ();
  proxy_get_batch : Z → list string → M S (list string);
  proxy_put_batch : Z → list string → list string → M S ();
  proxy_search : string → list string → M S (list string);
  proxy_async_get : Thrift.sequence_id → Z → string → M S ();
  proxy_async_put : Thrift.sequence_id → Z → string → string → M S ();
  proxy_async_get_batch : Thrift.sequence_id → Z → list string → M S ();
  proxy_async_put_batch : Thrift.sequence_id → Z → list string → list string → M S ();
}.

(** [libcuckoo::cuckoohash_map<int64_t, C>] *)
Class cuckoohash_map (C Mp : Type) := {
  cuckoo_insert : Z → C → Mp → Mp;
  cuckoo_erase : Z → Mp → Mp;
  cuckoo_clear : Mp → Mp;
  (** the element that [update_fn] works on *)
  cuckoo_find : Z → Mp → option C;
  (** the elements of [lock_table], in order *)
  cuckoo_elements : Mp → list (Z * C);
}.
(** [insert] does not replace an element. *)
Class CuckooSpec (C Mp : Type) `{cuckoohash_map C Mp} := {
  cuckoo_find_insert id c m id' :
    cuckoo_find id' (cuckoo_insert id c m) =
    if decide (id' = id) then Some (default c (cuckoo_find id m)) else cuckoo_find id' m;
  cuckoo_find_erase id m id' : cuckoo_find id' (cuckoo_erase id m) = if decide (id' = id) then None else cuckoo_find id' m;
  cuckoo_find_clear m id : cuckoo_find id (cuckoo_clear m) = None;
}.

Module Handler.
Import Queue Thrift.

Section handler.
Context {P Mp S : Type} {prot : TProtocol P} {cuckoo : cuckoohash_map nat Mp} {prx : proxy S}.

(** * The clients that answers go to *)

(** A [thrift_response_client] is known by its place in [connections_], the
    protocols over the connections of the server. *)
Record client_map := { clients_ : Mp; connections_ : list P }.

Definition on_connection {A} (c : nat) (m : M P A) : M client_map A := λ s,
  match connections_ s !! c with
  | None => (Stop Undefined, s)
  | Some p => let '(r, p') := m p in (r, {| clients_ := clients_ s; connections_ := <[c := p']> (connections_ s) |})
  end.

(** [thrift_response_client::async_response] *)
Definition client_async_response (c : nat) (seq_id : sequence_id) (op_code : Z) (result : list string) : M client_map () :=
  on_connection c (Response.async_response seq_id op_code result).

Definition with_clients (f : Mp → Mp) (s : client_map) : client_map :=
  {| clients_ := f (clients_ s); connections_ := connections_ s |}.
Definition add_client (client_id : Z) (client : nat) : M client_map () :=
  modify (with_clients (cuckoo_insert client_id client)).
Definition remove_client (client_id : Z) : M client_map () := modify (with_clients (cuckoo_erase client_id)).
Definition clear : M client_map () := modify (with_clients cuckoo_clear).

Definition async_respond_client (seq : sequence_id) (op_code : Z) (result : list string) : M client_map () :=
  if decide (client_id seq = -1) then mret ()
  else
    s ← get;
    match cuckoo_find (client_id seq) (clients_ s) with
    | None => mret ()
    | Some client =>
        try_catch (client_async_response client seq op_code result)
          (λ e, if decide (e = TTransportException) then mret () else fail (Throw e))
    end.

(** [client_id] is set twice, [server_seq_no] never. *)
Definition send_failure : M client_map () :=
  let failure := set_client_id (-2) (set_client_seq_no (-2) (set_client_id (-2) new_sequence_id)) in
  s ← get;
  for_each (cuckoo_elements (clients_ s)) (λ x, try_catch (client_async_response x.2 failure 5 []) (λ e, mret ())).

(** * The handler of a connection *)
Record thrift_handler := {
  operation_count_ : Z;
  client_ : nat;
  registered_client_id_ : Z;
}.
(** A new connection; [client] is where its answers go. *)
Definition new_handler (client : nat) : thrift_handler :=
  {| operation_count_ := 0; client_ := client; registered_client_id_ := -1 |}.

(** The handler with what it shares with the others *)
Record state := {
  handler : thrift_handler;
  client_id_gen_ : Z;
  id_to_client_ : client_map;
  proxy_ : S;
}.

Definition set_handler h (s : state) : state :=
  {| handler := h; client_id_gen_ := client_id_gen_ s; id_to_client_ := id_to_client_ s; proxy_ := proxy_ s |}.
Definition set_client_id_gen_ g (s : state) : state :=
  {| handler := handler s; client_id_gen_ := g; id_to_client_ := id_to_client_ s; proxy_ := proxy_ s |}.
Definition set_id_to_client_ m (s : state) : state :=
  {| handler := handler s; client_id_gen_ := client_id_gen_ s; id_to_client_ := m; proxy_ := proxy_ s |}.
Definition set_proxy_ p (s : state) : state :=
  {| handler := handler s; client_id_gen_ := client_id_gen_ s; id_to_client_ := id_to_client_ s; proxy_ := p |}.

Definition on_clients {A} : M client_map A → M state A := zoom id_to_client_ set_id_to_client_.
Definition on_proxy {A} : M S A → M state A := zoom proxy_ set_proxy_.

(** [fetch_add(1L)] on an [atomic<int64_t>] *)
Definition get_client_id : M state Z :=
  value ← gets client_id_gen_;
  modify (set_client_id_gen_ (wrap64 (value + 1))) ;;
  mret value.

Definition register_client_id (block_id client_id : Z) : M state () :=
  h ← gets handler;
  modify (set_handler {| operation_count_ := operation_count_ h; client_ := client_ h; registered_client_id_ := client_id |}) ;;
  on_clients (add_client client_id (client_ h)).

(** [operation_count_++]: an overflow of the [int] is undefined. *)
Definition next_operation : M state Z :=
  h ← gets handler;
  let n := operation_count_ h in
  if in_int (n + 1) then
    modify (set_handler {| operation_count_ := n + 1; client_ := client_ h; registered_client_id_ := registered_client_id_ h |}) ;;
    mret n
  else fail Undefined.

Definition async_get (seq_id : sequence_id) (key : string) : M state () :=
  n ← next_operation; on_proxy (proxy_async_get seq_id n key).
Definition async_put (seq_id : sequence_id) (key value : string) : M state () :=
  n ← next_operation; on_proxy (proxy_async_put seq_id n key value).
Definition async_get_batch (seq_id : sequence_id) (keys : list string) : M state () :=
  n ← next_operation; on_proxy (proxy_async_get_batch seq_id n keys).
Definition async_put_batch (seq_id : sequence_id) (keys values : list string) : M state () :=
  n ← next_operation; on_proxy (proxy_async_put_batch seq_id n keys values).
Definition handler_get (_return key : string) : M state string :=
  n ← next_operation; on_proxy (proxy_get n key).
Definition handler_put (key value : string) : M state () :=
  n ← next_operation; on_proxy (proxy_put n key value).
Definition get_batch (_return keys : list string) : M state (list string) :=
  n ← next_operation; on_proxy (proxy_get_batch n keys).
Definition put_batch (keys values : list string) : M state () :=
  n ← next_operation; on_proxy (proxy_put_batch n keys values).
Definition search (_return : list string) (key : string) : M state (list string) := on_proxy (proxy_search key _return).

(** The handler as an implementation of the service *)
Definition handler_iface : waffle_thriftIf state := {|
  waffle_thriftIf.get_client_id := get_client_id;
  waffle_thriftIf.register_client_id := register_client_id;
  waffle_thriftIf.async_get := async_get;
  waffle_thriftIf.async_put := async_put;
  waffle_thriftIf.async_get_batch := async_get_batch;
  waffle_thriftIf.async_put_batch := async_put_batch;
  waffle_thriftIf.get := handler_get;
  waffle_thriftIf.put := handler_put;
  waffle_thriftIf.get_batch := get_batch;
  waffle_thriftIf.put_batch := put_batch;
  waffle_thriftIf.search := search;
|}.
(** [responder_thread]: a turn of its loop *)
Definition responder_thread (dangling : sequence_id) : M (Frontend.frontend * client_map) () :=
  r ← zoom fst (λ f s, (f, s.2)) (Frontend.responder_turn dangling);
  zoom snd (λ c s, (s.1, c)) (async_respond_client r.1.1 r.1.2 r.2).
End handler.
Arguments client_map : clear implicits.
Arguments state : clear implicits.

(** [waffle_proxy] as a [proxy]; [others] and [bst_search] are as in Frontend. *)
Definition frontend_proxy (others : M Frontend.frontend ())
    (bst_search : string → list string → M Frontend.frontend (list string)) : proxy Frontend.frontend := {|
  proxy_get := Frontend.get others;
  proxy_put := Frontend.put others;
  proxy_get_batch := Frontend.get_batch others;
  proxy_put_batch := Frontend.put_batch others;
  proxy_search := bst_search;
  proxy_async_get := Frontend.async_get;
  proxy_async_put := Frontend.async_put;
  proxy_async_get_batch := Frontend.async_get_batch;
  proxy_async_put_batch := Frontend.async_put_batch;
|}.

(** * Answers are delivered *)
Section delivery.
Context {P Mp : Type} `{TProtocolSpec P} {cuckoo : cuckoohash_map nat Mp}.

Lemma async_respond_client_runs seq op result (s : client_map P Mp) c p :
  client_id seq ≠ -1 → cuckoo_find (client_id seq) (clients_ s) = Some c → connections_ s !! c = Some p →
  Response.response_ok seq op result →
  ∃ p', async_respond_client seq op result s =
    (Done (), {| clients_ := clients_ s; connections_ := <[c := p']> (connections_ s) |}) ∧
    outgoing p' = outgoing p ++ Response.response_tokens seq op result ∧ incoming p' = incoming p.
Proof.
  intros Hid Hc Hp Hok. destruct (Response.async_response_writes seq op result Hok p) as (p' & Hrun & Ho & Hi).
  exists p'. split; [|done]. unfold async_respond_client. rewrite decide_False by done.
  rewrite (mbind_run Prelude.get _ s s s eq_refl), Hc. unfold try_catch, client_async_response, on_connection.
  by rewrite Hp, Hrun.
Qed.

(** C9: the first batch that waits for its answer, once its promises are set,
    is answered on the connection that its client has registered, and on no
    other; the client reads the number it gave the call and the results of its
    operations in order. *)
Theorem answers_are_delivered fuel cores s answered c pending results (m : client_map P Mp) conn p d :
  (3 < fuel)%nat → rtc Frontend.step (Frontend.start cores) s →
  Frontend.calls s = answered ++ c :: pending → length answered = length (Frontend.responses s) →
  Frontend.results_of (Frontend.c_op c) (Frontend.c_waiters c) (Frontend.promises (Frontend.fe s)) = Some results →
  client_id (Frontend.c_seq c) ≠ -1 → cuckoo_find (client_id (Frontend.c_seq c)) (clients_ m) = Some conn →
  connections_ m !! conn = Some p → Response.response_ok (Frontend.c_seq c) (Frontend.c_op c) results →
  ∃ fe' p', responder_thread d (Frontend.fe s, m) =
      (Done (), (fe', {| clients_ := clients_ m; connections_ := <[conn := p']> (connections_ m) |})) ∧
    m_queue_ (Frontend.sequence_queue_ fe') = Frontend.c_seq <$> pending ∧
    ∃ sent, outgoing p' = outgoing p ++ sent ∧
    ∀ pc r, incoming pc = sent ++ r →
    ∃ pc', Response.recv_response fuel pc = (Done (client_seq_no (Frontend.c_seq c), results), pc') ∧ incoming pc' = r.
Proof.
  intros Hfuel Hrtc Hcalls Hlen Hres Hid Hc Hconn Hok.
  destruct (Frontend.reachable_pending cores s answered (c :: pending) Hrtc Hcalls Hlen) as [_ _ Hq Hs].
  destruct (Frontend.responder_turn_run d (Frontend.fe s) _ _ _ _ _ Hq Hs) as (fe' & Hrun & _ & Hs' & _).
  rewrite Hres in Hrun.
  destruct (async_respond_client_runs _ _ _ m conn p Hid Hc Hconn Hok) as (p' & Hsend & Ho & _).
  exists fe', p'. split; [|split; [done|]].
  - unfold responder_thread. erewrite mbind_run; [|by unfold zoom; simpl; rewrite Hrun].
    unfold zoom. simpl. by rewrite Hsend.
  - eexists. split; [exact Ho|]. intros pc r Hpc.
    destruct (Response.recv_response_reads fuel Hfuel (Frontend.c_seq c) (Frontend.c_op c) results pc r Hpc)
      as (pc' & Hr & Hi & _). by exists pc'.
Qed.
End delivery.

End Handler.
