(* ===== verification/HandlerFactory.v ===== *)
(** The connections of the server (service/src/thrift_handler_factory.cpp,
    [waffle_thriftProcessorFactory] of waffle_thrift.cpp): each new connection
    gets a handler of its own, and they share the counter of client ids, the
    map of clients and the proxy.  Connections come and go, and their calls
    and the answers are interleaved; an answer goes out on the connection whose
    client has registered the id.

    The socket and its time-outs are not modelled: a connection is the protocol
    [P] over it. *)
From S2P Require Import Prelude.
From S2P Require Import Queue.
From S2P Require Import Thrift.
From S2P Require Import WaffleThrift.
From S2P Require Import ThriftRpc.
From S2P Require Import WaffleThriftResponse.
From S2P Require Import Frontend.
From S2P Require Import Handler.

Local Open Scope Z_scope.

Module Factory.
Import Queue Thrift Rpc Handler.

Section factory.
Context {P Mp S : Type} {prot : TProtocol P} {cuckoo : cuckoohash_map nat Mp} {prx : proxy S}.
Variable fuel : nat.
Variable what : exn → string.

(** The handlers that were made, and what they share.  A handler that was
    released is gone. *)
Record server := {
  handlers_ : list (option thrift_handler);
  gen_ : Z;
  clients : client_map P Mp;
  shared_proxy_ : S;
}.

(** [getHandler] *)
Definition getHandler (transport : P) : M server nat := λ s,
  let m := clients s in
  (Done (length (handlers_ s)),
   {| handlers_ := handlers_ s ++ [Some (new_handler (length (connections_ m)))]; gen_ := gen_ s;
      clients := {| clients_ := clients_ m; connections_ := connections_ m ++ [transport] |};
      shared_proxy_ := shared_proxy_ s |}).

Definition releaseHandler (handler : nat) : M server () :=
  modify (λ s, {| handlers_ := <[handler := None]> (handlers_ s); gen_ := gen_ s; clients := clients s;
                  shared_proxy_ := shared_proxy_ s |}).

(** A method of a handler *)
Definition on_handler {A} (i : nat) (m : M (Handler.state P Mp S) A) : M server A := λ s,
  match handlers_ s !! i with
  | Some (Some h) =>
      let '(r, st) := m {| handler := h; client_id_gen_ := gen_ s; id_to_client_ := clients s; proxy_ := shared_proxy_ s |} in
      (r, {| handlers_ := <[i := Some (handler st)]> (handlers_ s); gen_ := client_id_gen_ st;
             clients := id_to_client_ st; shared_proxy_ := proxy_ st |})
  | _ => (Stop Undefined, s)
  end.

(** The handler as it is seen by its processor *)
Definition handler_of (i : nat) : waffle_thriftIf server := {|
  waffle_thriftIf.get_client_id := on_handler i get_client_id;
  waffle_thriftIf.register_client_id block_id client_id := on_handler i (register_client_id block_id client_id);
  waffle_thriftIf.async_get seq_id key := on_handler i (async_get seq_id key);
  waffle_thriftIf.async_put seq_id key value := on_handler i (async_put seq_id key value);
  waffle_thriftIf.async_get_batch seq_id keys := on_handler i (async_get_batch seq_id keys);
  waffle_thriftIf.async_put_batch seq_id keys values := on_handler i (async_put_batch seq_id keys values);
  waffle_thriftIf.get _return key := on_handler i (handler_get _return key);
  waffle_thriftIf.put key value := on_handler i (handler_put key value);
  waffle_thriftIf.get_batch _return keys := on_handler i (get_batch _return keys);
  waffle_thriftIf.put_batch keys values := on_handler i (put_batch keys values);
  waffle_thriftIf.search _return keys := on_handler i (search _return keys);
|}.

(** [getProcessor]: the processor of a new connection *)
Definition getProcessor (connInfo : P) : M server (string → Z → M (server * P) bool) :=
  handler ← getHandler connInfo;
  mret (waffle_thriftProcessor.dispatchCall fuel what (handler_of handler)).

(** * Connections and their calls *)

(** The server, with the ids that were given out, in order, and those that
    were registered, each with its connection *)
Record run := { srv : server; got : list (nat * Z); registered : list (nat * Z) }.

Inductive step (s : run) : run → Prop :=
  | step_connect transport i srv' :
      getHandler transport (srv s) = (Done i, srv') →
      step s {| srv := srv'; got := got s; registered := registered s |}
  | step_release i srv' :
      releaseHandler i (srv s) = (Done (), srv') →
      step s {| srv := srv'; got := got s; registered := registered s |}
  | step_get_id i id srv' :
      waffle_thriftIf.get_client_id (handler_of i) (srv s) = (Done id, srv') →
      step s {| srv := srv'; got := got s ++ [(i, id)]; registered := registered s |}
  (** a client registers an id that it got *)
  | step_register i block_id id srv' :
      (i, id) ∈ got s → waffle_thriftIf.register_client_id (handler_of i) block_id id (srv s) = (Done (), srv') →
      step s {| srv := srv'; got := got s; registered := registered s ++ [(i, id)] |}
  (** any other call, whatever comes of it *)
  | step_call i q r srv' :
      (match q with Get_client_id | Register_client_id _ _ => False | _ => True end) →
      handle (handler_of i) q (srv s) = (r, srv') →
      step s {| srv := srv'; got := got s; registered := registered s |}
  (** an answer of the responder thread *)
  | step_respond seq op result r m :
      async_respond_client seq op result (clients (srv s)) = (r, m) →
      step s {| srv := {| handlers_ := handlers_ (srv s); gen_ := gen_ (srv s); clients := m;
                          shared_proxy_ := shared_proxy_ (srv s) |};
                got := got s; registered := registered s |}.
End factory.
Arguments server : clear implicits.
Arguments run : clear implicits.

(** * Answers stay with their clients *)
Section correct.
Context {P Mp S : Type} {prot : TProtocol P} {cuckoo : cuckoohash_map nat Mp} {cuckooS : CuckooSpec nat Mp} {prx : proxy S}.
Abbreviation run := (run P Mp S).
Abbreviation client_of s id := (cuckoo_find id (clients_ (clients (srv s)))).

Record started (s : run) : Prop := {
  start_handlers : handlers_ (srv s) = [];
  start_connections : connections_ (clients (srv s)) = [];
  start_clients id : client_of s id = None;
  start_gen : in_long (gen_ (srv s)) = true;
  start_got : got s = [];
  start_registered : registered s = [];
}.

(** [g] is the counter at the start. *)
Record inv (g : Z) (s : run) : Prop := {
  inv_gen : gen_ (srv s) = wrap64 (g + Z.of_nat (length (got s)));
  inv_ids : (got s).*2 = (λ i, wrap64 (g + Z.of_nat i)) <$> seq 0 (length (got s));
  inv_handlers : length (handlers_ (srv s)) = length (connections_ (clients (srv s)));
  inv_own i h : handlers_ (srv s) !! i = Some (Some h) → client_ h = i;
  inv_clients id c : client_of s id = Some c → (c, id) ∈ got s;
  inv_registered i id : (i, id) ∈ registered s →
    (i, id) ∈ got s ∧ (Z.of_nat (length (got s)) ≤ 2^64 → client_of s id = Some i);
  inv_connected i id : (i, id) ∈ got s → (i < length (connections_ (clients (srv s))))%nat;
}.

Lemma got_distinct g s i j id :
  inv g s → Z.of_nat (length (got s)) ≤ 2^64 → (i, id) ∈ got s → (j, id) ∈ got s → i = j.
Proof.
  intros Hi Hn [a Ha]%list_elem_of_lookup [b Hb]%list_elem_of_lookup.
  assert (∀ k x, got s !! k = Some x → x.2 = wrap64 (g + Z.of_nat k)) as Hid.
  { intros k x Hk. assert ((got s).*2 !! k = Some x.2) as H2 by (by rewrite list_lookup_fmap, Hk).
    rewrite (inv_ids _ _ Hi), list_lookup_fmap in H2. apply lookup_lt_Some in Hk.
    rewrite (proj2 (lookup_seq 0 (length (got s)) k k)) in H2 by lia. by injection H2 as <-. }
  assert (a = b) as ->; [|congruence]. pose proof (Hid _ _ Ha) as H1. pose proof (Hid _ _ Hb) as H2. simpl in H1, H2.
  apply lookup_lt_Some in Ha, Hb. apply Nat2Z.inj. apply (wrap64_inj g); [lia..|congruence].
Qed.

Lemma connections_started_inv s : started s → inv (gen_ (srv s)) s.
Proof.
  intros [Hh Hc Hcl Hg Hgot Hr]. split; rewrite ?Hh, ?Hc, ?Hgot, ?Hr; try done.
  - simpl. by rewrite Z.add_0_r, wrap64_in_range.
  - intros id c Hid. by rewrite Hcl in Hid.
  - intros i id Hin. by apply not_elem_of_nil in Hin.
  - intros i id Hin. by apply not_elem_of_nil in Hin.
Qed.

(** The calls that neither give out nor register ids *)
Definition quiet {A} (m : M (Handler.state P Mp S) A) : Prop := ∀ st r st', m st = (r, st') →
  client_ (handler st') = client_ (handler st) ∧ client_id_gen_ st' = client_id_gen_ st
  ∧ id_to_client_ st' = id_to_client_ st.

Lemma quiet_bind {A B} (m : M (Handler.state P Mp S) A) (k : A → M (Handler.state P Mp S) B) :
  quiet m → (∀ a, quiet (k a)) → quiet (m ≫= k).
Proof.
  intros Hm Hk st r st'. unfold mbind, M_bind. destruct (m st) as [[a|e] st1] eqn:H1.
  - intros H2. destruct (Hk _ _ _ _ H2) as (-> & -> & ->). by destruct (Hm _ _ _ H1) as (-> & -> & ->).
  - intros [= <- <-]. by apply Hm in H1.
Qed.
Lemma quiet_next : quiet (next_operation (P := P) (Mp := Mp) (S := S)).
Proof.
  intros st r st'. unfold next_operation, gets, mbind, M_bind. cbv zeta.
  destruct (in_int _); intros [= <- <-]; done.
Qed.
Lemma quiet_proxy {A} (m : M S A) : quiet (on_proxy m).
Proof. intros st r st'. unfold on_proxy, zoom. destruct (m (proxy_ st)). by intros [= <- <-]. Qed.
Lemma quiet_ret {A} (a : A) : quiet (mret a).
Proof. by intros st r st' [= <- <-]. Qed.
Hint Resolve quiet_bind quiet_next quiet_proxy quiet_ret : waffle.

Lemma on_handler_run {A} i (m : M (Handler.state P Mp S) A) (s s' : server P Mp S) r :
  quiet m → on_handler i m s = (r, s') →
  gen_ s' = gen_ s ∧ clients s' = clients s ∧ length (handlers_ s') = length (handlers_ s)
  ∧ ∀ j h, handlers_ s' !! j = Some (Some h) → ∃ h0, handlers_ s !! j = Some (Some h0) ∧ client_ h = client_ h0.
Proof.
  intros Hq. unfold on_handler. destruct (handlers_ s !! i) as [[h|]|] eqn:Hh;
    [|by intros [= <- <-]; split; [|split; [|split; [|intros j h Hj; by exists h]]]..].
  destruct (m _) as [r' st] eqn:Hm. intros [= <- <-]. apply Hq in Hm as (Hc & Hg & Hcl). cbn in *.
  split; [done|]. split; [done|]. split; [apply length_insert|]. intros j h'.
  destruct (decide (i = j)) as [<-|Hne]; [|rewrite list_lookup_insert_ne by done; by exists h'].
  rewrite list_lookup_insert_eq by (by eapply lookup_lt_Some). intros [= <-]. by exists h.
Qed.

Lemma call_quiet i q (s s' : server P Mp S) r :
  (match q with Get_client_id | Register_client_id _ _ => False | _ => True end) → handle (handler_of i) q s = (r, s') →
  gen_ s' = gen_ s ∧ clients s' = clients s ∧ length (handlers_ s') = length (handlers_ s)
  ∧ ∀ j h, handlers_ s' !! j = Some (Some h) → ∃ h0, handlers_ s !! j = Some (Some h0) ∧ client_ h = client_ h0.
Proof.
  intros Hq. destruct q; try done; intros (r0 & Hrun & _)%fmapM_run; revert Hrun;
    apply on_handler_run; cbv [async_get async_put async_get_batch async_put_batch handler_get handler_put get_batch put_batch search];
    auto with waffle.
Qed.

(** A change that leaves the clients and the ids alone *)
Lemma inv_quiet g s srv' :
  inv g s → gen_ srv' = gen_ (srv s) → clients srv' = clients (srv s) → length (handlers_ srv') = length (handlers_ (srv s)) →
  (∀ j h, handlers_ srv' !! j = Some (Some h) → ∃ h0, handlers_ (srv s) !! j = Some (Some h0) ∧ client_ h = client_ h0) →
  inv g {| srv := srv'; got := got s; registered := registered s |}.
Proof.
  intros Hi Hg Hc Hl Hh. split; cbn [srv got registered]; rewrite ?Hg, ?Hc, ?Hl; try apply Hi.
  intros i h (h0 & Hh0 & ->)%Hh. by apply (inv_own _ _ Hi).
Qed.

(** Answers change what is written, not who is there. *)
Lemma on_connection_run {A} c (m : M P A) (s s' : client_map P Mp) r :
  on_connection c m s = (r, s') →
  clients_ s' = clients_ s ∧ length (connections_ s') = length (connections_ s)
  ∧ ∀ j, j ≠ c → connections_ s' !! j = connections_ s !! j.
Proof.
  unfold on_connection. destruct (connections_ s !! c) as [p|]; [|by intros [= <- <-]].
  destruct (m p) as [r' p']. intros [= <- <-]. cbn. split; [done|]. split; [apply length_insert|].
  intros j Hj. by rewrite list_lookup_insert_ne.
Qed.

Lemma respond_run seq op result (s s' : client_map P Mp) r :
  async_respond_client seq op result s = (r, s') →
  clients_ s' = clients_ s ∧ length (connections_ s') = length (connections_ s)
  ∧ ∀ j, cuckoo_find (client_id seq) (clients_ s) ≠ Some j → connections_ s' !! j = connections_ s !! j.
Proof.
  unfold async_respond_client. case_decide as Hid; [by intros [= <- <-]|].
  rewrite (mbind_run Prelude.get _ s s s eq_refl). destruct (cuckoo_find _ _) as [c|]; [|by intros [= <- <-]].
  unfold try_catch. destruct (client_async_response c seq op result s) as [r1 s1] eqn:Hrun.
  apply on_connection_run in Hrun as (H1 & H2 & H3).
  assert (∀ j, Some c ≠ Some j → connections_ s1 !! j = connections_ s !! j) as H3' by (intros j Hj; apply H3; congruence).
  destruct r1 as [[]|[e| | | | | |]]; [by intros [= <- <-]| |by intros [= <- <-]..].
  case_decide; by intros [= <- <-].
Qed.

Lemma own_kept {h h' : thrift_handler} {l : list (option thrift_handler)} {i j x} :
  l !! i = Some (Some h) → client_ h' = client_ h → <[i := Some h']> l !! j = Some (Some x) →
  ∃ h0, l !! j = Some (Some h0) ∧ client_ x = client_ h0.
Proof.
  intros Hh Hc. destruct (decide (i = j)) as [<-|Hne]; [|rewrite list_lookup_insert_ne by done; by exists x].
  rewrite list_lookup_insert_eq by (by eapply lookup_lt_Some). intros [= <-]. by exists h.
Qed.

Lemma get_id_inv g s i id srv' :
  inv g s → waffle_thriftIf.get_client_id (handler_of i) (srv s) = (Done id, srv') →
  inv g {| srv := srv'; got := got s ++ [(i, id)]; registered := registered s |}.
Proof.
  intros Hi Hrun. pose proof Hi as [H1 H2 H3 H4 H5 H6 H7]. cbn in Hrun. unfold on_handler in Hrun.
  destruct (handlers_ (srv s) !! i) as [[h|]|] eqn:Hh; [|done|done]. injection Hrun as <- <-.
  split; cbn [srv got registered handlers_ gen_ clients Handler.handler client_id_gen_ id_to_client_ set_client_id_gen_];
    rewrite ?length_app; cbn [length].
  - rewrite H1, wrap64_add. f_equal. lia.
  - rewrite fmap_app, H2, Nat.add_1_r, seq_S, fmap_app, H1. done.
  - by rewrite length_insert.
  - intros j x Hx. eapply own_kept in Hx as (h0 & Hh0 & ->); [|exact Hh|reflexivity]. by apply H4.
  - intros id' c Hc. apply elem_of_app. left. by apply H5.
  - intros j id' [Hin Hc]%H6. split; [apply elem_of_app; by left|]. intros Hn. apply Hc. lia.
  - intros j id' [Hin|[= -> ->]%list_elem_of_singleton]%elem_of_app; [by eapply H7|]. rewrite <- H3. by eapply lookup_lt_Some.
Qed.

Lemma register_inv g s i block_id id srv' :
  inv g s → (i, id) ∈ got s → waffle_thriftIf.register_client_id (handler_of i) block_id id (srv s) = (Done (), srv') →
  inv g {| srv := srv'; got := got s; registered := registered s ++ [(i, id)] |}.
Proof.
  intros Hi Hin Hrun. pose proof Hi as [H1 H2 H3 H4 H5 H6 H7]. cbn in Hrun. unfold on_handler in Hrun.
  destruct (handlers_ (srv s) !! i) as [[h|]|] eqn:Hh; [|done|done]. injection Hrun as <-.
  split; cbn [srv got registered handlers_ gen_ clients Handler.handler client_id_gen_ id_to_client_ set_id_to_client_ set_handler
    with_clients clients_ connections_]; try done.
  - by rewrite length_insert.
  - intros j x Hx. eapply own_kept in Hx as (h0 & Hh0 & ->); [|exact Hh|reflexivity]. by apply H4.
  - intros id' c. rewrite cuckoo_find_insert, (H4 _ _ Hh). case_decide as Hd; [|by apply H5]. subst id'.
    destruct (client_of s id) as [c0|] eqn:Hc0; simpl; intros [= <-]; [by apply H5|done].
  - intros j id' Hreg. rewrite cuckoo_find_insert, (H4 _ _ Hh).
    assert ((j, id') ∈ got s) as Hgot.
    { apply elem_of_app in Hreg as [Hr|[= -> ->]%list_elem_of_singleton]; [by apply H6 in Hr as [? _]|done]. }
    split; [done|]. intros Hn. case_decide as Hd.
    + subst id'. assert (j = i) as -> by (by apply (got_distinct g s j i id)).
      destruct (client_of s id) as [c|] eqn:Hc0; [|done]. simpl. f_equal. apply H5 in Hc0. by apply (got_distinct g s c i id).
    + apply elem_of_app in Hreg as [Hr|[= -> ->]%list_elem_of_singleton]; [|done]. by apply H6 in Hr as [_ ?]; auto.
Qed.

Lemma connections_step_inv g s s' : inv g s → step s s' → inv g s'.
Proof.
  intros Hi Hstep. pose proof Hi as [H1 H2 H3 H4 H5 H6 H7].
  destruct Hstep as [transport i srv' Hrun|i srv' Hrun|i id srv' Hrun|i block_id id srv' Hin Hrun|i q r srv' Hq Hrun|seq op result r m Hrun].
  - injection Hrun as _ <-. split; cbn; try done.
    + rewrite !length_app, H3. done.
    + intros i' h [Hh|[Hlt Hh]]%lookup_app_Some; [by apply H4|]. apply list_lookup_singleton_Some in Hh as [? [= <-]].
      cbn. rewrite <- H3. lia.
    + intros i' id' Hin%H7. rewrite length_app. simpl. lia.
  - injection Hrun as <-. apply inv_quiet; cbn; try done; [apply length_insert|].
    intros j h. destruct (decide (i = j)) as [<-|Hne]; [|rewrite list_lookup_insert_ne by done; by exists h].
    intros Hh. pose proof (lookup_lt_Some _ _ _ Hh) as Hlt. rewrite length_insert in Hlt.
    by rewrite list_lookup_insert_eq in Hh.
  - by eapply get_id_inv.
  - by eapply register_inv.
  - destruct (call_quiet i q _ _ _ Hq Hrun) as (? & ? & ? & ?). by apply inv_quiet.
  - apply respond_run in Hrun as (Hc & Hl & _). split; cbn; rewrite ?Hc, ?Hl; done.
Qed.

Lemma connections_reachable_inv s0 s : started s0 → rtc step s0 s → inv (gen_ (srv s0)) s.
Proof.
  intros Hs%connections_started_inv Hr. revert Hs. generalize (gen_ (srv s0)) as g. induction Hr as [|s0 s1 s2 Hstep _ IH]; [done|].
  intros g Hi. apply IH. by eapply connections_step_inv.
Qed.

(** C16: in every run of connections that come and go, get client ids and
    register the ids they got, as long as at most 2^64 ids are given out: the
    ids are all different, and an answer under an id that a connection has
    registered goes out on this connection and is written to no other. *)
Theorem answers_stay_with_clients s0 s i id :
  started s0 → rtc step s0 s → Z.of_nat (length (got s)) ≤ 2^64 → (i, id) ∈ registered s →
  NoDup (got s).*2 ∧ client_of s id = Some i
  ∧ ∀ seq op result r m, client_id seq = id → async_respond_client seq op result (clients (srv s)) = (r, m) →
      clients_ m = clients_ (clients (srv s)) ∧ ∀ j, j ≠ i → connections_ m !! j = connections_ (clients (srv s)) !! j.
Proof.
  intros Hs Hr Hn Hreg. pose proof (connections_reachable_inv s0 s Hs Hr) as Hi. set (g := gen_ (srv s0)) in *.
  destruct (inv_registered _ _ Hi _ _ Hreg) as [_ Hc]. specialize (Hc Hn). split; [|split; [done|]].
  - rewrite (inv_ids _ _ Hi). apply NoDup_fmap_2_strong; [|apply NoDup_ListNoDup, seq_NoDup].
    intros a b Ha%elem_of_seq Hb%elem_of_seq Heq. apply Nat2Z.inj. apply (wrap64_inj g); [lia..|exact Heq].
  - intros seq op result r m <- (H1 & _ & H3)%respond_run. split; [done|]. intros j Hj. apply H3. congruence.
Qed.
End correct.
End Factory.
