(* ===== verification/AsyncClient.v ===== *)
(** The clients of the proxy (libclient/src): [proxy_client], which waits for
    each answer, and [async_proxy_client], which sends its calls and reads the
    answers in a thread of its own.  The threads share the connection: its two
    directions are the outgoing and the incoming tokens of one [P]. *)
From S2P Require Import Prelude.
From S2P Require Import Queue.
From S2P Require Import Thrift.
From S2P Require Import WaffleThrift.
From S2P Require Import ThriftRpc.
From S2P Require Import WaffleThriftResponse.

Local Open Scope Z_scope.

(** * [proxy_client] *)
Module ProxyClient.
Section client.
Context {P : Type} `{TProtocol P} (fuel : nat).

Definition get (key : string) : M P string := waffle_thriftClient.get fuel "" key.
Definition put (key value : string) : M P () := waffle_thriftClient.put fuel key value.
Definition get_batch (keys : list string) : M P (list string) := waffle_thriftClient.get_batch fuel [] keys.
Definition put_batch (keys values : list string) : M P () := waffle_thriftClient.put_batch fuel keys values.
End client.
End ProxyClient.

(** * [async_proxy_client] *)
Module AsyncClient.
Import Queue Thrift.

Definition GET : Z := 0.
Definition PUT : Z := 1.
Definition GET_BATCH : Z := 2.
Definition PUT_BATCH : Z := 3.

Section client.
Context {P : Type} {prot : TProtocol P}.
Variable fuel : nat.

Record async_proxy_client := {
  protocol_ : P;
  requests_ : queue Z;
  total_ : Z;
  done_ : bool;
  sequence_num : Z;
  client_id_ : Z;
  seq_id_ : sequence_id;
}.
Definition in_flight_limit_ : Z := 2000.

Definition set_protocol_ p (c : async_proxy_client) : async_proxy_client :=
  {| protocol_ := p; requests_ := requests_ c; total_ := total_ c; done_ := done_ c; sequence_num := sequence_num c;
     client_id_ := client_id_ c; seq_id_ := seq_id_ c |}.
Definition set_requests_ q (c : async_proxy_client) : async_proxy_client :=
  {| protocol_ := protocol_ c; requests_ := q; total_ := total_ c; done_ := done_ c; sequence_num := sequence_num c;
     client_id_ := client_id_ c; seq_id_ := seq_id_ c |}.
Definition set_total_ t (c : async_proxy_client) : async_proxy_client :=
  {| protocol_ := protocol_ c; requests_ := requests_ c; total_ := t; done_ := done_ c; sequence_num := sequence_num c;
     client_id_ := client_id_ c; seq_id_ := seq_id_ c |}.
Definition set_done_ (c : async_proxy_client) : async_proxy_client :=
  {| protocol_ := protocol_ c; requests_ := requests_ c; total_ := total_ c; done_ := true; sequence_num := sequence_num c;
     client_id_ := client_id_ c; seq_id_ := seq_id_ c |}.
Definition set_sequence n seq (c : async_proxy_client) : async_proxy_client :=
  {| protocol_ := protocol_ c; requests_ := requests_ c; total_ := total_ c; done_ := done_ c; sequence_num := n;
     client_id_ := client_id_ c; seq_id_ := seq |}.

Definition on_protocol {A} : M P A → M async_proxy_client A := zoom protocol_ set_protocol_.
Definition on_requests {A} : M (queue Z) A → M async_proxy_client A := zoom requests_ set_requests_.

(** [get_client_id]: the id is also registered. *)
Definition get_client_id : M P Z :=
  id ← waffle_thriftClient.get_client_id fuel;
  let block_id_ := 1 in
  waffle_thriftClient.register_client_id fuel block_id_ id ;;
  mret id.

(** [init], on an open connection, up to the start of the thread *)
Definition init (p : P) : result async_proxy_client :=
  let '(r, p) := get_client_id p in
  match r with
  | Done id => Done {| protocol_ := p; requests_ := new_queue; total_ := 0; done_ := false; sequence_num := 0;
                       client_id_ := id; seq_id_ := set_client_id id new_sequence_id |}
  | Stop e => Stop e
  end.

(** [while (requests_->size() >= in_flight_limit_) wait] *)
Definition wait_for_room : M async_proxy_client () :=
  n ← on_requests size;
  if in_flight_limit_ <=? n then fail Blocked else mret ().

(** [seq_id_.__set_client_seq_no(sequence_num++)]: an overflow of the
    [int64_t] is undefined. *)
Definition next_sequence : M async_proxy_client sequence_id :=
  c ← Prelude.get;
  if in_long (sequence_num c + 1) then
    let seq := set_client_seq_no (sequence_num c) (seq_id_ c) in
    Prelude.put (set_sequence (sequence_num c + 1) seq c) ;;
    mret seq
  else fail Undefined.

(** The shape of the four calls *)
Definition send_call (type : Z) (call : sequence_id → M P ()) : M async_proxy_client () :=
  wait_for_room ;;
  seq ← next_sequence;
  on_protocol (call seq) ;;
  on_requests (push type).

Definition get (key : string) : M async_proxy_client string :=
  send_call GET (λ seq, waffle_thriftClient.async_get seq key) ;;
  mret "".
Definition put (key value : string) : M async_proxy_client () :=
  send_call PUT (λ seq, waffle_thriftClient.async_put seq key value).
Definition get_batch (keys : list string) : M async_proxy_client (list string) :=
  send_call GET_BATCH (λ seq, waffle_thriftClient.async_get_batch seq keys) ;;
  mret [].
Definition put_batch (keys values : list string) : M async_proxy_client () :=
  send_call PUT_BATCH (λ seq, waffle_thriftClient.async_put_batch seq keys values).

(** A turn of [read_responses]: [true] when the loop ends.  [_return] is empty
    before a turn and cleared after it; [_return[0]] is printed. *)
Definition read_response : M async_proxy_client bool :=
  c ← Prelude.get;
  if done_ c then mret true
  else
    type ← on_requests pop;
    _return ← try_catch (r ← on_protocol (Response.recv_response fuel); mret r.2)
      (λ e, if decide (e = TTransportException) then mret [] else fail (Throw e));
    match _return with
    | [] => fail Undefined
    | _ :: _ =>
        modify (λ c, set_total_ (wrap32 (total_ c + Z.of_nat (length _return))) c) ;;
        mret false
    end.

Definition num_requests_satisfied : M async_proxy_client Z := gets total_.

(** [finish], up to the [join] *)
Definition finish : M async_proxy_client () :=
  modify set_done_ ;;
  for_each [GET_BATCH; GET_BATCH; GET_BATCH; GET_BATCH; GET_BATCH] (λ type, on_requests (push type)).

Definition search (pattern : string) (results : list string) : M async_proxy_client (list string) :=
  try_catch (on_protocol (waffle_thriftClient.search fuel results pattern)) (λ e, mret ["SEARCH FAILURE"]).

End client.
Arguments async_proxy_client : clear implicits.

(** * Sending *)
Section sending.
Context {P : Type} `{TProtocolSpec P}.

(** A client that has sent [n] calls *)
Definition ready (n : Z) (c : async_proxy_client P) : Prop :=
  sequence_num c = n ∧ client_id (seq_id_ c) = client_id_ c ∧ server_seq_no (seq_id_ c) = 0 ∧
  size_ (requests_ c) < in_flight_limit_.

Definition sequence_of (n : Z) (c : async_proxy_client P) : sequence_id :=
  {| client_id := client_id_ c; client_seq_no := n; server_seq_no := 0 |}.

Lemma send_call_run type call n (c : async_proxy_client P) ts :
  ready n c → in_long (n + 1) = true → writes (call (sequence_of n c)) ts →
  ∃ c', send_call type call c = (Done (), c') ∧
    outgoing (protocol_ c') = outgoing (protocol_ c) ++ ts ∧ incoming (protocol_ c') = incoming (protocol_ c) ∧
    sequence_num c' = n + 1 ∧ seq_id_ c' = sequence_of n c ∧ client_id_ c' = client_id_ c ∧
    m_queue_ (requests_ c') = m_queue_ (requests_ c) ++ [type] ∧
    size_ (requests_ c') = wrap32 (size_ (requests_ c) + 1) ∧ done_ c' = done_ c.
Proof.
  intros (Hn & Hid & Hserver & Hroom) Hlong Hw. subst n. unfold send_call.
  rewrite (mbind_run wait_for_room _ c () c).
  2: { unfold wait_for_room. rewrite (mbind_run _ _ c (size_ (requests_ c)) c) by by destruct c.
       rewrite (proj2 (Z.leb_gt _ _)) by done. done. }
  set (seq := set_client_seq_no (sequence_num c) (seq_id_ c)).
  assert (Hseq : seq = sequence_of (sequence_num c) c) by (unfold seq, sequence_of, set_client_seq_no; by rewrite Hid, Hserver).
  set (c1 := set_sequence (sequence_num c + 1) seq c).
  rewrite (mbind_run next_sequence _ c seq c1).
  2: { unfold next_sequence. rewrite (mbind_run Prelude.get _ c c c eq_refl). by rewrite Hlong. }
  destruct (Hw (protocol_ c)) as (p' & Hrun & Ho & Hi). rewrite Hseq.
  rewrite (mbind_run (on_protocol (call (sequence_of (sequence_num c) c))) _ c1 () (set_protocol_ p' c1)).
  2: { unfold on_protocol, zoom. change (protocol_ c1) with (protocol_ c). by rewrite Hrun. }
  eexists. split; [reflexivity|]. simpl. rewrite Hseq. done.
Qed.

(** The [n]th call of a client, counted from 0, is sent under the client's
    id with the number [n], and noted among the requests in flight. *)
Theorem get_batch_sends keys n (c : async_proxy_client P) :
  ready n c → in_long (n + 1) = true → in_long (client_id_ c) = true → in_long n = true → Rpc.strings_ok keys →
  ∃ c', get_batch keys c = (Done [], c') ∧
    outgoing (protocol_ c') = outgoing (protocol_ c) ++ Rpc.request_tokens (Rpc.Async_get_batch (sequence_of n c) keys) ∧
    m_queue_ (requests_ c') = m_queue_ (requests_ c) ++ [GET_BATCH] ∧ sequence_num c' = n + 1.
Proof.
  intros Hr Hn Hid Hn' Hkeys.
  destruct (send_call_run GET_BATCH (λ seq, waffle_thriftClient.async_get_batch seq keys) n c
    (Rpc.request_tokens (Rpc.Async_get_batch (sequence_of n c) keys)) Hr Hn) as (c' & Hrun & Ho & _ & Hs & _ & _ & Hq & _).
  { apply (Rpc.send_writes (Rpc.Async_get_batch (sequence_of n c) keys)). split; [|done]. repeat split; done. }
  exists c'. split; [|done]. unfold get_batch. by rewrite (mbind_run _ _ _ _ _ Hrun).
Qed.
End sending.

(** * Starting *)
Section starting.
Context {P : Type} `{TProtocolSpec P}.
Variable fuel : nat.
Hypothesis Hfuel : (3 < fuel)%nat.

(** A call without arguments that fail: the request is sent, and the reply that
    comes is what the call returns. *)
Lemma call_replied {A} (f : A → Rpc.reply) q (m : M P A) what a p rest :
  (∀ x y, f x = f y → x = y) → Rpc.recv fuel q = Rpc.fmapM f m → Rpc.request_ok q → Rpc.kind_ok q (Done (f a)) →
  Rpc.reply_ok (f a) → Rpc.oneway q = false → incoming p = Rpc.reply_tokens what q 0 (Done (f a)) ++ rest →
  ∃ p', (Rpc.send q ;; m) p = (Done a, p') ∧ incoming p' = rest ∧ outgoing p' = outgoing p ++ Rpc.request_tokens q.
Proof.
  intros Hf Hm Hq Hk Ha Hone Hp. destruct (Rpc.send_writes q Hq p) as (p1 & Hs & Ho1 & Hi1).
  rewrite <- Hi1 in Hp. destruct (Rpc.recv_runs fuel Hfuel what q 0 (Done (f a)) p1 rest Hk Ha Hp) as (p2 & Hr & Hi2 & Ho2).
  exists p2. rewrite (mbind_run _ _ _ _ _ Hs). split; [|by rewrite Ho2].
  unfold Rpc.outcome in Hr. rewrite Hone, Hm in Hr. unfold Rpc.fmapM, mbind, M_bind in Hr.
  destruct (m p1) as [[x|e] p3]; [|done]. injection Hr as Hx <-. by apply Hf in Hx as ->.
Qed.

(** The client that [init] makes for the id [id] *)
Definition new_client (id : Z) (p : P) : async_proxy_client P :=
  {| protocol_ := p; requests_ := new_queue; total_ := 0; done_ := false; sequence_num := 0; client_id_ := id;
     seq_id_ := set_client_id id new_sequence_id |}.
Definition init_tokens (id : Z) : list token :=
  Rpc.request_tokens Rpc.Get_client_id ++ Rpc.request_tokens (Rpc.Register_client_id 1 id).
Definition init_replies what (id : Z) : list token :=
  Rpc.reply_tokens what Rpc.Get_client_id 0 (Done (Rpc.Id id))
  ++ Rpc.reply_tokens what (Rpc.Register_client_id 1 id) 0 (Done Rpc.Void).

(** The client gets an id and registers it. *)
Lemma init_runs what id p rest :
  in_long id = true → incoming p = init_replies what id ++ rest →
  ∃ p', init fuel p = Done (new_client id p') ∧ incoming p' = rest ∧ outgoing p' = outgoing p ++ init_tokens id.
Proof.
  intros Hid Hp. unfold init_replies in Hp. rewrite <- app_assoc in Hp.
  destruct (call_replied Rpc.Id Rpc.Get_client_id (waffle_thriftClient.recv_get_client_id fuel) what id p _
    ltac:(by intros x y [= ->]) eq_refl I I Hid eq_refl Hp) as (p1 & Hget & Hi1 & Ho1).
  destruct (call_replied (λ _, Rpc.Void) (Rpc.Register_client_id 1 id) (waffle_thriftClient.recv_register_client_id fuel) what ()
    p1 rest ltac:(by intros [] []) eq_refl ltac:(by split) I I eq_refl Hi1) as (p2 & Hreg & Hi2 & Ho2).
  exists p2. unfold init, get_client_id.
  change (waffle_thriftClient.get_client_id fuel) with (Rpc.send Rpc.Get_client_id ;; waffle_thriftClient.recv_get_client_id fuel).
  rewrite (mbind_run _ _ _ _ _ Hget).
  change (waffle_thriftClient.register_client_id fuel 1 id)
    with (Rpc.send (Rpc.Register_client_id 1 id) ;; waffle_thriftClient.recv_register_client_id fuel).
  rewrite (mbind_run _ _ _ _ _ Hreg). split; [done|]. split; [done|].
  unfold init_tokens. by rewrite Ho2, Ho1, app_assoc.
Qed.
End starting.

(** * Reading *)
Section reading.
Context {P : Type} `{TProtocolSpec P}.
Variable fuel : nat.

(** The thread that reads answers indexes the strings of an answer without
    looking at their number: an answer without strings (a batch without keys)
    and a failure of the connection (no answer within ten seconds) are both
    undefined behaviour; any other answer is counted. *)
Theorem read_response_needs_a_string type rest (c : async_proxy_client P) :
  done_ c = false → m_queue_ (requests_ c) = type :: rest →
  (read_response fuel c).1 =
  match (Response.recv_response fuel (protocol_ c)).1 with
  | Done (_, _ :: _) => Done false
  | Done (_, []) | Stop (Throw TTransportException) => Stop Undefined
  | Stop e => Stop e
  end.
Proof.
  intros Hdone Hq. unfold read_response. rewrite (mbind_run Prelude.get _ c c c eq_refl). rewrite Hdone.
  set (c1 := set_requests_ {| m_queue_ := rest; size_ := wrap32 (size_ (requests_ c) - 1) |} c).
  rewrite (mbind_run _ _ c type c1) by (unfold on_requests, zoom; by rewrite (pop_run _ _ _ Hq)).
  unfold mbind at 1, M_bind at 1. unfold try_catch, mbind at 1, M_bind at 1, on_protocol, zoom.
  change (protocol_ c1) with (protocol_ c).
  destruct (Response.recv_response fuel (protocol_ c)) as [[[no [|s l]]|[e| | | | | |]] p]; try done.
  simpl. destruct e; done.
Qed.
End reading.
End AsyncClient.
