(* ===== verification/Benchmark.v ===== *)
(** The benchmark of the proxy (benchmark/src/TS_proxy_benchmark.cpp): its
    queries, which come from a file that [generate_TS_tracefile_binary] of
    utils/TS_value_master.h makes, are put into batches and sent by an
    asynchronous client.  The thread of the client that reads answers
    ([read_responses]) takes its turns between the calls on a schedule
    ([read_turns]); what it reads is the incoming stream.

    Not modelled: the archive format of Boost, so that a file is what was
    written to it; latencies and throughput, which are floating-point numbers,
    and the files they are written to.  BenchmarkMain has the command line. *)
From S2P Require Import Prelude.
From S2P Require Import CxxString.
From S2P Require Import OrderedSet.
From S2P Require Import FrequencySmoother.
From S2P Require Import Values.
From S2P Require Import KeyMaster.
From S2P Require Import Queue.
From S2P Require Import Thrift.
From S2P Require Import WaffleThrift.
From S2P Require Import ThriftRpc.
From S2P Require Import WaffleThriftResponse.
From S2P Require Import AsyncClient.

Local Open Scope Z_scope.

(** * Batches of queries *)
Module Trace.

(** A query: a key and a value, which is empty for a GET *)
Abbreviation query := (string * string)%type.
(** The keys and the values of a batch; no values for GETs *)
Abbreviation trace_vector := (list (list string * list string)).

(** The variables of [load_trace] *)
Record loading := {
  trace : trace_vector;
  put_keys : list string;
  put_values : list string;
  get_keys : list string;
  processing_put : bool;
}.

(** [trace.push_back(...)] of the queries in hand, which are cleared *)
Definition push_gets (s : loading) : loading :=
  {| trace := trace s ++ [(get_keys s, [])]; put_keys := put_keys s; put_values := put_values s; get_keys := [];
     processing_put := processing_put s |}.
Definition push_puts (s : loading) : loading :=
  {| trace := trace s ++ [(put_keys s, put_values s)]; put_keys := []; put_values := []; get_keys := get_keys s;
     processing_put := processing_put s |}.
Definition set_processing_put (x : bool) (s : loading) : loading :=
  {| trace := trace s; put_keys := put_keys s; put_values := put_values s; get_keys := get_keys s; processing_put := x |}.

(** [keys.size() == batch_count], where an [int] becomes a [size_t] *)
Definition full (batch_count : Z) (keys : list string) : bool := Z.of_nat (length keys) =? wrap_u64 batch_count.

(** A turn of the loop *)
Definition load_query (batch_count : Z) (key value : string) (s : loading) : loading :=
  if decide (value = "") then
    let s := if full batch_count (get_keys s) then push_gets s else s in
    let s := if processing_put s then set_processing_put false (push_puts s) else s in
    {| trace := trace s; put_keys := put_keys s; put_values := put_values s; get_keys := get_keys s ++ [key];
       processing_put := processing_put s |}
  else
    let s := if full batch_count (put_keys s) then push_puts s else s in
    let s := if processing_put s then s else set_processing_put true (push_gets s) in
    {| trace := trace s; put_keys := put_keys s ++ [key]; put_values := put_values s ++ [value]; get_keys := get_keys s;
       processing_put := processing_put s |}.

(** [values[i]] is not checked against the length of [values]. *)
Fixpoint load_queries (batch_count : Z) (keys values : list string) (s : loading) : result loading :=
  match keys, values with
  | [], _ => Done s
  | key :: keys, value :: values => load_queries batch_count keys values (load_query batch_count key value s)
  | _ :: _, [] => Stop Undefined
  end.

(** [files] gives the vectors in a file, if it can be opened. *)
Definition get_TS_datapair_from_file (files : string → option (list (list string))) (filepath : string)
    : result (list (list string)) :=
  match files filepath with Some data_pair => Done data_pair | None => Stop (Exit 1) end.

Definition load_trace (files : string → option (list (list string))) (trace_location : string) (tr : trace_vector)
    (client_batch_size : Z) : result trace_vector :=
  data_pair ← get_TS_datapair_from_file files trace_location;
  match data_pair with
  | keys :: values :: _ =>
      s ← load_queries client_batch_size keys values
            {| trace := tr; put_keys := []; put_values := []; get_keys := []; processing_put := true |};
      let s := match get_keys s with [] => s | _ => push_gets s end in
      let s := match put_keys s with [] => s | _ => push_puts s end in
      Done (trace s)
  | _ => Stop Undefined
  end.

Lemma whole_multiple n c c' x : (0 < x ≤ n)%nat → (c * n = x + c' * n)%nat → x = n.
Proof.
  intros Hx Heq. destruct (decide (c ≤ c')%nat); [nia|]. destruct (decide (c = S c')); [subst; lia|].
  assert (c = S (S (c - c' - 2)) + c')%nat as Hc by lia. rewrite Hc in Heq. nia.
Qed.

(** * What it computes *)

(** A query at a time is put into the batch in hand, of PUTs ([true]) or GETs *)
Definition is_put (q : query) : bool := negb (bool_decide (q.2 = "")).
Abbreviation kind_batch := (bool * list query)%type.
Definition batch_of (b : kind_batch) : list string * list string := (b.2.*1, if b.1 then b.2.*2 else []).
Record feeding := { fed : list kind_batch; hand : kind_batch }.
Definition feed (n : nat) (f : feeding) (q : query) : feeding :=
  if decide (is_put q = (hand f).1 ∧ length (hand f).2 ≠ n)
  then {| fed := fed f; hand := ((hand f).1, (hand f).2 ++ [q]) |}
  else {| fed := fed f ++ [hand f]; hand := (is_put q, [q]) |}.
Definition fed_all (f : feeding) : list kind_batch := if decide ((hand f).2 = []) then fed f else fed f ++ [hand f].

(** The variables for it *)
Definition vars (tr : trace_vector) (f : feeding) : loading :=
  {| trace := tr ++ (batch_of <$> fed f);
     put_keys := if (hand f).1 then (hand f).2.*1 else [];
     put_values := if (hand f).1 then (hand f).2.*2 else [];
     get_keys := if (hand f).1 then [] else (hand f).2.*1;
     processing_put := (hand f).1 |}.

Section batches.
Variable n : nat.
Hypothesis Hn : 0 < Z.of_nat n < 2^31.

Lemma full_length keys : full (Z.of_nat n) keys = bool_decide (length keys = n).
Proof using Hn.
  unfold full, wrap_u64. rewrite Z.mod_small by lia. case_bool_decide as H; [apply Z.eqb_eq|apply Z.eqb_neq]; lia.
Qed.

Lemma full_nil : full (Z.of_nat n) [] = false.
Proof using Hn. rewrite full_length. apply bool_decide_false. simpl. lia. Qed.

Lemma feed_same bs k h q :
  is_put q = k → length h ≠ n → feed n {| fed := bs; hand := (k, h) |} q = {| fed := bs; hand := (k, h ++ [q]) |}.
Proof using. intros Hk Hl. unfold feed. by rewrite decide_True. Qed.
Lemma feed_full bs k h q :
  length h = n → feed n {| fed := bs; hand := (k, h) |} q = {| fed := bs ++ [(k, h)]; hand := (is_put q, [q]) |}.
Proof using. intros Hl. unfold feed. rewrite decide_False; [done|]. by intros []. Qed.
Lemma feed_other bs k h q :
  is_put q ≠ k → feed n {| fed := bs; hand := (k, h) |} q = {| fed := bs ++ [(k, h)]; hand := (is_put q, [q]) |}.
Proof using. intros Hl. unfold feed. rewrite decide_False; [done|]. by intros []. Qed.

Lemma load_query_feed tr f q : load_query (Z.of_nat n) q.1 q.2 (vars tr f) = vars tr (feed n f q).
Proof using Hn.
  destruct f as [bs [k h]], q as [key value]. unfold load_query. cbn [fst snd].
  destruct (decide (value = "")) as [->|Hv].
  - assert (is_put (key, "") = false) as Hq by done.
    destruct k; cbn [get_keys vars hand fst snd].
    + rewrite full_nil, feed_other, Hq by by rewrite Hq. unfold vars, push_puts, set_processing_put, batch_of. simpl.
      by rewrite fmap_app, <- app_assoc.
    + rewrite full_length, length_fmap. destruct (decide (length h = n)) as [Hl|Hl].
      * rewrite bool_decide_true, feed_full, Hq by done. unfold vars, push_gets, batch_of. simpl.
        by rewrite fmap_app, <- app_assoc.
      * rewrite bool_decide_false, feed_same by done. unfold vars. simpl. by rewrite fmap_app.
  - assert (is_put (key, value) = true) as Hq by (unfold is_put; simpl; by rewrite bool_decide_false).
    destruct k; cbn [put_keys vars hand fst snd].
    + rewrite full_length, length_fmap. destruct (decide (length h = n)) as [Hl|Hl].
      * rewrite bool_decide_true, feed_full, Hq by done. unfold vars, push_puts, batch_of. simpl.
        by rewrite fmap_app, <- app_assoc.
      * rewrite bool_decide_false, feed_same by done. unfold vars. simpl. by rewrite !fmap_app.
    + rewrite full_nil, feed_other, Hq by by rewrite Hq. unfold vars, push_gets, set_processing_put, batch_of. simpl.
      by rewrite fmap_app, <- app_assoc.
Qed.

Lemma load_queries_feed tr f qs :
  load_queries (Z.of_nat n) qs.*1 qs.*2 (vars tr f) = Done (vars tr (foldl (feed n) f qs)).
Proof using Hn.
  revert f. induction qs as [|q qs IH]; intros f; [done|]. rewrite !fmap_cons. cbn [load_queries foldl].
  by rewrite load_query_feed, IH.
Qed.

Definition no_queries : feeding := {| fed := []; hand := (true, []) |}.

Lemma load_trace_feed files loc tr qs rest :
  files loc = Some (qs.*1 :: qs.*2 :: rest) →
  load_trace files loc tr (Z.of_nat n) = Done (tr ++ (batch_of <$> fed_all (foldl (feed n) no_queries qs))).
Proof using Hn.
  intros Hf. unfold load_trace, get_TS_datapair_from_file. rewrite Hf. cbn [mbind result_bind].
  replace {| trace := tr |} with (vars tr no_queries) by (unfold vars; simpl; by rewrite app_nil_r).
  rewrite load_queries_feed. cbn [mbind result_bind]. destruct (foldl (feed n) no_queries qs) as [bs [[] h]];
    unfold fed_all, vars, push_gets, push_puts, batch_of; simpl; destruct h; simpl; try done;
    by rewrite fmap_app, <- app_assoc.
Qed.

(** ** The invariant of a batch in hand *)
Definition batch_ok (b : kind_batch) : Prop :=
  (0 < length b.2 ≤ n)%nat ∧ Forall (λ q, is_put q = b.1) b.2.

(** An empty batch that is left behind when the first query is a GET *)
Definition first_batch (qs : list query) : list kind_batch :=
  match qs with q :: _ => if is_put q then [] else [(true, [])] | [] => [] end.

Lemma feed_app f q bs :
  feed n {| fed := bs ++ fed f; hand := hand f |} q =
  {| fed := bs ++ fed (feed n f q); hand := hand (feed n f q) |}.
Proof using. unfold feed. simpl. case_decide; [done|]. simpl; by rewrite <- ?app_assoc. Qed.

Lemma feed_ok f q :
  Forall batch_ok (fed f) → batch_ok (hand f) →
  Forall batch_ok (fed (feed n f q)) ∧ batch_ok (hand (feed n f q)) ∧
  (fed (feed n f q) ≫= snd) ++ (hand (feed n f q)).2 = (fed f ≫= snd) ++ (hand f).2 ++ [q].
Proof using Hn.
  intros Hf [Hl Hh]. unfold feed. case_decide as Hd; simpl.
  - destruct Hd as [Hk Hne]. split; [done|]. split; [|done]. split; simpl.
    + rewrite length_app. simpl. lia.
    + apply Forall_app. by split; [|constructor].
  - split; [apply Forall_app; by split; [|constructor]|]. split.
    + split; simpl; [lia|]. by constructor.
    + rewrite bind_app, bind_singleton. by rewrite <- app_assoc.
Qed.

Lemma feeds_ok f qs :
  Forall batch_ok (fed f) → batch_ok (hand f) →
  let f' := foldl (feed n) f qs in
  Forall batch_ok (fed f') ∧ batch_ok (hand f') ∧ (fed f' ≫= snd) ++ (hand f').2 = (fed f ≫= snd) ++ (hand f).2 ++ qs.
Proof using Hn.
  revert f. induction qs as [|q qs IH]; intros f Hf Hh; simpl; [by rewrite app_nil_r|].
  destruct (feed_ok f q Hf Hh) as (Hf' & Hh' & Heq). destruct (IH _ Hf' Hh') as (? & ? & ->).
  split; [done|]. split; [done|]. rewrite app_assoc, Heq. by rewrite <- !app_assoc.
Qed.

Lemma feeds_app f bs qs :
  foldl (feed n) {| fed := bs ++ fed f; hand := hand f |} qs =
  {| fed := bs ++ fed (foldl (feed n) f qs); hand := hand (foldl (feed n) f qs) |}.
Proof using. revert f. induction qs as [|q qs IH]; intros f; [done|]. cbn [foldl]. by rewrite feed_app, IH. Qed.

(** After the first query *)
Definition first_in_hand (q : query) : feeding := {| fed := []; hand := (is_put q, [q]) |}.
Lemma feeds_first q qs :
  let f := foldl (feed n) (first_in_hand q) qs in
  foldl (feed n) no_queries (q :: qs) = {| fed := first_batch (q :: qs) ++ fed f; hand := hand f |}.
Proof using Hn.
  cbv zeta. rewrite <- feeds_app. cbn [foldl]. f_equal. unfold no_queries, first_in_hand, first_batch. cbn [fed hand].
  destruct (is_put q) eqn:Hq.
  - rewrite feed_same; [done|done|]. simpl. lia.
  - rewrite feed_other by by rewrite Hq. by rewrite Hq.
Qed.

Lemma fed_all_hand f : batch_ok (hand f) → fed_all f = fed f ++ [hand f].
Proof using. intros [Hl _]. unfold fed_all. rewrite decide_False; [done|]. intros Hh. rewrite Hh in Hl. simpl in Hl. lia. Qed.

Lemma feeds_batches qs :
  ∃ batches, fed_all (foldl (feed n) no_queries qs) = first_batch qs ++ batches ∧ batches ≫= snd = qs
  ∧ Forall batch_ok batches.
Proof using Hn.
  destruct qs as [|q qs]; [by exists []|]. rewrite feeds_first. cbv zeta.
  destruct (feeds_ok (first_in_hand q) qs) as (Hf & Hh & Heq); [constructor| |].
  { split; simpl; [lia|]. by constructor. }
  set (f := foldl (feed n) (first_in_hand q) qs) in *. exists (fed f ++ [hand f]).
  rewrite fed_all_hand by exact Hh. cbn [fed hand]. split; [by rewrite app_assoc|]. split.
  - rewrite bind_app, bind_singleton. exact Heq.
  - apply Forall_app. by split; [|constructor].
Qed.

(** ** Queries in rounds *)

(** As many queries as fill batches, of one kind *)
Definition full_round (l : list query) : Prop :=
  ∃ k c, Forall (λ q, is_put q = k) l ∧ length l = (c * n)%nat.

Lemma feeds_same bs k h qs :
  Forall (λ b, length b.2 = n) bs → (0 < length h ≤ n)%nat → Forall (λ q, is_put q = k) qs →
  ∃ bs' h' c, foldl (feed n) {| fed := bs; hand := (k, h) |} qs = {| fed := bs'; hand := (k, h') |}
    ∧ Forall (λ b, length b.2 = n) bs' ∧ (0 < length h' ≤ n)%nat ∧ (length h + length qs = length h' + c * n)%nat.
Proof using Hn.
  revert bs h. induction qs as [|q qs IH]; intros bs h Hbs Hh Hqs.
  { exists bs, h, 0%nat. repeat split; try done; simpl; lia. }
  apply Forall_cons in Hqs as [Hq Hqs]. cbn [foldl]. destruct (decide (length h = n)) as [Hl|Hl].
  - rewrite feed_full, Hq by done.
    destruct (IH (bs ++ [(k, h)]) [q]) as (bs' & h' & c & Hr & Hbs' & Hh' & Hc); [|simpl; lia|done|].
    { apply Forall_app. by split; [|constructor]. }
    exists bs', h', (S c). split; [exact Hr|]. split; [done|]. split; [done|]. simpl in *. lia.
  - rewrite feed_same by done.
    destruct (IH bs (h ++ [q])) as (bs' & h' & c & Hr & Hbs' & Hh' & Hc); [done|rewrite length_app; simpl; lia|done|].
    exists bs', h', c. split; [exact Hr|]. split; [done|]. split; [done|]. rewrite length_app in Hc. simpl in *. lia.
Qed.

(** Full batches, and a full one in hand if there is any *)
Definition all_full (f : feeding) : Prop :=
  Forall (λ b, length b.2 = n) (fed f) ∧ (length (hand f).2 = n ∨ (hand f).2 = [] ∧ (hand f).1 = true ∧ fed f = []).

Lemma feeds_round f l :
  full_round l → all_full f → (∀ q rest, l = q :: rest → length (hand f).2 = n ∨ is_put q = true) →
  all_full (foldl (feed n) f l) ∧ (l ≠ [] → length (hand (foldl (feed n) f l)).2 = n).
Proof using Hn.
  intros (k & c & Hk & Hlen) Hf Hfirst. destruct l as [|q l]; [done|]. apply Forall_cons in Hk as [Hq Hk].
  assert (∃ bs, feed n f q = {| fed := bs; hand := (k, [q]) |} ∧ Forall (λ b, length b.2 = n) bs) as (bs & Heq & Hbs).
  { destruct f as [bs [kh h]]. destruct Hf as [Hbs Hh]. cbn [fed hand fst snd] in *.
    destruct (decide (length h = n)) as [Hl|Hl].
    - exists (bs ++ [(kh, h)]). rewrite feed_full, Hq by done. split; [done|]. apply Forall_app. by split; [|constructor].
    - destruct Hh as [|(-> & -> & ->)]; [done|]. destruct (Hfirst q l eq_refl) as [|Hp]; [done|]. exists [].
      assert (k = true) as -> by congruence. rewrite feed_same; [by split; [|constructor]|done|done]. }
  cbn [foldl]. rewrite Heq. destruct (feeds_same bs k [q] l Hbs) as (bs' & h' & c' & -> & Hbs' & Hh' & Hc);
    [simpl; lia|done|].
  assert (length h' = n) as Hl' by (apply (whole_multiple n c c'); [done|simpl in *; lia]).
  split; [|done]. split; [done|]. by left.
Qed.

Lemma feeds_rounds rounds f :
  Forall full_round rounds → all_full f →
  (∀ q rest, concat rounds = q :: rest → length (hand f).2 = n ∨ is_put q = true) →
  all_full (foldl (feed n) f (concat rounds)).
Proof using Hn.
  intros Hr. revert f. induction Hr as [|l rounds Hl _ IH]; intros f Hf Hfirst; [done|]. cbn [concat] in *.
  rewrite foldl_app. destruct (feeds_round f l Hl Hf) as [Hf' Hh'].
  { intros q rest ->. by eapply Hfirst. }
  apply IH; [done|]. intros q rest Hq. destruct l as [|q' l]; [|left; by apply Hh']. simpl in *. by eapply Hfirst.
Qed.

Lemma rounds_batches rounds :
  Forall full_round rounds → first_batch (concat rounds) = [] →
  ∃ batches, fed_all (foldl (feed n) no_queries (concat rounds)) = batches ∧ batches ≫= snd = concat rounds
  ∧ Forall batch_ok batches ∧ Forall (λ b, length b.2 = n) batches.
Proof using Hn.
  intros Hr Hfirst. destruct (feeds_batches (concat rounds)) as (batches & Heq & Hcat & Hok). rewrite Hfirst in Heq.
  exists batches. split; [done|]. split; [done|]. split; [done|].
  destruct (feeds_rounds rounds no_queries Hr) as [Hf Hh].
  - split; [constructor|]. by right.
  - intros q rest Hq. right. rewrite Hq in Hfirst. cbn in Hfirst. by destruct (is_put q).
  - simpl in Heq. rewrite <- Heq. unfold fed_all. case_decide as Hd; [done|]. apply Forall_app. split; [done|].
    constructor; [|constructor]. by destruct Hh as [|(? & _)].
Qed.
End batches.

(** [load_trace] puts the queries of a file into batches in their order:
    each has at least one query and at most [client_batch_size], all of one
    kind.  Before them there is an empty batch when the first query is a GET. *)
Theorem load_trace_batches files loc tr client_batch_size keys values rest :
  0 < client_batch_size < 2^31 → files loc = Some (keys :: values :: rest) → length keys = length values →
  ∃ batches, load_trace files loc tr client_batch_size = Done (tr ++ (batch_of <$> first_batch (zip keys values) ++ batches))
  ∧ batches ≫= snd = zip keys values ∧ Forall (batch_ok (Z.to_nat client_batch_size)) batches.
Proof.
  intros Hn Hf Hl. assert (0 < Z.of_nat (Z.to_nat client_batch_size) < 2^31) as Hn' by lia.
  destruct (feeds_batches (Z.to_nat client_batch_size) Hn' (zip keys values)) as (batches & Heq & Hcat & Hok).
  exists batches. split; [|done]. rewrite <- Heq. rewrite <- (load_trace_feed _ Hn' files loc tr (zip keys values) rest).
  - by rewrite Z2Nat.id by lia.
  - by rewrite fst_zip, snd_zip by lia.
Qed.

End Trace.

(** * The file of queries *)
Module TraceFile.
Import Trace ItemIdGenerator TimeSeriesData.

(** [std::rand()], and a draw of [sample_exponential] for a latest time, as
    the [long] that its [double] is cast to *)
Class SampleSource (G : Type) := {
  rand : G → Z * G;
  scaled_sample : Z → G → Z * G;
}.
Class SampleSpec (G : Type) `{SampleSource G} := {
  scaled_sample_long latest_timestamp g : in_long (scaled_sample latest_timestamp g).1 = true;
}.

Section generator.
Context {G : Type} `{RandomSource G, SampleSource G}.

(** [TimeSeriesDataMap] *)
Variable keys_ : list string.
Variable object_size_ : Z.
Variable batch_size : Z.

Definition sample_exponential (latest_timestamp : Z) : M G Z := λ g,
  let '(x, g) := scaled_sample latest_timestamp g in (Done (Z.min x latest_timestamp), g).

Definition generate_TS_tracefile_get_query (key : string) (latest_timestamp : Z) : M G query :=
  first_int ← sample_exponential latest_timestamp;
  second_int ← sample_exponential latest_timestamp;
  let '(first_int, second_int) :=
    if second_int <? first_int then (second_int, first_int) else (first_int, second_int) in
  mret (key +:+ "@" +:+ to_string first_int +:+ "@" +:+ to_string second_int, "").

(** [k * batch_size + j] in the two loops *)
Definition indices : list Z :=
  seqZ 0 (Z.of_nat (length keys_) / wrap_u64 batch_size) ≫= λ k, (λ j, k * batch_size + j) <$> seqZ 0 batch_size.

(** A query for each of these keys *)
Fixpoint make_queries (make_query : string → M G query) (l : list Z) : M G (list query) :=
  match l with
  | [] => mret []
  | i :: l =>
      key ← (match keys_ !! Z.to_nat i with Some key => mret key | None => fail Undefined end);
      result ← make_query key;
      queries ← make_queries make_query l;
      mret (result :: queries)
  end.

(** The loop.  A [size_t] is added to the [int] and to the [long]. *)
Fixpoint generate_rows (fuel : nat) (row_count i latest_timestamp : Z) (queries : list query) : M G (list query) :=
  match fuel with
  | O => fail OutOfFuel
  | S fuel =>
      if row_count <=? i then mret queries
      else
        r ← (λ g, let '(r, g) := rand g in (Done r, g));
        let rand_num := Z.rem r 100 in
        if (rand_num <? 50) || (i =? 0) then
          results ← make_queries (λ key, generate_TS_tracefile_put_query object_size_ key latest_timestamp) indices;
          generate_rows fuel row_count (wrap32 (i + Z.of_nat (length keys_))) (wrap64 (latest_timestamp + object_size_))
            (queries ++ results)
        else
          results ← make_queries (λ key, generate_TS_tracefile_get_query key (latest_timestamp - 1)) indices;
          generate_rows fuel row_count (wrap32 (i + Z.of_nat (length keys_))) latest_timestamp (queries ++ results)
  end.

(** What is written to the file *)
Definition generate_TS_tracefile_binary (fuel : nat) (row_count : Z) : M G (list (list string)) :=
  if decide (batch_size = 0) then fail Undefined
  else
    queries ← generate_rows fuel row_count 0 1700000000 [];
    mret [queries.*1; queries.*2].
End generator.

(** * What is in the file *)
Section correct.
Context {G : Type} `{RandomSpec G} {samples : SampleSource G} {samplesS : SampleSpec G}.
Variable keys_ : list string.
Variable object_size_ : Z.
Variable n : nat.
Hypothesis Hn : 0 < Z.of_nat n < 2^31.
Hypothesis Hkeys : ∀ key, key ∈ keys_ → ∃ i, item_name i key.
Hypothesis Hsize : 0 < object_size_.
Hypothesis Haligned : object_size_ `mod` 4 = 0.
Abbreviation rows := (generate_rows keys_ object_size_ (Z.of_nat n)).

(** A bucket of an item, or a range of its times that ends before [latest] *)
Definition query_ok (latest : Z) (q : query) : Prop :=
  (∃ item t, item ∈ keys_ ∧ 0 <= t < latest ∧ q.1 = Smoother.ts_key item t ∧ Z.of_nat (String.length q.2) = object_size_)
  ∨ (∃ item a b, item ∈ keys_ ∧ in_long a = true ∧ a <= b ∧ b < latest ∧ q = (item +:+ "@" +:+ to_string a +:+ "@" +:+ to_string b, "")).

Lemma get_query_run key latest (g : G) :
  key ∈ keys_ → 0 <= latest < 2^31 →
  ∃ q g', generate_TS_tracefile_get_query key (latest - 1) g = (Done q, g') ∧ is_put q = false ∧ query_ok latest q.
Proof using All.
  intros Hk Hl. unfold generate_TS_tracefile_get_query, sample_exponential, mbind, M_bind.
  destruct (scaled_sample (latest - 1) g) as [x g1] eqn:Hx. destruct (scaled_sample (latest - 1) g1) as [y g2] eqn:Hy.
  assert (∀ z : Z, in_long z = true → in_long (Z.min z (latest - 1)) = true) as Hmin.
  { intros z. unfold in_long, long_min, long_max. rewrite !andb_true_iff, !Z.leb_le. lia. }
  pose proof (scaled_sample_long (latest - 1) g) as Hxl. rewrite Hx in Hxl. apply Hmin in Hxl. cbn [fst] in Hxl.
  pose proof (scaled_sample_long (latest - 1) g1) as Hyl. rewrite Hy in Hyl. apply Hmin in Hyl. cbn [fst] in Hyl.
  destruct (Z.ltb_spec (Z.min y (latest - 1)) (Z.min x (latest - 1))); eexists _, g2; (split; [reflexivity|]);
    (split; [done|]); right; exists key; eexists _, _; (split; [done|]);
    (split; [|split; [|split; [|reflexivity]]]); first [done|lia].
Qed.

Lemma put_query_run key latest (g : G) :
  key ∈ keys_ → 0 <= latest < 2^31 →
  ∃ q g', generate_TS_tracefile_put_query object_size_ key latest g = (Done q, g') ∧ is_put q = true
    ∧ query_ok (latest + object_size_) q.
Proof using All.
  intros Hk Hl. destruct (Hkeys key Hk) as [i Hid]. destruct (item_name_type _ _ Hid) as (ty & Hty & Ht).
  destruct (generateDataForKey_run object_size_ key ty g) as (v & g' & Hrun & Hlen);
    [lia|done|by rewrite <- (Ht ""), str_app_nil_r|done|].
  exists (Smoother.ts_key key latest, v), g'. unfold generate_TS_tracefile_put_query.
  rewrite (mbind_run _ _ _ _ _ Hrun), wrap32_in_range by lia. split; [done|]. split.
  - unfold is_put. simpl. rewrite bool_decide_false; [done|]. intros ->. simpl in Hlen. lia.
  - left. exists key, latest. split; [done|]. split; [lia|]. done.
Qed.

Lemma length_indices : length (indices keys_ (Z.of_nat n)) = ((length keys_ / n) * n)%nat.
Proof using Hn.
  unfold indices, wrap_u64. rewrite Z.mod_small by lia. rewrite <- Nat2Z.inj_div.
  generalize (length keys_ / n)%nat as m. intros m.
  assert (∀ l : list Z, length (l ≫= λ k, (λ j, k * Z.of_nat n + j) <$> seqZ 0 (Z.of_nat n)) = (length l * n)%nat) as Hlen.
  { induction l as [|k l IH]; [done|]. rewrite bind_cons, length_app, length_fmap, length_seqZ, IH. simpl. lia. }
  by rewrite Hlen, length_seqZ, Nat2Z.id.
Qed.

Lemma indices_keys i : i ∈ indices keys_ (Z.of_nat n) → ∃ key, keys_ !! Z.to_nat i = Some key.
Proof using Hn.
  unfold indices, wrap_u64. rewrite Z.mod_small by lia.
  intros (k & (j & -> & Hj%elem_of_seqZ)%list_elem_of_fmap & Hk%elem_of_seqZ)%list_elem_of_bind.
  apply lookup_lt_is_Some. pose proof (Z.mul_div_le (Z.of_nat (length keys_)) (Z.of_nat n) ltac:(lia)). nia.
Qed.

Lemma make_queries_run (make_query : string → M G query) (good : query → Prop) l (g : G) :
  (∀ key g, key ∈ keys_ → ∃ q g', make_query key g = (Done q, g') ∧ good q) →
  (∀ i, i ∈ l → ∃ key, keys_ !! Z.to_nat i = Some key) →
  ∃ qs g', make_queries keys_ make_query l g = (Done qs, g') ∧ length qs = length l ∧ Forall good qs.
Proof.
  intros Hq. revert g. induction l as [|i l IH]; intros g Hl; [by exists [], g|].
  destruct (Hl i) as [key Hkey]; [by left|]. cbn [make_queries]. rewrite Hkey, (mbind_run (mret key) _ g key g eq_refl).
  destruct (Hq key g) as (q & g1 & Hrun & Hg); [by eapply list_elem_of_lookup_2|]. rewrite (mbind_run _ _ _ _ _ Hrun).
  destruct (IH g1) as (qs & g2 & Hrun2 & Hlen & Hgs); [intros j Hj; apply Hl; by right|]. rewrite (mbind_run _ _ _ _ _ Hrun2).
  exists (q :: qs), g2. split; [done|]. split; [by simpl; rewrite Hlen|]. by constructor.
Qed.

Lemma make_queries_length (make_query : string → M G query) l (g g' : G) qs :
  make_queries keys_ make_query l g = (Done qs, g') → length qs = length l.
Proof.
  revert g qs. induction l as [|i l IH]; intros g qs Hrun; [by injection Hrun as <-|]. cbn [make_queries] in Hrun.
  unfold mbind, M_bind in Hrun. destruct (_ !! _) as [key|]; [|done]. simpl in Hrun.
  destruct (make_query key g) as [[q|e] g1]; [|done]. destruct (make_queries keys_ make_query l g1) as [[qs'|e] g2] eqn:Hl; [|done].
  injection Hrun as <- ->. simpl. f_equal. by eapply IH.
Qed.

(** A round of the loop *)
Lemma round_run make_query k latest (g : G) :
  (∀ key g, key ∈ keys_ → ∃ q g', make_query key g = (Done q, g') ∧ is_put q = k ∧ query_ok latest q) →
  ∃ qs g', make_queries keys_ make_query (indices keys_ (Z.of_nat n)) g = (Done qs, g') ∧ full_round n qs
    ∧ Forall (λ q, is_put q = k) qs ∧ Forall (query_ok latest) qs.
Proof using Hn.
  intros Hq. destruct (make_queries_run make_query (λ q, is_put q = k ∧ query_ok latest q)
    (indices keys_ (Z.of_nat n)) g Hq indices_keys) as (qs & g' & Hrun & Hlen & Hqs).
  apply Forall_and in Hqs as [Hk Hok]. exists qs, g'. split; [done|]. split; [|done].
  exists k, (length keys_ / n)%nat. split; [done|]. by rewrite Hlen, length_indices.
Qed.

Lemma query_ok_later latest latest' q : latest <= latest' → query_ok latest q → query_ok latest' q.
Proof.
  intros Hl [(item & t & ? & ? & ?)|(item & a & b & ? & ? & ? & ? & ?)]; [left; exists item, t|right; exists item, a, b];
    repeat split; try done; try lia; tauto.
Qed.

(** What has been made when the loop has counted to [i] *)
Record made (i latest : Z) (qs : list query) (rounds : list (list query)) : Prop := {
  made_rounds : qs = concat rounds ∧ Forall (full_round n) rounds;
  made_ok : Forall (query_ok latest) qs;
  made_first : first_batch qs = [];
  made_some : qs = [] → 0 < i → indices keys_ (Z.of_nat n) = [];
  made_count : 0 <= i;
  made_latest : 1700000000 <= latest <= 1700000000 + i * object_size_;
  made_few : Z.of_nat (length qs) <= i;
}.

Lemma made_round i latest latest' qs rounds results k :
  made i latest qs rounds → full_round n results → Forall (λ q, is_put q = k) results →
  Forall (query_ok latest') results → length results = length (indices keys_ (Z.of_nat n)) →
  latest <= latest' <= latest + object_size_ → k = true ∨ 0 < i → keys_ ≠ [] →
  made (i + Z.of_nat (length keys_)) latest' (qs ++ results) (rounds ++ [results]).
Proof using All.
  intros [[Hr Hfr] Hok Hf Hsome Hc Hl Hfew] Hfull Hk Hok' Hlen Hl' Hfirst Hne.
  assert (0 < Z.of_nat (length keys_)) by (destruct keys_; [done|simpl; lia]). split.
  - split; [rewrite concat_app, Hr; simpl; by rewrite app_nil_r|]. apply Forall_app. by split; [|constructor].
  - apply Forall_app. split; [|done]. eapply Forall_impl; [exact Hok|]. intros q. apply query_ok_later. lia.
  - destruct qs as [|q qs]; [|exact Hf]. simpl. destruct results as [|q results]; [done|].
    apply Forall_cons in Hk as [Hk _]. cbn. rewrite Hk. destruct Hfirst as [->|Hi]; [done|].
    rewrite (Hsome eq_refl Hi) in Hlen. done.
  - intros [_ ->]%app_eq_nil _. by apply symmetry, length_zero_iff_nil in Hlen.
  - lia.
  - nia.
  - rewrite length_app, Hlen, length_indices. pose proof (Nat.Div0.mul_div_le (length keys_) n). lia.
Qed.

(** A turn of the loop *)
Lemma turn_run fuel row_count i latest qs rounds (g : G) :
  keys_ ≠ [] → made i latest qs rounds → i < row_count → row_count + Z.of_nat (length keys_) < 2^31 →
  1700000000 + row_count * object_size_ < 2^31 →
  ∃ latest' results g', rows (S fuel) row_count i latest qs g = rows fuel row_count (i + Z.of_nat (length keys_)) latest' (qs ++ results) g'
    ∧ made (i + Z.of_nat (length keys_)) latest' (qs ++ results) (rounds ++ [results])
    ∧ latest' <= 1700000000 + row_count * object_size_.
Proof using All.
  intros Hne Hmade Hi Hrc Htime. pose proof (made_count _ _ _ _ Hmade). pose proof (made_latest _ _ _ _ Hmade).
  assert (latest + object_size_ <= 1700000000 + row_count * object_size_) as Hl by nia.
  cbn [generate_rows]. rewrite (proj2 (Z.leb_gt _ _)) by lia.
  rewrite (wrap32_in_range (i + _)) by lia.
  rewrite wrap64_in_range by (unfold in_long, long_min, long_max; apply andb_true_iff; split; apply Z.leb_le; lia).
  unfold mbind at 1, M_bind at 1. destruct (rand g) as [r g1].
  destruct ((Z.rem r 100 <? 50) || (i =? 0)) eqn:Hput.
  - destruct (round_run (λ key, generate_TS_tracefile_put_query object_size_ key latest) true (latest + object_size_) g1)
      as (qs' & g2 & Hrun & Hfull & Hk & Hok).
    { intros key g3 Hkey. apply put_query_run; [done|lia]. }
    exists (latest + object_size_), qs', g2. rewrite (mbind_run _ _ _ _ _ Hrun). split; [done|]. split; [|lia].
    eapply made_round; try done; [|lia|by left].
    by eapply make_queries_length.
  - destruct (round_run (λ key, generate_TS_tracefile_get_query key (latest - 1)) false latest g1)
      as (qs' & g2 & Hrun & Hfull & Hk & Hok).
    { intros key g3 Hkey. apply get_query_run; [done|lia]. }
    exists latest, qs', g2. rewrite (mbind_run _ _ _ _ _ Hrun). split; [done|]. split; [|lia].
    apply orb_false_iff in Hput as [_ Hz%Z.eqb_neq].
    eapply made_round; try done; [|lia|right; lia].
    by eapply make_queries_length.
Qed.

Lemma rows_run fuel row_count i latest qs rounds (g : G) :
  keys_ ≠ [] → made i latest qs rounds → row_count + Z.of_nat (length keys_) < 2^31 →
  1700000000 + row_count * object_size_ < 2^31 → Z.max 0 (row_count - i) < Z.of_nat fuel →
  ∃ qs' g' i' latest' rounds', rows fuel row_count i latest qs g = (Done qs', g') ∧ made i' latest' qs' rounds'
    ∧ latest' <= Z.max latest (1700000000 + row_count * object_size_) ∧ i' <= Z.max i (row_count + Z.of_nat (length keys_)).
Proof using All.
  intros Hne Hmade Hrc Htime. assert (0 < Z.of_nat (length keys_)) as Hpos by (destruct keys_; [done|simpl; lia]).
  revert i latest qs rounds g Hmade. induction fuel as [|fuel IH]; intros i latest qs rounds g Hmade Hfuel; [lia|].
  destruct (decide (row_count <= i)) as [Hle|Hgt].
  { exists qs, g, i, latest, rounds. cbn [generate_rows]. rewrite (proj2 (Z.leb_le _ _)) by done. split; [done|]. split; [done|lia]. }
  destruct (turn_run fuel row_count i latest qs rounds g Hne Hmade) as (latest' & results & g1 & -> & Hmade' & Hl'); [lia..|].
  destruct (IH _ _ _ _ g1 Hmade') as (qs' & g2 & i' & l2 & rounds' & Hrun & Hm & Hl2 & Hi2); [lia|].
  exists qs', g2, i', l2, rounds'. split; [done|]. split; [done|lia].
Qed.

(** The file that is made for generated items is loaded as batches of
    exactly [client_batch_size] queries, each of PUTs alone or of GETs alone and
    none left over at the end, that hold the queries in their order: buckets of
    [object_size] bytes of an item, and ranges of times of an item that are not
    empty and end before what the next PUTs bring. *)
Lemma trace_file_loads fuel row_count (g : G) :
  keys_ ≠ [] → row_count + Z.of_nat (length keys_) < 2^31 → 1700000000 + row_count * object_size_ < 2^31 →
  Z.max 0 row_count < Z.of_nat fuel →
  ∃ data g' latest batches, generate_TS_tracefile_binary keys_ object_size_ (Z.of_nat n) fuel row_count g = (Done data, g')
  ∧ (∀ files loc tr, files loc = Some data → load_trace files loc tr (Z.of_nat n) = Done (tr ++ (batch_of <$> batches)))
  ∧ Forall (λ b, length b.2 = n ∧ Forall (λ q, is_put q = b.1 ∧ query_ok latest q) b.2) batches
  ∧ data = [(batches ≫= snd).*1; (batches ≫= snd).*2] ∧ latest <= Z.max 1700000000 (1700000000 + row_count * object_size_)
  ∧ Z.of_nat (length (batches ≫= snd)) <= Z.max 0 (row_count + Z.of_nat (length keys_)).
Proof using All.
  intros Hne Hrc Htime Hfuel.
  destruct (rows_run fuel row_count 0 1700000000 [] [] g Hne) as (qs & g' & i & latest & rounds & Hrun & Hmade & Hl & Hi);
    [|done|done|by rewrite Z.sub_0_r|].
  { split; try done; try lia. }
  destruct (made_rounds _ _ _ _ Hmade) as [Hqs Hfull].
  destruct (rounds_batches n Hn rounds Hfull) as (batches & Heq & Hcat & Hok & Hlen).
  { rewrite <- Hqs. by eapply made_first. }
  rewrite <- Hqs in Heq, Hcat. exists [qs.*1; qs.*2], g', latest, batches. rewrite Hcat. split.
  { unfold generate_TS_tracefile_binary. rewrite decide_False by lia. by rewrite (mbind_run _ _ _ _ _ Hrun). }
  split; [|split; [|split; [done|split; [done|]]]].
  3: { pose proof (made_few _ _ _ _ Hmade). lia. }
  - intros files loc tr Hf. rewrite <- Heq. exact (load_trace_feed n Hn files loc tr qs [] Hf).
  - pose proof (made_ok _ _ _ _ Hmade) as Hq. rewrite <- Hcat in Hq. clear -Hok Hlen Hq.
    induction batches as [|b bs IH]; [constructor|]. rewrite bind_cons in Hq.
    apply Forall_app in Hq as [Hq1 Hq2]. apply Forall_cons in Hok as [[_ Hk] Hok], Hlen as [Hl Hlen].
    constructor; [|by apply IH]. split; [done|]. apply Forall_and. by split.
Qed.
End correct.

End TraceFile.

(** * The run *)
Module Benchmark.
Import Queue Thrift AsyncClient Trace.

Section run.
Context {P : Type} {prot : TProtocol P}.
(** the microseconds since the start, after each turn *)
Variable clock : nat → Z.
Variable fuel : nat.
(** the schedule of the thread that reads answers: how many turns it can take
    before each turn of the loop *)
Variable reads : nat → nat.

(** Turns of the thread that reads answers: when nothing is in flight, it waits
    in [pop]. *)
Fixpoint read_turns (n : nat) : M (async_proxy_client P) () :=
  match n with
  | O => mret ()
  | S n =>
      c ← Prelude.get;
      if decide (m_queue_ (requests_ c) = []) then mret ()
      else
        ended ← read_response fuel;
        if (ended : bool) then mret () else read_turns n
  end.

(** The loop of [run_benchmark] from its turn [i] *)
Fixpoint turns (limit elapsed : Z) (i : nat) (trace : trace_vector) : M (async_proxy_client P) () :=
  if elapsed <? limit then
    match trace with
    | [] => mret ()
    | keys_values_pair :: trace =>
        read_turns (reads i) ;;
        (match keys_values_pair.2 with
         | [] => get_batch keys_values_pair.1 ;; mret ()
         | _ => put_batch keys_values_pair.1 keys_values_pair.2
         end) ;;
        turns limit (clock i) (S i) trace
    end
  else mret ().

(** The client is passed by value: the numbers of its calls are its own, what
    its pointers lead to is shared. *)
Definition by_value {A} (m : M (async_proxy_client P) A) : M (async_proxy_client P) A := λ c,
  let '(r, c') := m c in (r, set_sequence (sequence_num c) (seq_id_ c) c').

(** The number of answers that came during the run, if [stats] *)
Definition run_benchmark (run_time : Z) (stats : bool) (trace : trace_vector) : M (async_proxy_client P) Z :=
  by_value (
    ops ← num_requests_satisfied;
    (if in_int (run_time * 1000000) then turns (run_time * 1000000) 0 0 trace else fail Undefined) ;;
    if stats then
      now ← num_requests_satisfied;
      if in_int (now - ops) then mret (now - ops) else fail Undefined
    else mret ops).

Definition warmup (trace : trace_vector) : M (async_proxy_client P) Z := by_value (run_benchmark 15 false trace).
Definition cooldown (trace : trace_vector) : M (async_proxy_client P) Z := by_value (run_benchmark 15 false trace).

(** [client], on an open connection: the number of answers, and the client at
    its end *)
Definition client (p : P) (trace : trace_vector) : result (Z * async_proxy_client P) :=
  c ← init fuel p;
  match (ops ← run_benchmark 30 true trace; finish ;; mret ops) c with
  | (Done ops, c) => Done (ops, c)
  | (Stop e, _) => Stop e
  end.
End run.

(** ** What is sent *)

(** Answers: the sequence id, the operation, the results *)
Abbreviation answer := (sequence_id * Z * list string)%type.

Section sent.
Context {P : Type} `{TProtocolSpec P}.
Variable clock : nat → Z.
Variable fuel : nat.
Hypothesis Hfuel : (3 < fuel)%nat.
Variable reads : nat → nat.

Definition answer_tokens (a : answer) : list token := Response.response_tokens a.1.1 a.1.2 a.2.
(** What they add to the count *)
Definition counted (answers : list answer) : Z := sum ((λ a : answer, Z.of_nat (length a.2)) <$> answers).

Lemma counted_nonneg answers : 0 <= counted answers.
Proof. apply sum_nonneg, Forall_fmap, Forall_forall. intros a _. cbn. lia. Qed.
Lemma counted_app l1 l2 : counted (l1 ++ l2) = counted l1 + counted l2.
Proof. unfold counted. by rewrite fmap_app, sum_app. Qed.

(** A client with [f] calls in flight, to which [answers] will come *)
Record listening (f : nat) (answers : list answer) (rest : list token) (c : async_proxy_client P) : Prop := {
  listening_open : done_ c = false;
  listening_queue : length (m_queue_ (requests_ c)) = f ∧ size_ (requests_ c) = Z.of_nat f;
  listening_answers : incoming (protocol_ c) = (answers ≫= answer_tokens) ++ rest;
}.

(** What a turn of the reading thread leaves alone *)
Definition same_calls (c c' : async_proxy_client P) : Prop :=
  outgoing (protocol_ c') = outgoing (protocol_ c) ∧ sequence_num c' = sequence_num c
  ∧ seq_id_ c' = seq_id_ c ∧ client_id_ c' = client_id_ c.

(** A turn of the reading thread counts an answer. *)
Lemma read_one f a answers rest (c : async_proxy_client P) :
  listening (S f) (a :: answers) rest c → a.2 ≠ [] → Z.of_nat f < 2^31 - 1 →
  0 <= total_ c → total_ c + Z.of_nat (length a.2) < 2^31 →
  ∃ c', read_response fuel c = (Done false, c') ∧ listening f answers rest c' ∧ same_calls c c'
  ∧ total_ c' = total_ c + Z.of_nat (length a.2).
Proof using All.
  intros [Hd [Hl Hs] Hi] Ha Hf Ht Hsum. destruct (m_queue_ (requests_ c)) as [|type q] eqn:Hq; [done|]. injection Hl as Hl.
  unfold read_response. rewrite (mbind_run Prelude.get _ c c c eq_refl), Hd.
  set (c1 := set_requests_ {| m_queue_ := q; size_ := wrap32 (size_ (requests_ c) - 1) |} c).
  rewrite (mbind_run _ _ c type c1) by (unfold on_requests, zoom; by rewrite (pop_run _ _ _ Hq)).
  rewrite bind_cons, <- app_assoc in Hi.
  destruct (Response.recv_response_reads fuel Hfuel a.1.1 a.1.2 a.2 (protocol_ c) _ Hi) as (p' & Hread & Hi' & Ho').
  set (c2 := set_protocol_ p' c1).
  rewrite (mbind_run _ _ c1 a.2 c2).
  2: { unfold try_catch, on_protocol, zoom. unfold mbind, M_bind. change (protocol_ c1) with (protocol_ c). by rewrite Hread. }
  destruct a.2 as [|v l] eqn:Hv; [done|]. rewrite <- Hv in *.
  eexists. split; [reflexivity|]. split; [|split; [done|]].
  - split; [done| |done]. cbn. rewrite Hs. split; [done|]. rewrite wrap32_in_range; lia.
  - cbn. rewrite wrap32_in_range; [done|]. rewrite Hv in *. cbn in *. lia.
Qed.
(** The call for a batch *)
Definition call_of (seq : sequence_id) (b : list string * list string) : Rpc.request :=
  match b.2 with [] => Rpc.Async_get_batch seq b.1 | _ => Rpc.Async_put_batch seq b.1 b.2 end.
Definition batch_fits (b : list string * list string) : Prop := Rpc.strings_ok b.1 ∧ Rpc.strings_ok b.2.
Definition numbered (seq : sequence_id) (n : Z) : sequence_id :=
  {| client_id := client_id seq; client_seq_no := n; server_seq_no := server_seq_no seq |}.

(** The calls for the batches, numbered from [n] *)
Fixpoint calls_of (seq : sequence_id) (n : Z) (trace : trace_vector) : list Rpc.request :=
  match trace with
  | [] => []
  | b :: trace => call_of (numbered seq n) b :: calls_of seq (n + 1) trace
  end.

Lemma read_turns_run n : ∀ f answers rest (c : async_proxy_client P),
  listening f answers rest c → (f ≤ length answers)%nat → Forall (λ a, a.2 ≠ []) answers → Z.of_nat f < 2^31 →
  0 <= total_ c → total_ c + counted answers < 2^31 →
  ∃ c', read_turns fuel n c = (Done (), c') ∧ listening (f - n) (drop (min n f) answers) rest c' ∧ same_calls c c'
  ∧ total_ c' = total_ c + counted (take (min n f) answers).
Proof using All.
  induction n as [|n IH]; intros f answers rest c Hc Hle Hok Hf Ht Hsum; cbn [read_turns].
  { exists c. rewrite Nat.sub_0_r. split; [done|]. split; [done|]. split; [done|]. symmetry. apply Z.add_0_r. }
  rewrite (mbind_run Prelude.get _ c c c eq_refl). destruct f as [|f].
  { exists c. destruct (listening_queue _ _ _ _ Hc) as [Hl%nil_length_inv _]. rewrite decide_True by done.
    rewrite Nat.min_0_r. split; [done|]. split; [done|]. split; [done|]. symmetry. apply Z.add_0_r. }
  destruct answers as [|a answers]; [simpl in Hle; lia|]. cbn [length] in Hle. apply Forall_cons in Hok as [Ha Hok].
  pose proof (counted_nonneg answers) as Hpos. change (counted (a :: answers)) with (Z.of_nat (length a.2) + counted answers) in Hsum.
  destruct (read_one f a answers rest c Hc Ha) as (c1 & Hr1 & Hc1 & Hs1 & Ht1); [lia..|].
  rewrite decide_False.
  2: { destruct (listening_queue _ _ _ _ Hc) as [Hl _]. by destruct (m_queue_ (requests_ c)). }
  rewrite (mbind_run _ _ _ _ _ Hr1).
  destruct (IH f answers rest c1 Hc1) as (c2 & Hr2 & Hc2 & Hs2 & Ht2); [lia|done|lia|lia|lia|].
  exists c2. split; [done|]. split; [done|]. split.
  - destruct Hs1 as (? & ? & ? & ?), Hs2 as (? & ? & ? & ?). repeat split; congruence.
  - rewrite Ht2, Ht1. cbn [Nat.min take].
    change (counted (a :: take (min n f) answers)) with (Z.of_nat (length a.2) + counted (take (min n f) answers)). lia.
Qed.

(** How many calls are in flight at the [k]th call from turn [i], when there
    are [f] before turn [i] *)
Fixpoint in_flight (f i k : nat) : nat :=
  match k with
  | O => f - reads i
  | S k => in_flight (S (f - reads i)) (S i) k
  end.

(** A client that has made [n] calls, apart from what is in flight *)
Definition calling (n : Z) (c : async_proxy_client P) : Prop :=
  sequence_num c = n ∧ client_id (seq_id_ c) = client_id_ c ∧ server_seq_no (seq_id_ c) = 0 ∧ 0 <= total_ c < 2^31.

Lemma call_total type call (c c' : async_proxy_client P) r : send_call type call c = (r, c') → total_ c' = total_ c.
Proof.
  unfold send_call, wait_for_room, next_sequence, on_requests, on_protocol, zoom, mbind, M_bind, size, push, modify, gets.
  simpl. destruct (_ <=? _); [by intros [= <- <-]|]. simpl. destruct (in_long _); [|by intros [= <- <-]]. simpl.
  destruct (call _ _) as [[[]|e] p']; by intros [= <- <-].
Qed.

Lemma call_sends n b (c : async_proxy_client P) :
  ready n c → in_long (n + 1) = true → in_long (client_id_ c) = true → in_long n = true → 0 <= total_ c < 2^31 → batch_fits b →
  ∃ c', (match b.2 with [] => get_batch b.1 ;; mret () | _ => put_batch b.1 b.2 end) c = (Done (), c')
    ∧ outgoing (protocol_ c') = outgoing (protocol_ c) ++ Rpc.request_tokens (call_of (sequence_of n c) b)
    ∧ calling (n + 1) c' ∧ client_id_ c' = client_id_ c ∧ total_ c' = total_ c ∧ done_ c' = done_ c
    ∧ incoming (protocol_ c') = incoming (protocol_ c) ∧ length (m_queue_ (requests_ c')) = S (length (m_queue_ (requests_ c)))
    ∧ size_ (requests_ c') = wrap32 (size_ (requests_ c) + 1).
Proof using All.
  intros Hr Hn Hid Hn' Ht [Hk Hv].
  assert (∀ q, Rpc.request_ok q → writes (Rpc.send q) (Rpc.request_tokens q)) as Hw by (intros q; apply Rpc.send_writes).
  assert (Rpc.seq_id_ok (sequence_of n c)) as Hs by (repeat split; done).
  destruct b as [keys values]. cbn [fst snd] in *. destruct values as [|v values].
  - destruct (send_call_run GET_BATCH (λ seq, waffle_thriftClient.async_get_batch seq keys) n c _ Hr Hn
      (Hw (Rpc.Async_get_batch (sequence_of n c) keys) (conj Hs Hk))) as (c' & Hrun & Ho & Hin & Hsn & Hseq & Hci & Hqu & Hsz & Hdone).
    exists c'. split; [cbv [get_batch mbind M_bind]; by rewrite Hrun|].
    pose proof (call_total _ _ _ _ _ Hrun) as Htot. split; [done|]. split; [|by rewrite Hqu, last_length].
    split; [done|]. rewrite Hseq, Hci, Htot. by split.
  - destruct (send_call_run PUT_BATCH (λ seq, waffle_thriftClient.async_put_batch seq keys (v :: values)) n c _ Hr Hn
      (Hw (Rpc.Async_put_batch (sequence_of n c) keys (v :: values)) (conj Hs (conj Hk Hv))))
      as (c' & Hrun & Ho & Hin & Hsn & Hseq & Hci & Hqu & Hsz & Hdone).
    exists c'. split; [exact Hrun|].
    pose proof (call_total _ _ _ _ _ Hrun) as Htot. split; [done|]. split; [|by rewrite Hqu, last_length].
    split; [done|]. rewrite Hseq, Hci, Htot. by split.
Qed.

(** What the clock shows before the [k]th turn from turn [i] *)
Definition time_before (elapsed : Z) (i k : nat) : Z := match k with O => elapsed | S k => clock (i + k) end.

Lemma turns_run limit elapsed i n f trace answers rest (c : async_proxy_client P) :
  calling n c → listening f answers rest c → 0 <= n → n + Z.of_nat (length trace) < 2^63 → in_long (client_id_ c) = true →
  Forall batch_fits trace → Forall (λ a, a.2 ≠ []) answers → (f + length trace ≤ length answers)%nat →
  total_ c + counted answers < 2^31 → (f ≤ 2000)%nat → (∀ k, (k < length trace)%nat → (in_flight f i k < 2000)%nat) →
  ∃ m read c', turns clock fuel reads limit elapsed i trace c = (Done (), c')
  ∧ (m <= length trace)%nat ∧ (∀ k, (k < m)%nat → time_before elapsed i k < limit)
  ∧ ((m < length trace)%nat → limit <= time_before elapsed i m)
  ∧ outgoing (protocol_ c') = outgoing (protocol_ c) ++ (calls_of (sequence_of 0 c) n (take m trace) ≫= Rpc.request_tokens)
  ∧ calling (n + Z.of_nat m) c' ∧ (read ≤ f + m)%nat ∧ total_ c' = total_ c + counted (take read answers).
Proof using All.
  revert elapsed i n f answers c. induction trace as [|b trace IH];
    intros elapsed i n f answers c Hc Hli Hn Hlen Hid Hfits Hok Hans Hsum Hf Hroom; cbn [turns].
  { exists 0%nat, 0%nat, c. split; [by destruct (_ <? _)|]. simpl. rewrite app_nil_r, Z.add_0_r.
    repeat split; first [done|lia|apply Hc|symmetry; apply Z.add_0_r]. }
  apply Forall_cons in Hfits as [Hb Hfits]. cbn [length] in Hlen, Hans, Hroom. destruct (Z.ltb_spec elapsed limit) as [Hlt|Hge].
  2: { exists 0%nat, 0%nat, c. simpl. rewrite app_nil_r, Z.add_0_r.
       repeat split; first [done|lia|apply Hc|symmetry; apply Z.add_0_r]. }
  destruct Hc as (Hs & Hci & Hserver & Ht).
  destruct (read_turns_run (reads i) f answers rest c Hli) as (c1 & Hr & Hli1 & (Ho1 & Hs1 & Hq1 & Hc1) & Ht1); [lia|done|lia|lia|lia|].
  rewrite (mbind_run _ _ _ _ _ Hr). destruct Hli1 as [Hd1 [Hl1 Hz1] Hi1].
  set (f1 := (f - reads i)%nat) in *. set (r1 := min (reads i) f) in *.
  pose proof (Hroom 0%nat ltac:(lia)) as Hroom0. cbn in Hroom0. fold f1 in Hroom0.
  assert (counted answers = counted (take r1 answers) + counted (drop r1 answers)) as Hsplit
    by (by rewrite <- counted_app, take_drop).
  pose proof (counted_nonneg (take r1 answers)). pose proof (counted_nonneg (drop r1 answers)).
  assert (∀ z, 0 <= z < 2^63 → in_long z = true) as Hin
    by (intros z Hz; unfold in_long, long_min, long_max; apply andb_true_iff; split; apply Z.leb_le; lia).
  destruct (call_sends n b c1) as (c2 & Hrun & Ho2 & Hc2 & Hid2 & Ht2 & Hd2 & Hi2 & Hl2 & Hz2);
    [split; [congruence|split; [congruence|split; [congruence|unfold in_flight_limit_; lia]]]|apply Hin; lia|congruence|apply Hin; lia|lia|done|].
  rewrite (mbind_run _ _ _ _ _ Hrun).
  destruct (IH (clock i) (S i) (n + 1) (S f1) (drop r1 answers) c2) as (m & read & c3 & Hrun3 & Hm & Hbefore & Hafter & Ho3 & Hc3 & Hread & Ht3);
    [done| |lia|lia|congruence|done|by apply Forall_drop|rewrite length_drop; lia|lia|lia|intros k Hk; exact (Hroom (S k) ltac:(lia))|].
  { split; [congruence| |congruence]. rewrite Hl2, Hz2, Hl1, Hz1. split; [done|]. rewrite wrap32_in_range; lia. }
  exists (S m), (r1 + read)%nat, c3. split; [exact Hrun3|]. split; [simpl; lia|]. split; [|split; [|split; [|split; [|split]]]].
  - intros [|k] Hk; [done|]. specialize (Hbefore k ltac:(lia)). destruct k; simpl in *; [by rewrite Nat.add_0_r|].
    by replace (i + S k)%nat with (S (i + k)) by lia.
  - intros Hm'. cbn [length] in Hm'. specialize (Hafter ltac:(lia)). destruct m as [|m]; simpl in *; [by rewrite Nat.add_0_r|].
    by replace (i + S m)%nat with (S (i + m)) by lia.
  - rewrite Ho3, Ho2, Ho1. cbn [take calls_of]. rewrite bind_cons, <- app_assoc. do 2 f_equal.
    + f_equal. unfold numbered, sequence_of. simpl. by rewrite Hc1.
    + unfold sequence_of. by rewrite Hid2, Hc1.
  - by replace (n + Z.of_nat (S m)) with (n + 1 + Z.of_nat m) by lia.
  - lia.
  - rewrite Ht3, Ht2, Ht1. rewrite <- (take_take_drop answers r1 read), counted_app. lia.
Qed.

(** A run of the benchmark sends the batches of its trace in their order,
    one call each, numbered from the number the client is at, until the trace
    or the time is used up: it returns how many results were counted meanwhile,
    and the client is still at its first number, since it was passed by value. *)
Lemma benchmark_sends_trace run_time n trace answers rest (c : async_proxy_client P) :
  in_int (run_time * 1000000) = true → calling n c → listening 0 answers rest c → 0 <= n → n + Z.of_nat (length trace) < 2^63 →
  in_long (client_id_ c) = true → Forall batch_fits trace → Forall (λ a, a.2 ≠ []) answers → (length trace ≤ length answers)%nat →
  total_ c + counted answers < 2^31 → (∀ k, (k < length trace)%nat → (in_flight 0 0 k < 2000)%nat) →
  ∃ m read c', run_benchmark clock fuel reads run_time true trace c = (Done (total_ c' - total_ c), c')
  ∧ (m <= length trace)%nat ∧ (∀ k, (k < m)%nat → time_before 0 0 k < run_time * 1000000)
  ∧ ((m < length trace)%nat → run_time * 1000000 <= time_before 0 0 m)
  ∧ outgoing (protocol_ c') = outgoing (protocol_ c) ++ (calls_of (sequence_of 0 c) n (take m trace) ≫= Rpc.request_tokens)
  ∧ (read ≤ m)%nat ∧ total_ c' = total_ c + counted (take read answers) ∧ sequence_num c' = n ∧ seq_id_ c' = seq_id_ c.
Proof using All.
  intros Htime Hc Hli Hn Hlen Hid Hfits Hok Hans Hsum Hroom.
  destruct (turns_run (run_time * 1000000) 0 0 n 0 trace answers rest c)
    as (m & read & c' & Hrun & Hm & Hb & Ha & Ho & Hc' & Hread & Ht); try done; [lia|].
  exists m, read, (set_sequence (sequence_num c) (seq_id_ c) c').
  destruct Hc as (Hs & _ & _ & Ht0), Hc' as (_ & _ & _ & Ht1). pose proof (counted_nonneg (take read answers)). split.
  - unfold run_benchmark, by_value. rewrite (mbind_run num_requests_satisfied _ c (total_ c) c eq_refl), Htime.
    rewrite (mbind_run _ _ _ _ _ Hrun), (mbind_run num_requests_satisfied _ c' (total_ c') c' eq_refl).
    assert (in_int (total_ c' - total_ c) = true) as ->; [|done]. unfold in_int. apply andb_true_iff.
    split; [apply Z.leb_le|apply Z.ltb_lt]; lia.
  - repeat split; done.
Qed.
End sent.
End Benchmark.
