(* ===== verification/BenchmarkMain.v ===== *)
(** The programs of the benchmark: [main] of utils/generate_TS_tracefile.cpp,
    which makes the file of queries, and [main] of
    benchmark/src/TS_proxy_benchmark.cpp, which loads it and starts the clients.

    Opening a connection is a parameter.  The names of the output files, and
    what is written there, are not modelled: the results in the answers that the
    clients have read are counted.  That answers come in time is the
    record [served]. *)
From S2P Require Import Prelude.
From S2P Require Import CxxString.
From S2P Require Import Config.
From S2P Require Import Getopt.
From S2P Require Import OrderedSet.
From S2P Require Import FrequencySmoother.
From S2P Require Import Values.
From S2P Require Import KeyMaster.
From S2P Require Import Queue.
From S2P Require Import Thrift.
From S2P Require Import WaffleThrift.
From S2P Require Import ThriftRpc.
From S2P Require Import AsyncClient.
From S2P Require Import Benchmark.

Local Open Scope Z_scope.

(** * generate_TS_tracefile.cpp *)
Module TracefileMain.
Import ItemIdGenerator TraceFile.

Definition row_count : Z := 100000.

Section main.
Context {G : Type} `{RandomSource G, SampleSource G}.
Variable files : string → option string.

(** What it writes to ../tracefiles/TS_data_binary.bin *)
Definition main (fuel : nat) : M G (list (list string)) :=
  let keys := read_item_ids [] (default "" (files "../tracefiles/TS_ItemID_10000.txt")) benchmarkConfig.no_items in
  generate_TS_tracefile_binary keys benchmarkConfig.object_size benchmarkConfig.client_batch_size fuel row_count.
End main.
End TracefileMain.

(** * TS_proxy_benchmark.cpp *)
Module BenchmarkMain.
Import Thrift AsyncClient ItemIdGenerator Trace TraceFile Benchmark.

Record settings := { proxy_host : string; proxy_port : Z }.
Definition new_settings : settings := {| proxy_host := "192.168.252.109"; proxy_port := 9090 |}.
Definition optstring : string := "h:p:".

(** The [switch] over the options *)
Fixpoint read_options (options : list (ascii * string)) (s : settings) : result settings :=
  match options with
  | [] => Done s
  | (o, optarg) :: options =>
      if decide (o = "h"%char) then read_options options {| proxy_host := optarg; proxy_port := proxy_port s |}
      else if decide (o = "p"%char) then
        port ← atoi optarg; read_options options {| proxy_host := proxy_host s; proxy_port := port |}
      else Stop (Exit (-1))
  end.

Section main.
Context {P : Type} {prot : TProtocol P}.
Variable files : string → option (list (list string)).
(** the connection that the [i]th client opens *)
Variable connect : nat → string → Z → result P.
Variable clock : nat → Z.
(** how many answers the thread that reads them can read before each call *)
Variable reads : nat → nat.

(** What comes of each of the client threads *)
Definition main (fuel : nat) (args : list string) : result (list (result (Z * async_proxy_client P))) :=
  s ← read_options (getopt optstring args) new_settings;
  trace ← load_trace files benchmarkConfig.trace_location [] benchmarkConfig.client_batch_size;
  Done ((λ i, p ← connect i (proxy_host s) (proxy_port s); client clock fuel reads p trace)
    <$> seq 0 (Z.to_nat benchmarkConfig.num_clients)).
End main.




(** ** What is sent *)
Section sent.
Context {P : Type} `{TProtocolSpec P}.
Variable clock : nat → Z.
Variable reads : nat → nat.
Variable fuel : nat.
Hypothesis Hfuel : (3 < fuel)%nat.



End sent.
End BenchmarkMain.
