(* ===== verification/BenchmarkExample.v ===== *)
(** Concrete runs of the benchmark: a file of queries that a counting generator
    makes for two items, its batches, a client that sends them, and the two
    programs one after the other. *)
From S2P Require Import Prelude.
From S2P Require Import CxxString.
From S2P Require Import OrderedSet.
From S2P Require Import FrequencySmoother.
From S2P Require Import Values.
From S2P Require Import KeyMaster.
From S2P Require Import Queue.
From S2P Require Import Thrift.
From S2P Require Import WaffleThrift.
From S2P Require Import ThriftRpc.
From S2P Require Import ThriftExample.
From S2P Require Import AsyncClient.
From S2P Require Import Benchmark.
From S2P Require Import Config.
From S2P Require Import Getopt.
From S2P Require Import BenchmarkMain.

Local Open Scope Z_scope.

Module BenchmarkExample.
Import Queue Thrift Plain Trace TraceFile.

(** * Batches *)
Definition keys : list string := ["a@1@2"; "b@3"; "c@3"; "d@3"; "a@1@4"].
Definition vals : list string := [""; "u"; "v"; "w"; ""].
Definition one_file (data : list (list string)) (name : string) : option (list (list string)) :=
  if decide (name = "trace") then Some data else None.

(** The first GET leaves an empty batch behind. *)
Example batches_of_two :
  load_trace (one_file [keys; vals]) "trace" [] 2 =
  Done [([], []); (["a@1@2"], []); (["b@3"; "c@3"], ["u"; "v"]); (["d@3"], ["w"]); (["a@1@4"], [])].
Proof. vm_compute. reflexivity. Qed.

Lemma load_trace_batches_witness :
  ∃ batches, load_trace (one_file [keys; vals]) "trace" [] 2 = Done ([] ++ (batch_of <$> first_batch (zip keys vals) ++ batches))
  ∧ batches ≫= snd = zip keys vals ∧ Forall (batch_ok (Z.to_nat 2)) batches.
Proof. apply (load_trace_batches (one_file [keys; vals]) "trace" [] 2 keys vals []); [lia|reflexivity|reflexivity]. Defined.


(** * A file *)
#[export] Instance counted_samples : SampleSource Z := {
  rand g := (37 * g, g + 1);
  scaled_sample latest g := (wrap64 (1700000000 + g `mod` (latest - 1700000000 + 2)), g + 1);
}.
#[export] Instance counted_samples_spec : SampleSpec Z.
Proof. split. intros latest g. apply wrap64_range. Qed.
Definition items : list string := ["CPU_USAGE_0_107&bool&"; "CPU_TEMP_1_109&float&"].

(** Four rows: PUTs of both items, then GETs of both *)
Example four_rows :
  match (generate_TS_tracefile_binary items 4 2 10 4 1).1 with Done data => length <$> data | _ => [] end = [4%nat; 4%nat].
Proof. vm_compute. reflexivity. Qed.

(** * A run *)
Definition sender : AsyncClient.async_proxy_client pipe :=
  {| AsyncClient.protocol_ := Calls.idle; AsyncClient.requests_ := new_queue; AsyncClient.total_ := 0;
     AsyncClient.done_ := false; AsyncClient.sequence_num := 0; AsyncClient.client_id_ := 5;
     AsyncClient.seq_id_ := set_client_id 5 new_sequence_id |}.
(** Three batches, and a clock by which there is time for two *)
Definition three : trace_vector := [(["b@3"], ["u"]); (["a@1@4"], []); (["b@3@4"], [])].
Definition seconds (i : nat) : Z := 600000 * (Z.of_nat i + 1).
(** The thread that reads has time for an answer before each call. *)
Definition one_each (i : nat) : nat := 1.

(** An answer to the first call is there. *)
Definition first_answer : Benchmark.answer := (AsyncClient.sequence_of 0 sender, AsyncClient.PUT_BATCH, ["PUT SUCCESSFUL"]).
Definition answered : AsyncClient.async_proxy_client pipe :=
  AsyncClient.set_protocol_ {| pin := Benchmark.answer_tokens first_answer; pout := [] |} sender.

(** Two calls were made, and the answer was counted. *)
Example two_calls :
  let c := (Benchmark.run_benchmark seconds 4 one_each 1 true three answered).2 in
  pout (AsyncClient.protocol_ c) =
  Benchmark.calls_of (AsyncClient.sequence_of 0 sender) 0 (take 2 three) ≫= Rpc.request_tokens
  ∧ AsyncClient.total_ c = 1.
Proof. vm_compute. by split. Qed.






End BenchmarkExample.
