(* ===== verification/ServiceExample.v ===== *)
(** Concrete runs of the service: a proxy with two queues, a map of clients
    that is a [gmap], connections that are two streams of tokens, and a
    connection that is closed. *)
From S2P Require Import Prelude.
From S2P Require Import Queue.
From S2P Require Import Thrift.
From S2P Require Import WaffleThrift.
From S2P Require Import ThriftRpc.
From S2P Require Import ThriftExample.
From S2P Require Import WaffleThriftResponse.
From S2P Require Import Frontend.
From S2P Require Import Handler.
From S2P Require Import HandlerFactory.
From S2P Require Import AsyncClient.

Local Open Scope Z_scope.

Module ServiceExample.
Import Queue Thrift Plain.

(** * Parameters *)
#[export] Instance gmap_cuckoo : cuckoohash_map nat (gmap Z nat) := {
  cuckoo_insert id c m := match m !! id with Some _ => m | None => <[id := c]> m end;
  cuckoo_erase id m := delete id m;
  cuckoo_clear _ := ∅;
  cuckoo_find id m := m !! id;
  cuckoo_elements m := map_to_list m;
}.
#[export] Instance gmap_cuckoo_spec : CuckooSpec nat (gmap Z nat).
Proof.
  split; simpl.
  - intros id c m id'. destruct (m !! id) as [d|] eqn:Hm.
    + case_decide; by subst.
    + case_decide as Hid; [subst; by rewrite lookup_insert_eq|by rewrite lookup_insert_ne].
  - intros id m id'. case_decide as Hid; [subst; by rewrite lookup_delete_eq|by rewrite lookup_delete_ne].
  - done.
Qed.

(** A connection that the other end has closed *)
Definition closed {A} : M () A := fail (Throw TTransportException).
Definition closed_protocol : TProtocol () := {|
  writeMessageBegin _ _ _ := closed; writeMessageEnd := closed; writeStructBegin _ := closed; writeStructEnd := closed;
  writeFieldBegin _ _ _ := closed; writeFieldEnd := closed; writeFieldStop := closed; writeListBegin _ _ := closed;
  writeListEnd := closed; writeI32 _ := closed; writeI64 _ := closed; writeString _ := closed;
  writeException _ _ := closed; writeEnd := closed; flush := closed; readMessageBegin := closed;
  readMessageEnd := closed; readStructBegin := closed; readStructEnd := closed; readFieldBegin := closed;
  readFieldEnd := closed; readListBegin := closed; readListEnd := closed; readI32 := closed; readI64 := closed;
  readString := closed; readException := closed; readEnd := closed; skip _ := closed;
|}.

(** * Witnesses *)
Definition seq1 : sequence_id := {| client_id := 5; client_seq_no := 10; server_seq_no := 0 |}.
Definition seq2 : sequence_id := {| client_id := 6; client_seq_no := 20; server_seq_no := 0 |}.

Lemma failed_response_exits_witness : @Response.async_response () closed_protocol seq1 2 ["v"] () = (Stop (Exit 1), ()).
Proof. exact (@Response.failed_response_exits () closed_protocol seq1 2 ["v"] () () TTransportException eq_refl). Defined.

Definition f0 : Frontend.frontend := Frontend.fe (Frontend.start 2).

Lemma get_future_enqueues_witness :
  ∃ i s', Frontend.get_future 7 "k" f0 = (Done 0%nat, s') ∧ (i < 2)%nat ∧
    (0 ≤ 7 < 2^31 → Z.of_nat i = 7 `mod` Z.of_nat 2) ∧
    (∀ j, m_queue_ <$> Frontend.operation_queues_ s' !! j =
       (λ q, m_queue_ q ++ (if decide (i = j) then [({| Proxy.op_key := "k"; Proxy.op_value := "" |}, 0%nat)] else []))
       <$> Frontend.operation_queues_ f0 !! j) ∧
    Frontend.enqueued 1 f0 s'.
Proof. exact (Frontend.get_future_enqueues 7 "k" f0 (cons_nonempty _ _)). Defined.

(** The generator draws 0, 7, 14, ... *)
Definition draw (lo hi : Z) : M Z Z := λ w, (Done (lo + (7 * w) `mod` (hi - lo + 1)), w + 1).
Lemma random_queue_is_any_witness :
  let s := Frontend.fe (Frontend.start 1) in
  Frontend.random_async_get_batch draw seq1 ["a"; "b"] (s, 3) = Frontend.on_fe (Frontend.async_get_batch seq1 (- 5) ["a"; "b"]) (s, 4).
Proof. exact (proj1 (proj2 (proj2 (proj2 (proj2 (proj2 (proj2 (Frontend.random_queue_is_any draw (mret ()) (- 5)
  (Frontend.fe (Frontend.start 1)) 3 4 21 eq_refl eq_refl))))))) seq1 ["a"; "b"]). Defined.

(** A GET batch, a PUT batch, the values of the first, its answer *)
Definition y0 : Frontend.sys := Frontend.start 2.
Definition y1 : Frontend.sys :=
  Frontend.called Frontend.GET_BATCH seq1 2 y0 (Frontend.async_get_batch seq1 0 ["a"; "b"] (Frontend.fe y0)).2.
Definition y2 : Frontend.sys :=
  Frontend.called Frontend.PUT_BATCH seq2 1 y1 (Frontend.async_put_batch seq2 1 ["c"] ["w"] (Frontend.fe y1)).2.
Definition y_set (p : nat) (v : string) (y : Frontend.sys) : Frontend.sys :=
  {| Frontend.fe := Frontend.set_promises (<[p := v]> (Frontend.promises (Frontend.fe y))) (Frontend.fe y);
     Frontend.calls := Frontend.calls y; Frontend.responses := Frontend.responses y |}.
Definition y4 : Frontend.sys := y_set 0 "va" (y_set 1 "vb" y2).
Definition y5 : Frontend.sys :=
  {| Frontend.fe := (Frontend.responder_turn new_sequence_id (Frontend.fe y4)).2; Frontend.calls := Frontend.calls y4;
     Frontend.responses := Frontend.responses y4 ++ [(seq1, Frontend.GET_BATCH, ["va"; "vb"])] |}.

Lemma reached_y4 : rtc Frontend.step y0 y4.
Proof.
  apply (rtc_l _ _ y1); [by apply (Frontend.step_get_batch _ seq1 0 ["a"; "b"])|].
  apply (rtc_l _ _ y2); [by apply (Frontend.step_put_batch _ seq2 1 ["c"] ["w"])|].
  apply (rtc_l _ _ (y_set 1 "vb" y2)); [by apply Frontend.step_set|].
  apply (rtc_l _ _ y4); [by apply Frontend.step_set|]. apply rtc_refl.
Qed.

Lemma responses_match_calls_witness :
  rtc Frontend.step (Frontend.start 2) y5 ∧
  ∃ answered pending, Frontend.calls y5 = answered ++ pending ∧
  Forall2 (Frontend.answers (Frontend.promises (Frontend.fe y5))) (Frontend.responses y5) answered ∧
  ∀ c rest d, pending = c :: rest →
    (Frontend.responder_turn d (Frontend.fe y5)).1 =
    match Frontend.results_of (Frontend.c_op c) (Frontend.c_waiters c) (Frontend.promises (Frontend.fe y5)) with
    | Some results => Done (Frontend.c_seq c, Frontend.c_op c, results)
    | None => Stop Blocked
    end.
Proof.
  assert (Hr : rtc Frontend.step (Frontend.start 2) y5).
  { apply (rtc_r _ y4); [exact reached_y4|]. by apply (Frontend.step_respond _ new_sequence_id). }
  split; [exact Hr|]. exact (Frontend.responses_match_calls 2 y5 Hr).
Defined.

Definition g1 : Frontend.frontend := (Frontend.async_get seq1 0 "a" f0).2.
Definition g2 : Frontend.frontend := (Frontend.async_get_batch seq2 0 ["b"] g1).2.
Lemma async_get_takes_next_id_witness :
  ∃ s3, Frontend.responder_turn new_sequence_id (Frontend.set_promises {[0%nat := "va"]} g2) =
    (Done (seq2, Frontend.GET, ["va"]), s3) ∧
  ∀ m', (Frontend.responder_turn new_sequence_id (Frontend.set_promises m' s3)).1 = Stop Blocked.
Proof.
  exact (Frontend.async_get_takes_next_id seq1 0 "a" seq2 0 ["b"] new_sequence_id f0 g1 g2 {[0%nat := "va"]} "va"
    eq_refl eq_refl eq_refl eq_refl eq_refl).
Defined.

Lemma racing_batches_swap_answers_witness :
  ∃ schedule s',
    Frontend.interleave schedule [Frontend.async_get_batch_prog seq1 0 ["a"; "b"]; Frontend.async_get_batch_prog seq2 0 ["c"]] f0
    = (Done [Frontend.Ret; Frontend.Ret], s')
  ∧ ∃ s1 s2,
    Frontend.responder_turn new_sequence_id (Frontend.set_promises {[0%nat := "va"; 1%nat := "vb"; 2%nat := "vc"]} s')
    = (Done (seq2, Frontend.GET_BATCH, ["va"; "vb"]), s1)
  ∧ Frontend.responder_turn new_sequence_id s1 = (Done (seq1, Frontend.GET_BATCH, ["vc"]), s2).
Proof.
  destruct (Frontend.racing_batches_swap_answers seq1 0 ["a"; "b"] seq2 0 ["c"] f0 (cons_nonempty _ _) eq_refl eq_refl)
    as (schedule & s' & Hrun & Hanswers).
  exists schedule, s'. split; [exact Hrun|].
  exact (Hanswers {[0%nat := "va"; 1%nat := "vb"; 2%nat := "vc"]} ["va"; "vb"] ["vc"] new_sequence_id new_sequence_id eq_refl eq_refl).
Defined.

#[local] Instance front : proxy Frontend.frontend := Handler.frontend_proxy (mret ()) (λ _ results, mret results).
Definition e0 : Factory.run pipe (gmap Z nat) Frontend.frontend := {|
  Factory.srv := {| Factory.handlers_ := []; Factory.gen_ := 2^63 - 1;
    Factory.clients := {| Handler.clients_ := ∅; Handler.connections_ := [] |}; Factory.shared_proxy_ := f0 |};
  Factory.got := []; Factory.registered := [] |}.
(** The state of [srv] after a step of it *)
Definition after {A} (m : M (Factory.server pipe (gmap Z nat) Frontend.frontend) A) (s : Factory.run pipe (gmap Z nat) Frontend.frontend)
    (got registered : list (nat * Z)) : Factory.run pipe (gmap Z nat) Frontend.frontend :=
  {| Factory.srv := (m (Factory.srv s)).2; Factory.got := got; Factory.registered := registered |}.
Definition client_ids : list (nat * Z) := [(0%nat, 2^63 - 1); (1%nat, - 2^63)].
Definition e1 : Factory.run pipe (gmap Z nat) Frontend.frontend := after (Factory.getHandler Calls.idle) e0 [] [].
Definition e2 : Factory.run pipe (gmap Z nat) Frontend.frontend := after (Factory.getHandler Calls.idle) e1 [] [].
Definition e3 : Factory.run pipe (gmap Z nat) Frontend.frontend := after (Factory.on_handler 0 Handler.get_client_id) e2 [(0%nat, 2^63 - 1)] [].
Definition e4 : Factory.run pipe (gmap Z nat) Frontend.frontend := after (Factory.on_handler 1 Handler.get_client_id) e3 client_ids [].
Definition e5 : Factory.run pipe (gmap Z nat) Frontend.frontend :=
  after (Factory.on_handler 1 (Handler.register_client_id 0 (- 2^63))) e4 client_ids [(1%nat, - 2^63)].
Lemma reached_e5 : rtc Factory.step e0 e5.
Proof.
  apply (rtc_l _ _ e1); [exact (Factory.step_connect e0 Calls.idle 0 (Factory.srv e1) eq_refl)|].
  apply (rtc_l _ _ e2); [exact (Factory.step_connect e1 Calls.idle 1 (Factory.srv e2) eq_refl)|].
  apply (rtc_l _ _ e3); [exact (Factory.step_get_id e2 0 (2^63 - 1) (Factory.srv e3) eq_refl)|].
  apply (rtc_l _ _ e4); [exact (Factory.step_get_id e3 1 (- 2^63) (Factory.srv e4) eq_refl)|].
  apply (rtc_l _ _ e5); [|apply rtc_refl].
  apply (Factory.step_register e4 1 0 (- 2^63) (Factory.srv e5)); [apply list_elem_of_further, list_elem_of_here|].
  vm_cast_no_check (eq_refl (Done (A := ()) (), Factory.srv e5)).
Qed.

(** The counter overflows between the two connections. *)
Lemma answers_stay_with_clients_witness :
  let s := e5 in
  NoDup (Factory.got s).*2 ∧ cuckoo_find (- 2^63) (Handler.clients_ (Factory.clients (Factory.srv s))) = Some 1%nat
  ∧ ∀ seq op result r m, client_id seq = - 2^63 → Handler.async_respond_client seq op result (Factory.clients (Factory.srv s)) = (r, m) →
      Handler.clients_ m = Handler.clients_ (Factory.clients (Factory.srv s))
      ∧ ∀ j, j ≠ 1%nat → Handler.connections_ m !! j = Handler.connections_ (Factory.clients (Factory.srv s)) !! j.
Proof.
  apply (Factory.answers_stay_with_clients e0 e5 1 (- 2^63)).
  - by split.
  - exact reached_e5.
  - by vm_compute.
  - apply list_elem_of_here.
Defined.

Definition clients : Handler.client_map pipe (gmap Z nat) :=
  {| Handler.clients_ := {[5 := 0%nat]}; Handler.connections_ := [Calls.idle] |}.
Definition call1 : Frontend.call :=
  {| Frontend.c_op := Frontend.GET_BATCH; Frontend.c_seq := seq1; Frontend.c_waiters := [0%nat; 1%nat] |}.
Definition call2 : Frontend.call :=
  {| Frontend.c_op := Frontend.PUT_BATCH; Frontend.c_seq := seq2; Frontend.c_waiters := [2%nat] |}.
Lemma answers_are_delivered_witness :
  ∃ fe' p', Handler.responder_thread new_sequence_id (Frontend.fe y4, clients) =
      (Done (), (fe', {| Handler.clients_ := Handler.clients_ clients;
                         Handler.connections_ := <[0%nat := p']> (Handler.connections_ clients) |})) ∧
    m_queue_ (Frontend.sequence_queue_ fe') = Frontend.c_seq <$> [call2] ∧
    ∃ sent, outgoing p' = outgoing Calls.idle ++ sent ∧
    ∀ pc r, incoming pc = sent ++ r →
    ∃ pc', Response.recv_response 4 pc = (Done (client_seq_no (Frontend.c_seq call1), ["va"; "vb"]), pc') ∧ incoming pc' = r.
Proof.
  apply (Handler.answers_are_delivered 4 2 y4 [] call1 [call2] ["va"; "vb"] clients 0 Calls.idle new_sequence_id);
    [lia|exact reached_y4|done|done|done|done|done|done|].
  split; [by repeat split|]. split; [done|]. split; [done|]. by repeat constructor.
Defined.

(** The same run, computed to the end *)
Example y4_answer :
  let s := (Handler.responder_thread new_sequence_id (Frontend.fe y4, clients)).2 in
  let wire := default [] (pout <$> Handler.connections_ s.2 !! 0%nat) in
  (Response.recv_response 4 {| pin := wire; pout := [] |}).1 = Done (10, ["va"; "vb"]).
Proof. vm_compute. reflexivity. Qed.

Definition c0 : AsyncClient.async_proxy_client pipe :=
  {| AsyncClient.protocol_ := Calls.idle; AsyncClient.requests_ := new_queue; AsyncClient.total_ := 0;
     AsyncClient.done_ := false; AsyncClient.sequence_num := 0; AsyncClient.client_id_ := 5;
     AsyncClient.seq_id_ := set_client_id 5 new_sequence_id |}.
Lemma get_batch_sends_witness :
  ∃ c', AsyncClient.get_batch ["a"] c0 = (Done [], c') ∧
    outgoing (AsyncClient.protocol_ c') = outgoing (AsyncClient.protocol_ c0) ++
      Rpc.request_tokens (Rpc.Async_get_batch (AsyncClient.sequence_of 0 c0) ["a"]) ∧
    m_queue_ (AsyncClient.requests_ c') = m_queue_ (AsyncClient.requests_ c0) ++ [AsyncClient.GET_BATCH] ∧
    AsyncClient.sequence_num c' = 0 + 1.
Proof.
  apply (AsyncClient.get_batch_sends ["a"] 0 c0); [done|done|done|done|].
  split; [done|]. constructor; [done|constructor].
Defined.

(** An answer to a batch without keys *)
Definition c1 : AsyncClient.async_proxy_client pipe :=
  AsyncClient.set_protocol_ {| pin := Response.response_tokens seq1 2 []; pout := [] |}
    (AsyncClient.set_requests_ {| m_queue_ := [2]; size_ := 1 |} c0).
Lemma read_response_needs_a_string_witness :
  (AsyncClient.read_response 4 c1).1 =
  match (Response.recv_response 4 (AsyncClient.protocol_ c1)).1 with
  | Done (_, _ :: _) => Done false
  | Done (_, []) | Stop (Throw TTransportException) => Stop Undefined
  | Stop e => Stop e
  end ∧ (AsyncClient.read_response 4 c1).1 = Stop Undefined.
Proof.
  split; [exact (AsyncClient.read_response_needs_a_string 4 2 [] c1 eq_refl eq_refl)|]. vm_compute. reflexivity.
Defined.
End ServiceExample.
