(* ===== verification/EndToEnd.v ===== *)
(** The proxy from its service to its server: the queues and the responder
    thread of Frontend with the consumer and clear threads of ProxySystem.  The
    promises are one table: the consumer thread takes operations with their
    promises from the queues, and what it sets is what the responder thread
    waits for.  Threads of the service that are in a batch call take its
    actions one by one, in any order among each other. *)
From S2P Require Import Prelude.
From S2P Require Import Queue.
From S2P Require Import Thrift.
From S2P Require Import FrequencySmoother.
From S2P Require Import RunningKeys.
From S2P Require Import Storage.
From S2P Require Import Encryption.
From S2P Require Import Proxy.
From S2P Require Import ProxyBatch.
From S2P Require Import BatchPhases.
From S2P Require Import BatchCorrect.
From S2P Require Import ProxyRegister.
From S2P Require Import Frontend.
From S2P Require Import ProxySystem.

Local Open Scope Z_scope.

Module EndToEnd.
Import Queue Proxy Batch Phases Correct Register System.

Section server.
Context {St W : Type} {sto : storage_interface St} {stoS : @StorageSpec St sto}
  {cry : crypter W} {cryS : @CrypterSpec W cry}.
Variable conf : config.
Context (key_ok : string → Prop).
Abbreviation proxy := (@waffle_proxy (St * list request) W).
Abbreviation system := (@system St W).

Record server := {
  (** [calls] are in the order of [respond_queue_] *)
  front : Frontend.sys;
  (** the sequence ids, in the order of [sequence_queue_] *)
  numbers : list Thrift.sequence_id;
  (** the threads of the service that are in a batch call *)
  workers : gmap nat Frontend.prog;
  back : system;
}.

(** The promises that the proxy has set are those that the futures see. *)
Definition shared (p : proxy) (fe : Frontend.frontend) : Frontend.frontend :=
  Frontend.set_promises (RunningKeys.promises (runningKeys p)) fe.
Definition with_front (fe : Frontend.frontend) (y : Frontend.sys) : Frontend.sys :=
  {| Frontend.fe := fe; Frontend.calls := Frontend.calls y; Frontend.responses := Frontend.responses y |}.

Abbreviation fe s := (Frontend.fe (front s)).

(** A thread has taken an action of its call, and returns after the last. *)
Definition moved (i : nat) (p : Frontend.prog) (ps : gmap nat Frontend.prog) : gmap nat Frontend.prog :=
  match p with Frontend.Ret => delete i ps | _ => <[i := p]> ps end.
Definition noted (e : Frontend.event) (fe' : Frontend.frontend) (y : Frontend.sys) : Frontend.sys :=
  {| Frontend.fe := fe'; Frontend.calls := Frontend.calls y ++ Frontend.lined e; Frontend.responses := Frontend.responses y |}.
(** A step of the proxy behind the queues *)
Definition with_back (fe' : Frontend.frontend) (b : system) (s : server) : server :=
  {| front := with_front fe' (front s); numbers := numbers s; workers := workers s; back := b |}.

Inductive server_step (s : server) : server → Prop :=
  (** a thread of the service starts a batch call; it and the others then take
      their actions in any order *)
  | server_get_batch i seq_id queue_id keys :
      workers s !! i = None →
      server_step s {| front := front s; numbers := numbers s; back := back s;
        workers := <[i := Frontend.async_get_batch_prog seq_id queue_id keys]> (workers s) |}
  | server_put_batch i seq_id queue_id keys values :
      workers s !! i = None →
      server_step s {| front := front s; numbers := numbers s; back := back s;
        workers := <[i := Frontend.async_put_batch_prog seq_id queue_id keys values]> (workers s) |}
  | server_action i p e p' fe' :
      workers s !! i = Some p → Frontend.advance p (fe s) = (Done (e, p'), fe') →
      server_step s {| front := noted e fe' (front s); numbers := numbers s ++ Frontend.numbered e;
        workers := moved i p' (workers s); back := back s |}
  (** the consumer thread serves the first operation of a queue *)
  | server_get n item start finish q fe' i g p :
      Frontend.on_operation_queue n pop (fe s)
      = (Done ({| op_key := range_key item start finish; op_value := "" |}, q), fe') →
      get_allowed item start finish q (back s) →
      serve {| op_key := range_key item start finish; op_value := "" |} (Some q) (sys_gathered (back s)) (sys_proxy (back s))
      = (Done (i, g), p) →
      server_step s (with_back (shared p fe') (after_get item start finish q g p (back s)) s)
  | server_put n item t v q fe' i g p :
      Frontend.on_operation_queue n pop (fe s)
      = (Done ({| op_key := Smoother.ts_key item t; op_value := v |}, q), fe') →
      put_allowed key_ok item t v q (back s) →
      serve {| op_key := Smoother.ts_key item t; op_value := v |} (Some q) (sys_gathered (back s)) (sys_proxy (back s))
      = (Done (i, g), p) →
      server_step s (with_back (shared p fe') (after_put item t v g p (back s)) s)
  (** the consumer thread executes a batch *)
  | server_batch fuel p :
      batch_allowed conf fuel (back s) →
      finish_round conf fuel (sys_gathered (back s)) (sys_proxy (back s)) = (Done (), p) →
      server_step s (with_back (shared p (fe s)) (after_batch p (back s)) s)
  | server_clear p :
      keysNotUsed (sys_proxy (back s)) ≠ [] →
      clearThread (sys_proxy (back s)) = (Done (), p) →
      server_step s (with_back (shared p (fe s)) (after_clear p (back s)) s)
  (** the responder thread *)
  | server_respond d r fe' :
      Frontend.responder_turn d (fe s) = (Done r, fe') →
      server_step s {| front := {| Frontend.fe := fe'; Frontend.calls := Frontend.calls (front s);
                                   Frontend.responses := Frontend.responses (front s) ++ [r] |};
                       numbers := numbers s; workers := workers s; back := back s |}.

(** The proxy after [init], with [cores] queues *)
Definition started_server (cores : nat) (kvs : list (string * string)) (p : proxy) : server :=
  {| front := with_front (shared p (Frontend.fe (Frontend.start cores))) (Frontend.start cores);
     numbers := []; workers := ∅; back := started_system kvs p |}.

(** What the system does is what ProxySystem describes. *)
Lemma back_reachable cores kvs p s :
  rtc server_step (started_server cores kvs p) s → reachable conf key_ok (started_system kvs p) (back s).
Proof.
  revert s. apply (rtc_ind_r (λ s, reachable conf key_ok (started_system kvs p) (back s))); [apply reach_start|].
  intros s s' _ Hstep IH. destruct Hstep; try exact IH; (eapply reach_step; [exact IH|]); simpl.
  - by eapply step_get.
  - by eapply step_put.
  - by eapply step_batch.
  - by apply step_clear.
Qed.

(** The two queues of the responder thread hold what was lined up in them and
    is not answered.  Their orders can differ. *)
Record lined_up (s : server) (pending : list Frontend.call) : Prop := {
  lined_calls : drop (length (Frontend.responses (front s))) (Frontend.calls (front s)) = pending;
  lined_responses : (length (Frontend.responses (front s)) ≤ length (Frontend.calls (front s)))%nat;
  lined_numbers : (length (Frontend.responses (front s)) ≤ length (numbers s))%nat;
  lined_respond : m_queue_ (Frontend.respond_queue_ (fe s)) = (λ c, (Frontend.c_op c, Frontend.c_waiters c)) <$> pending;
  lined_sequence : m_queue_ (Frontend.sequence_queue_ (fe s)) = drop (length (Frontend.responses (front s))) (numbers s);
  lined_workers : map_Forall (λ _, Frontend.labelled) (workers s);
}.

Lemma start_labelled (i : nat) p (ps : gmap nat Frontend.prog) :
  Frontend.labelled p → map_Forall (λ _, Frontend.labelled) ps → map_Forall (λ _, Frontend.labelled) (<[i := p]> ps).
Proof. intros Hp Hps. by apply (map_Forall_insert_2 (λ _, Frontend.labelled)). Qed.

Lemma moved_labelled (i : nat) p (ps : gmap nat Frontend.prog) :
  Frontend.labelled p → map_Forall (λ _, Frontend.labelled) ps → map_Forall (λ _, Frontend.labelled) (moved i p ps).
Proof. intros Hp Hps. destruct p; [by apply (map_Forall_delete (λ _, Frontend.labelled))|by apply start_labelled]. Qed.

Lemma action_lined_up s i p e p' fe' pending :
  lined_up s pending → workers s !! i = Some p → Frontend.advance p (fe s) = (Done (e, p'), fe') →
  lined_up {| front := noted e fe' (front s); numbers := numbers s ++ Frontend.numbered e;
    workers := moved i p' (workers s); back := back s |} (pending ++ Frontend.lined e).
Proof.
  intros [Hc Hlc Hln Hq Hs Hw] Hi Ha. pose proof (map_Forall_lookup_1 _ _ _ _ Hw Hi) as Hp.
  apply Frontend.advance_labelled in Ha as [(Hdq & Hds & _) Hp']; [|exact Hp]. split; cbn.
  - by rewrite drop_app_le, Hc.
  - rewrite length_app. lia.
  - rewrite length_app. lia.
  - by rewrite Hdq, Hq, fmap_app.
  - by rewrite Hds, Hs, drop_app_le.
  - by apply moved_labelled.
Qed.

(** Serving an operation, and what the proxy does by itself, leaves the calls alone. *)
Lemma back_lined_up fe' b s pending :
  m_queue_ (Frontend.respond_queue_ fe') = m_queue_ (Frontend.respond_queue_ (fe s)) →
  m_queue_ (Frontend.sequence_queue_ fe') = m_queue_ (Frontend.sequence_queue_ (fe s)) →
  lined_up s pending → lined_up (with_back fe' b s) pending.
Proof. intros H1 H2 []. split; cbn; by rewrite ?H1, ?H2. Qed.

Lemma take_lined_up n item p fe' b s pending :
  Frontend.on_operation_queue n pop (fe s) = (Done item, fe') → lined_up s pending →
  lined_up (with_back (shared p fe') b s) pending.
Proof.
  unfold Frontend.on_operation_queue. intros Hrun. destruct (Frontend.operation_queues_ (fe s) !! n) as [q|]; [|done].
  destruct (pop q) as [x q']. injection Hrun as _ <-. by apply back_lined_up.
Qed.

Lemma respond_lined_up d r fe' s pending :
  lined_up s pending → Frontend.responder_turn d (fe s) = (Done r, fe') →
  ∃ pending', lined_up {| front := {| Frontend.fe := fe'; Frontend.calls := Frontend.calls (front s);
                                      Frontend.responses := Frontend.responses (front s) ++ [r] |};
                          numbers := numbers s; workers := workers s; back := back s |} pending'.
Proof.
  intros [Hc Hlc Hln Hq Hs Hw] Hrun. destruct pending as [|c pending].
  { unfold Frontend.responder_turn in Hrun. by rewrite (mbind_stop _ _ _ _ _ (Frontend.on_respond_blocks (fe s) Hq)) in Hrun. }
  destruct (drop (length (Frontend.responses (front s))) (numbers s)) as [|id ids] eqn:Hids.
  { unfold Frontend.responder_turn, Frontend.on_respond_queue, zoom in Hrun. unfold mbind at 1, M_bind at 1 in Hrun.
    rewrite (pop_run _ _ _ Hq) in Hrun. cbv zeta in Hrun.
    erewrite mbind_stop in Hrun; [done|]. apply Frontend.on_sequence_blocks, Hs. }
  destruct (Frontend.responder_turn_run d (fe s) _ _ _ _ _ Hq Hs) as (fe1 & Hrun1 & H1 & H2 & _).
  rewrite Hrun1 in Hrun. destruct (Frontend.results_of _ _ _); [|done]. injection Hrun as <- <-.
  apply (f_equal length) in Hc as Hlen; rewrite length_drop in Hlen; cbn in Hlen.
  apply (f_equal length) in Hids as Hlids; rewrite length_drop in Hlids; cbn in Hlids.
  exists pending. split; cbn; rewrite ?length_app; cbn; try lia; try done.
  - by rewrite <- drop_drop, Hc.
  - by rewrite H2, <- drop_drop, Hids.
Qed.

Lemma step_lined_up s s' pending : lined_up s pending → server_step s s' → ∃ pending', lined_up s' pending'.
Proof.
  intros Hl Hstep. destruct Hstep as [i seq_id qid keys|i seq_id qid keys values|i p e p' fe' Hi Ha|
    n item start finish q fe' i g p Hrun|n item t v q fe' i g p Hrun|fuel p|p|d r fe' Hrun].
  - exists pending. destruct Hl. split; try done. by apply start_labelled; [apply Frontend.async_get_batch_labelled|].
  - exists pending. destruct Hl. split; try done. by apply start_labelled; [apply Frontend.async_put_batch_labelled|].
  - eexists. by eapply action_lined_up.
  - exists pending. by eapply take_lined_up.
  - exists pending. by eapply take_lined_up.
  - exists pending. by apply back_lined_up.
  - exists pending. by apply back_lined_up.
  - by eapply respond_lined_up.
Qed.

Lemma server_lined_up cores kvs p s :
  rtc server_step (started_server cores kvs p) s → ∃ pending, lined_up s pending.
Proof.
  revert s. apply (rtc_ind_r (λ s, ∃ pending, lined_up s pending)); [by exists []|].
  intros s s' _ Hstep (pending & IH). by eapply step_lined_up.
Qed.

(** What is in the two queues, from the calls and ids that were not answered *)
Lemma waiting_calls cores kvs p s answered pending given ids :
  rtc server_step (started_server cores kvs p) s →
  Frontend.calls (front s) = answered ++ pending → length answered = length (Frontend.responses (front s)) →
  numbers s = given ++ ids → length given = length answered →
  m_queue_ (Frontend.respond_queue_ (fe s)) = (λ c, (Frontend.c_op c, Frontend.c_waiters c)) <$> pending
  ∧ m_queue_ (Frontend.sequence_queue_ (fe s)) = ids.
Proof.
  intros (pending' & [Hc _ _ Hq Hs _])%server_lined_up Hcalls Hlen Hn Hg.
  rewrite Hcalls, <- Hlen, drop_app_length in Hc. subst pending'. split; [done|].
  by rewrite Hs, Hn, <- Hlen, <- Hg, drop_app_length.
Qed.

(** * Calls that do not overlap *)

(** What is owed by the thread that is in a call, when there is one *)
Definition in_order (s : server) : Prop :=
  ∃ debt, Frontend.c_seq <$> Frontend.calls (front s) = numbers s ++ debt
  ∧ (workers s = ∅ ∧ debt = [] ∨ ∃ i p, workers s = {[i := p]} ∧ Frontend.owes debt p).

Lemma start_in_order i p s :
  in_order s → Frontend.owes [] p → (base.size (<[i := p]> (workers s)) ≤ 1)%nat → workers s !! i = None →
  in_order {| front := front s; numbers := numbers s; workers := <[i := p]> (workers s); back := back s |}.
Proof.
  intros (debt & Hc & Hw) Hp Hsize Hi. rewrite map_size_insert_None in Hsize by done.
  assert (workers s = ∅) as H0 by (apply map_size_empty_iff; lia). exists []. destruct Hw as [[_ ->]|(j & q & Hj & _)].
  - split; [done|]. right. exists i, p. cbn. by rewrite H0.
  - rewrite H0 in Hj. by apply symmetry, map_non_empty_singleton in Hj.
Qed.

Lemma action_in_order i p e p' fe' s :
  in_order s → workers s !! i = Some p → Frontend.advance p (fe s) = (Done (e, p'), fe') →
  in_order {| front := noted e fe' (front s); numbers := numbers s ++ Frontend.numbered e;
    workers := moved i p' (workers s); back := back s |}.
Proof.
  intros (debt & Hc & [[H0 _]|(j & q & Hj & Hq)]) Hi (m & -> & Hm)%Frontend.advance_inv; [by rewrite H0 in Hi|].
  rewrite Hj in Hi. apply lookup_singleton_Some in Hi as [-> ->]. inversion Hq as [|? ? ? debt' Hsettle Hnext]; subst.
  exists debt'. split; cbn.
  - by rewrite fmap_app, Hc, <- !app_assoc, (Frontend.settle_app _ _ _ Hsettle).
  - apply Hnext in Hm. rewrite Hj. destruct p' as [|e' m']; cbn.
    + inversion Hm; subst. left. by rewrite delete_singleton_eq.
    + right. exists i, (Frontend.Atomic e' m'). by rewrite insert_singleton_eq.
Qed.

Lemma step_in_order s s' : in_order s → server_step s s' → (base.size (workers s') ≤ 1)%nat → in_order s'.
Proof.
  intros Hs Hstep Hsize. destruct Hstep; try exact Hs.
  - apply start_in_order; [done| |done..]. apply Frontend.get_futures_owes. intros. apply Frontend.line_up_owes.
  - apply start_in_order; [done| |done..]. apply Frontend.put_futures_owes. intros. apply Frontend.line_up_owes.
  - by eapply action_in_order.
Qed.

(** In every run in which the batch calls do not overlap (at most one thread of the
    service is in one at any time), the sequence ids are pushed in the order of
    their calls: no call overtakes another, and when no thread is in a call, each
    call that was lined up has its id in its place. *)
Theorem calls_in_turn_keep_order cores kvs p s :
  rtc (λ s s', server_step s s' ∧ (base.size (workers s') ≤ 1)%nat) (started_server cores kvs p) s →
  numbers s `prefix_of` (Frontend.c_seq <$> Frontend.calls (front s))
  ∧ (workers s = ∅ → numbers s = Frontend.c_seq <$> Frontend.calls (front s)).
Proof.
  intros Hrtc. assert (in_order s) as (debt & Hc & Hw).
  { revert s Hrtc. apply (rtc_ind_r (λ s, in_order s)); [exists []; by repeat (split || left)|].
    intros s s' _ [Hstep Hsize] IH. by eapply step_in_order. }
  rewrite Hc. split; [by apply prefix_app_r|]. intros H0. destruct Hw as [[_ ->]|(i & q & Hi & _)]; [by rewrite app_nil_r|].
  rewrite H0 in Hi. by apply symmetry, map_non_empty_singleton in Hi.
Qed.

(** A call whose answer is due: a batch of PUTs, or a batch of GETs that the
    consumer thread has all registered; and the answer, which is a message for
    each PUT, and the sum of the buckets that each GET has selected *)
Definition due (asked : gmap nat (list string)) (c : Frontend.call) : Prop :=
  Frontend.c_op c = Frontend.PUT_BATCH
  ∨ Frontend.c_op c = Frontend.GET_BATCH ∧ Forall (λ q, is_Some (asked !! q)) (Frontend.c_waiters c).
Definition right_answer (asked : gmap nat (list string)) (truth : gmap string string) (c : Frontend.call)
    (results : list string) : Prop :=
  Frontend.c_op c = Frontend.PUT_BATCH ∧ results = replicate (length (Frontend.c_waiters c)) "PUT SUCCESSFUL"
  ∨ Frontend.c_op c = Frontend.GET_BATCH
    ∧ Forall2 (λ q a, ∃ keys, asked !! q = Some keys ∧ RunningKeys.answer_of keys truth = Done a) (Frontend.c_waiters c) results.
Abbreviation collected m := (λ c results, Frontend.results_of (Frontend.c_op c) (Frontend.c_waiters c) m = Some results).

Lemma due_answer (m : gmap nat string) asked truth c :
  (∀ q keys, asked !! q = Some keys → ∃ a, RunningKeys.answer_of keys truth = Done a ∧ m !! q = Some a) →
  due asked c → ∃ results, right_answer asked truth c results ∧ collected m c results.
Proof.
  intros Hm [Hop|[Hop Hw]]; unfold right_answer, Frontend.results_of; rewrite Hop.
  - eexists. split; [by left|done].
  - rewrite decide_False by done. enough (∃ results, mapM (m !!.) (Frontend.c_waiters c) = Some results ∧
      Forall2 (λ q a, ∃ keys, asked !! q = Some keys ∧ RunningKeys.answer_of keys truth = Done a) (Frontend.c_waiters c) results)
      as (results & Hr & Ha) by (exists results; split; [by right|done]).
    induction Hw as [|q waiters [keys Hq] _ (results & Hr & Ha)]; [by exists []|].
    destruct (Hm q keys Hq) as (a & Hans & Hmq). exists (a :: results). simpl. rewrite Hmq, Hr.
    split; [done|]. constructor; [by exists keys|done].
Qed.

Hypothesis prf_collision_free : collision_free key_ok.

(** After the next batch all the answers that were due can be collected. *)
Lemma due_are_answered cores kvs p0 p s fuel now :
  sys_start conf key_ok kvs p0 p → rtc server_step (started_server cores kvs p) s → batch_allowed conf fuel (back s) →
  Forall (due (sys_asked (back s))) now →
  ∃ p' results, finish_round conf fuel (sys_gathered (back s)) (sys_proxy (back s)) = (Done (), p') ∧
    Forall2 (right_answer (sys_asked (back s)) (sys_truth (back s))) now results ∧
    Forall2 (collected (RunningKeys.promises (runningKeys p'))) now results.
Proof.
  intros Hst Hrtc Ha Hdue.
  destruct (asked_are_answered conf key_ok prf_collision_free kvs p0 p (back s) fuel Hst (back_reachable _ _ _ _ Hrtc) Ha)
    as (p' & Hrun & Hans).
  enough (∃ results, Forall2 (right_answer (sys_asked (back s)) (sys_truth (back s))) now results ∧
    Forall2 (collected (RunningKeys.promises (runningKeys p'))) now results) as (results & H1 & H2) by eauto.
  induction Hdue as [|c now (r & H1 & H2)%(due_answer _ _ _ _ Hans) _ (results & Hs1 & Hs2)]; [by exists []|].
  exists (r :: results). split; by constructor.
Qed.

(** * A GET that selects nothing *)

(** The promise of an operation that was taken from its queue and is not
    registered for an answer *)
Record forgotten (x : nat) (s : server) : Prop := {
  forgotten_made : (x < Frontend.next_promise (fe s))%nat ∧ x ∉ Frontend.queued (fe s);
  forgotten_asked : sys_asked (back s) !! x = None;
  forgotten_unset : RunningKeys.promises (runningKeys (sys_proxy (back s))) !! x = None;
}.

(** Each operation has its own promise; the futures see the promises of the
    proxy; the calls in progress are batch calls. *)
Record sound (s : server) : Prop := {
  sound_tidy : Frontend.tidy (fe s);
  sound_seen : Frontend.promises (fe s) = RunningKeys.promises (runningKeys (sys_proxy (back s)));
  sound_workers : map_Forall (λ _, Frontend.labelled) (workers s);
}.

Lemma taken_tidy n op x fe0 fe' :
  Frontend.on_operation_queue n pop fe0 = (Done (op, x), fe') → Frontend.tidy fe0 →
  Frontend.tidy fe' ∧ ∀ y, (y < Frontend.next_promise fe0)%nat ∧ y ∉ Frontend.queued fe0 →
    y ≠ x ∧ (y < Frontend.next_promise fe')%nat ∧ y ∉ Frontend.queued fe'.
Proof.
  intros (Hq & Hn & _)%Frontend.taken_queued [Hnd Hb]. rewrite Hq in Hnd. apply NoDup_cons in Hnd as [_ Hnd].
  unfold Frontend.tidy. rewrite Hn. split.
  - split; [done|]. intros y Hy. apply Hb. rewrite Hq. by right.
  - intros y [Hlt Hy]. rewrite Hq in Hy. apply not_elem_of_cons in Hy as [? ?]. done.
Qed.

Lemma step_sound s s' : sound s → server_step s s' → sound s'.
Proof.
  intros [Ht Hp Hw] [i seq_id qid keys|i seq_id qid keys values|i p e p' fe' Hi Ha|n item start finish q fe' i g p Hrun|
    n item t v q fe' i g p Hrun|fuel p|p _ Hrun|d r fe' Hrun].
  - split; [done..|]. by apply start_labelled; [apply Frontend.async_get_batch_labelled|].
  - split; [done..|]. by apply start_labelled; [apply Frontend.async_put_batch_labelled|].
  - pose proof (map_Forall_lookup_1 _ _ _ _ Hw Hi) as Hl.
    apply Frontend.advance_labelled in Ha as [(_ & _ & Hfed) Hl']; [|exact Hl]. split; cbn.
    + by eapply Frontend.fed_tidy.
    + by rewrite (proj1 Hfed).
    + by apply moved_labelled.
  - by split; [apply (taken_tidy _ _ _ _ _ Hrun Ht)| |].
  - by split; [apply (taken_tidy _ _ _ _ _ Hrun Ht)| |].
  - by split.
  - by split.
  - apply Frontend.responder_turn_frame in Hrun as Hfed. split; cbn; [by eapply Frontend.fed_tidy| |done].
    by rewrite (proj1 Hfed).
Qed.

Lemma reachable_sound cores kvs p s : rtc server_step (started_server cores kvs p) s → sound s.
Proof.
  revert s. apply (rtc_ind_r sound); [|by intros s s' _ Hstep IH; eapply step_sound].
  split; [|done|by intros i q Hi]. cbn. assert (Frontend.queued (Frontend.fe (Frontend.start cores)) = []) as H0.
  { unfold Frontend.queued. cbn. by induction cores. }
  split; [change (NoDup (Frontend.queued (Frontend.fe (Frontend.start cores)))); rewrite H0; constructor|].
  intros x Hx. change (x ∈ Frontend.queued (Frontend.fe (Frontend.start cores))) in Hx. rewrite H0 in Hx. by apply not_elem_of_nil in Hx.
Qed.

Lemma clearThread_running (p p' : proxy) r : clearThread p = (r, p') → runningKeys p' = runningKeys p.
Proof.
  unfold clearThread, Prelude.get, modify, mbind, M_bind. destruct (keysNotUsed p) as [|ks rest]; [by intros [= _ <-]|].
  destruct (_ <? _)%nat; [|by intros [= _ <-]]. unfold on_storage, zoom. destruct (storage_delete_batch _ _) as [r' st].
  by intros [= _ <-].
Qed.

(** A promise that was taken and is not registered stays so: every other
    operation has another promise. *)
Lemma step_forgotten n0 l x s s' :
  sound s → sys_inv conf key_ok n0 l (back s) → forgotten x s → server_step s s' → forgotten x s'.
Proof.
  intros [Ht Hp Hw] Hs [[Hlt Hni] Has Hun] [i seq_id qid keys|i seq_id qid keys values|i p e p' fe' Hi Ha|
    n item start finish q fe' i g p Hrun Ha Hserve|n item t v q fe' i g p Hrun Ha Hserve|fuel p Ha Hrun|p _ Hrun|d r fe' Hrun].
  - by split.
  - by split.
  - pose proof (map_Forall_lookup_1 _ _ _ _ Hw Hi) as Hl.
    apply Frontend.advance_labelled in Ha as [(_ & _ & Hfed) _]; [|exact Hl]. split; cbn; [|done..].
    by eapply Frontend.fed_not_queued.
  - destruct (taken_tidy _ _ _ _ _ Hrun Ht) as [_ Hx]. destruct (Hx x (conj Hlt Hni)) as (Hne & Hlt' & Hni').
    destruct (get_keeps conf key_ok n0 l _ _ _ _ _ Hs Ha) as (i' & g' & p' & Hserve' & _ & _ & _ & Hpr).
    rewrite Hserve in Hserve'. destruct (counters_fit g'); [|done]. injection Hserve' as <- <- <-. split; cbn; [done| |by rewrite Hpr].
    case_decide; [done|]. by rewrite lookup_insert_ne.
  - destruct (taken_tidy _ _ _ _ _ Hrun Ht) as [_ Hx]. destruct (Hx x (conj Hlt Hni)) as (Hne & Hlt' & Hni').
    destruct (put_keeps conf key_ok prf_collision_free n0 l _ _ _ _ _ Hs Ha) as (i' & g' & p' & Hserve' & _ & _ & Hpr).
    rewrite Hserve in Hserve'. injection Hserve' as <- <- <-. split; cbn; [done|done|]. by rewrite Hpr, lookup_insert_ne.
  - destruct (batch_keeps conf key_ok prf_collision_free n0 l _ fuel Hs Ha) as (p' & ? & ? & ? & Hrun' & _ & _ & _ & Hpr).
    rewrite Hrun in Hrun'. injection Hrun' as <-. split; cbn; [done|done|]. by rewrite Hpr.
  - split; cbn; [done|done|]. by rewrite (clearThread_running _ _ _ Hrun).
  - apply Frontend.responder_turn_frame in Hrun. split; cbn; [|done..]. by eapply Frontend.fed_not_queued.
Qed.

(** The first call keeps its place until it is answered. *)
Lemma step_first s s' c rest :
  sound s → m_queue_ (Frontend.respond_queue_ (fe s)) = c :: rest → server_step s s' →
  (∃ rest', m_queue_ (Frontend.respond_queue_ (fe s')) = c :: rest') ∧ Frontend.responses (front s') = Frontend.responses (front s)
  ∨ ∃ d r fe', Frontend.responder_turn d (fe s) = (Done r, fe').
Proof.
  intros [_ _ Hw] Hc [i seq_id qid keys|i seq_id qid keys values|i p e p' fe' Hi Ha|n item start finish q fe' i g p Hrun|
    n item t v q fe' i g p Hrun|fuel p|p _ Hrun|d r fe' Hrun]; [left; split; [cbn; eauto|done]..| | | | | |by right; eauto].
  - pose proof (map_Forall_lookup_1 _ _ _ _ Hw Hi) as Hl.
    apply Frontend.advance_labelled in Ha as [(Hq & _) _]; [|exact Hl]. left. split; [|done]. cbn. rewrite Hq, Hc. by eexists.
  - left. split; [|done]. unfold Frontend.on_operation_queue in Hrun.
    destruct (Frontend.operation_queues_ (fe s) !! n) as [qu|]; [|done]. destruct (pop qu). injection Hrun as _ <-. by eexists.
  - left. split; [|done]. unfold Frontend.on_operation_queue in Hrun.
    destruct (Frontend.operation_queues_ (fe s) !! n) as [qu|]; [|done]. destruct (pop qu). injection Hrun as _ <-. by eexists.
  - left. split; [by eexists|done].
  - left. split; [by eexists|done].
Qed.

(** The responder thread waits for a promise that is not set. *)
Lemma unset_blocks d fe0 op waiters rest x :
  m_queue_ (Frontend.respond_queue_ fe0) = (op, waiters) :: rest → op ≠ Frontend.PUT_BATCH → x ∈ waiters →
  Frontend.promises fe0 !! x = None → (Frontend.responder_turn d fe0).1 = Stop Blocked.
Proof.
  intros Hr Hop Hx Hun. destruct (m_queue_ (Frontend.sequence_queue_ fe0)) as [|id ids] eqn:Hs.
  - unfold Frontend.responder_turn, Frontend.on_respond_queue, zoom. unfold mbind at 1, M_bind at 1.
    rewrite (pop_run _ _ _ Hr). cbv zeta. erewrite mbind_stop; [done|]. apply Frontend.on_sequence_blocks, Hs.
  - destruct (Frontend.responder_turn_run d fe0 _ _ _ _ _ Hr Hs) as (fe1 & -> & _). cbn.
    unfold Frontend.results_of. rewrite decide_False by done.
    destruct (mapM (Frontend.promises fe0 !!.) waiters) as [results|] eqn:Hm; [|done]. exfalso.
    apply mapM_Some in Hm. apply list_elem_of_lookup in Hx as [k Hk].
    destruct (Forall2_lookup_l _ _ _ _ _ Hm Hk) as (v & _ & Hv). cbn in Hv. congruence.
Qed.

(** Serving a GET of nothing forgets its promise. *)
Lemma served_nothing_forgotten n0 l n item start finish q fe' i g p' s :
  sound s → sys_inv conf key_ok n0 l (back s) →
  Frontend.on_operation_queue n pop (fe s) = (Done ({| op_key := range_key item start finish; op_value := "" |}, q), fe') →
  get_allowed item start finish q (back s) →
  serve {| op_key := range_key item start finish; op_value := "" |} (Some q) (sys_gathered (back s)) (sys_proxy (back s))
  = (Done (i, g), p') →
  get_keys item start finish (sys_proxy (back s)) = [] →
  forgotten q (with_back (shared p' fe') (after_get item start finish q g p' (back s)) s).
Proof.
  intros [[Hnd Hb] _ _] Hs Hpop Ha Hserve Hnil. apply Frontend.taken_queued in Hpop as (Hq & Hn & _).
  specialize (Hb q ltac:(rewrite Hq; by left)). rewrite Hq in Hnd. apply NoDup_cons in Hnd as [Hni _].
  destruct (get_keeps conf key_ok n0 l _ _ _ _ _ Hs Ha) as (i' & g' & p2 & Hserve' & _ & _ & _ & Hpr).
  rewrite Hserve in Hserve'. destruct (counters_fit g'); [|done]. injection Hserve' as <- <- <-.
  destruct (get_new _ _ _ _ _ Ha) as [H1 H2]. split; cbn; [split; [|exact Hni]| |by rewrite Hpr].
  - change (q < Frontend.next_promise fe')%nat. by rewrite Hn.
  - by rewrite decide_True.
Qed.

(** Once the first call waits for a promise that is never set, nothing is
    answered. *)
Lemma blocked_for_ever s op waiters rest x :
  (∀ s', rtc server_step s s' → sound s' ∧ Frontend.promises (fe s') !! x = None) →
  m_queue_ (Frontend.respond_queue_ (fe s)) = (op, waiters) :: rest → op ≠ Frontend.PUT_BATCH → x ∈ waiters →
  ∀ s', rtc server_step s s' → Frontend.responses (front s') = Frontend.responses (front s).
Proof.
  intros Hinv Hfirst Hop Hx s' Hr.
  enough ((∃ rest', m_queue_ (Frontend.respond_queue_ (fe s')) = (op, waiters) :: rest')
    ∧ Frontend.responses (front s') = Frontend.responses (front s)) as [_ ?] by done.
  revert s' Hr. apply rtc_ind_r; [split; [by exists rest|done]|].
  intros s1 s2 Hr Hstep [[rest' Hf] Hres]. destruct (Hinv s1 Hr) as [Hso Hun].
  destruct (step_first s1 s2 _ _ Hso Hf Hstep) as [[Hf' Hres']|(d & r & fe' & Hrun)]; [split; [done|congruence]|].
  pose proof (unset_blocks d _ _ _ _ x Hf Hop Hx Hun) as Hb. rewrite Hrun in Hb. discriminate Hb.
Qed.

(** C36: a GET that selects no bucket (its range ends before every bucket of its
    item, or is inverted and lies between two of them, or the item has none) is
    forgotten when the consumer thread serves it: in every later state of the
    service its promise is not set, so it is never answered.  And when it is the
    turn of its call in the queue of the responder thread, this thread waits for
    ever: no call of any client is answered from then on. *)
Theorem get_of_nothing_is_forgotten cores kvs p0 p s n item start finish q fe' i g p' :
  sys_start conf key_ok kvs p0 p → rtc server_step (started_server cores kvs p) s →
  Frontend.on_operation_queue n pop (fe s) = (Done ({| op_key := range_key item start finish; op_value := "" |}, q), fe') →
  get_allowed item start finish q (back s) →
  serve {| op_key := range_key item start finish; op_value := "" |} (Some q) (sys_gathered (back s)) (sys_proxy (back s))
  = (Done (i, g), p') →
  (let times := Smoother.times item (realBst (sys_proxy (back s))) in
   ∀ t, t ∈ times → finish < t ∨ ∃ u, u ∈ times ∧ u < start ∧ t < u) →
  let s1 := with_back (shared p' fe') (after_get item start finish q g p' (back s)) s in
  server_step s s1 ∧
  ∀ s2, rtc server_step s1 s2 →
    Frontend.promises (fe s2) !! q = None
    ∧ ∀ op waiters rest, m_queue_ (Frontend.respond_queue_ (fe s2)) = (op, waiters) :: rest → op ≠ Frontend.PUT_BATCH → q ∈ waiters →
      ∀ s3, rtc server_step s2 s3 → Frontend.responses (front s3) = Frontend.responses (front s2).
Proof.
  intros Hst Hrtc Hpop Ha Hserve Hnone s1.
  assert (server_step s s1) as Hstep by by apply (server_get s n item start finish q fe' i g p'). split; [done|].
  assert (∀ s2, rtc server_step s1 s2 → sound s2 ∧ ∃ l, sys_inv conf key_ok (dom (Correct.server p)) l (back s2)) as Hinv.
  { intros s2 Hr2. assert (rtc server_step (started_server cores kvs p) s2) as Hr by (etrans; [exact Hrtc|by eapply rtc_l]).
    split; [by eapply reachable_sound|].
    destruct (reachable_inv conf key_ok prf_collision_free kvs p0 p _ Hst (back_reachable _ _ _ _ Hr)) as (l & Hl & _). by exists l. }
  assert (forgotten q s1) as Hfor.
  { destruct (reachable_inv conf key_ok prf_collision_free kvs p0 p _ Hst (back_reachable _ _ _ _ Hrtc)) as (l & Hl & _).
    eapply served_nothing_forgotten; [by eapply reachable_sound|exact Hl|done..|].
    apply get_keys_nil; [apply (pi_real _ _ _ _ (g_inv _ _ _ _ _ _ _ (si_gathering _ _ _ _ _ Hl)))|exact Hnone]. }
  assert (∀ s2, rtc server_step s1 s2 → Frontend.promises (fe s2) !! q = None) as Hunset.
  { intros s2 Hr. rewrite (sound_seen _ (proj1 (Hinv s2 Hr))). apply forgotten_unset. revert s2 Hr.
    apply (rtc_ind_r (forgotten q)); [done|]. intros s2 s3 Hr Hstep' IH. destruct (Hinv s2 Hr) as [Hso [l Hl]]. by eapply step_forgotten. }
  intros s2 Hr2. split; [by apply Hunset|]. intros op waiters rest Hfirst Hop Hq.
  apply (blocked_for_ever s2 op waiters rest q); [|done..]. intros s3 Hr3.
  assert (rtc server_step s1 s3) as Hr by (by etrans). split; [apply (Hinv s3 Hr)|by apply Hunset].
Qed.
End server.
End EndToEnd.
