(* ===== verification/Deployment.v ===== *)
(** The service as its clients see it: the connections of HandlerFactory, whose
    handlers call the proxy of EndToEnd, and the responder thread, which writes
    on the connections.  A call comes in as a message of AsyncClient and its
    answer goes out as a message that AsyncClient reads.  Each connection has a
    thread; the threads that are in batch calls of the proxy take their actions
    in any order.

    The clients here make batch calls, as [async_proxy_client] does in the
    benchmark; the other calls are modelled in Handler and Frontend. *)
From S2P Require Import Prelude.
From S2P Require Import Queue.
From S2P Require Import Thrift.
From S2P Require Import WaffleThrift.
From S2P Require Import ThriftRpc.
From S2P Require Import WaffleThriftResponse.
From S2P Require Import RunningKeys.
From S2P Require Import Storage.
From S2P Require Import Encryption.
From S2P Require Import Proxy.
From S2P Require Import ProxyBatch.
From S2P Require Import BatchPhases.
From S2P Require Import BatchCorrect.
From S2P Require Import ProxyRegister.
From S2P Require Import Frontend.
From S2P Require Import ProxySystem.
From S2P Require Import EndToEnd.
From S2P Require Import Handler.
From S2P Require Import HandlerFactory.
From S2P Require Import AsyncClient.

Local Open Scope Z_scope.

Module Deployment.
Import Queue Thrift Proxy Batch Phases Correct Register System EndToEnd.

Section deployment.
Context {P Mp St W : Type} {prot : TProtocol P} {protS : @TProtocolSpec P prot}
  {cuckoo : cuckoohash_map nat Mp} {cuckooS : @CuckooSpec nat Mp cuckoo}
  {sto : storage_interface St} {stoS : @StorageSpec St sto} {cry : crypter W} {cryS : @CrypterSpec W cry}.
Variable conf : config.
Context (key_ok : string → Prop).
(** what other threads do while a call waits, and the search of the index *)
Variable others : M Frontend.frontend ().
Variable bst_search : string → list string → M Frontend.frontend (list string).
#[local] Instance waffle_proxy_iface : Handler.proxy Frontend.frontend := Handler.frontend_proxy others bst_search.

Abbreviation hub_run := (Factory.run P Mp Frontend.frontend).
Abbreviation hub_server := (Factory.server P Mp Frontend.frontend).

Record deployment := {
  (** the connections, and the ids of their clients *)
  hub : hub_run;
  calls : list Frontend.call;
  (** the sequence ids, in the order of [sequence_queue_] *)
  numbers : list sequence_id;
  responses : list Frontend.response;
  (** the connections whose thread is in a batch call *)
  workers : gmap nat Frontend.prog;
  behind : @system St W;
}.

(** The proxy, without the connections *)
Definition view (s : deployment) : @server St W :=
  {| front := {| Frontend.fe := Factory.shared_proxy_ (Factory.srv (hub s)); Frontend.calls := calls s;
                 Frontend.responses := responses s |};
     EndToEnd.numbers := numbers s; EndToEnd.workers := workers s; back := behind s |}.

Definition with_hub (h : hub_run) (s : deployment) : deployment :=
  {| hub := h; calls := calls s; numbers := numbers s; responses := responses s; workers := workers s; behind := behind s |}.
Definition with_srv (srv : hub_server) (h : hub_run) : hub_run :=
  {| Factory.srv := srv; Factory.got := Factory.got h; Factory.registered := Factory.registered h |}.
Definition with_proxy (fe : Frontend.frontend) (srv : hub_server) : hub_server :=
  {| Factory.handlers_ := Factory.handlers_ srv; Factory.gen_ := Factory.gen_ srv; Factory.clients := Factory.clients srv;
     Factory.shared_proxy_ := fe |}.
Definition with_clients (m : Handler.client_map P Mp) (srv : hub_server) : hub_server :=
  {| Factory.handlers_ := Factory.handlers_ srv; Factory.gen_ := Factory.gen_ srv; Factory.clients := m;
     Factory.shared_proxy_ := Factory.shared_proxy_ srv |}.

(** The thread of connection [i] has counted the operation and calls the proxy. *)
Definition in_call (i : nat) (p : Frontend.prog) (srv : hub_server) (s : deployment) : deployment :=
  {| hub := with_srv srv (hub s); calls := calls s; numbers := numbers s; responses := responses s;
     workers := <[i := p]> (workers s); behind := behind s |}.
(** It has taken an action of the call. *)
Definition after_action (i : nat) (e : Frontend.event) (p : Frontend.prog) (fe' : Frontend.frontend) (s : deployment) : deployment :=
  {| hub := with_srv (with_proxy fe' (Factory.srv (hub s))) (hub s);
     calls := calls s ++ Frontend.lined e; numbers := numbers s ++ Frontend.numbered e; responses := responses s;
     workers := moved i p (workers s); behind := behind s |}.
(** The proxy behind the connections has taken a step. *)
Definition after_proxy (y : @server St W) (s : deployment) : deployment :=
  {| hub := with_srv (with_proxy (Frontend.fe (front y)) (Factory.srv (hub s))) (hub s);
     calls := calls s; numbers := numbers s; responses := responses s; workers := workers s; behind := back y |}.

Inductive deploy_step (s : deployment) : deployment → Prop :=
  (** connections come and go; a client gets an id and registers it.  A
      connection has one thread, which serves a message to its end. *)
  | deploy_connect transport i srv' :
      Factory.getHandler transport (Factory.srv (hub s)) = (Done i, srv') →
      deploy_step s (with_hub (with_srv srv' (hub s)) s)
  | deploy_release i srv' :
      workers s !! i = None →
      Factory.releaseHandler i (Factory.srv (hub s)) = (Done (), srv') →
      deploy_step s (with_hub (with_srv srv' (hub s)) s)
  | deploy_get_id i id srv' :
      workers s !! i = None →
      waffle_thriftIf.get_client_id (Factory.handler_of i) (Factory.srv (hub s)) = (Done id, srv') →
      deploy_step s (with_hub {| Factory.srv := srv'; Factory.got := Factory.got (hub s) ++ [(i, id)];
                                 Factory.registered := Factory.registered (hub s) |} s)
  | deploy_register i block_id id srv' :
      workers s !! i = None →
      (i, id) ∈ Factory.got (hub s) →
      waffle_thriftIf.register_client_id (Factory.handler_of i) block_id id (Factory.srv (hub s)) = (Done (), srv') →
      deploy_step s (with_hub {| Factory.srv := srv'; Factory.got := Factory.got (hub s);
                                 Factory.registered := Factory.registered (hub s) ++ [(i, id)] |} s)
  (** batch calls: the handler counts the operation, then its call of the
      proxy takes its actions, and those of other connections come between *)
  | deploy_get_batch i seq_id keys n srv' :
      workers s !! i = None →
      Factory.on_handler i Handler.next_operation (Factory.srv (hub s)) = (Done n, srv') →
      deploy_step s (in_call i (Frontend.async_get_batch_prog seq_id n keys) srv' s)
  | deploy_put_batch i seq_id keys values n srv' :
      workers s !! i = None →
      Factory.on_handler i Handler.next_operation (Factory.srv (hub s)) = (Done n, srv') →
      deploy_step s (in_call i (Frontend.async_put_batch_prog seq_id n keys values) srv' s)
  | deploy_action i p e p' fe' :
      workers s !! i = Some p → Frontend.advance p (Factory.shared_proxy_ (Factory.srv (hub s))) = (Done (e, p'), fe') →
      deploy_step s (after_action i e p' fe' s)
  (** the consumer thread and the clear thread: steps of the proxy that
      neither make nor answer a call *)
  | deploy_proxy y :
      server_step conf key_ok (view s) y →
      Frontend.calls (front y) = calls s → EndToEnd.numbers y = numbers s → Frontend.responses (front y) = responses s →
      EndToEnd.workers y = workers s →
      deploy_step s (after_proxy y s)
  (** a turn of the responder thread *)
  | deploy_respond d r fe' m :
      Frontend.responder_turn d (Factory.shared_proxy_ (Factory.srv (hub s))) = (Done r, fe') →
      Handler.async_respond_client r.1.1 r.1.2 r.2 (Factory.clients (Factory.srv (hub s))) = (Done (), m) →
      deploy_step s {| hub := with_srv (with_proxy fe' (with_clients m (Factory.srv (hub s)))) (hub s);
                       calls := calls s; numbers := numbers s; responses := responses s ++ [r]; workers := workers s;
                       behind := behind s |}.

(** The service, before the first connection, over a proxy that was started *)
Definition deployed (cores : nat) (kvs : list (string * string)) (p : @waffle_proxy (St * list request) W)
    (s : deployment) : Prop :=
  Factory.started (hub s) ∧ view s = started_server cores kvs p.

(** * The proxy behind the connections *)

(** A handler that has run without touching the proxy *)
Lemma on_handler_proxy {A} i (m : M (Handler.state P Mp Frontend.frontend) A) (s s' : hub_server) r :
  (∀ st r st', m st = (r, st') → Handler.proxy_ st' = Handler.proxy_ st) →
  Factory.on_handler i m s = (r, s') → Factory.shared_proxy_ s' = Factory.shared_proxy_ s.
Proof.
  intros Hm. unfold Factory.on_handler. destruct (Factory.handlers_ s !! i) as [[h|]|]; [|by intros [= _ <-]..].
  destruct (m _) as [r' st] eqn:Hrun. intros [= _ <-]. by apply Hm in Hrun.
Qed.

Lemma get_client_id_proxy (st st' : Handler.state P Mp Frontend.frontend) r :
  Handler.get_client_id st = (r, st') → Handler.proxy_ st' = Handler.proxy_ st.
Proof. unfold Handler.get_client_id, gets, modify, mret, M_ret, mbind, M_bind. by intros [= _ <-]. Qed.
Lemma register_client_id_proxy block_id id (st st' : Handler.state P Mp Frontend.frontend) r :
  Handler.register_client_id block_id id st = (r, st') → Handler.proxy_ st' = Handler.proxy_ st.
Proof.
  unfold Handler.register_client_id, Handler.on_clients, Handler.add_client, zoom, gets, modify, mbind, M_bind.
  by intros [= _ <-].
Qed.

Lemma next_operation_proxy (st st' : Handler.state P Mp Frontend.frontend) r :
  Handler.next_operation st = (r, st') → Handler.proxy_ st' = Handler.proxy_ st.
Proof.
  unfold Handler.next_operation, gets, mbind, M_bind. cbv zeta. destruct (in_int _); [|by intros [= _ <-]].
  unfold modify, mret, M_ret. by intros [= _ <-].
Qed.

(** Each step is none or one of the proxy. *)
Lemma view_step s s' : deploy_step s s' → view s' = view s ∨ server_step conf key_ok (view s) (view s').
Proof.
  intros [transport i srv' Hrun|i srv' _ Hrun|i id srv' _ Hrun|i block_id id srv' _ _ Hrun|i seq_id keys n srv' Hi Hrun|
    i seq_id keys values n srv' Hi Hrun|i p e p' fe' Hi Hrun|y Hy Hc Hn Hr Hw|d r fe' m Hrun _].
  - injection Hrun as _ <-. by left.
  - injection Hrun as <-. by left.
  - left. unfold view. cbn. by rewrite (on_handler_proxy _ _ _ _ _ (λ st r st', get_client_id_proxy st st' r) Hrun).
  - left. unfold view. cbn. by rewrite (on_handler_proxy _ _ _ _ _ (λ st r st', register_client_id_proxy block_id id st st' r) Hrun).
  - right. unfold view at 2. cbn. rewrite (on_handler_proxy _ _ _ _ _ (λ st r st', next_operation_proxy st st' r) Hrun).
    by apply (server_get_batch conf key_ok (view s) i seq_id n keys).
  - right. unfold view at 2. cbn. rewrite (on_handler_proxy _ _ _ _ _ (λ st r st', next_operation_proxy st st' r) Hrun).
    by apply (server_put_batch conf key_ok (view s) i seq_id n keys values).
  - right. by apply (server_action conf key_ok (view s) i p e p' fe').
  - right. destruct y as [[fe' cs rs] ns ws b]. cbn in Hc, Hn, Hr, Hw. subst cs ns rs ws. exact Hy.
  - right. by apply (server_respond conf key_ok (view s) d r fe').
Qed.

Lemma view_reachable cores kvs p s0 s :
  deployed cores kvs p s0 → rtc deploy_step s0 s → rtc (server_step conf key_ok) (started_server cores kvs p) (view s).
Proof.
  intros [_ <-]. revert s. apply (rtc_ind_r (λ s, rtc (server_step conf key_ok) (view s0) (view s))); [apply rtc_refl|].
  intros s s' _ [->|Hstep]%view_step IH; [done|]. by eapply rtc_r.
Qed.

(** * The connections in front of the proxy *)

Lemma inv_with_proxy g h fe' :
  Factory.inv g h → Factory.inv g (with_srv (with_proxy fe' (Factory.srv h)) h).
Proof. intros Hi. apply Factory.inv_quiet; [done..|]. intros j x Hx. by exists x. Qed.

(** To count an operation changes nothing that the connections rely on. *)
Lemma next_operation_inv g i h n srv' :
  Factory.inv g h → Factory.on_handler i Handler.next_operation (Factory.srv h) = (Done n, srv') →
  Factory.inv g (with_srv srv' h).
Proof.
  intros Hi (? & ? & ? & ?)%Factory.on_handler_run; [by apply Factory.inv_quiet|]. apply Factory.quiet_next.
Qed.

Lemma hub_step_inv g s s' : Factory.inv g (hub s) → deploy_step s s' → Factory.inv g (hub s').
Proof.
  intros Hi [transport i srv' Hrun|i srv' _ Hrun|i id srv' _ Hrun|i block_id id srv' _ Hin Hrun|i seq_id keys n srv' _ Hrun|
    i seq_id keys values n srv' _ Hrun|i p e p' fe' _ Hrun|y Hy Hc Hn Hr Hw|d r fe' m Hrun Hsend];
    cbn [hub with_hub in_call after_action after_proxy].
  - by eapply Factory.connections_step_inv, Factory.step_connect.
  - by eapply Factory.connections_step_inv, Factory.step_release.
  - by eapply Factory.connections_step_inv, Factory.step_get_id.
  - by eapply Factory.connections_step_inv, Factory.step_register.
  - by eapply next_operation_inv.
  - by eapply next_operation_inv.
  - by apply inv_with_proxy.
  - by apply inv_with_proxy.
  - apply (inv_with_proxy g (with_srv (with_clients m (Factory.srv (hub s))) (hub s))).
    eapply Factory.connections_step_inv; [exact Hi|]. by eapply Factory.step_respond.
Qed.

Lemma hub_reachable cores kvs p s0 s :
  deployed cores kvs p s0 → rtc deploy_step s0 s → Factory.inv (Factory.gen_ (Factory.srv (hub s0))) (hub s).
Proof.
  intros [Hs _]. set (g := Factory.gen_ _). revert s. apply (rtc_ind_r (λ s, Factory.inv g (hub s))).
  - by apply Factory.connections_started_inv.
  - intros s s' _ Hstep IH. by eapply hub_step_inv.
Qed.

(** * A call comes in *)

(** A GET batch at the handler of connection [i]: the operation is counted, then
    the proxy is called. *)
Lemma handler_get_batch i h seq_id keys (srv : hub_server) :
  Factory.handlers_ srv !! i = Some (Some h) → in_int (Handler.operation_count_ h + 1) = true →
  ∃ srv1, Factory.on_handler i Handler.next_operation srv = (Done (Handler.operation_count_ h), srv1)
  ∧ Factory.shared_proxy_ srv1 = Factory.shared_proxy_ srv
  ∧ ∀ fe', Frontend.async_get_batch seq_id (Handler.operation_count_ h) keys (Factory.shared_proxy_ srv) = (Done (), fe') →
    waffle_thriftIf.async_get_batch (Factory.handler_of i) seq_id keys srv = (Done (), with_proxy fe' srv1).
Proof.
  intros Hh Hn. cbn. unfold Factory.on_handler. rewrite Hh.
  unfold Handler.async_get_batch, Handler.next_operation, Handler.on_proxy, gets, modify, mret, M_ret, zoom, mbind, M_bind.
  cbv zeta. cbn. rewrite Hn. cbn. eexists. split; [reflexivity|]. split; [reflexivity|]. intros fe' Hrun. by rewrite Hrun.
Qed.

Abbreviation proxy_of s := (Factory.shared_proxy_ (Factory.srv (hub s))).

Lemma enqueued_lined n : replicate n Frontend.Enqueued ≫= Frontend.lined = [].
Proof. by induction n. Qed.

(** The thread of a connection takes the actions that are left of its call. *)
Definition finished (i : nat) (es : list Frontend.event) (fe' : Frontend.frontend) (s : deployment) : deployment :=
  {| hub := with_srv (with_proxy fe' (Factory.srv (hub s))) (hub s);
     calls := calls s ++ (es ≫= Frontend.lined); numbers := numbers s ++ (es ≫= Frontend.numbered); responses := responses s;
     workers := delete i (workers s); behind := behind s |}.

Lemma call_finishes i p fe0 es fe' :
  Frontend.performs p fe0 es fe' → ∀ s, p ≠ Frontend.Ret → workers s !! i = Some p → proxy_of s = fe0 →
  rtc deploy_step s (finished i es fe' s).
Proof.
  induction 1 as [fe0|e m fe0 p fe1 es fe' Hm Hp IH]; intros s Hne Hi Hfe; [done|]. subst fe0.
  eapply rtc_l; [apply (deploy_action s i _ e p fe1 Hi); cbn; by rewrite (mbind_run _ _ _ _ _ Hm)|].
  assert (finished i (e :: es) fe' s = finished i es fe' (after_action i e p fe1 s)) as ->.
  { unfold finished, after_action. cbn. f_equal; [by rewrite <- app_assoc..|]. destruct p; cbn.
    - by rewrite delete_delete_eq.
    - by rewrite delete_insert_eq. }
  destruct (decide (es = [])) as [->|Hes].
  - inversion Hp; subst. unfold finished, after_action. cbn. rewrite !app_nil_r, delete_delete_eq. apply rtc_refl.
  - apply IH; [inversion Hp; by subst| |done]. cbn. destruct p; [by inversion Hp|]. apply lookup_insert_eq.
Qed.

(** C4: a GET batch that a client sends, as the [n]th of its calls, reaches
    the proxy: the processor of its connection reads exactly the message; the
    call is lined up for an answer under the client's id and the number [n], in
    the two queues of the responder thread; and its operations are put at the end of one of the queues, in order, with
    new promises.  This is how the call runs when the threads of other connections do not come between its actions. *)
Theorem client_batch_is_queued fuel what s i h (c : AsyncClient.async_proxy_client P) n keys :
  (3 < fuel)%nat → Factory.handlers_ (Factory.srv (hub s)) !! i = Some (Some h) → workers s !! i = None →
  in_int (Handler.operation_count_ h + 1) = true →
  let fe := proxy_of s in Frontend.operation_queues_ fe ≠ [] →
  AsyncClient.ready n c → in_long (n + 1) = true → in_long (AsyncClient.client_id_ c) = true → in_long n = true →
  Rpc.strings_ok keys →
  ∃ c' sent, AsyncClient.get_batch keys c = (Done [], c')
  ∧ outgoing (AsyncClient.protocol_ c') = outgoing (AsyncClient.protocol_ c) ++ sent
  ∧ ∀ ps rest, incoming ps = sent ++ rest →
  ∃ ps' s', Rpc.serve fuel what (Factory.handler_of i) (Factory.srv (hub s), ps) = (Done true, (Factory.srv (hub s'), ps'))
  ∧ incoming ps' = rest ∧ rtc deploy_step s s' ∧ workers s' = workers s
  ∧ let waiters := seq (Frontend.next_promise fe) (length keys) in
    calls s' = calls s ++ [{| Frontend.c_op := Frontend.GET_BATCH; Frontend.c_seq := AsyncClient.sequence_of n c;
                              Frontend.c_waiters := waiters |}]
  ∧ m_queue_ (Frontend.respond_queue_ (proxy_of s')) = m_queue_ (Frontend.respond_queue_ fe) ++ [(Frontend.GET_BATCH, waiters)]
  ∧ m_queue_ (Frontend.sequence_queue_ (proxy_of s')) = m_queue_ (Frontend.sequence_queue_ fe) ++ [AsyncClient.sequence_of n c]
  ∧ ∃ q, ∀ j, m_queue_ <$> Frontend.operation_queues_ (proxy_of s') !! j =
      (λ ops, m_queue_ ops ++ (if decide (q = j) then zip ((λ key, {| op_key := key; op_value := "" |}) <$> keys) waiters else []))
      <$> Frontend.operation_queues_ fe !! j.
Proof.
  intros Hfuel Hh Hi Hn fe Hqs Hready Hn1 Hid Hn2 Hkeys.
  destruct (AsyncClient.get_batch_sends keys n c Hready Hn1 Hid Hn2 Hkeys) as (c' & Hsend & Hout & _).
  set (id := AsyncClient.sequence_of n c) in *.
  exists c', (Rpc.request_tokens (Rpc.Async_get_batch id keys)). do 2 (split; [done|]). intros ps rest Hps.
  destruct (Frontend.async_get_batch_pushed id (Handler.operation_count_ h) keys fe Hqs)
    as (q & fe' & Hbatch & Hr' & Hs' & Hpushed).
  destruct (handler_get_batch i h id keys _ Hh Hn) as (srv1 & Hnext & Hsrv & Hcall). specialize (Hcall fe' Hbatch).
  destruct (Rpc.serve_runs fuel Hfuel what (Factory.handler_of i) (Rpc.Async_get_batch id keys)
    (Factory.srv (hub s)) (Done Rpc.Void) (with_proxy fe' srv1) ps rest) as (ps' & Hserve & Hin & _);
    [exact (Rpc.fmapM_of (λ _, Rpc.Void) _ _ _ _ Hcall)|done|done|].
  set (s1 := in_call i (Frontend.async_get_batch_prog id (Handler.operation_count_ h) keys) srv1 s).
  pose proof (Frontend.async_get_batch_performs _ _ _ _ _ Hbatch) as Hperf. eexists ps', (finished i _ fe' s1).
  do 2 (split; [done|]). split; [|split].
  - eapply rtc_l; [by apply (deploy_get_batch s i id keys (Handler.operation_count_ h) srv1)|].
    eapply call_finishes; [exact Hperf| |apply lookup_insert_eq|exact Hsrv]. by destruct keys.
  - cbn. by rewrite delete_insert_eq, delete_id.
  - cbv zeta. split; [|split; [exact Hr'|split; [exact Hs'|by exists q]]]. cbn [calls finished s1 in_call].
    by rewrite bind_app, enqueued_lined.
Qed.

(** * Its answer goes out *)
Abbreviation connections s := (Handler.connections_ (Factory.clients (Factory.srv (hub s)))).

(** A registered client has its connection. *)
Lemma registered_connection g (h : hub_run) i id :
  Factory.inv g h → (i, id) ∈ Factory.registered h → Z.of_nat (length (Factory.got h)) ≤ 2^64 →
  cuckoo_find id (Handler.clients_ (Factory.clients (Factory.srv h))) = Some i
  ∧ ∃ conn, Handler.connections_ (Factory.clients (Factory.srv h)) !! i = Some conn.
Proof.
  intros Hi [Hg Hc]%(Factory.inv_registered _ _ Hi) Hn. split; [by apply Hc|].
  by apply lookup_lt_is_Some_2, (Factory.inv_connected _ _ Hi i id).
Qed.

(** Answers, each with its call; those to the clients of connection [j], when
    [conn_of] has the connections of the client ids; and what they are on the
    wire *)
Abbreviation delivery := (Frontend.call * list string)%type.
Abbreviation seq_of d := (Frontend.c_seq d.1).
Definition to_connection (conn_of : Z → nat) (j : nat) (ds : list delivery) : list delivery :=
  filter (λ d, conn_of (client_id (seq_of d)) = j) ds.
Definition messages (ds : list delivery) : list token :=
  ds ≫= λ d, Response.response_tokens (seq_of d) (Frontend.c_op d.1) d.2.

Lemma messages_one conn_of j d :
  messages (to_connection conn_of j [d]) =
  if decide (conn_of (client_id (seq_of d)) = j) then Response.response_tokens (seq_of d) (Frontend.c_op d.1) d.2 else [].
Proof. unfold messages, to_connection. rewrite filter_cons. case_decide; [apply app_nil_r|done]. Qed.

(** The client of connection [j] reads its answers in order. *)
Fixpoint recv_responses (fuel n : nat) : M P (list (Z * list string)) :=
  match n with
  | O => mret []
  | S n => r ← Response.recv_response fuel; rs ← recv_responses fuel n; mret (r :: rs)
  end.

Lemma recv_responses_reads fuel ds :
  (3 < fuel)%nat → Thrift.reads (recv_responses fuel (length ds)) (messages ds) ((λ d, (client_seq_no (seq_of d), d.2)) <$> ds).
Proof using protS.
  intros Hfuel. induction ds as [|d ds IH]; [apply reads_ret|]. cbn [length recv_responses fmap list_fmap messages].
  unfold messages. rewrite bind_cons. eapply reads_bind; [by apply Response.recv_response_reads|].
  eapply reads_last; [exact IH|]. apply reads_ret.
Qed.

(** An answer that can be delivered *)
Record deliverable (conn_of : Z → nat) (s : deployment) (d : delivery) : Prop := {
  del_result : Frontend.results_of (Frontend.c_op d.1) (Frontend.c_waiters d.1) (Frontend.promises (proxy_of s)) = Some d.2;
  del_id : client_id (seq_of d) ≠ -1;
  del_client : cuckoo_find (client_id (seq_of d)) (Handler.clients_ (Factory.clients (Factory.srv (hub s))))
               = Some (conn_of (client_id (seq_of d)));
  del_connection : (conn_of (client_id (seq_of d)) < length (connections s))%nat;
  del_ok : Response.response_ok (seq_of d) (Frontend.c_op d.1) d.2;
}.

(** A turn of the responder thread *)
Lemma respond_one conn_of s d ops seqs :
  m_queue_ (Frontend.respond_queue_ (proxy_of s)) = (Frontend.c_op d.1, Frontend.c_waiters d.1) :: ops →
  m_queue_ (Frontend.sequence_queue_ (proxy_of s)) = seq_of d :: seqs → deliverable conn_of s d →
  ∃ s', deploy_step s s' ∧ calls s' = calls s ∧ responses s' = responses s ++ [(seq_of d, Frontend.c_op d.1, d.2)]
  ∧ m_queue_ (Frontend.respond_queue_ (proxy_of s')) = ops ∧ m_queue_ (Frontend.sequence_queue_ (proxy_of s')) = seqs
  ∧ (∀ d', deliverable conn_of s d' → deliverable conn_of s' d')
  ∧ ∀ j, outgoing <$> connections s' !! j = (λ out, out ++ messages (to_connection conn_of j [d])) <$> (outgoing <$> connections s !! j).
Proof using protS.
  intros Hops Hseqs [Hres Hid Hfind Hlt Hok].
  destruct (Frontend.responder_turn_run new_sequence_id _ _ _ _ _ _ Hops Hseqs) as (fe' & Hturn & Hops' & Hseqs' & Hprom).
  rewrite Hres in Hturn. destruct (lookup_lt_is_Some_2 _ _ Hlt) as [conn Hconn].
  destruct (Handler.async_respond_client_runs _ _ _ _ _ conn Hid Hfind Hconn Hok) as (conn' & Hsend & Hout & _).
  eexists. split; [by apply (deploy_respond s new_sequence_id _ fe' _ Hturn Hsend)|]. do 4 (split; [done|]). split.
  - intros d' [H1 H2 H3 H4 H5]. split; cbn; [by rewrite Hprom|done|done|by rewrite length_insert|done].
  - intros j. rewrite messages_one. case_decide as Hj; cbn.
    + subst j. rewrite list_lookup_insert_eq, Hconn by done. cbn. by rewrite Hout.
    + rewrite list_lookup_insert_ne by done. cbn. destruct (_ !! j); cbn; [by rewrite app_nil_r|done].
Qed.

(** Its turns deliver all the answers that can be delivered, in order. *)
Lemma respond_all conn_of ds : ∀ s ops seqs,
  m_queue_ (Frontend.respond_queue_ (proxy_of s)) = ((λ d, (Frontend.c_op d.1, Frontend.c_waiters d.1)) <$> ds) ++ ops →
  m_queue_ (Frontend.sequence_queue_ (proxy_of s)) = ((λ d : delivery, seq_of d) <$> ds) ++ seqs →
  Forall (deliverable conn_of s) ds →
  ∃ s', rtc deploy_step s s' ∧ responses s' = responses s ++ ((λ d, (seq_of d, Frontend.c_op d.1, d.2)) <$> ds)
  ∧ ∀ j, outgoing <$> connections s' !! j = (λ out, out ++ messages (to_connection conn_of j ds)) <$> (outgoing <$> connections s !! j).
Proof using protS.
  induction ds as [|d ds IH]; intros s ops seqs Hops Hseqs Hds.
  { exists s. split; [apply rtc_refl|]. split; [by rewrite app_nil_r|]. intros j. cbn.
    destruct (_ !! j); cbn; [by rewrite app_nil_r|done]. }
  apply Forall_cons in Hds as [Hd Hds]. destruct (respond_one conn_of s d _ _ Hops Hseqs Hd)
    as (s1 & Hstep & _ & Hr1 & Hops1 & Hseqs1 & Hkeep & Hout1).
  destruct (IH s1 ops seqs Hops1 Hseqs1) as (s2 & Hsteps & Hr2 & Hout2); [by eapply Forall_impl|].
  exists s2. split; [by eapply rtc_l|]. split; [by rewrite Hr2, Hr1, <- app_assoc|]. intros j. rewrite Hout2, Hout1.
  rewrite <- option_fmap_compose. apply option_fmap_ext. intros out. unfold compose, messages, to_connection.
  rewrite <- app_assoc, <- bind_app, <- filter_app. done.
Qed.

Hypothesis prf_collision_free : collision_free key_ok.

(** C3: in every run of the service, with its threads interleaved in any way,
    take the calls that wait for an answer up to some call, [now], when no other
    call has overtaken one of them between its two pushes: their sequence ids are
    next in [sequence_queue_], in the order in which the calls are next in
    [respond_queue_].  (This is a condition of the run and can fail, since the
    two pushes are not one action.)  Let their answers be due (each is a
    batch of PUTs, or a batch of GETs whose operations the consumer thread has all
    registered), and let their clients have registered their ids on the
    connections [conn_of].  Then the next batch of the consumer thread ends; after it the
    responder thread can answer them all, each on the connection of its client and on no
    other: a client that reads gets, for each of its calls in order, the number of
    the call and its right answer, which for a batch of GETs are the sums of the
    buckets that were selected, in the order of its keys. *)
Theorem clients_are_answered fuel cores kvs p0 p s0 s bfuel answered now later given rest conn_of :
  (3 < fuel)%nat → sys_start conf key_ok kvs p0 p → deployed cores kvs p s0 → rtc deploy_step s0 s →
  batch_allowed conf bfuel (behind s) → calls s = answered ++ now ++ later → length answered = length (responses s) →
  numbers s = given ++ (Frontend.c_seq <$> now) ++ rest → length given = length answered →
  Z.of_nat (length (Factory.got (hub s))) ≤ 2^64 →
  Forall (λ c, due (sys_asked (behind s)) c ∧ let id := client_id (Frontend.c_seq c) in
               id ≠ -1 ∧ (conn_of id, id) ∈ Factory.registered (hub s)) now →
  ∃ s1 results, deploy_step s s1 ∧ calls s1 = calls s ∧ responses s1 = responses s
  ∧ Forall2 (right_answer (sys_asked (behind s)) (sys_truth (behind s))) now results
  ∧ let answers := zip now results in
    (Forall (λ d, Response.response_ok (seq_of d) (Frontend.c_op d.1) d.2) answers →
     ∃ s2, rtc deploy_step s1 s2 ∧ responses s2 = responses s ++ ((λ d, (seq_of d, Frontend.c_op d.1, d.2)) <$> answers)
     ∧ ∀ j, let mine := to_connection conn_of j answers in
       outgoing <$> connections s2 !! j = (λ out, out ++ messages mine) <$> (outgoing <$> connections s !! j)
       ∧ ∀ pc r, incoming pc = messages mine ++ r →
         ∃ pc', recv_responses fuel (length mine) pc = (Done ((λ d, (client_seq_no (seq_of d), d.2)) <$> mine), pc')
           ∧ incoming pc' = r).
Proof.
  intros Hfuel Hst Hdep Hrtc Ha Hc Hlen Hn Hgiven Hgot Hnow. pose proof (view_reachable _ _ _ _ _ Hdep Hrtc) as Hview.
  apply Forall_and in Hnow as [Hdue Hreg].
  destruct (due_are_answered conf key_ok prf_collision_free cores kvs p0 p (view s) bfuel now Hst Hview Ha Hdue)
    as (p' & results & Hrun & Hright & Hres).
  set (y := with_back (shared p' (proxy_of s)) (after_batch p' (behind s)) (view s)).
  exists (after_proxy y s), results. split; [|do 3 (split; [done|])].
  { by apply (deploy_proxy s y (server_batch conf key_ok (view s) bfuel p' Ha Hrun)). }
  intros answers Hok. destruct (waiting_calls _ _ _ _ _ _ _ _ _ _ Hview Hc Hlen Hn Hgiven) as [Hops Hseqs].
  assert (now = answers.*1) as Hfst by (symmetry; apply fst_zip; by rewrite (Forall2_length _ _ _ Hright)).
  rewrite fmap_app in Hops. rewrite Hfst, <- list_fmap_compose in Hops, Hseqs.
  destruct (respond_all conn_of answers (after_proxy y s) _ _ Hops Hseqs) as (s2 & Hsteps & Hr & Hout).
  - apply Forall_forall. intros d Hd. rewrite Forall_forall in Hok. rewrite Forall_forall in Hreg. destruct (Hreg d.1) as [Hid Hin].
    { rewrite Hfst. by apply list_elem_of_fmap_2. }
    destruct (registered_connection _ _ _ _ (hub_reachable _ _ _ _ _ Hdep Hrtc) Hin Hgot) as (Hfind & conn & Hconn).
    split; [|done|done|by eapply lookup_lt_Some|by apply Hok].
    destruct d as [c r]. apply list_elem_of_lookup in Hd as [k [Hk1 Hk2]%lookup_zip_Some]. exact (Forall2_lookup_lr _ _ _ _ _ _ Hres Hk1 Hk2).
  - exists s2. split; [done|]. split; [done|]. intros j mine. split; [apply Hout|]. intros pc r Hpc.
    destruct (recv_responses_reads fuel mine Hfuel pc r Hpc) as (pc' & Hread & Hi & _). by exists pc'.
Qed.

End deployment.
Arguments deployment : clear implicits.
End Deployment.
