(* ===== verification/ServerMain.v ===== *)
(** [main] of server/src/proxy_server.cpp up to the point where the server
    serves: the proxy is initialised as in Server, and
    service/src/thrift_server.cpp puts the server together over it.

    The server of the Thrift library takes the connections: what it was given
    is kept, and from there Deployment goes on.  That [main] sleeps meanwhile,
    and how it ends, is not modelled. *)
From S2P Require Import Prelude.
From S2P Require Import CxxString.
From S2P Require Import Getopt.
From S2P Require Import FrequencySmoother.
From S2P Require Import KeyMaster.
From S2P Require Import Thrift.
From S2P Require Import RunningKeys.
From S2P Require Import Storage.
From S2P Require Import Encryption.
From S2P Require Import Proxy.
From S2P Require Import BatchCorrect.
From S2P Require Import ProxyInit.
From S2P Require Import ProxySystem.
From S2P Require Import Server.
From S2P Require Import Frontend.
From S2P Require Import EndToEnd.
From S2P Require Import Handler.
From S2P Require Import HandlerFactory.
From S2P Require Import Deployment.

Local Open Scope Z_scope.

Module Main.
Import Server ItemIdGenerator EndToEnd Deployment.

Definition PROXY_PORT : Z := 9090.

Section main.
Context {P Mp St W : Type} {prot : TProtocol P} {cuckoo : cuckoohash_map nat Mp}
  {sto : storage_interface St} {stoS : @StorageSpec St sto} {cry : crypter W} {cryS : @CrypterSpec W cry}.
Abbreviation proxy := (@Proxy.waffle_proxy (St * list request) W).

(** A [TNonblockingServer] as it is set up; the processors of its connections
    come from the factory. *)
Record TNonblockingServer := {
  proc_factory : Factory.server P Mp Frontend.frontend;
  port_ : Z;
  send_timeout : Z;
  (** the threads of the thread manager, and those that read and write *)
  worker_threads : Z;
  io_threads : Z;
}.

(** [thrift_handler_factory]; its counter of client ids is not initialised. *)
Definition thrift_handler_factory (proxy_ : Frontend.frontend) (client_id_gen_ : Z)
    (id_to_client : Handler.client_map P Mp) : Factory.server P Mp Frontend.frontend :=
  {| Factory.handlers_ := []; Factory.gen_ := client_id_gen_; Factory.clients := id_to_client;
     Factory.shared_proxy_ := proxy_ |}.

(** [thrift_server::create] *)
Definition create (proxy_ptr : Frontend.frontend) (client_id_gen_ : Z) (id_to_client : Handler.client_map P Mp)
    (port num_threads : Z) : TNonblockingServer :=
  {| proc_factory := thrift_handler_factory proxy_ptr client_id_gen_ id_to_client; port_ := port;
     send_timeout := 1200000; worker_threads := 15; io_threads := num_threads |}.

Section files.
Variable files : string → option string.
Variable assertions : bool.
(** a new [cuckoohash_map], and what is in the counter *)
Variable new_map : Mp.
Variable client_id_gen_ : Z.

Definition main (fuel : nat) (args : list string) : M proxy TNonblockingServer :=
  s ← start files assertions fuel args;
  let id_to_client := {| Handler.clients_ := new_map; Handler.connections_ := [] |} in
  p ← get;
  let proxy_ := shared p (Frontend.fe (Frontend.start (Z.to_nat (num_cores s)))) in
  mret (create proxy_ client_id_gen_ id_to_client PROXY_PORT 1).

(** The service that this server makes of the proxy *)
Definition serving (srv : TNonblockingServer) (kvs : list (string * string)) (p : proxy) : deployment P Mp St W :=
  {| hub := {| Factory.srv := proc_factory srv; Factory.got := []; Factory.registered := [] |};
     calls := []; numbers := []; responses := []; workers := ∅; behind := System.started_system kvs p |}.

Context {G : Type} `{RandomSpec G}.
Context (key_ok : string → Prop).
Hypothesis prf_collision_free : Correct.collision_free key_ok.
Hypothesis fakes_ok : ∀ k, Init.fake_name k → key_ok k.
Hypothesis buckets_ok : ∀ k, Smoother.canonical k → key_ok k.

(** A new map has no clients. *)
Hypothesis new_map_empty : ∀ id, cuckoo_find id new_map = None.
Hypothesis client_id_gen_long : in_long client_id_gen_ = true.

(** C14: the whole program starts: when its item file is one that
    generate_TS_ItemID has written with at least 12 names, and the options are
    accepted, [main] sets up a server on its port, without connections, over a
    proxy that was initialised with 100 buckets for each of the first 1000
    items: the states of the two are those from which every run of the proxy
    ([sys_start]) and of the service ([deployed]) has its properties.  It gets
    there: when every outcome of a random draw comes up within [K] draws, [K]
    turns for each of the keys to cache (two of the 100 buckets of each item)
    or each fake key, whichever are more, are enough. *)
Theorem server_deploys n gfuel (g g' : G) ids args s fuel (p0 : proxy) :
  12 ≤ n < 2^31 → (Z.to_nat n ≤ gfuel)%nat → generate_item_ids gfuel n g = (Done ids, g') →
  files "tracefiles/TS_ItemID_10000.txt" = Some (write_item_ids ids) →
  read_options (getopt optstring args) new_settings = Done s → Init.constructed p0 → fresh p0 →
  let kvs := buckets 1024 100 (take 1000 ids) in
  let run := main fuel args p0 in
  (run.1 = Stop OutOfFuel ∧ ∀ K, Init.fair_index (St := St * list request) (length kvs) K →
     Init.fair_fake (St := St * list request) (conf (configure s)) K →
     Z.of_nat fuel < Z.of_nat K * Z.max (2 * Z.min n 1000) (Proxy.D (conf (configure s))))
  ∨ ∃ srv p, run = (Done srv, p) ∧ port_ srv = PROXY_PORT
      ∧ System.sys_start (conf (configure s)) key_ok kvs p0 p ∧ deployed 1 kvs p (serving srv kvs p)
      ∧ Z.of_nat (length kvs) = 100 * Z.min n 1000.
Proof.
  intros Hn Hfuel Hgen Hfile Hopt Hcons Hfresh kvs run.
  destruct (server_starts files assertions key_ok prf_collision_free fakes_ok buckets_ok n gfuel g g' ids args s fuel p0
    Hn Hfuel Hgen Hfile Hopt Hcons Hfresh) as [[Hout HK]|(p & Hrun & Hst & Hlen)].
  - left. split; [by apply mbind_stops|exact HK].
  - right. unfold run, main. rewrite (mbind_run _ _ _ _ _ Hrun). eexists _, p. split; [reflexivity|].
    split; [done|]. split; [exact Hst|]. split; [|exact Hlen]. split; [|done]. by split.
Qed.
End files.
End main.
End Main.
