(* ===== verification/EndToEndExample.v ===== *)
(** A batch of GETs through the whole proxy, from the call of the service to
    the batch that will answer it; a GET that selects nothing; and a [close]
    that waits for the responder thread. *)
From S2P Require Import Prelude.
From S2P Require Import Queue.
From S2P Require Import Thrift.
From S2P Require Import RunningKeys.
From S2P Require Import Storage.
From S2P Require Import Encryption.
From S2P Require Import Proxy.
From S2P Require Import ProxyRegister.
From S2P Require Import ProxySystem.
From S2P Require Import ProxyExample.
From S2P Require Import Frontend.
From S2P Require Import Threads.
From S2P Require Import EndToEnd.

Local Open Scope Z_scope.

Module EndToEndExample.
Import Queue Redis Encryption EngineCrypter Proxy Register System Example EndToEnd.
#[local] Existing Instances plain_redis plain_redis_spec plain_random plain_ssl plain_ssl_spec example_engine
  example_engine_spec.

Definition seq1 : Thrift.sequence_id :=
  {| Thrift.client_id := 5; Thrift.client_seq_no := 10; Thrift.server_seq_no := 0 |}.
Abbreviation the_get := {| op_key := range_key "a&int&" 1 2; op_value := "" |}.

Definition e0 : server := started_server 1 data p1.
(** the call, and the queue when the operation was taken *)
Definition called_fe : Frontend.frontend := (Frontend.async_get_batch seq1 0 [op_key the_get] (Frontend.fe (front e0))).2.
Definition e1 : server :=
  {| front := Frontend.called Frontend.GET_BATCH seq1 1 (front e0) called_fe; numbers := [seq1]; workers := ∅; back := back e0 |}.
Definition taken_fe : Frontend.frontend := (Frontend.on_operation_queue 0 pop called_fe).2.
Abbreviation served := (serve the_get (Some 0%nat) (sys_gathered (back e1)) (sys_proxy (back e1))).
Abbreviation served_gathered := (match served.1 with Done (_, g) => g | Stop _ => nothing_gathered 0 end).
Definition e2 : server :=
  with_back (shared served.2 taken_fe) (after_get "a&int&" 1 2 0%nat served_gathered served.2 (back e1)) e1.

(** The thread of connection 0 makes the call in three actions. *)
Definition in_call : server :=
  {| front := front e0; numbers := []; back := back e0;
     workers := {[0%nat := Frontend.async_get_batch_prog seq1 0 [op_key the_get]]} |}.
Abbreviation the_step := (λ s s', server_step conf any_key s s' ∧ (base.size (workers s') ≤ 1)%nat).
Lemma called_in_turn : rtc the_step e0 e1.
Proof.
  apply (rtc_l _ _ in_call); [split; [exact (server_get_batch conf any_key e0 0 seq1 0 [op_key the_get] eq_refl)|reflexivity]|].
  eapply rtc_l; [split; [eapply (server_action conf any_key _ 0); reflexivity|apply le_n]|].
  eapply rtc_l; [split; [eapply (server_action conf any_key _ 0); reflexivity|apply le_n]|].
  eapply rtc_l; [split; [eapply (server_action conf any_key _ 0); reflexivity|apply Nat.le_0_l]|].
  apply rtc_refl.
Qed.

Lemma called_runs :
  Frontend.async_get_batch seq1 0 [op_key the_get] (Frontend.fe (front e0)) = (Done (), called_fe).
Proof. vm_compute. reflexivity. Qed.
Lemma taken_runs : Frontend.on_operation_queue 0 pop called_fe = (Done (the_get, 0%nat), taken_fe).
Proof. vm_compute. reflexivity. Qed.
Lemma done_split {A B C} (x : result (A * B) * C) (d : B) :
  match x.1 with Done _ => true | Stop _ => false end = true →
  ∃ i, x = (Done (i, match x.1 with Done (_, g) => g | Stop _ => d end), x.2).
Proof. destruct x as [[[i g]|] p]; [|discriminate]. by exists i. Qed.
Lemma served_runs : ∃ i, served = (Done (i, served_gathered), served.2).
Proof. apply done_split. vm_compute. reflexivity. Qed.

Lemma allowed_e1 : get_allowed "a&int&" 1 2 0%nat (back e1).
Proof.
  split; [reflexivity|split; reflexivity|split; vm_compute; reflexivity|].
  right. eexists. vm_compute. reflexivity.
Qed.

Lemma reached_e2 : rtc (server_step conf any_key) e0 e2.
Proof.
  transitivity e1.
  { refine (rtc_congruence (λ s, s) _ _ _ _ called_in_turn). by intros s s' [? _]. }
  destruct served_runs as [i Hi]. apply (rtc_l _ _ e2); [|apply rtc_refl].
  exact (server_get conf any_key e1 0 "a&int&" 1 2 0%nat taken_fe i served_gathered served.2 taken_runs allowed_e1 Hi).
Qed.

Lemma batch_allowed_e2 : batch_allowed conf 1 (back e2).
Proof. split; vm_compute; repeat split; (discriminate || lia). Qed.

Definition call1 : Frontend.call :=
  {| Frontend.c_op := Frontend.GET_BATCH; Frontend.c_seq := seq1; Frontend.c_waiters := [0%nat] |}.

Lemma calls_in_turn_keep_order_witness :
  rtc (λ s s', server_step conf any_key s s' ∧ (base.size (workers s') ≤ 1)%nat) (started_server 1 data p1) e1
  ∧ numbers e1 `prefix_of` (Frontend.c_seq <$> Frontend.calls (front e1))
  ∧ numbers e1 = Frontend.c_seq <$> Frontend.calls (front e1).
Proof.
  split; [exact called_in_turn|]. destruct (calls_in_turn_keep_order conf any_key 1 data p1 e1 called_in_turn) as [H1 H2].
  split; [exact H1|]. apply H2. reflexivity.
Defined.

(** A GET from 4 to 2 of an item with buckets at 1 and 3 *)
Abbreviation no_get := {| op_key := range_key "b&int&" 4 2; op_value := "" |}.
Definition no_call : server :=
  {| front := front e0; numbers := []; back := back e0;
     workers := {[0%nat := Frontend.async_get_batch_prog seq1 0 [op_key no_get]]} |}.
Definition no_fe : Frontend.frontend := (Frontend.async_get_batch seq1 0 [op_key no_get] (Frontend.fe (front e0))).2.
Definition n1 : server :=
  {| front := Frontend.called Frontend.GET_BATCH seq1 1 (front e0) no_fe; numbers := [seq1]; workers := ∅; back := back e0 |}.
Lemma reached_n1 : rtc (server_step conf any_key) e0 n1.
Proof.
  apply (rtc_l _ _ no_call); [exact (server_get_batch conf any_key e0 0 seq1 0 [op_key no_get] eq_refl)|].
  do 3 (eapply rtc_l; [eapply (server_action conf any_key _ 0); reflexivity|]). apply rtc_refl.
Qed.

Lemma allowed_n1 : get_allowed "b&int&" 4 2 0%nat (back n1).
Proof. split; [reflexivity|split; reflexivity|split; vm_compute; reflexivity|]. left. vm_compute. reflexivity. Qed.

Abbreviation no_served := (serve no_get (Some 0%nat) (sys_gathered (back n1)) (sys_proxy (back n1))).
Abbreviation no_gathered := (match no_served.1 with Done (_, g) => g | Stop _ => nothing_gathered 0 end).
Lemma no_served_runs : ∃ i, no_served = (Done (i, no_gathered), no_served.2).
Proof. apply done_split. vm_compute. reflexivity. Qed.
Definition n2 : server :=
  with_back (shared no_served.2 (Frontend.on_operation_queue 0 pop no_fe).2)
    (after_get "b&int&" 4 2 0%nat no_gathered no_served.2 (back n1)) n1.

Lemma get_of_nothing_is_forgotten_witness :
  rtc (server_step conf any_key) (started_server 1 data p1) n2
  ∧ Frontend.promises (Frontend.fe (front n2)) !! 0%nat = None
  ∧ ∀ s3, rtc (server_step conf any_key) n2 s3 → Frontend.responses (front s3) = [].
Proof.
  destruct no_served_runs as [i Hi].
  destruct (get_of_nothing_is_forgotten conf any_key example_collision_free 1 data p0 p1 n1 0 "b&int&" 4 2 0%nat
    (Frontend.on_operation_queue 0 pop no_fe).2 i no_gathered no_served.2) as [Hstep Hlater];
    [exact example_start|exact reached_n1|vm_compute; reflexivity|exact allowed_n1|exact Hi| |].
  { intros times t Ht. assert (times = [1; 3]) as Htimes by (vm_compute; reflexivity). rewrite Htimes in *.
    apply elem_of_cons in Ht as [->|Ht%list_elem_of_singleton]; [right|left; lia].
    exists 3. split; [right; left|lia]. }
  split; [by apply (rtc_r _ n1); [exact reached_n1|]|]. destruct (Hlater n2 (rtc_refl _ _)) as [Hun Hblock].
  split; [exact Hun|]. intros s3 Hr. rewrite (Hblock Frontend.GET_BATCH [0%nat] [] ltac:(vm_compute; reflexivity) ltac:(discriminate)
    ltac:(left) s3 Hr). reflexivity.
Defined.
(** [close], with one consumer thread that returns at once, and the call of
    the example still to be answered: the responder thread takes it and waits
    for the answer. *)
Definition put_fe : Frontend.frontend :=
  (Frontend.async_put_batch seq1 0 ["a&int&@5"] ["v"] (Frontend.fe (front e0))).2.
Definition answered_fe : Frontend.frontend := (Frontend.responder_turn seq1 put_fe).2.
Definition closing : Threads.state :=
  {| Threads.finished_ := true;
     Threads.threads_ := [Threads.Consumer Threads.Returned []; Threads.Responder Threads.Head; Threads.Clear Threads.Head];
     Threads.closing_ := Threads.Joining 1; Threads.proxy_ := p1; Threads.frontend_ := answered_fe |}.

Lemma reached_closing : rtc (Threads.step conf 1) (Threads.started_threads 1 p1 (Frontend.fe (front e0))) closing.
Proof.
  eapply rtc_l; [by apply Threads.step_close|].
  eapply rtc_l; [eapply (Threads.step_consumer conf 1 _ 0); [reflexivity|by apply Threads.consumer_returns]|].
  eapply rtc_l; [by eapply (Threads.step_join conf 1 _ 0)|].
  eapply rtc_l; [by apply (Threads.step_others conf 1 _ put_fe)|].
  eapply rtc_l; [eapply (Threads.step_responder conf 1 _ 1); [reflexivity|by apply Threads.loop_enters]|].
  eapply rtc_l; [eapply (Threads.step_responder conf 1 _ 1); [reflexivity|]|].
  - apply Threads.loop_turns. exists seq1. eexists. vm_compute. reflexivity.
  - apply rtc_refl.
Qed.

Lemma close_never_returns_witness :
  Threads.closing_ closing ≠ Threads.Closed ∧ (∀ i, Threads.closing_ closing = Threads.Joining i → (i ≤ 1)%nat)
  ∧ Frontend.respond_queue_ put_fe ≠ Frontend.respond_queue_ answered_fe.
Proof.
  destruct (Threads.close_never_returns conf 1 1 p1 _ closing reached_closing) as (H1 & H2 & _).
  split; [exact H1|]. split; [intros i Hi; by apply H2|]. vm_compute. discriminate.
Defined.

End EndToEndExample.
