(* ===== verification/DeploymentExample.v ===== *)
(** A client connects to the service of EndToEndExample, gets and registers its
    id, sends a GET batch, and reads its answer. *)
From S2P Require Import Prelude.
From S2P Require Import Queue.
From S2P Require Import Thrift.
From S2P Require Import WaffleThrift.
From S2P Require Import ThriftRpc.
From S2P Require Import ThriftExample.
From S2P Require Import WaffleThriftResponse.
From S2P Require Import RunningKeys.
From S2P Require Import Storage.
From S2P Require Import Encryption.
From S2P Require Import Proxy.
From S2P Require Import ProxyRegister.
From S2P Require Import ProxySystem.
From S2P Require Import ProxyExample.
From S2P Require Import Frontend.
From S2P Require Import EndToEnd.
From S2P Require Import EndToEndExample.
From S2P Require Import Handler.
From S2P Require Import HandlerFactory.
From S2P Require Import AsyncClient.
From S2P Require Import ServiceExample.
From S2P Require Import Deployment.

Local Open Scope Z_scope.

Module DeploymentExample.
Import Queue Redis Encryption EngineCrypter Thrift Plain Proxy Register System Example EndToEnd EndToEndExample Deployment.
#[local] Existing Instances ServiceExample.gmap_cuckoo ServiceExample.gmap_cuckoo_spec plain_redis plain_redis_spec plain_random
  plain_ssl plain_ssl_spec example_engine
  example_engine_spec.

Definition others : M Frontend.frontend () := mret ().
Definition bst_search (pattern : string) (results : list string) : M Frontend.frontend (list string) := mret results.
#[local] Instance example_iface : Handler.proxy Frontend.frontend := Handler.frontend_proxy others bst_search.

Abbreviation service := (deployment pipe (gmap Z nat) redis world).
Abbreviation the_step := (deploy_step conf any_key others bst_search).

(** No connection yet; the first id will be 5. *)
Definition d0 : service := {|
  hub := {| Factory.srv := {| Factory.handlers_ := []; Factory.gen_ := 5;
              Factory.clients := {| Handler.clients_ := ∅; Handler.connections_ := [] |};
              Factory.shared_proxy_ := Frontend.fe (front e0) |};
            Factory.got := []; Factory.registered := [] |};
  calls := []; numbers := []; responses := []; workers := ∅; behind := back e0 |}.

Lemma deployed_d0 : deployed 1 data p1 d0.
Proof. split; [|reflexivity]. by split. Qed.

(** The state of the connections after a step of them *)
Definition after {A} (m : M (Factory.server pipe (gmap Z nat) Frontend.frontend) A) (got registered : list (nat * Z))
    (s : service) : service :=
  with_hub {| Factory.srv := (m (Factory.srv (hub s))).2; Factory.got := got; Factory.registered := registered |} s.
Definition d1 : service := after (Factory.getHandler Calls.idle) [] [] d0.
Definition d2 : service := after (Factory.on_handler 0 Handler.get_client_id) [(0%nat, 5)] [] d1.
Definition d3 : service := after (Factory.on_handler 0 (Handler.register_client_id 1 5)) [(0%nat, 5)] [(0%nat, 5)] d2.
(** the call, in three actions, and its operation served by the consumer thread *)
Definition counted := Factory.on_handler 0 Handler.next_operation (Factory.srv (hub d3)).
Definition d4 : service :=
  {| hub := with_srv (with_proxy called_fe counted.2) (hub d3); calls := Frontend.calls (front e1); numbers := [seq1];
     responses := []; workers := ∅; behind := back e0 |}.
Definition d5 : service := after_proxy e2 d4.

Lemma view_d4 : view d4 = e1.
Proof. reflexivity. Qed.

Lemma counted_runs : counted = (Done 0, counted.2).
Proof. vm_compute. reflexivity. Qed.

Lemma reached_d3 : rtc the_step d0 d3.
Proof.
  apply (rtc_l _ _ d1); [exact (deploy_connect conf any_key others bst_search d0 Calls.idle 0 (Factory.srv (hub d1)) eq_refl)|].
  apply (rtc_l _ _ d2); [exact (deploy_get_id conf any_key others bst_search d1 0 5 (Factory.srv (hub d2)) eq_refl eq_refl)|].
  apply (rtc_l _ _ d3); [|apply rtc_refl].
  exact (deploy_register conf any_key others bst_search d2 0 1 5 (Factory.srv (hub d3)) eq_refl (list_elem_of_here _ _) eq_refl).
Qed.

Lemma reached_d4 : rtc the_step d0 d4.
Proof.
  transitivity d3; [exact reached_d3|].
  eapply rtc_l; [exact (deploy_get_batch conf any_key others bst_search d3 0 seq1 [op_key the_get] 0 counted.2 eq_refl counted_runs)|].
  eapply rtc_l; [eapply (deploy_action conf any_key others bst_search _ 0); reflexivity|].
  eapply rtc_l; [eapply (deploy_action conf any_key others bst_search _ 0); reflexivity|].
  eapply rtc_l; [eapply (deploy_action conf any_key others bst_search _ 0); reflexivity|].
  apply rtc_refl.
Qed.

Lemma reached_d5 : rtc the_step d0 d5.
Proof.
  apply (rtc_r _ d4); [exact reached_d4|]. destruct served_runs as [i Hi].
  apply (deploy_proxy conf any_key others bst_search d4 e2); [rewrite view_d4|reflexivity..].
  exact (server_get conf any_key e1 0 "a&int&" 1 2 0%nat taken_fe i served_gathered served.2 taken_runs allowed_e1 Hi).
Qed.

Lemma clients_are_answered_witness :
  ∃ s1 s2, deploy_step conf any_key others bst_search d5 s1 ∧ rtc (deploy_step conf any_key others bst_search) s1 s2
  ∧ responses s2 = [(seq1, Frontend.GET_BATCH, ["33686019"])]
  ∧ ∃ pc pc', recv_responses 4 1 pc = (Done [(10, ["33686019"])], pc').
Proof.
  destruct (clients_are_answered conf any_key others bst_search example_collision_free 4 1 data p0 p1 d0 d5 1 [] [call1] [] [] []
    (λ _, 0%nat)) as (s1 & results & Hs1 & _ & _ & Hright & Hrest);
    [lia|exact example_start|exact deployed_d0|exact reached_d5|exact batch_allowed_e2|vm_compute; reflexivity|reflexivity|reflexivity|reflexivity
    |vm_compute; discriminate| |].
  { constructor; [|constructor]. split; [|split; [discriminate|apply list_elem_of_here]].
    right. split; [reflexivity|]. constructor; [|constructor]. eexists. vm_compute. reflexivity. }
  inversion Hright as [|? r ? l [[Hop _]|[_ Hr]] Hl]; subst; [discriminate Hop|]. inversion Hl; subst.
  inversion Hr as [|? a ? l (keys & Hkeys & Ha) Hl']; subst. inversion Hl'; subst.
  vm_compute in Hkeys. injection Hkeys as <-. vm_compute in Ha. injection Ha as <-.
  destruct Hrest as (s2 & Hs2 & Hresp & Hconn).
  { constructor; [|constructor]. split; [by repeat split|]. split; [reflexivity|]. split; [reflexivity|]. by repeat constructor. }
  exists s1, s2. split; [exact Hs1|]. split; [exact Hs2|]. split; [exact Hresp|].
  destruct (Hconn 0%nat) as [_ Hread].
  exists {| pin := messages (to_connection (λ _, 0%nat) 0 [(call1, ["33686019"])]); pout := [] |}.
  destruct (Hread {| pin := messages (to_connection (λ _, 0%nat) 0 [(call1, ["33686019"])]); pout := [] |} [])
    as (pc' & Hr' & _); [by rewrite app_nil_r|]. exists pc'. exact Hr'.
Defined.

(** The client of the call *)
Definition c0 : AsyncClient.async_proxy_client pipe :=
  {| AsyncClient.protocol_ := Calls.idle; AsyncClient.requests_ := new_queue; AsyncClient.total_ := 0;
     AsyncClient.done_ := false; AsyncClient.sequence_num := 10; AsyncClient.client_id_ := 5;
     AsyncClient.seq_id_ := set_client_id 5 new_sequence_id |}.

Lemma client_batch_is_queued_witness :
  ∃ c' sent ps' s', AsyncClient.get_batch [op_key the_get] c0 = (Done [], c')
  ∧ outgoing (AsyncClient.protocol_ c') = sent
  ∧ Rpc.serve 4 Calls.what (Factory.handler_of 0) (Factory.srv (hub d3), {| pin := sent; pout := [] |})
    = (Done true, (Factory.srv (hub s'), ps'))
  ∧ rtc (deploy_step conf any_key others bst_search) d3 s' ∧ calls s' = [call1].
Proof.
  destruct (client_batch_is_queued conf any_key others bst_search 4 Calls.what d3 0
    {| Handler.operation_count_ := 0; Handler.client_ := 0; Handler.registered_client_id_ := 5 |} c0 10 [op_key the_get])
    as (c' & sent & Hsend & Hout & Hserve);
    [lia|vm_compute; reflexivity|reflexivity|reflexivity|vm_compute; discriminate|by repeat split|reflexivity|reflexivity|reflexivity
    |split; [reflexivity|by repeat constructor]|].
  destruct (Hserve {| pin := sent; pout := [] |} []) as (ps' & s' & Hs & _ & Hstep & _ & Hcalls & _); [by rewrite app_nil_r|].
  exists c', sent, ps', s'. split; [exact Hsend|]. split; [rewrite Hout; reflexivity|]. split; [exact Hs|].
  split; [exact Hstep|]. rewrite Hcalls. vm_compute. reflexivity.
Defined.
End DeploymentExample.
