(* ===== verification/ServerMainExample.v ===== *)
(** The start of the whole program with a stream of random numbers on which it
    provably gets there: the hypotheses of ServerMain on the draws hold of it. *)
From S2P Require Import Prelude.
From S2P Require Import CxxString.
From S2P Require Import ThriftExample.
From S2P Require Import Thrift.
From S2P Require Import Handler.
From S2P Require Import ServiceExample.
From S2P Require Import Storage.
From S2P Require Import Encryption.
From S2P Require Import Proxy.
From S2P Require Import ProxyBatch.
From S2P Require Import BatchPhases.
From S2P Require Import BatchCorrect.
From S2P Require Import ProxyInit.
From S2P Require Import ProxySystem.
From S2P Require Import KeyMaster.
From S2P Require Import Getopt.
From S2P Require Import Deployment.
From S2P Require Import Server.
From S2P Require Import ServerMain.
From S2P Require Import ProxyExample.
From S2P Require Import ServerExample.

Local Open Scope Z_scope.

Module ServerMainExample.
Import Redis Encryption EngineCrypter Thrift Plain Proxy Batch Phases Correct Init.

#[local] Ltac Zify.zify_post_hook ::= Z.to_euclidean_division_equations.

(** * The stream

    The [n]th number counts modulo 1200, the number of buckets that the server
    loads here; modulo 31 it is a digit of [n / 10]. *)
Definition digit (m j : Z) : Z := (m / 31 ^ j) mod 31.
Definition mark (n : Z) : Z := let j := (n - 5) mod 10 in if j <? 4 then digit ((n - 5) / 10) j else 0.
Definition stream (n : nat) : Z :=
  let z := Z.of_nat n in z mod 1200 + 1200 * ((24 * (mark z - z mod 1200)) mod 31).

Lemma mark_bound n : 0 ≤ mark n < 31.
Proof. unfold mark, digit. cbv zeta. destruct (_ <? 4); lia. Qed.
Lemma stream_nonneg n : 0 ≤ stream n.
Proof. unfold stream. cbv zeta. lia. Qed.
Lemma stream_counts n : stream n mod 1200 = Z.of_nat n mod 1200.
Proof. unfold stream. cbv zeta. lia. Qed.
Lemma stream_length n : stream n mod 10 = Z.of_nat n mod 10.
Proof. pose proof (stream_counts n). lia. Qed.
Lemma stream_mark n : stream n mod 31 = mark (Z.of_nat n).
Proof. unfold stream. cbv zeta. pose proof (mark_bound (Z.of_nat n)). lia. Qed.

(** Four digits tell numbers apart that are close. *)
Lemma digits_inj m m' :
  (∀ j, 0 ≤ j < 4 → digit m j = digit m' j) → Z.abs (m - m') < 31 ^ 4 → m = m'.
Proof.
  intros Hd Hclose. pose proof (Hd 0 ltac:(lia)) as H0. pose proof (Hd 1 ltac:(lia)) as H1.
  pose proof (Hd 2 ltac:(lia)) as H2. pose proof (Hd 3 ltac:(lia)) as H3. unfold digit in *.
  change (31 ^ 0) with 1 in *. change (31 ^ 1) with 31 in *. change (31 ^ 2) with 961 in *. change (31 ^ 3) with 29791 in *.
  change (31 ^ 4) with 923521 in *. lia.
Qed.

#[local] Instance stream_random : Randomness.
Proof. refine {| rand_values := stream; uniform_values lo hi n := lo |}; [apply stream_nonneg|intros; lia]. Defined.
#[local] Existing Instances plain_redis plain_redis_spec plain_ssl plain_ssl_spec ServiceExample.gmap_cuckoo
  ServiceExample.gmap_cuckoo_spec.
#[local] Instance engine : crypter world := engine_crypter true 1.
#[local] Instance engine_spec : CrypterSpec world := engine_crypter_spec true 1 (rep "0" 32) (rep "0" 16) (rep "0" 32).

Abbreviation proxy := (@waffle_proxy (redis * list request) world).
Abbreviation calls p := (rand_calls (encryption_engine_ p)).
Implicit Types p : proxy.

(** * Every index comes up *)
Lemma redraw_rand k p : ∃ p', redraw draw_rand k p = (Done (stream (calls p + k)), p').
Proof.
  revert p. induction k as [|k IH]; intros p; cbn [redraw].
  - rewrite Nat.add_0_r. by eexists.
  - assert (draw_rand p = (Done (stream (calls p)), set_encryption_engine_ (rand (encryption_engine_ p)).2 p)) as Hd by reflexivity.
    rewrite (mbind_run _ _ _ _ _ Hd). destruct (IH (set_encryption_engine_ (rand (encryption_engine_ p)).2 p)) as [p' Hp].
    exists p'. rewrite Hp. do 2 f_equal. cbn. f_equal. lia.
Qed.

Lemma stream_is_fair K : (1200 ≤ K)%nat → fair_index (St := redis * list request) 1200 K.
Proof.
  intros HK p i _ Hi. set (k := Z.to_nat ((Z.of_nat i - Z.of_nat (calls p)) mod 1200)).
  destruct (redraw_rand k p) as [p' Hp]. exists k, (stream (calls p + k)), p'. split; [lia|]. split; [exact Hp|].
  change (Z.of_nat 1200) with 1200. rewrite stream_counts. lia.
Qed.

(** * New names come up *)

(** The [n] characters drawn from the [q]th number on *)
Fixpoint chars (q n : nat) : string :=
  match n with O => "" | S n => String (char_at alphanum (stream q `mod` 62)) (chars (S q) n) end.
(** The fake key that is drawn at [q], and where the next draw starts *)
Definition fake_at (q : nat) : string := "fake" +:+ chars (S q) (q mod 10 + 5).
Definition next (q : nat) : nat := (q + 6 + q mod 10)%nat.

Lemma gen_random_chars n : ∀ p, ∃ p', gen_random n p = (Done (chars (calls p) n), p') ∧ calls p' = (calls p + n)%nat.
Proof.
  induction n as [|n IH]; intros p; cbn [gen_random chars]; [exists p; split; [done|lia]|].
  assert (on_engine crypt_rand p = (Done (stream (calls p)), set_encryption_engine_ (rand (encryption_engine_ p)).2 p)) as Hd
    by reflexivity.
  rewrite (mbind_run _ _ _ _ _ Hd). destruct (IH (set_encryption_engine_ (rand (encryption_engine_ p)).2 p)) as (p' & Hp & Hc).
  exists p'. rewrite (mbind_run _ _ _ _ _ Hp). split; [reflexivity|]. rewrite Hc. cbn. lia.
Qed.

Lemma draw_fake_at p : ∃ p', draw_fake p = (Done (fake_at (calls p)), p') ∧ calls p' = next (calls p).
Proof.
  assert (on_engine crypt_rand p = (Done (stream (calls p)), set_encryption_engine_ (rand (encryption_engine_ p)).2 p)) as Hd
    by reflexivity.
  unfold draw_fake. rewrite (mbind_run _ _ _ _ _ Hd), stream_length.
  assert (Z.to_nat (Z.of_nat (calls p) mod 10 + 5) = (calls p mod 10 + 5)%nat) as ->.
  { pose proof (Nat2Z.inj_mod (calls p) 10). lia. }
  destruct (gen_random_chars (calls p mod 10 + 5) (set_encryption_engine_ (rand (encryption_engine_ p)).2 p)) as (p' & Hp & Hc).
  exists p'. rewrite (mbind_run _ _ _ _ _ Hp). split; [reflexivity|]. rewrite Hc. unfold next. cbn [encryption_engine_ set_encryption_engine_ rand snd rand_calls]. lia.
Qed.

Lemma redraw_fake k : ∀ p, ∃ p', redraw draw_fake k p = (Done (fake_at (Nat.iter k next (calls p))), p').
Proof.
  induction k as [|k IH]; intros p; cbn [redraw].
  - destruct (draw_fake_at p) as (p' & Hp & _). by exists p'.
  - destruct (draw_fake_at p) as (p1 & Hp & Hc). rewrite (mbind_run _ _ _ _ _ Hp). destruct (IH p1) as [p' Hp'].
    exists p'. by rewrite Hp', Hc, Nat.iter_succ_r.
Qed.

(** Where the draws start: at numbers with last digit 4, ten apart, or at each
    fourth with last digit 8, forty apart *)
(** Last digits in [nat] *)
Lemma last_digit q : ∃ a b, (q = 10 * a + b ∧ b < 10 ∧ q mod 10 = b)%nat.
Proof.
  exists (q / 10)%nat, (q mod 10)%nat. split; [apply Nat.div_mod_eq|]. split; [by apply Nat.mod_upper_bound|done].
Qed.
Lemma last_digit_of a b : (b < 10 → (10 * a + b) mod 10 = b)%nat.
Proof. intros Hb. rewrite Nat.mul_comm, Nat.add_comm, Nat.Div0.mod_add. by apply Nat.mod_small. Qed.

Lemma next_mod q : (next q mod 10 = (2 * (q mod 10) + 6) mod 10)%nat.
Proof.
  unfold next. destruct (last_digit q) as (a & b & Hq & Hb & ->). rewrite Hq.
  replace (10 * a + b + 6 + b)%nat with (2 * b + 6 + a * 10)%nat by lia. by rewrite Nat.Div0.mod_add.
Qed.
Lemma starts_settle q : ∃ k, (k ≤ 4)%nat ∧ (Nat.iter k next q mod 10 = 4 ∨ Nat.iter k next q mod 10 = 8)%nat.
Proof.
  pose proof (Nat.mod_upper_bound q 10 ltac:(lia)) as Hb. destruct (q mod 10)%nat as [|[|[|[|[|[|[|[|[|[|b]]]]]]]]]] eqn:H; [..|lia];
    [exists 2%nat|exists 1%nat|exists 3%nat|exists 4%nat|exists 0%nat|exists 2%nat|exists 1%nat|exists 3%nat|exists 0%nat|exists 1%nat];
    (split; [lia|]); cbn [Nat.iter nat_rect]; rewrite ?next_mod, H; vm_compute; by auto.
Qed.

Lemma next_at a b : (b < 10 → next (10 * a + b) = 10 * a + (2 * b + 6))%nat.
Proof. intros Hb. unfold next. rewrite last_digit_of by done. lia. Qed.

Lemma starts_at q : (q mod 10 = 4 ∨ q mod 10 = 8)%nat →
  ∃ step e, (step ≤ 4 ∧ 0 < e ≤ 4)%nat ∧ ∀ i, Nat.iter (step * i) next q = (q + 10 * e * i)%nat.
Proof.
  destruct (last_digit q) as (a & b & -> & Hb & ->). intros [->| ->]; [exists 1%nat, 1%nat|exists 4%nat, 4%nat];
    (split; [lia|]); induction i as [|i IH]; try (cbn; lia).
  - replace (1 * S i)%nat with (1 + 1 * i)%nat by lia. rewrite Nat.iter_add, IH.
    replace (10 * a + 4 + 10 * 1 * i)%nat with (10 * (a + i) + 4)%nat by lia. cbn [Nat.iter nat_rect].
    rewrite next_at by lia. lia.
  - replace (4 * S i)%nat with (4 + 4 * i)%nat by lia. rewrite Nat.iter_add, IH.
    replace (10 * a + 8 + 10 * 4 * i)%nat with (10 * (a + 4 * i) + 8)%nat by lia. cbn [Nat.iter nat_rect].
    rewrite (next_at (a + 4 * i) 8) by lia. replace (10 * (a + 4 * i) + (2 * 8 + 6))%nat with (10 * (a + 4 * i + 2) + 2)%nat by lia.
    rewrite (next_at _ 2) by lia. replace (10 * (a + 4 * i + 2) + (2 * 2 + 6))%nat with (10 * (a + 4 * i + 3) + 0)%nat by lia.
    rewrite (next_at _ 0) by lia. rewrite (next_at _ 6) by lia. lia.
Qed.

Lemma alphanum_index a : 0 ≤ a < 62 → find_char (char_at alphanum a) alphanum = Some (Z.to_nat a).
Proof.
  intros Ha. assert (bool_decide (Forall (λ i, find_char (char_at alphanum (Z.of_nat i)) alphanum = Some i) (seq 0 62)) = true) as H
    by (vm_compute; reflexivity).
  apply bool_decide_eq_true in H. rewrite Forall_forall in H.
  rewrite <- (H (Z.to_nat a)) by (apply elem_of_seq; lia). by rewrite Z2Nat.id by lia.
Qed.

Lemma chars_inj n : ∀ q q' j, chars q n = chars q' n → (j < n)%nat → mark (Z.of_nat (q + j)) = mark (Z.of_nat (q' + j)).
Proof.
  induction n as [|n IH]; intros q q' j Heq Hj; [lia|]. cbn [chars] in Heq. injection Heq as Hc Hs. destruct j as [|j].
  - rewrite !Nat.add_0_r, <- !stream_mark. pose proof (f_equal (λ c, find_char c alphanum) Hc) as Hf. cbn beta in Hf.
    rewrite !alphanum_index in Hf by lia. injection Hf as Hf. lia.
  - rewrite !Nat.add_succ_r. by apply (IH (S q) (S q')); [|lia].
Qed.

(** The digits of [a] are in the name that is drawn at [10 * a + 4], and in
    that at [10 * a - 2]. *)
Lemma mark_after a b x j :
  (b + 1 + x = 5 ∨ b + 1 + x = 15)%nat → 0 ≤ j < 4 →
  mark (Z.of_nat (S (10 * a + b) + (x + Z.to_nat j))) = digit (Z.of_nat a + Z.of_nat (b + 1 + x) / 10) j.
Proof.
  intros Hb Hj. unfold mark. cbv zeta.
  replace ((Z.of_nat (S (10 * a + b) + (x + Z.to_nat j)) - 5) mod 10) with j by lia.
  rewrite (proj2 (Z.ltb_lt _ _)) by lia. f_equal. lia.
Qed.

Lemma fake_at_inj a a' b : b = 4%nat ∨ b = 8%nat → Z.abs (Z.of_nat a - Z.of_nat a') < 31 ^ 4 →
  fake_at (10 * a + b) = fake_at (10 * a' + b) → a = a'.
Proof.
  intros Hb Hclose Heq. unfold fake_at in Heq. rewrite !last_digit_of in Heq by lia. apply str_app_inj_l in Heq.
  set (x := if decide (b = 4)%nat then 0%nat else 6%nat). assert (b + 1 + x = 5 ∨ b + 1 + x = 15)%nat as Hx
    by (unfold x; case_decide; lia).
  assert (Z.of_nat a + Z.of_nat (b + 1 + x) / 10 = Z.of_nat a' + Z.of_nat (b + 1 + x) / 10) as Hm; [|lia].
  apply digits_inj; [|lia]. intros j Hj.
  pose proof (chars_inj _ _ _ (x + Z.to_nat j) Heq ltac:(unfold x; case_decide; lia)) as Hmark.
  by rewrite !mark_after in Hmark.
Qed.

(** [K] draws give more names than there can be. *)
Lemma fakes_are_fair (conf : config) K :
  D conf ≤ 100000 → 400004 < Z.of_nat K → fair_fake (St := redis * list request) conf K.
Proof.
  intros HD HK p temp _ Hsize. destruct (starts_settle (calls p)) as (k0 & Hk0 & Hmod).
  set (q := Nat.iter k0 next (calls p)) in *. destruct (starts_at q Hmod) as (step & e & [Hstep He] & Hiter).
  set (N := Z.to_nat (D conf)). set (names := (λ i, fake_at (q + 10 * e * i)) <$> seq 0 N).
  destruct (decide (Forall (λ s, s ∈ temp) names)) as [Hall|Hnew].
  - exfalso. assert (NoDup names) as Hnd.
    { apply NoDup_fmap_2_strong; [|apply NoDup_seq]. intros i j Hi%elem_of_seq Hj%elem_of_seq Heq.
      destruct (last_digit q) as (a & b & Hq & _ & Hb). rewrite Hb in Hmod.
      replace (q + 10 * e * i)%nat with (10 * (a + e * i) + b)%nat in Heq by lia.
      replace (q + 10 * e * j)%nat with (10 * (a + e * j) + b)%nat in Heq by lia.
      apply fake_at_inj in Heq; [nia|done|]. change (31 ^ 4) with 923521. nia. }
    assert (size (list_to_set names : gset string) = N) as Hs by (rewrite size_list_to_set by done; unfold names; by rewrite length_fmap, length_seq).
    assert ((list_to_set names : gset string) ⊆ temp) as Hsub.
    { intros s Hs'%elem_of_list_to_set. rewrite Forall_forall in Hall. by apply Hall. }
    apply subseteq_size in Hsub. lia.
  - apply not_Forall_Exists in Hnew; [|apply _]. apply Exists_exists in Hnew as (s & Hs & Hn).
    apply list_elem_of_fmap in Hs as (i & -> & Hi%elem_of_seq). destruct (redraw_fake (step * i + k0) p) as [p' Hp].
    exists (step * i + k0)%nat, (fake_at (q + 10 * e * i)), p'. split; [nia|]. split; [|done].
    rewrite Hp, Nat.iter_add. fold q. by rewrite Hiter.
Qed.

(** * The program starts *)
Lemma engine_collision_free : collision_free Example.any_key.
Proof. intros k1 f1 k2 f2 _ _ Heq. by apply str_app_inj_l in Heq. Qed.

Lemma p0_is_constructed : constructed Example.p0.
Proof.
  split; [reflexivity|reflexivity|reflexivity|vm_compute; split; [discriminate|reflexivity]| |].
  - split; [|reflexivity]. by exists ∅.
  - vm_compute. split; [reflexivity|]. eexists. split; reflexivity.
Qed.

(** Turns enough *)
Definition turns : nat := Z.to_nat (400005 * 100000).

Lemma server_deploys_witness :
  let kvs := Server.buckets 1024 100 (take 1000 ServerExample.ids) in
  ∃ srv p, Main.main ServerExample.files true (∅ : gmap Z nat) 5 turns ServerExample.readme_args Example.p0 = (Done srv, p)
    ∧ Main.port_ srv = 9090 ∧ Z.of_nat (length kvs) = 1200
    ∧ System.sys_start (Server.conf (Server.configure ServerExample.readme_settings)) Example.any_key kvs Example.p0 p
    ∧ Deployment.deployed (P := pipe) 1 kvs p (Main.serving srv kvs p).
Proof.
  destruct ServerExample.ids_made as [g' Hids].
  destruct (Main.server_deploys (P := pipe) ServerExample.files true (∅ : gmap Z nat) 5 Example.any_key engine_collision_free (λ _ _, I)
    (λ _ _, I) (λ id, lookup_empty id) eq_refl 12 12 0 g' ServerExample.ids ServerExample.readme_args
    ServerExample.readme_settings turns Example.p0) as [[_ Hout]|(srv & p & Hrun & Hport & Hstart & Hdep & Hlen)];
    [lia|vm_compute; lia|exact Hids|reflexivity|exact ServerExample.readme_accepted|exact p0_is_constructed
    |split; [reflexivity|split; reflexivity]| |].
  - exfalso. set (K := Z.to_nat 400005).
    assert (length (Server.buckets 1024 100 (take 1000 ServerExample.ids)) = 1200%nat) as Hl by (vm_compute; reflexivity).
    specialize (Hout K). rewrite Hl in Hout. specialize (Hout (stream_is_fair K ltac:(lia))).
    specialize (Hout (fakes_are_fair (Server.conf (Server.configure ServerExample.readme_settings)) K ltac:(vm_compute; discriminate) ltac:(lia))).
    change (D _) with 100000 in Hout. unfold turns, K in Hout. lia.
  - exists srv, p. split; [exact Hrun|]. split; [exact Hport|]. split; [exact Hlen|]. split; [exact Hstart|exact Hdep].
Defined.
End ServerMainExample.
